(* ===== verification/_CoqProject ===== *)
-Q . S2P
Prelude.v
GoInt.v
GoFloat.v
GoStrings.v
GoNet.v
Grpc.v
CircuitBreaker.v
RateLimit.v
Redis.v
Allocator.v
Auth.v
IdentityStore.v
Identity.v
ConfigService.v
Registry.v
Presence.v
Discovery.v
Listed.v
Backend.v
Bridge.v
WireGuard.v
WireGuardKeys.v
Configs.v
Client.v
Gateway.v
CliState.v
Agent.v
AgentLab.v
AgentSpec.v
AgentLoops.v
Deployment.v
DeploymentLab.v
LoopsLab.v
Cli.v
CliQueries.v
CliSpec.v
Interceptors.v
Servers.v
Restarts.v
P2PHost.v
PkgConfig.v
CliFollow.v
CliOutput.v
Tunnel.v
Routing.v
RoutingLab.v
Metrics.v
Logger.v
Cleanup.v
Mesh.v
