(* ===== verification/Prelude.v ===== *)
(** * Gordion VPN: a verification development

    Gordion VPN is a self-hosted mesh VPN in Go: three gRPC services (identity, config, discovery) on PostgreSQL and
    Redis, an agent on every machine that drives WireGuard through libp2p relays, and a command line tool. This library
    models the Go code of all of them and proves what makes each part correct, or, where the code does not do what it
    means to, the run that shows it. Names follow the source.

    ** How code is modelled

    - State and errors. A call that changes state is [M S A], a function from a state to a state and a result; a Go
      error is a value of [error], by the call that built it, and does not roll the state back. A panic is the error
      [Panic]: [attempt] (written [try!]) lets it through where the code only tests [err != nil]. [bind]
      ([let!]) returns at the first error, [handle] ([let?]) gives the result to the caller, as [x, err := f()] does.
      Where a computation cannot panic [let?] stands for a test of the error as well.
    - Shared state. Code under a mutex is one definition; what is not atomic in Go is split, and interleavings are
      step relations (CircuitBreaker.[Concurrent], Bridge, Tunnel) or explicit sequences of steps (Registry's clean-up race,
      CliSpec's state file race). Relays, which goroutines share, live in a store with references (Bridge).
    - Code that is not in the repository is a type class with its documented behaviour as laws, and each class has an
      instance that witnesses run: Redis (Redis.v), gRPC status codes (Grpc.v), JWT (Identity.v), JSON (Registry.v,
      CliState.v), IPv6 text (GoNet.v), libp2p (Agent.v, P2PHost.v), timers and keys (Agent.v), the operating system
      (WireGuard.v, CliState.v, Servers.v), the generated clients (Client.v), Prometheus (Metrics.v), zerolog (Logger.v). Laws
      about failures say that a command may be lost before or after it took effect. A class whose name ends in Up says that
      the other side answers.
    - Integers are [Z] with the wrap-around of their width written out where a computation can leave it; times are
      nanoseconds. Strings are byte strings. Maps are [gmap]; the order in which Go iterates over a map is an argument.
    - Recursion is structural. What loops in Go takes fuel, with a theorem that it is enough: the allocator's search (one
      round more than there are addresses in use: Allocator.[find_from_terminates]), reading packets (a packet has two
      bytes at least), and the wait of [down] (34 rounds of 300 ms in 10 s: CliSpec.[wait_exit_ends]). The agent's
      loops, the clean-up of the discovery service and [logs --follow] do not end by themselves: their fuel is the number of
      rounds that are looked at, and theorems hold for every number of them.
    - Runs. [runs R m] (below) says that every run of [m], whatever fails in it, relates the states by [R]; its rules and
      hints carry an invariant through a whole program. Backend, Deployment and P2PHost prove theirs with it.

    ** Files, in the order they build on each other

    Prelude (errors, the monad, runs, tactics), GoInt, GoFloat, GoStrings, GoNet (what the code uses of Go's integers,
    float64, strings and net), Grpc (contexts, status codes; pkg/auth's context key).

    - CircuitBreaker: pkg/circuitbreaker. A breaker runs calls until its number of failures, refuses them from then on, probes
      after its timeout, and never has more probes in flight than it should; two runs show where it does otherwise.
    - RateLimit: pkg/ratelimit. How many requests a client is admitted; the clean-up changes no answer.
    - Redis: the commands of go-redis the services use, with their laws and two servers.
    - Allocator: services/config/internal/allocator. [AllocateIP] refines a table of leases. Leases are exclusive in every run,
      but for spoilt addresses: those that were released by a node while another one held them, or by a release that failed,
      the two ways in which the code can give one address to two nodes.
    - Auth: pkg/auth. IdentityStore, Identity: services/identity. Tokens are good until they expire; a token of
      another signing method, with another signature, expired or not recorded is rejected; a key is one node.
    - ConfigService: services/config/internal/grpc. Clients that poll are current; who may release what.
    - Registry, Presence, Discovery, Listed: services/discovery. Registry and Discovery are the operations and handlers with
      what each does; Presence follows one peer's record over time, while others call and sweeps run, and Listed does so
      through the handlers, from RegisterPeer to the answer of ListPeers.
    - Backend: the three services side by side, config and discovery on one Redis. What holds in every state they reach
      together, whatever is called and whatever fails, with the spoilt addresses a parameter; and that neither of the two
      touches what the other keeps.
    - Bridge, WireGuard, WireGuardKeys: services/agent/internal/p2p and wireguard. Packets survive the stream; ports are
      distinct; generated keys are proper keys, and read back.
    - Configs: the four internal/config packages. Defaults make a configuration usable.
    - Client, Gateway: services/agent/internal/client and gateway. Disabling an exit node undoes what enabling did.
    - CliState: the state file of cli/internal/state and the agent's clistate.go.
    - Agent, AgentLab, AgentSpec: services/agent/internal/agent, a machine to run it on, and what it guarantees:
      registration in an outage, peer synchronisation (soundness whatever fails, convergence when nothing does), the exit
      node.
    - AgentLoops, LoopsLab: the loops of heartbeats, peer synchronisation and token refresh over tickers and timers, and
      the agent's main. Heartbeats are sent at their ticks; the token never lapses; what one lost heartbeat
      does.
    - Deployment, DeploymentLab: an agent against the services of Backend, while other nodes go on and nobody acts in its node's
      name. For as long as it runs its address is leased to it, and to nobody else unless it was spoilt; its peers have the
      keys of their nodes; and its stop gives the address back.
    - Cli, CliQueries, CliSpec: cli/cmd and cli/internal. [down] ends, and kills an agent that did not stop in time; the state
      file; the log.
    - Interceptors: pkg/tracing, pkg/middleware, pkg/healthcheck, the metrics interceptors, reloads and clean-up ticks.
    - Servers: the main functions of the services, pkg/tlsutil, pkg/auth's NewClient. What a service that serves was
      started with; TLS on the identity service locks the others out; a service without its client lets everyone in.
    - Restarts: the services of Backend when their processes end and are started again by their mains.
    - P2PHost: services/agent/internal/p2p/host.go, and Bridge on it, as the implementation of the interface the agent is
      written against. Peers keep endpoints of their own; a peer that answers no ping is added all the same.
    - PkgConfig: pkg/config, which no service uses.
    - Tunnel: a packet's way through the two bridges that share a stream, step by step. It is a queue: a packet
      is lost where there is no stream yet, where the stream breaks, or where the last send fails, and nowhere else; both
      sides come to share one stream.
    - Routing, RoutingLab: the leases of the config service against the listings of the discovery service. The
      discipline under which every listed address is leased to the node it is listed for, and the two ways in which the code
      leaves it.
    - Metrics: pkg/metrics, its collectors and what is recorded in them. Logger: pkg/logger.
    - Cleanup: the clean-up of the discovery service over time, and how long a silent peer stays in the index.
    - Mesh: what a round of peer synchronisation leaves when the identity service is out, or when there are
      more peers than a listing carries.
    - CliFollow, CliOutput: [logs --follow] with the signals that root.go takes; help, version, the table of doctor.

    ** What is not modelled

    The log lines of the components other than the interceptors (pkg/logger itself is in Logger.v), the text of terminal
    styles, flag parsing, the certificates themselves, the server's loop over connections (grpc.Server.Serve) and the HTTP endpoint of the
    metrics; contexts' deadlines other than as errors, or closed channels, of the calls they end. Text that is appended to
    an error's message (a command's output) is left out of the value. *)

From Stdlib Require Export ZArith Lia.
From stdpp Require Export base tactics numbers option list list_numbers
  strings gmap fin_maps sets.

#[global] Open Scope Z_scope.

Declare Scope go_scope.
Delimit Scope go_scope with go.

(** ** Errors *)

(** google.golang.org/grpc/codes: the status codes the services use. *)
Inductive codes : Type :=
| OK | Canceled | Unknown | InvalidArgument | DeadlineExceeded | NotFound
| AlreadyExists | PermissionDenied | ResourceExhausted | FailedPrecondition
| Aborted | OutOfRange | Unimplemented | Internal | Unavailable | DataLoss
| Unauthenticated.

#[export] Instance codes_eq_dec : EqDecision codes.
Proof. solve_decision. Defined.

(** A Go [error] value, by the call that built it.  The text is the constant
    text of the format string (with its string operands); an operand that is
    itself an error ([%w] or [%v]) is kept as a value rather than rendered. *)
Inductive error : Type :=
| StatusErr (c : codes) (msg : string)
    (* status.Error(c, msg), status.Errorf(c, msg) *)
| StatusErrf (c : codes) (msg : string) (arg : error)
    (* status.Errorf(c, msg ++ ": %v", arg) *)
| Errorf (msg : string)
    (* fmt.Errorf(msg) *)
| Wrapf (msg : string) (wrapped : error)
    (* fmt.Errorf(msg ++ ": %w", wrapped) *)
| LibErr (msg : string)
    (* an error value made inside a library the program calls *)
| Panic (msg : string).
    (* not an error value: the goroutine panics, and no caller recovers *)

#[export] Instance error_eq_dec : EqDecision error.
Proof. solve_decision. Defined.

(** ** Results, and computations with a state that errors do not roll back *)

Inductive res (A : Type) : Type :=
| Ok (a : A)
| Err (e : error).
Arguments Ok {A} a.
Arguments Err {A} e.

Definition is_ok {A} (r : res A) : bool :=
  match r with Ok _ => true | Err _ => false end.

Definition M (S A : Type) : Type := S → S * res A.

Definition ret {S A} (a : A) : M S A := λ s, (s, Ok a).
Definition throw {S A} (e : error) : M S A := λ s, (s, Err e).

(** [v, err := m; if err != nil { return err }; k v] *)
Definition bind {S A B} (m : M S A) (k : A → M S B) : M S B := λ s,
  match m s with
  | (s', Ok a) => k a s'
  | (s', Err e) => (s', Err e)
  end.

(** [v, err := m; k (v, err)]: the caller inspects the error itself. *)
Definition handle {S A B} (m : M S A) (k : res A → M S B) : M S B := λ s,
  match m s with (s', r) => k r s' end.

(** [if err != nil { return f err }] *)
Definition wrap_err {S A} (f : error → error) (m : M S A) : M S A := λ s,
  match m s with
  | (s', Ok a) => (s', Ok a)
  | (s', Err e) => (s', Err (f e))
  end.

(** [if err := m; err != nil {...}], where a panic is no error: it goes through. *)
Definition attempt {S A B} (m : M S A) (k : res A → M S B) : M S B := λ s,
  match m s with
  | (s', Err (Panic msg)) => (s', Err (Panic msg))
  | (s', r) => k r s'
  end.

(** Run a computation on a part of the state. *)
Definition zoom {S T A} (get : S → T) (put : T → S → S) (m : M T A) : M S A := λ s,
  match m (get s) with (t, r) => (put t s, r) end.

Notation "'let!' x ':=' m 'in' k" := (bind m (λ x, k))
  (at level 10, x name, m at level 100, k at level 200) : go_scope.
Notation "'let!' ' x ':=' m 'in' k" := (bind m (λ x, k))
  (at level 10, x strict pattern, m at level 100, k at level 200) : go_scope.
Notation "'let?' x ':=' m 'in' k" := (handle m (λ x, k))
  (at level 10, x name, m at level 100, k at level 200) : go_scope.
Notation "'try!' x ':=' m 'in' k" := (attempt m (λ x, k))
  (at level 10, x name, m at level 100, k at level 200) : go_scope.
#[global] Open Scope go_scope.

Section monad_laws.
Context {S A B C : Type}.

Lemma bind_ok (m : M S A) (k : A → M S B) s s' a :
  m s = (s', Ok a) → bind m k s = k a s'.
Proof. unfold bind. by intros ->. Qed.

Lemma bind_err (m : M S A) (k : A → M S B) s s' e :
  m s = (s', Err e) → bind m k s = (s', Err e).
Proof. unfold bind. by intros ->. Qed.

Lemma bind_inv_ok (m : M S A) (k : A → M S B) s s' b :
  bind m k s = (s', Ok b) →
  ∃ s1 a, m s = (s1, Ok a) ∧ k a s1 = (s', Ok b).
Proof. unfold bind. destruct (m s) as [s1 [a|e]] eqn:E; naive_solver. Qed.

(** Every run of [bind] either stops at the first error or goes on. *)
Lemma bind_inv (m : M S A) (k : A → M S B) s s' r :
  bind m k s = (s', r) →
  (∃ e, m s = (s', Err e) ∧ r = Err e) ∨
  (∃ s1 a, m s = (s1, Ok a) ∧ k a s1 = (s', r)).
Proof. unfold bind. destruct (m s) as [s1 [a|e]] eqn:E; naive_solver. Qed.

Lemma bind_assoc (m : M S A) (f : A → M S B) (g : B → M S C) s :
  bind (bind m f) g s = bind m (λ a, bind (f a) g) s.
Proof. unfold bind. by destruct (m s) as [s1 [a|e]]. Qed.

Lemma wrap_err_ok (f : error → error) (m : M S A) s s' a :
  m s = (s', Ok a) → wrap_err f m s = (s', Ok a).
Proof. unfold wrap_err. by intros ->. Qed.

Lemma handle_inv (m : M S A) (k : res A → M S B) s s' r :
  handle m k s = (s', r) → ∃ s1 x, m s = (s1, x) ∧ k x s1 = (s', r).
Proof. unfold handle. destruct (m s) as [s1 x]. eauto. Qed.

Lemma handle_eq (m : M S A) (k : res A → M S B) s s1 x :
  m s = (s1, x) → handle m k s = k x s1.
Proof. unfold handle. by intros ->. Qed.

Lemma wrap_err_inv (f : error → error) (m : M S A) s s' r :
  wrap_err f m s = (s', r) →
  (∃ a, m s = (s', Ok a) ∧ r = Ok a) ∨ (∃ e, m s = (s', Err e) ∧ r = Err (f e)).
Proof. unfold wrap_err. destruct (m s) as [s1 [a|e]] eqn:E; naive_solver. Qed.
End monad_laws.

Lemma wrap_ok_inv {S A} (f : error → error) (m : M S A) s s' a : wrap_err f m s = (s', Ok a) → m s = (s', Ok a).
Proof. by intros [(? & Hm & [= <-])|(? & _ & [=])]%wrap_err_inv. Qed.

(** ** Reasoning about all runs of a computation

    [runs R m]: every run of [m] relates the state before to the state after by [R], a preorder. The rules
    follow the shape of the program; the tactic [runs] applies them and leaves the calls that the hints in the
    database of the same name do not know. *)

Definition runs {S A} (R : relation S) (m : M S A) : Prop := ∀ s s' r, m s = (s', r) → R s s'.

Lemma runs_apply {S A} (R : relation S) (m : M S A) s s' r : runs R m → m s = (s', r) → R s s'.
Proof. intros Hm. apply Hm. Qed.

(** From a state in [P], a run of [m] ends with a result and a state in [Q]. *)
Definition triple {S A} (P : S → Prop) (m : M S A) (Q : res A → S → Prop) : Prop :=
  ∀ s s' r, P s → m s = (s', r) → Q r s'.

(** Steps that keep an invariant *)
Definition stable {S} (I : S → Prop) : relation S := λ s s', I s → I s'.

#[export] Instance stable_preorder {S} (I : S → Prop) : PreOrder (stable I).
Proof. split; unfold stable; [by intros s|intros s1 s2 s3; auto]. Qed.

Create HintDb runs.

Section runs.
Context {S : Type} (R : relation S) {HR : PreOrder R}.

Lemma runs_ret {A} (a : A) : runs R (ret a).
Proof. by intros s s' r [= <- <-]. Qed.

Lemma runs_throw {A} (e : error) : runs R (throw (A := A) e).
Proof. by intros s s' r [= <- <-]. Qed.

Lemma runs_read {A} (f : S → A) : runs R (λ s, (s, Ok (f s))).
Proof. by intros s s' r [= <- <-]. Qed.

Lemma runs_bind {A B} (m : M S A) (k : A → M S B) :
  runs R m → (∀ a, runs R (k a)) → runs R (bind m k).
Proof.
  intros Hm Hk s s' r [(e & E%Hm & _)|(s1 & a & E%Hm & Ek%Hk)]%bind_inv; [done|by trans s1].
Qed.

Lemma runs_handle {A B} (m : M S A) (k : res A → M S B) :
  runs R m → (∀ x, runs R (k x)) → runs R (handle m k).
Proof. intros Hm Hk s s' r (s1 & x & E%Hm & Ek%Hk)%handle_inv. by trans s1. Qed.

Lemma runs_attempt {A B} (m : M S A) (k : res A → M S B) :
  runs R m → (∀ x, runs R (k x)) → runs R (attempt m k).
Proof.
  intros Hm Hk s s' r. unfold attempt. destruct (m s) as [s1 x] eqn:E. apply Hm in E.
  destruct x as [a|[]]; try (intros Ek%Hk; by trans s1). by intros [= <- <-].
Qed.

Lemma runs_wrap_err {A} f (m : M S A) : runs R m → runs R (wrap_err f m).
Proof. intros Hm s s' r [(a & E%Hm & _)|(e & E%Hm & _)]%wrap_err_inv; done. Qed.

Lemma runs_zoom {T A} (get : S → T) (put : T → S → S) (R' : relation T) (m : M T A) :
  (∀ s t, R' (get s) t → R s (put t s)) → runs R' m → runs R (zoom get put m).
Proof.
  intros Hput Hm s s' r. unfold zoom. destruct (m (get s)) as [t x] eqn:E. intros [= <- <-].
  by apply Hput, (Hm _ _ x).
Qed.
End runs.

(** [R] between the parts [f] of two states *)
Definition over {S B} (f : S → B) (R : relation B) : relation S := λ s s', R (f s) (f s').

#[export] Instance over_preorder {S B} (f : S → B) (R : relation B) `{!PreOrder R} : PreOrder (over f R).
Proof. split; unfold over; [by intros s|intros s1 s2 s3 ? ?; by trans (f s2)]. Qed.

Lemma runs_weaken {S A} (R R' : relation S) (m : M S A) : (∀ s s', R s s' → R' s s') → runs R m → runs R' m.
Proof. intros H Hm s s' r E%Hm. by apply H. Qed.

Section triple.
Context {S : Type}.

Lemma triple_bind {A B} (P : S → Prop) (m : M S A) (k : A → M S B) (Mid : A → S → Prop) Q :
  triple P m (λ r s, match r with Ok a => Mid a s | Err e => Q (Err e) s end) →
  (∀ a, triple (Mid a) (k a) Q) → triple P (bind m k) Q.
Proof.
  intros Hm Hk s s' r HP [(e & E & ->)|(s1 & a & E & Ek)]%bind_inv; apply Hm in E; try done.
  by eapply Hk.
Qed.

Lemma triple_runs {A} (P : S → Prop) (I : S → Prop) (m : M S A) :
  (∀ s, P s → I s) → runs (stable I) m → triple P m (λ _, I).
Proof. intros HP Hm s s' r Hs E. eapply Hm; eauto. Qed.

(** A computation that keeps [I] whatever it does, and one that starts from there *)
Lemma triple_seq {A B} (I : S → Prop) (m : M S A) (k : A → M S B) Q :
  runs (stable I) m → (∀ e s, I s → Q (Err e) s) → (∀ a, triple I (k a) Q) → triple I (bind m k) Q.
Proof.
  intros Hm He Hk. eapply triple_bind; [|exact Hk]. intros s s' [a|e] Hs E; [by eapply Hm|].
  eapply He, Hm; [exact E|done].
Qed.
End triple.

Ltac runs_step :=
  lazymatch goal with
  | |- runs _ (bind _ _) => refine (runs_bind _ _ _ _ _); [|intros ?]
  | |- runs _ (handle _ _) => refine (runs_handle _ _ _ _ _); [|intros ?]
  | |- runs _ (attempt _ _) => refine (runs_attempt _ _ _ _ _); [|intros ?]
  | |- runs _ (wrap_err _ _) => apply runs_wrap_err
  | |- runs _ (ret _) => refine (runs_ret _ _)
  | |- runs _ (throw _) => refine (runs_throw _ _)
  | |- runs _ (match ?x with _ => _ end) => destruct x
  | |- runs _ _ => solve [eauto with runs typeclass_instances]
  end.
Ltac runs := repeat (cbv beta zeta; runs_step).

(** A run by its result. *)
Lemma run_snd {S A} (x : S * A) (a : A) : x.2 = a → x = (x.1, a).
Proof. destruct x; simpl. by intros ->. Qed.

(** ** Automation *)

(** Splits the innermost [if] or [match] on a boolean or decision of the goal,
    and turns comparisons into hypotheses for [lia]. *)
Ltac case_bool :=
  match goal with
  | |- context [if (?x <=? ?y)%Z then _ else _] => destruct (Z.leb_spec x y)
  | |- context [if (?x <? ?y)%Z then _ else _] => destruct (Z.ltb_spec x y)
  | |- context [if (?x =? ?y)%Z then _ else _] => destruct (Z.eqb_spec x y)
  | |- context [if decide ?P then _ else _] => destruct (decide P)
  | H : context [if (?x <=? ?y)%Z then _ else _] |- _ => destruct (Z.leb_spec x y)
  | H : context [if (?x <? ?y)%Z then _ else _] |- _ => destruct (Z.ltb_spec x y)
  | H : context [if (?x =? ?y)%Z then _ else _] |- _ => destruct (Z.eqb_spec x y)
  | H : context [if decide ?P then _ else _] |- _ => destruct (decide P)
  end.

(** Splits a pair or boolean equation between results. *)
Ltac inv_pair := repeat match goal with
  | H : (_, _) = (_, _) |- _ => injection H as H; subst
  end; simplify_eq/=.

(** ** Counting the elements of a list with a property *)

Definition countP {A} (P : A → Prop) `{∀ x, Decision (P x)} (l : list A) : nat :=
  length (filter P l).
#[global] Arguments countP : simpl never.

Section count.
Context {A : Type} (P : A → Prop) `{∀ x, Decision (P x)}.

Lemma countP_cons x l :
  countP P (x :: l) = ((if decide (P x) then 1 else 0) + countP P l)%nat.
Proof. unfold countP. rewrite filter_cons. by case_decide. Qed.

Lemma countP_insert_le l i x :
  (countP P (<[i := x]> l) ≤ countP P l + (if decide (P x) then 1 else 0))%nat.
Proof.
  revert i. induction l as [|y l IH]; intros [|i]; simpl.
  1, 2: unfold countP; simpl; lia.
  - rewrite !countP_cons. repeat case_decide; lia.
  - rewrite !countP_cons. specialize (IH i). repeat case_decide; lia.
Qed.

Lemma countP_none l : Forall (λ x, ¬ P x) l → countP P l = 0%nat.
Proof.
  induction 1 as [|x l Hx _ IH]; [done|].
  rewrite countP_cons, IH. by rewrite decide_False.
Qed.
End count.
