(* ===== verification/GoInt.v ===== *)
(** Go's sized integers, durations and times, as the program uses them.

    An [int], [int64] or [time.Duration] is a [Z] in the signed 64-bit range, an
    [int32] a [Z] in the signed 32-bit range; [wrap64] and [wrap32] are the
    conversions to those types.  A [time.Time] is the number of nanoseconds since the Unix
    epoch. *)

From S2P Require Import Prelude.

Definition wrap (w : Z) (x : Z) : Z :=
  (x + 2 ^ (w - 1)) mod 2 ^ w - 2 ^ (w - 1).
Definition wrap64 (x : Z) : Z := wrap 64 x.
Definition wrap32 (x : Z) : Z := wrap 32 x.

Definition in_int (w x : Z) : Prop := - 2 ^ (w - 1) ≤ x < 2 ^ (w - 1).

Definition max_int64 : Z := 2 ^ 63 - 1.
Definition min_int64 : Z := - 2 ^ 63.

(** [time.Duration] constants *)
Definition Millisecond : Z := 1000000.
Definition Second : Z := 1000000000.
Definition Minute : Z := 60 * Second.
Definition Hour : Z := 60 * Minute.

(** [t.Sub(u)], [time.Since(u)] at [t]: a saturating difference. *)
Definition time_sub (t u : Z) : Z :=
  Z.max min_int64 (Z.min max_int64 (t - u)).

(** [t.Unix()] and [time.Unix(s, 0)] *)
Definition unix_of_time (t : Z) : Z := t / Second.
Definition time_of_unix (s : Z) : Z := s * Second.

Lemma wrap_id w x : 0 < w → in_int w x → wrap w x = x.
Proof.
  intros Hw Hx. unfold wrap, in_int in *.
  assert (2 ^ w = 2 * 2 ^ (w - 1)) as E.
  { rewrite <- Z.pow_succ_r by lia. f_equal. lia. }
  rewrite Z.mod_small; lia.
Qed.

Lemma wrap_range w x : 0 < w → in_int w (wrap w x).
Proof.
  intros Hw. unfold wrap, in_int.
  assert (2 ^ w = 2 * 2 ^ (w - 1)) as E.
  { rewrite <- Z.pow_succ_r by lia. f_equal. lia. }
  assert (0 < 2 ^ (w - 1)) by (apply Z.pow_pos_nonneg; lia).
  pose proof (Z.mod_pos_bound (x + 2 ^ (w - 1)) (2 ^ w)). lia.
Qed.

Lemma wrap_congr w x : 0 < w → ∃ k, wrap w x = x + k * 2 ^ w.
Proof.
  intros Hw. unfold wrap.
  assert (0 < 2 ^ w) by (apply Z.pow_pos_nonneg; lia).
  exists (- ((x + 2 ^ (w - 1)) / 2 ^ w)).
  rewrite Z.mod_eq by lia. lia.
Qed.

Lemma wrap64_id x : min_int64 ≤ x ≤ max_int64 → wrap64 x = x.
Proof.
  intros H. apply wrap_id; [lia|]. unfold in_int, min_int64, max_int64 in *. lia.
Qed.

Lemma wrap32_id x : - 2 ^ 31 ≤ x < 2 ^ 31 → wrap32 x = x.
Proof. intros H. apply wrap_id; [lia|]. unfold in_int. lia. Qed.

Lemma time_sub_small t u :
  min_int64 ≤ t - u ≤ max_int64 → time_sub t u = t - u.
Proof. unfold time_sub. lia. Qed.

Lemma time_sub_ge t u d :
  min_int64 < d ≤ max_int64 → d ≤ time_sub t u ↔ d ≤ t - u.
Proof. unfold time_sub. lia. Qed.

Lemma unix_of_time_of_unix s : unix_of_time (time_of_unix s) = s.
Proof. unfold unix_of_time, time_of_unix. by rewrite Z.div_mul. Qed.

#[export] Hint Rewrite wrap64_id wrap32_id using (unfold min_int64, max_int64; lia) : goint.
