(* ===== verification/GoFloat.v ===== *)
(** Go's float64 where the program computes with it: conversions between int64 and float64, and products.

    A finite float64 that is not negative is [m * 2 ^ e] with [m] of at most 53 bits, as a pair; neither overflow nor
    underflow is near for the durations of the program. Rounding is to nearest, ties to even. *)

From S2P Require Import Prelude GoInt.

Definition round_half_even (a b : Z) : Z :=
  let q := a / b in
  let r := a mod b in
  if 2 * r <? b then q else if b <? 2 * r then q + 1 else if Z.even q then q else q + 1.

(** [m * 2 ^ e] to 53 bits *)
Definition round53 (m e : Z) : Z * Z :=
  let k := Z.log2 m + 1 - 53 in
  if k <=? 0 then (m, e) else (round_half_even m (2 ^ k), e + k).

Definition float_of_int (x : Z) : Z * Z := round53 x 0.
Definition float_mul (x y : Z * Z) : Z * Z := round53 (x.1 * y.1) (x.2 + y.2).
Definition trunc (x : Z * Z) : Z := if 0 <=? x.2 then x.1 * 2 ^ x.2 else x.1 / 2 ^ (- x.2).

(** The literal 0.8 *)
Definition float_08 : Z * Z := (7205759403792794, -53).

(** [time.Duration(float64(d) * 0.8)] *)
Definition times_08 (d : Z) : Z :=
  if d <? 0 then - trunc (float_mul (float_of_int (- d)) float_08) else trunc (float_mul (float_of_int d) float_08).

(** ** How far it is from the product *)

Lemma round_half_even_near a b : 0 < b → 2 * Z.abs (round_half_even a b * b - a) ≤ b.
Proof.
  intros Hb. unfold round_half_even. cbv zeta. pose proof (Z.div_mod a b ltac:(lia)) as Hdiv.
  pose proof (Z.mod_pos_bound a b Hb) as Hr. set (q := a / b) in *. set (r := a mod b) in *.
  repeat case_bool; try destruct (Z.even q); nia.
Qed.

Lemma round53_small m e : m < 2 ^ 53 → round53 m e = (m, e).
Proof.
  intros Hm. unfold round53. cbv zeta. destruct (Z.leb_spec (Z.log2 m + 1 - 53) 0) as [Hk|Hk]; [done|]. exfalso.
  destruct (Z.le_gt_cases m 0) as [H0|H0]; [rewrite Z.log2_nonpos in Hk; lia|].
  pose proof (proj1 (Z.log2_lt_pow2 m 53 H0) Hm). lia.
Qed.

(** Rounding [m] of at most 106 bits changes [m * 2 ^ -53] by at most a half. *)
Lemma round53_trunc m :
  0 ≤ m < 2 ^ 106 → m - 2 ^ 52 - 2 ^ 53 < trunc (round53 m (-53)) * 2 ^ 53 ≤ m + 2 ^ 52.
Proof.
  intros Hm. unfold round53. cbv zeta. set (k := Z.log2 m + 1 - 53). destruct (Z.leb_spec k 0) as [Hk|Hk].
  - change (trunc (m, -53)) with (m / 2 ^ 53). pose proof (Z.div_mod m (2 ^ 53) ltac:(lia)).
    pose proof (Z.mod_pos_bound m (2 ^ 53) ltac:(lia)). lia.
  - assert (k ≤ 53) as Hk2.
    { destruct (Z.le_gt_cases m 0) as [H0|H0]; [pose proof (Z.log2_nonpos m H0); unfold k in *; lia|].
      pose proof (proj1 (Z.log2_lt_pow2 m 106 H0) (proj2 Hm)). unfold k. lia. }
    pose proof (round_half_even_near m (2 ^ k) ltac:(apply Z.pow_pos_nonneg; lia)) as Hnear.
    set (q := round_half_even m (2 ^ k)) in *.
    assert (2 * 2 ^ 52 = 2 ^ (53 - k) * 2 ^ k) as E53.
    { rewrite <- (Z.pow_add_r 2 (53 - k) k) by lia. by replace (53 - k + k) with 53 by lia. }
    assert (2 ^ k ≤ 2 * 2 ^ 52) by (change (2 * 2 ^ 52) with (2 ^ 53); apply Z.pow_le_mono_r; lia).
    assert (0 < 2 ^ k) by (apply Z.pow_pos_nonneg; lia).
    unfold trunc. cbn [fst snd]. destruct (Z.leb_spec 0 (-53 + k)) as [He|He].
    + assert (k = 53) as -> by lia. change (2 ^ (-53 + 53)) with 1. change (2 ^ 53) with (2 * 2 ^ 52) in *. lia.
    + replace (- (-53 + k)) with (53 - k) by lia. assert (0 < 2 ^ (53 - k)) by (apply Z.pow_pos_nonneg; lia).
      pose proof (Z.div_mod q (2 ^ (53 - k)) ltac:(lia)) as Hdiv.
      pose proof (Z.mod_pos_bound q (2 ^ (53 - k)) ltac:(lia)) as Hr. set (t := q / 2 ^ (53 - k)) in *.
      change (2 ^ 53) with (2 * 2 ^ 52). rewrite E53. nia.
Qed.

Lemma times_08_near d : 0 ≤ d < 2 ^ 53 → 4 * d - 7 ≤ 5 * times_08 d ≤ 4 * d + 4.
Proof.
  intros Hd. unfold times_08, float_of_int. case_bool; [lia|]. rewrite round53_small by lia.
  unfold float_mul. cbn [fst snd float_08]. change (0 + -53) with (-53).
  pose proof (round53_trunc (d * 7205759403792794) ltac:(lia)) as Hr. lia.
Qed.

Lemma times_08_neg d : d < 0 → - 2 ^ 53 < d → times_08 d ≤ 0.
Proof.
  intros Hd Hd'. pose proof (times_08_near (- d) ltac:(lia)) as Hn. unfold times_08 in *.
  repeat case_bool; lia.
Qed.
