(* ===== verification/GoStrings.v ===== *)
(** What the program uses of Go's strings and strconv packages.

    A Go [string] is a [String.string]: a sequence of bytes.  Decimal conversion is
    stdpp's [pretty]; parsing is defined here and proved its inverse. *)

From S2P Require Import Prelude GoInt.
From stdpp Require Import pretty.
From Stdlib Require Import Ascii String.
#[local] Open Scope string_scope.
#[local] Open Scope list_scope.
#[local] Open Scope Z_scope.
#[local] Arguments String.append !_ _ / : simpl nomatch.

(** ** Decimal numbers *)

Definition digit_value (c : ascii) : option Z :=
  let n := Z.of_nat (nat_of_ascii c) in
  if (48 <=? n) && (n <=? 57) then Some (n - 48) else None.

Fixpoint parse_digits (acc : Z) (s : string) : option Z :=
  match s with
  | EmptyString => Some acc
  | String c s' =>
      match digit_value c with
      | Some d => parse_digits (acc * 10 + d) s'
      | None => None
      end
  end.

(** [strconv.Itoa], [fmt.Sprintf("%d")] *)
Definition Itoa (n : Z) : string := pretty n.

(** [time.Duration.String]. [fmtFrac]: the digits of [v] after the point, without trailing zeros, and what is before it *)
Fixpoint fmtFrac (prec : nat) (v : Z) (print : bool) (acc : string) : string * Z :=
  match prec with
  | O => (if print then "." +:+ acc else acc, v)
  | S prec =>
      let digit := v mod 10 in
      let print := print || negb (digit =? 0) in
      fmtFrac prec (v / 10) print (if print then Itoa digit +:+ acc else acc)
  end.

Definition Duration_String (d : Z) : string :=
  let u := Z.abs d in
  let text :=
    if u =? 0 then "0s"
    else if u <? 1000 then Itoa u +:+ "ns"
    else if u <? 1000000 then let '(f, v) := fmtFrac 3 u false "" in Itoa v +:+ f +:+ "µs"
    else if u <? 1000000000 then let '(f, v) := fmtFrac 6 u false "" in Itoa v +:+ f +:+ "ms"
    else
      let '(f, v) := fmtFrac 9 u false "" in
      let s := Itoa (v mod 60) +:+ f +:+ "s" in
      if v / 60 =? 0 then s
      else
        let s := Itoa (v / 60 mod 60) +:+ "m" +:+ s in
        if v / 3600 =? 0 then s else Itoa (v / 3600) +:+ "h" +:+ s in
  if d <? 0 then "-" +:+ text else text.

Example durations : map Duration_String [0; 1500; 1500000; 30000000000; 90500000000; 7201000000000; -5000000000] =
  ["0s"; "1.5µs"; "1.5ms"; "30s"; "1m30.5s"; "2h0m1s"; "-5s"].
Proof. vm_compute. reflexivity. Qed.

(** [strconv.Atoi]; [None] is its error. *)
Definition Atoi (s : string) : option Z :=
  let unsigned u := match u with EmptyString => None | _ => parse_digits 0 u end in
  let value := match s with
    | String "-" u => option_map Z.opp (unsigned u)
    | String "+" u => unsigned u
    | _ => unsigned s
    end%char in
  match value with
  | Some n => if (min_int64 <=? n) && (n <=? max_int64) then Some n else None
  | None => None
  end.

(** ** Splitting and joining *)

(** [strings.Split(s, c)] for a separator of one byte *)
Fixpoint Split (c : ascii) (s : string) : list string :=
  match s with
  | EmptyString => [EmptyString]
  | String a s' =>
      if decide (a = c) then EmptyString :: Split c s'
      else match Split c s' with
           | w :: ws => String a w :: ws
           | [] => [String a EmptyString]
           end
  end.

(** [strings.Join(l, sep)] *)
Fixpoint Join (sep : string) (l : list string) : string :=
  match l with
  | [] => EmptyString
  | [w] => w
  | w :: ws => w +:+ sep +:+ Join sep ws
  end.

Fixpoint HasPrefix (p s : string) : bool :=
  match p, s with
  | EmptyString, _ => true
  | String a p', String b s' => bool_decide (a = b) && HasPrefix p' s'
  | _, _ => false
  end.

(** [s[n:]] and [s[:n]], for [n] at most [len(s)] *)
Fixpoint drop_str (n : nat) (s : string) : string :=
  match n, s with
  | S n', String _ s' => drop_str n' s'
  | _, _ => s
  end.
Fixpoint take_str (n : nat) (s : string) : string :=
  match n, s with
  | S n', String a s' => String a (take_str n' s')
  | _, _ => EmptyString
  end.

Definition TrimPrefix (p s : string) : string :=
  if HasPrefix p s then drop_str (String.length p) s else s.

(** [strings.Contains(s, sub)] *)
Fixpoint Contains_str (s sub : string) : bool :=
  HasPrefix sub s ||
  match s with
  | EmptyString => false
  | String _ s' => Contains_str s' sub
  end.

Definition len (s : string) : Z := Z.of_nat (String.length s).

(** [s[:n]]: a slice past the end panics. *)
Definition slice_to (s : string) (n : nat) : option string :=
  if (String.length s <? n)%nat then None else Some (take_str n s).

(** White space among the ASCII characters *)
Definition is_space (c : ascii) : bool :=
  let n := nat_of_ascii c in
  ((n =? 32) || ((9 <=? n) && (n <=? 13)))%nat.

Fixpoint trim_left (s : string) : string :=
  match s with
  | String c s' => if is_space c then trim_left s' else s
  | EmptyString => s
  end.

Fixpoint trim_right (s : string) : string :=
  match s with
  | EmptyString => s
  | String c s' =>
      match trim_right s' with
      | EmptyString => if is_space c then EmptyString else String c EmptyString
      | t => String c t
      end
  end.

(** [strings.TrimSpace] on ASCII text *)
Definition TrimSpace (s : string) : string := trim_right (trim_left s).

(** [strings.Fields] on ASCII text *)
Fixpoint fields_go (cur : string) (s : string) : list string :=
  match s with
  | EmptyString => match cur with EmptyString => [] | _ => [cur] end
  | String c s' =>
      if is_space c then
        match cur with
        | EmptyString => fields_go EmptyString s'
        | _ => cur :: fields_go EmptyString s'
        end
      else fields_go (cur +:+ String c EmptyString) s'
  end.
Definition Fields (s : string) : list string := fields_go EmptyString s.

(** ** Facts *)

Fixpoint str_forall (P : ascii → bool) (s : string) : bool :=
  match s with
  | EmptyString => true
  | String c s' => P c && str_forall P s'
  end.

Definition is_digit (c : ascii) : bool :=
  match digit_value c with Some _ => true | None => false end.
Definition not_char (d c : ascii) : bool := negb (bool_decide (c = d)).

Lemma str_forall_impl (P Q : ascii → bool) s :
  (∀ c, P c = true → Q c = true) → str_forall P s = true → str_forall Q s = true.
Proof.
  intros HPQ. induction s as [|c s IH]; simpl; [done|].
  intros [Hc Hs]%andb_prop. by rewrite HPQ, IH.
Qed.

Lemma str_forall_app P s1 s2 :
  str_forall P (s1 +:+ s2) = str_forall P s1 && str_forall P s2.
Proof. induction s1 as [|c s1 IH]; simpl; [done|]. by rewrite IH, andb_assoc. Qed.

Lemma app_str_assoc (s1 s2 s3 : string) : s1 +:+ (s2 +:+ s3) = (s1 +:+ s2) +:+ s3.
Proof. induction s1 as [|c s1 IH]; simpl; [done|]. by rewrite IH. Qed.

Lemma app_str_nil (s : string) : s +:+ EmptyString = s.
Proof. induction s as [|c s IH]; simpl; [done|]. by rewrite IH. Qed.

Lemma length_app_str (s1 s2 : string) :
  String.length (s1 +:+ s2) = (String.length s1 + String.length s2)%nat.
Proof. induction s1 as [|c s1 IH]; simpl; [done|]. by rewrite IH. Qed.

(** *** Digits *)

Lemma digit_char x : (x < 10)%N → digit_value (pretty_N_char x) = Some (Z.of_N x).
Proof.
  intros Hx.
  assert (x = 0 ∨ x = 1 ∨ x = 2 ∨ x = 3 ∨ x = 4 ∨ x = 5 ∨ x = 6 ∨ x = 7 ∨ x = 8 ∨ x = 9)%N
    as Hc by lia.
  by repeat (destruct Hc as [->|Hc]; [done|]); subst.
Qed.

Lemma digit_value_range c d : digit_value c = Some d → 0 ≤ d ≤ 9.
Proof.
  unfold digit_value. destruct (_ && _) eqn:E; [|done]. intros [= <-].
  apply andb_prop in E as [?%Z.leb_le ?%Z.leb_le]. lia.
Qed.

Lemma parse_pretty_go x s :
  parse_digits 0 (pretty_N_go x s) = parse_digits (Z.of_N x) s.
Proof.
  revert s. induction (N.lt_wf_0 x) as [x _ IH]; intros s.
  destruct (decide (x = 0)%N) as [->|Hx]; [by rewrite pretty_N_go_0|].
  rewrite pretty_N_go_step by lia. rewrite IH by (apply N.div_lt; lia). simpl.
  rewrite digit_char by (apply N.mod_lt; lia). f_equal.
  rewrite N2Z.inj_div, N2Z.inj_mod.
  rewrite (Z.div_mod (Z.of_N x) 10) at 3 by lia. lia.
Qed.

Lemma parse_pretty_N (n : N) : parse_digits 0 (pretty n) = Some (Z.of_N n).
Proof.
  unfold pretty, pretty_N. case_decide as Hn; [by subst|]. apply parse_pretty_go.
Qed.

Lemma Itoa_nonneg n : 0 ≤ n → Itoa n = pretty (Z.to_N n).
Proof. unfold Itoa, pretty at 1, pretty_Z. by destruct n; [|done|lia]. Qed.

Lemma Itoa_inj n m : Itoa n = Itoa m → n = m.
Proof. apply (inj (A := Z) pretty). Qed.

Lemma parse_Itoa n : 0 ≤ n → parse_digits 0 (Itoa n) = Some n.
Proof. intros Hn. rewrite Itoa_nonneg by done. rewrite parse_pretty_N. f_equal. lia. Qed.

Lemma parse_digits_all acc s n :
  parse_digits acc s = Some n → str_forall is_digit s = true.
Proof.
  revert acc. induction s as [|c s IH]; intros acc; simpl; [done|].
  unfold is_digit at 1. destruct (digit_value c); [|done]. intros H. by eapply IH.
Qed.

Lemma parse_digits_nonneg acc s n : parse_digits acc s = Some n → 0 ≤ acc → acc ≤ n.
Proof.
  revert acc. induction s as [|c s IH]; intros acc; simpl; [intros [= ->]; lia|].
  destruct (digit_value c) as [d|] eqn:Ed; [|done]. intros H Hacc.
  apply digit_value_range in Ed. apply IH in H; lia.
Qed.

Lemma Itoa_digits n : 0 ≤ n → str_forall is_digit (Itoa n) = true.
Proof. intros Hn. eapply parse_digits_all, parse_Itoa, Hn. Qed.

Lemma Itoa_nonempty n : 0 ≤ n → Itoa n ≠ EmptyString.
Proof.
  intros Hn E. pose proof (parse_Itoa n Hn) as H. rewrite E in H. injection H as <-.
  by vm_compute in E.
Qed.

Lemma digit_not_char d c : is_digit d = false → is_digit c = true → not_char d c = true.
Proof.
  unfold not_char. intros Hd Hc. case_bool_decide as E; [|done]. subst. congruence.
Qed.

Lemma Itoa_no_char d n : 0 ≤ n → is_digit d = false → str_forall (not_char d) (Itoa n) = true.
Proof.
  intros Hn Hd. eapply str_forall_impl; [|by apply Itoa_digits].
  intros c. by apply digit_not_char.
Qed.

Lemma Atoi_Itoa n : 0 ≤ n ≤ max_int64 → Atoi (Itoa n) = Some n.
Proof.
  intros Hn. assert (parse_digits 0 (Itoa n) = Some n) as Hp by (apply parse_Itoa; lia).
  pose proof (Itoa_nonempty n ltac:(lia)) as Hne.
  pose proof (Itoa_digits n ltac:(lia)) as Hd.
  assert ((min_int64 <=? n) && (n <=? max_int64) = true) as Hr.
  { apply andb_true_intro. split; apply Z.leb_le; unfold min_int64; lia. }
  unfold Atoi. destruct (Itoa n) as [|c u]; [done|].
  simpl in Hd. apply andb_prop in Hd as [Hc _].
  assert (c ≠ "-"%char ∧ c ≠ "+"%char) as [H1 H2] by (split; intros ->; done).
  assert (match c with
    | "-" => option_map Z.opp match u with EmptyString => None | _ => parse_digits 0 u end
    | "+" => match u with EmptyString => None | _ => parse_digits 0 u end
    | _ => parse_digits 0 (String c u)
    end%char = parse_digits 0 (String c u)) as E.
  { destruct c as [[] [] [] [] [] [] [] []]; done. }
  rewrite E, Hp, Hr. done.
Qed.

Lemma Itoa_neg n : n < 0 → Itoa n = "-" +:+ Itoa (- n).
Proof. destruct n; try lia. done. Qed.

Lemma Atoi_Itoa_all n : - max_int64 ≤ n ≤ max_int64 → Atoi (Itoa n) = Some n.
Proof.
  intros Hn. destruct (Z.ltb_spec n 0) as [Hneg|Hpos]; [|apply Atoi_Itoa; lia].
  rewrite Itoa_neg by done. pose proof (parse_Itoa (- n) ltac:(lia)) as Hp.
  pose proof (Itoa_nonempty (- n) ltac:(lia)) as Hne. unfold Atoi.
  change ("-" +:+ Itoa (- n)) with (String "-" (Itoa (- n))). cbv iota beta zeta.
  destruct (Itoa (- n)) as [|c u]; [done|]. rewrite Hp. simpl option_map.
  rewrite Z.opp_involutive.
  assert ((min_int64 <=? n) && (n <=? max_int64) = true) as ->; [|done].
  apply andb_true_intro. split; apply Z.leb_le; unfold min_int64, max_int64 in *; lia.
Qed.

Lemma Itoa_no_char_all d n :
  is_digit d = false → d ≠ "-"%char → str_forall (not_char d) (Itoa n) = true.
Proof.
  intros Hd Hm. destruct (Z.ltb_spec n 0) as [Hneg|Hpos]; [|by apply Itoa_no_char].
  rewrite Itoa_neg by done. rewrite str_forall_app, Itoa_no_char by (done || lia).
  simpl. unfold not_char. by rewrite bool_decide_false.
Qed.

(** *** Splitting *)

Lemma Split_nonempty c s : Split c s ≠ [].
Proof.
  destruct s as [|a s]; simpl; [done|]. case_decide; [done|]. by destruct (Split c s).
Qed.

Lemma Split_no_sep c s : str_forall (not_char c) s = true → Split c s = [s].
Proof.
  induction s as [|a s IH]; simpl; [done|]. unfold not_char at 1.
  intros [Ha Hs]%andb_prop. case_bool_decide; [done|].
  rewrite decide_False by done. by rewrite IH.
Qed.

Lemma Split_app c s1 s2 :
  str_forall (not_char c) s1 = true → Split c (s1 +:+ String c s2) = s1 :: Split c s2.
Proof.
  induction s1 as [|a s1 IH]; simpl.
  - by rewrite decide_True.
  - unfold not_char at 1. intros [Ha Hs]%andb_prop. case_bool_decide; [done|].
    rewrite decide_False by done. by rewrite IH.
Qed.

Lemma Split_Join c l :
  l ≠ [] → Forall (λ s, str_forall (not_char c) s = true) l →
  Split c (Join (String c EmptyString) l) = l.
Proof.
  intros Hne Hl. induction Hl as [|w l Hw Hl IH]; [done|].
  destruct l as [|w' l]; simpl; [by apply Split_no_sep|].
  rewrite Split_app by done. f_equal. by apply IH.
Qed.

Lemma HasPrefix_app p s : HasPrefix p (p +:+ s) = true.
Proof. induction p as [|a p IH]; simpl; [done|]. by rewrite bool_decide_true. Qed.

Lemma TrimPrefix_app p s : TrimPrefix p (p +:+ s) = s.
Proof.
  unfold TrimPrefix. rewrite HasPrefix_app. induction p as [|a p IH]; simpl; [done|]. apply IH.
Qed.

Lemma take_str_length n s : (n ≤ String.length s)%nat → String.length (take_str n s) = n.
Proof. revert s. induction n as [|n IH]; intros [|a s]; simpl; try lia. intros. by rewrite IH by lia. Qed.

(** The first separator of a concatenation splits it in one way only. *)
Lemma app_sep_inj c s1 s2 t1 t2 :
  str_forall (not_char c) s1 = true → str_forall (not_char c) t1 = true →
  s1 +:+ String c s2 = t1 +:+ String c t2 → s1 = t1 ∧ s2 = t2.
Proof.
  revert t1. induction s1 as [|a s1 IH]; intros [|b t1]; simpl; unfold not_char.
  - by intros _ _ [= ->].
  - intros _ Hb [= -> _]. by rewrite bool_decide_true in Hb.
  - intros Ha _ [= -> _]. by rewrite bool_decide_true in Ha.
  - intros [_ Ha]%andb_prop [_ Hb]%andb_prop [= -> E].
    destruct (IH _ Ha Hb E) as [-> ->]. done.
Qed.

(** A common prefix cancels. *)
Lemma app_str_inv_l (p s1 s2 : string) : p +:+ s1 = p +:+ s2 → s1 = s2.
Proof. induction p as [|a p IH]; simpl; [done|]. intros [= E]. by apply IH. Qed.

(** ** Any countable value as text, for the models of codecs that the witnesses run *)

Fixpoint bits_of (p : positive) : string :=
  match p with
  | xH => EmptyString
  | xO q => String zero (bits_of q)
  | xI q => String one (bits_of q)
  end.
Fixpoint of_bits (s : string) : positive :=
  match s with
  | EmptyString => xH
  | String a s' => if Ascii.eqb a zero then xO (of_bits s') else xI (of_bits s')
  end.

Lemma of_bits_of p : of_bits (bits_of p) = p.
Proof. induction p as [p IH|p IH|]; [..|done]; simpl; by rewrite IH. Qed.

Lemma fields_go_nonempty cur s : Forall (λ f, f ≠ EmptyString) (fields_go cur s).
Proof.
  revert cur. induction s as [|c s IH]; intros cur; cbn [fields_go].
  - destruct cur; [constructor|]. by repeat constructor.
  - destruct (is_space c); [|apply IH]. destruct cur; [apply IH|]. constructor; [done|apply IH].
Qed.

Lemma Fields_nonempty s f : f ∈ Fields s → f ≠ EmptyString.
Proof. pose proof (fields_go_nonempty EmptyString s) as Hf. rewrite Forall_forall in Hf. apply Hf. Qed.
