(* ===== verification/GoNet.v ===== *)
(** What the program uses of Go's net package: IPv4 addresses, masks and
    networks.

    A [net.IP] is its list of bytes.  The IPv6 text format is not defined here:
    the class [Net6] stands for it, with the one fact the definitions
    need, that it has nothing to say about IPv4 text. *)

From S2P Require Import Prelude GoInt GoStrings.
From Stdlib Require Import Ascii.
#[local] Open Scope Z_scope.

Definition IP : Type := list Z.
Definition is_byte (b : Z) : Prop := 0 ≤ b < 256.

(** IPv6 text: what [net.ParseIP] makes of a text that is not an IPv4
    address, what [net.ParseCIDR] makes of one that is not an IPv4
    network, and what [String] prints for an address that is not four bytes. *)
Record IPNet : Type := { net_IP : IP; net_Mask : IP }.

Class Net6 : Type := {
  parse_ip6 : string → option IP;
  parse_cidr6 : string → option IPNet;
  ip6_String : IP → string;
}.

(** No IPv6: enough to run the model on IPv4 inputs. *)
Definition no_ip6 : Net6 :=
  {| parse_ip6 _ := None; parse_cidr6 _ := None; ip6_String _ := EmptyString |}.

(** ** Text *)

(** [ip.String()] *)
Definition IP_String `{Net6} (ip : IP) : string :=
  match ip with
  | [_; _; _; _] => Join (String "." EmptyString) (map Itoa ip)
  | _ => ip6_String ip
  end.

(** One field of a dotted IPv4 address: no leading zero, at most 255. *)
Definition parse_octet (s : string) : option Z :=
  match s with
  | EmptyString => None
  | String c s' =>
      if bool_decide (c = "0"%char ∧ s' ≠ EmptyString) then None
      else match parse_digits 0 s with
           | Some n => if n <=? 255 then Some n else None
           | None => None
           end
  end.

Definition parse_ip4 (s : string) : option IP :=
  match map parse_octet (Split "." s) with
  | [Some a; Some b; Some c; Some d] => Some [a; b; c; d]
  | _ => None
  end.

(** [net.ParseIP s], an IPv4 address in its four-byte form ([To4]) *)
Definition ParseIP `{Net6} (s : string) : option IP :=
  match parse_ip4 s with
  | Some ip => Some ip
  | None => parse_ip6 s
  end.

(** [ip.To4()] *)
Definition To4 (ip : IP) : option IP :=
  match ip with
  | [_; _; _; _] => Some ip
  | _ =>
      if decide (length ip = 16%nat ∧ take 12 ip = replicate 10 0 ++ [255; 255])
      then Some (drop 12 ip) else None
  end.

(** ** Masks *)

(** [net.CIDRMask(ones, 8 * n)] *)
Fixpoint CIDRMask (ones : nat) (n : nat) : IP :=
  match n with
  | O => []
  | S n' => if (8 <=? ones)%nat then 255 :: CIDRMask (ones - 8) n'
            else (256 - 2 ^ (8 - Z.of_nat ones)) :: CIDRMask 0 n'
  end.

(** [ip.Mask(mask)] for a mask of the address's length *)
Definition Mask (ip mask : IP) : IP := zip_with Z.land ip mask.

(** The leading ones of a byte, if nothing follows them. *)
Definition byte_ones (b : Z) : option nat :=
  find (λ n : nat, bool_decide (b = 256 - 2 ^ (8 - Z.of_nat n))) (seq 0 9).

(** [mask.Size()], its first result: 0 for a mask that is not ones then zeros. *)
Fixpoint mask_length (m : IP) : option nat :=
  match m with
  | [] => Some 0%nat
  | b :: m' =>
      if b =? 255 then option_map (Nat.add 8) (mask_length m')
      else if forallb (Z.eqb 0) m' then byte_ones b else None
  end.
Definition Size (m : IP) : Z := Z.of_nat (default 0%nat (mask_length m)).

(** ** Networks *)

(** [n.Contains(ip)] *)
Definition Contains (n : IPNet) (ip : IP) : bool :=
  let ip := default ip (To4 ip) in
  bool_decide (length ip = length (net_IP n)) &&
  bool_decide (Mask (net_IP n) (net_Mask n) = Mask ip (net_Mask n)).

(** The text before the first [/] and the text after it, if there is one. *)
Definition cut_slash (s : string) : option (string * string) :=
  match Split "/" s with
  | a :: b :: l => Some (a, Join (String "/" EmptyString) (b :: l))
  | _ => None
  end.

(** [net.ParseCIDR s], its network *)
Definition ParseCIDR `{Net6} (s : string) : option IPNet :=
  match cut_slash s with
  | None => None
  | Some (addr, mask) =>
      match parse_ip4 addr with
      | None => parse_cidr6 s
      | Some ip =>
          match mask, parse_digits 0 mask with
          | EmptyString, _ | _, None => None
          | _, Some n =>
              if n <=? 32 then
                let m := CIDRMask (Z.to_nat n) 4 in
                Some {| net_IP := Mask ip m; net_Mask := m |}
              else None
          end
      end
  end.

(** ** An address as a number *)

Fixpoint num (ip : IP) : Z :=
  match ip with
  | [] => 0
  | b :: ip' => b * 256 ^ Z.of_nat (length ip') + num ip'
  end.

Definition is_ip4 (ip : IP) : Prop := length ip = 4%nat ∧ Forall is_byte ip.

Definition ip4 (n : Z) : IP := [n / 2 ^ 24 mod 256; n / 2 ^ 16 mod 256; n / 2 ^ 8 mod 256; n mod 256].

Lemma num_bound ip : Forall is_byte ip → 0 ≤ num ip < 256 ^ Z.of_nat (length ip).
Proof.
  induction 1 as [|b ip Hb _ IH]; simpl length; [simpl; lia|].
  rewrite Nat2Z.inj_succ, Z.pow_succ_r by lia. unfold is_byte in Hb. simpl. nia.
Qed.

Lemma num_inj ip ip' :
  Forall is_byte ip → Forall is_byte ip' → length ip = length ip' → num ip = num ip' → ip = ip'.
Proof.
  intros H. revert ip'. induction H as [|b ip Hb H IH]; intros [|b' ip'] H' Hl Hn; try done.
  inversion H' as [|? ? Hb' H'']; subst. injection Hl as Hl. simpl in Hn. rewrite Hl in Hn.
  pose proof (num_bound ip H). pose proof (num_bound ip' H''). rewrite Hl in *.
  unfold is_byte in *. set (p := 256 ^ Z.of_nat (length ip')) in *.
  assert (b = b') as -> by nia. f_equal. apply IH; [done..|lia].
Qed.

Lemma is_ip4_inv ip :
  is_ip4 ip → ∃ a b c d, ip = [a; b; c; d] ∧ is_byte a ∧ is_byte b ∧ is_byte c ∧ is_byte d.
Proof.
  intros [Hl H]. destruct ip as [|a [|b [|c [|d [|]]]]]; try done.
  rewrite !Forall_cons in H. naive_solver.
Qed.

Lemma ip4_ok n : is_ip4 (ip4 n).
Proof.
  split; [done|]. unfold ip4. repeat constructor; apply Z.mod_pos_bound; lia.
Qed.

Lemma num_ip4 n : 0 ≤ n < 2 ^ 32 → num (ip4 n) = n.
Proof.
  intros Hn. unfold ip4. simpl.
  replace (256 ^ 3) with 16777216 by done. replace (256 ^ 2) with 65536 by done.
  replace (256 ^ 1) with 256 by done. change (256 ^ 0) with 1.
  change (2 ^ 24) with 16777216. change (2 ^ 16) with 65536. change (2 ^ 8) with 256.
  change (2 ^ 32) with 4294967296 in Hn. Z.to_euclidean_division_equations; lia.
Qed.

Lemma ip4_num ip : is_ip4 ip → ip4 (num ip) = ip.
Proof.
  intros Hi. apply num_inj; [apply ip4_ok|apply Hi|by destruct Hi as [-> _]|].
  apply num_ip4. destruct Hi as [Hl Hb]. pose proof (num_bound ip Hb) as H. rewrite Hl in H.
  change (256 ^ Z.of_nat 4) with (2 ^ 32) in H. lia.
Qed.

(** ** Text round trip *)

Lemma parse_octet_Itoa b : is_byte b → parse_octet (Itoa b) = Some b.
Proof.
  intros Hb. unfold is_byte in Hb.
  assert (∀ n, (n < 256)%nat → parse_octet (Itoa (Z.of_nat n)) = Some (Z.of_nat n)) as H.
  { intros n Hn.
    assert (forallb (λ n, bool_decide (parse_octet (Itoa (Z.of_nat n)) = Some (Z.of_nat n)))
      (seq 0 256) = true) as Hall by (vm_compute; reflexivity).
    rewrite forallb_forall in Hall. specialize (Hall n ltac:(apply in_seq; lia)).
    by apply bool_decide_eq_true in Hall. }
  specialize (H (Z.to_nat b) ltac:(lia)). by rewrite Z2Nat.id in H by lia.
Qed.

Lemma octet_no_dot b : is_byte b → str_forall (not_char ".") (Itoa b) = true.
Proof. intros Hb. apply Itoa_no_char; [unfold is_byte in Hb; lia|done]. Qed.

Lemma Forall_Itoa_no_char d ip :
  Forall is_byte ip → is_digit d = false →
  Forall (λ s, str_forall (not_char d) s = true) (map Itoa ip).
Proof.
  intros H Hd. apply Forall_map. eapply Forall_impl; [done|]. unfold is_byte.
  intros b Hb. apply Itoa_no_char; [simpl in Hb; lia|done].
Qed.

Lemma is_ip4_String `{Net6} ip :
  is_ip4 ip → IP_String ip = Join (String "." EmptyString) (map Itoa ip).
Proof. by intros (a & b & c & d & -> & _)%is_ip4_inv. Qed.

Lemma parse_ip4_String `{Net6} ip : is_ip4 ip → parse_ip4 (IP_String ip) = Some ip.
Proof.
  intros Hi. unfold parse_ip4. rewrite is_ip4_String by done.
  rewrite Split_Join.
  - destruct (is_ip4_inv ip Hi) as (a & b & c & d & -> & Ha & Hb & Hc & Hd).
    cbn [map]. by rewrite !parse_octet_Itoa.
  - by destruct (is_ip4_inv ip Hi) as (a & b & c & d & -> & _).
  - apply Forall_Itoa_no_char; [apply Hi|done].
Qed.

Lemma ParseIP_String `{Net6} ip : is_ip4 ip → ParseIP (IP_String ip) = Some ip.
Proof. intros Hi. unfold ParseIP. by rewrite parse_ip4_String. Qed.

Lemma IP_String_inj `{Net6} ip ip' :
  is_ip4 ip → is_ip4 ip' → IP_String ip = IP_String ip' → ip = ip'.
Proof.
  intros H1 H2 E. pose proof (parse_ip4_String ip H1) as P.
  rewrite E, parse_ip4_String in P by done. congruence.
Qed.

(** An address's text has no character but digits and dots. *)
Lemma IP_String_no_char `{Net6} d ip :
  is_ip4 ip → is_digit d = false → d ≠ "."%char → str_forall (not_char d) (IP_String ip) = true.
Proof.
  intros Hi Hd Hdot. rewrite is_ip4_String by done.
  destruct (is_ip4_inv ip Hi) as (a & b & c & e & -> & Hbytes).
  assert (∀ x, is_byte x → str_forall (not_char d) (Itoa x) = true) as Hx.
  { intros x Hx. apply Itoa_no_char; [unfold is_byte in Hx; lia|done]. }
  assert (str_forall (not_char d) (String "." EmptyString) = true) as Hs.
  { simpl. unfold not_char. by rewrite bool_decide_false. }
  cbn [map Join]. rewrite !str_forall_app, Hs. destruct Hbytes as (H1 & H2 & H3 & H4).
  by rewrite !Hx.
Qed.

(** ** Networks as intervals of numbers *)

Lemma land_high_mask x r :
  is_byte x → 0 ≤ r ≤ 8 → Z.land x (256 - 2 ^ (8 - r)) = x / 2 ^ (8 - r) * 2 ^ (8 - r).
Proof.
  intros Hx Hr. unfold is_byte in Hx.
  replace (256 - 2 ^ (8 - r)) with (Z.shiftl (Z.ones r) (8 - r)).
  - rewrite <- Z.shiftr_div_pow2, <- Z.shiftl_mul_pow2 by lia.
    apply Z.bits_inj'. intros n Hn. rewrite Z.land_spec, !Z.shiftl_spec by lia.
    destruct (Z.ltb_spec n (8 - r)) as [Hl|Hl].
    + rewrite (Z.testbit_neg_r _ (n - (8 - r))) by lia.
      rewrite (Z.testbit_neg_r _ (n - (8 - r))) by lia. by rewrite andb_false_r.
    + rewrite Z.shiftr_spec by lia. replace (n - (8 - r) + (8 - r)) with n by lia.
      destruct (Z.ltb_spec n 8) as [H8|H8].
      * rewrite Z.ones_spec_low by lia. by rewrite andb_true_r.
      * replace (Z.testbit x n) with false; [done|].
        symmetry. apply Z.bits_above_log2; [lia|].
        destruct (decide (x = 0)) as [->|]; [simpl; lia|].
        apply Z.log2_lt_pow2; [lia|]. apply Z.lt_le_trans with (2 ^ 8); [lia|].
        apply Z.pow_le_mono_r; lia.
  - rewrite Z.shiftl_mul_pow2, Z.ones_equiv by lia.
    replace 256 with (2 ^ r * 2 ^ (8 - r)); [lia|].
    rewrite <- Z.pow_add_r by lia. by replace (r + (8 - r)) with 8 by lia.
Qed.

(** The host part's size of a prefix of [ones] bits of an address of [n] bytes *)
Definition hosts (ones n : nat) : Z := 2 ^ (8 * Z.of_nat n - Z.of_nat ones).

Lemma hosts_pos ones n : (ones ≤ 8 * n)%nat → 0 < hosts ones n.
Proof. intros H. apply Z.pow_pos_nonneg; lia. Qed.

Lemma pow256 n : 256 ^ Z.of_nat n = hosts 0 n.
Proof. unfold hosts. change 256 with (2 ^ 8). rewrite <- Z.pow_mul_r by lia. f_equal. lia. Qed.

Lemma land_255 x : is_byte x → Z.land x 255 = x.
Proof.
  intros Hx. change 255 with (256 - 2 ^ (8 - 8)). rewrite land_high_mask by (done || lia).
  change (2 ^ (8 - 8)) with 1. rewrite Z.div_1_r. lia.
Qed.

Lemma num_Mask ip ones n :
  Forall is_byte ip → length ip = n → (ones ≤ 8 * n)%nat →
  num (Mask ip (CIDRMask ones n)) = num ip / hosts ones n * hosts ones n ∧
  length (Mask ip (CIDRMask ones n)) = n.
Proof.
  intros Hb Hl Hones. unfold Mask. revert ones ip Hb Hl Hones.
  induction n as [|n IH]; intros ones [|x ip] Hb Hl Hones; try done.
  apply Forall_cons in Hb as [Hx Hb]. injection Hl as Hl.
  pose proof (num_bound ip Hb) as B. rewrite Hl in B.
  cbn [CIDRMask]. destruct (Nat.leb_spec 8 ones) as [H8|H8]; cbn [zip_with num length].
  - destruct (IH (ones - 8)%nat ip Hb Hl ltac:(lia)) as [E El].
    rewrite land_255, E, El, Hl by done. split; [|done].
    replace (hosts ones (S n)) with (hosts (ones - 8) n) by (unfold hosts; f_equal; lia).
    assert (256 ^ Z.of_nat n = 2 ^ (Z.of_nat ones - 8) * hosts (ones - 8) n) as ->.
    { rewrite pow256. unfold hosts. rewrite <- Z.pow_add_r by lia. f_equal. lia. }
    pose proof (hosts_pos (ones - 8) n ltac:(lia)).
    rewrite Z.mul_assoc, Z.div_add_l by lia. ring.
  - destruct (IH 0%nat ip Hb Hl ltac:(lia)) as [E El].
    rewrite land_high_mask, E, El, Hl by (done || lia). split; [|done].
    rewrite pow256 in *. rewrite (Z.div_small (num ip)) by lia.
    replace (hosts ones (S n)) with (hosts 0 n * 2 ^ (8 - Z.of_nat ones))
      by (unfold hosts; rewrite <- Z.pow_add_r by lia; f_equal; lia).
    assert (0 < 2 ^ (8 - Z.of_nat ones)) by (apply Z.pow_pos_nonneg; lia).
    pose proof (hosts_pos 0 n ltac:(lia)).
    rewrite <- Z.div_div, Z.div_add_l, (Z.div_small (num ip)), Z.mul_0_l, !Z.add_0_r by lia. ring.
Qed.

Lemma Mask_bytes ip m : Forall is_byte ip → Forall is_byte m → Forall is_byte (Mask ip m).
Proof.
  intros H. revert m. unfold Mask. induction H as [|x ip Hx H IH]; intros m Hm; [done|].
  destruct Hm as [|y m Hy Hm]; [by constructor|]. simpl. constructor; [|by apply IH].
  unfold is_byte in *. split; [apply Z.land_nonneg; lia|].
  apply Z.le_lt_trans with x; [|lia]. destruct Hx as [Hx1 Hx2], Hy as [Hy1 Hy2].
  apply Z.ldiff_le; [lia|]. apply Z.bits_inj'. intros i Hi.
  rewrite Z.ldiff_spec, Z.land_spec, Z.bits_0.
  by destruct (Z.testbit x i), (Z.testbit y i).
Qed.

Lemma CIDRMask_bytes ones n : Forall is_byte (CIDRMask ones n).
Proof.
  revert ones. induction n as [|n IH]; intros ones; [constructor|]. cbn [CIDRMask].
  destruct (Nat.leb_spec 8 ones); constructor; try apply IH; unfold is_byte; [lia|].
  assert (0 < 2 ^ (8 - Z.of_nat ones) ≤ 2 ^ 8).
  { split; [apply Z.pow_pos_nonneg; lia|]. apply Z.pow_le_mono_r; lia. }
  lia.
Qed.

Lemma CIDRMask_length ones n : length (CIDRMask ones n) = n.
Proof. revert ones. induction n as [|n IH]; intros ones; [done|]. cbn [CIDRMask]. case_match; simpl; by rewrite IH. Qed.

(** A network as [ParseCIDR] makes it, with [ones] bits of prefix *)
Record cidr_net (ones : nat) (n : IPNet) : Prop := {
  cidr_ones : (ones ≤ 32)%nat;
  cidr_base : is_ip4 (net_IP n);
  cidr_mask : net_Mask n = CIDRMask ones 4;
  cidr_masked : Mask (net_IP n) (net_Mask n) = net_IP n;
}.

Definition base (n : IPNet) : Z := num (net_IP n).

Lemma Mask_idem ip m : Mask (Mask ip m) m = Mask ip m.
Proof.
  unfold Mask. revert m. induction ip as [|x ip IH]; intros [|y m]; simpl; try done.
  rewrite IH. by rewrite <- Z.land_assoc, Z.land_diag.
Qed.

Lemma is_ip4_Mask ip ones : is_ip4 ip → (ones ≤ 32)%nat → is_ip4 (Mask ip (CIDRMask ones 4)).
Proof.
  intros [Hl Hb] Ho. split; [by apply num_Mask|]. apply Mask_bytes; [done|apply CIDRMask_bytes].
Qed.

Lemma make_cidr_net ip ones :
  is_ip4 ip → (ones ≤ 32)%nat →
  cidr_net ones {| net_IP := Mask ip (CIDRMask ones 4); net_Mask := CIDRMask ones 4 |}.
Proof.
  intros Hi Ho. split; simpl; [done|by apply is_ip4_Mask|done|apply Mask_idem].
Qed.

Lemma To4_ip4 ip : is_ip4 ip → To4 ip = Some ip.
Proof. by intros (a & b & c & d & -> & _)%is_ip4_inv. Qed.

Lemma cidr_base_multiple ones n : cidr_net ones n → base n mod hosts ones 4 = 0.
Proof.
  intros [Ho [Hl Hb] Hm E]. unfold base. rewrite <- E, Hm.
  destruct (num_Mask (net_IP n) ones 4 Hb Hl ltac:(lia)) as [-> _].
  apply Z.mod_mul. pose proof (hosts_pos ones 4 ltac:(lia)). lia.
Qed.

Lemma div_same_interval h b x :
  0 < h → b mod h = 0 → (x / h * h = b / h * h ↔ b ≤ x < b + h).
Proof.
  intros Hh Hb. pose proof (Z.div_mod b h ltac:(lia)) as Eb. rewrite Hb in Eb.
  pose proof (Z.mod_pos_bound x h Hh). pose proof (Z.div_mod x h ltac:(lia)). split; [nia|].
  intros Hx. assert (x / h = b / h) as ->; [|done].
  symmetry. apply Z.div_unique with (x - b); lia.
Qed.

Lemma Contains_interval ones n ip :
  cidr_net ones n → is_ip4 ip →
  Contains n ip = true ↔ base n ≤ num ip < base n + hosts ones 4.
Proof.
  intros Hn Hi. pose proof (cidr_base_multiple ones n Hn) as Hmod.
  destruct Hn as [Ho Hbase Hm E]. unfold Contains. rewrite To4_ip4 by done. simpl default.
  rewrite bool_decide_true by (by destruct Hi as [-> _], Hbase as [-> _]). simpl.
  rewrite bool_decide_eq_true, Hm. pose proof (hosts_pos ones 4 ltac:(lia)) as Hh.
  unfold base in *. rewrite <- div_same_interval by done.
  destruct Hbase as [Hl Hb], Hi as [Hil Hib].
  destruct (num_Mask (net_IP n) ones 4 Hb Hl ltac:(lia)) as [<- L1].
  destruct (num_Mask ip ones 4 Hib Hil ltac:(lia)) as [<- L2].
  split; [by intros ->|]. intros En. symmetry. apply num_inj;
    [apply Mask_bytes; [done|apply CIDRMask_bytes]..|congruence|done].
Qed.

Lemma cidr_fits ones n : cidr_net ones n → 0 ≤ base n ∧ base n + hosts ones 4 ≤ 2 ^ 32.
Proof.
  intros Hn. pose proof (cidr_base_multiple ones n Hn) as Hmod.
  destruct Hn as [Ho [Hl Hb] _ _]. pose proof (num_bound _ Hb) as B. rewrite Hl in B.
  change (256 ^ Z.of_nat 4) with (2 ^ 32) in B. unfold base in *. split; [lia|].
  pose proof (hosts_pos ones 4 ltac:(lia)) as Hh.
  pose proof (Z.div_mod (num (net_IP n)) (hosts ones 4) ltac:(lia)) as E. rewrite Hmod in E.
  assert (2 ^ 32 = 2 ^ Z.of_nat ones * hosts ones 4) as E32.
  { unfold hosts. rewrite <- Z.pow_add_r by lia. f_equal. lia. }
  set (q := num (net_IP n) / hosts ones 4) in *. set (h := hosts ones 4) in *.
  assert (q < 2 ^ Z.of_nat ones) as Hq by (apply (Z.mul_lt_mono_pos_r h); lia).
  assert ((q + 1) * h ≤ 2 ^ Z.of_nat ones * h) by (apply Z.mul_le_mono_nonneg_r; lia). lia.
Qed.

(** What [ParseCIDR] returns on IPv4 text *)
Lemma parse_octet_byte s n : parse_octet s = Some n → is_byte n.
Proof.
  unfold parse_octet, is_byte. destruct s as [|c s]; [done|]. case_bool_decide; [done|].
  destruct (parse_digits 0 (String c s)) eqn:E; [|done].
  apply parse_digits_nonneg in E; [|lia]. case_bool; [|done]. intros [= ->]. lia.
Qed.

Lemma parse_ip4_ok s ip : parse_ip4 s = Some ip → is_ip4 ip.
Proof.
  unfold parse_ip4.
  assert (Forall (λ o, ∀ n, o = Some n → is_byte n) (map parse_octet (Split "." s))) as H.
  { apply Forall_map, Forall_true. intros x n. apply parse_octet_byte. }
  destruct (map parse_octet (Split "." s)) as [|[a|] [|[b|] [|[c|] [|[d|] [|]]]]]; try discriminate.
  intros [= <-]. split; [done|]. rewrite !Forall_cons in H. repeat constructor; naive_solver.
Qed.

Lemma ParseCIDR_cidr `{Net6} s addr mask n :
  cut_slash s = Some (addr, mask) → is_Some (parse_ip4 addr) → ParseCIDR s = Some n →
  ∃ ones, cidr_net ones n.
Proof.
  intros Hs [ip Hip]. unfold ParseCIDR. rewrite Hs, Hip.
  destruct mask as [|c mask]; [done|].
  destruct (parse_digits 0 (String c mask)) as [k|] eqn:Ek; [|done].
  apply parse_digits_nonneg in Ek; [|lia]. case_bool; [|done]. intros [= <-].
  exists (Z.to_nat k). apply make_cidr_net; [by eapply parse_ip4_ok|lia].
Qed.

(** The prefix length is read back from the mask. *)
Lemma Size_CIDRMask ones : (ones ≤ 32)%nat → Size (CIDRMask ones 4) = Z.of_nat ones.
Proof.
  intros Ho.
  assert (forallb (λ o, Size (CIDRMask o 4) =? Z.of_nat o) (seq 0 33) = true) as H
    by (vm_compute; reflexivity).
  rewrite forallb_forall in H. apply Z.eqb_eq, H, in_seq. lia.
Qed.
