(* ===== verification/Grpc.v ===== *)
(** What the program uses of gRPC: status codes carried by error values, the
    per-call context, and unary handlers and interceptors.

    The gRPC library is not part of the repository.  What the program relies on
    is the class [StatusLib] (google.golang.org/grpc/status) with its documented
    behaviour as laws; [reference_status] is an instance. *)

From S2P Require Import Prelude.

(** ** status.FromError *)

(** [status.FromError err] for a non-nil [err]: [Some c] when [err] is, or wraps, a
    status error with code [c]; [None] (the [ok = false] case) otherwise. *)
Class StatusLib : Type := {
  FromError : error → option codes;
  FromError_status c m : FromError (StatusErr c m) = Some c;
  FromError_statusf c m e : FromError (StatusErrf c m e) = Some c;
  FromError_errorf m : FromError (Errorf m) = None;
  FromError_wrapf m e : FromError (Wrapf m e) = FromError e;
}.
#[export] Hint Rewrite @FromError_status @FromError_statusf @FromError_errorf
  @FromError_wrapf : grpc.

Fixpoint reference_FromError (e : error) : option codes :=
  match e with
  | StatusErr c _ => Some c
  | StatusErrf c _ _ => Some c
  | Errorf _ => None
  | Wrapf _ e' => reference_FromError e'
  | LibErr _ | Panic _ => None
  end.

#[export] Instance reference_status : StatusLib :=
  {| FromError := reference_FromError;
     FromError_status _ _ := eq_refl; FromError_statusf _ _ _ := eq_refl;
     FromError_errorf _ := eq_refl; FromError_wrapf _ _ := eq_refl |}.

(** [status.Code(err)] for a non-nil [err]. *)
Definition status_Code `{StatusLib} (e : error) : codes :=
  default Unknown (FromError e).

(** ** context.Context *)

(** The typed keys the packages put into a context with [context.WithValue]. *)
Inductive ContextKey : Type :=
| NodeIDKey       (* pkg/auth *)
| RequestIDKey    (* pkg/middleware *)
| TraceIDKey.     (* pkg/tracing *)

#[export] Instance ContextKey_eq_dec : EqDecision ContextKey.
Proof. solve_decision. Defined.

(** A call's context: its incoming metadata if it is a server context, the
    metadata attached to calls made with it, its values, and the peer's
    address ([p.Addr.String()]) if the transport set one. *)
Record Context : Type := {
  ctx_incoming : option (gmap string (list string));
  ctx_outgoing : list (string * string);
  ctx_values : list (ContextKey * string);
  ctx_peer : option string;
}.

Definition Background : Context :=
  {| ctx_incoming := None; ctx_outgoing := []; ctx_values := []; ctx_peer := None |}.

(** [context.WithValue] *)
Definition WithValue (ctx : Context) (k : ContextKey) (v : string) : Context :=
  {| ctx_incoming := ctx_incoming ctx; ctx_outgoing := ctx_outgoing ctx;
     ctx_values := (k, v) :: ctx_values ctx; ctx_peer := ctx_peer ctx |}.

Fixpoint assoc_value (k : ContextKey) (l : list (ContextKey * string)) : option string :=
  match l with
  | [] => None
  | (k', v) :: l' => if decide (k' = k) then Some v else assoc_value k l'
  end.

(** [ctx.Value(k).(string)] with its [ok] *)
Definition ctx_Value (ctx : Context) (k : ContextKey) : option string :=
  assoc_value k (ctx_values ctx).

(** [metadata.AppendToOutgoingContext] *)
Definition AppendToOutgoingContext (ctx : Context) (k v : string) : Context :=
  {| ctx_incoming := ctx_incoming ctx; ctx_outgoing := ctx_outgoing ctx ++ [(k, v)];
     ctx_values := ctx_values ctx; ctx_peer := ctx_peer ctx |}.

(** [md.Get(k)] *)
Definition md_Get (md : gmap string (list string)) (k : string) : list string :=
  default [] (md !! k).

Lemma ctx_Value_WithValue ctx k v : ctx_Value (WithValue ctx k v) k = Some v.
Proof. unfold ctx_Value, WithValue; simpl. by rewrite decide_True. Qed.

Lemma ctx_Value_WithValue_ne ctx k k' v :
  k ≠ k' → ctx_Value (WithValue ctx k v) k' = ctx_Value ctx k'.
Proof. intros Hne. unfold ctx_Value, WithValue; simpl. by rewrite decide_False. Qed.
#[export] Hint Rewrite ctx_Value_WithValue : grpc.

(** ** Unary handlers and interceptors over a server state [W] *)

Definition UnaryHandler (W Req Resp : Type) : Type := Context → Req → M W Resp.

Definition UnaryServerInterceptor (W Req Resp : Type) : Type :=
  Context → Req → string (* info.FullMethod *) → UnaryHandler W Req Resp → M W Resp.

(** A clock to read: [time.Now()] in the state [W]. *)
Class Clock (W : Type) : Type := Now : W → Z.
#[export] Hint Mode Clock + : typeclass_instances.
