(* ===== verification/CircuitBreaker.v ===== *)
(** pkg/circuitbreaker: the circuit breaker that guards every client call.

    [Allow], [RecordSuccess], [RecordFailure] and [Execute] are the methods run by
    one goroutine; Module [Concurrent] splits [Allow] where its [transition] unlocks
    the mutex to run the callback, and is a step relation over any number of
    goroutines running [Execute]. *)

From S2P Require Import Prelude GoInt GoStrings Grpc.

(** ** Data *)

Inductive State : Type := StateClosed | StateOpen | StateHalfOpen.

#[export] Instance State_eq_dec : EqDecision State.
Proof. solve_decision. Defined.

Definition State_String (s : State) : string :=
  match s with
  | StateClosed => "CLOSED"
  | StateOpen => "OPEN"
  | StateHalfOpen => "HALF_OPEN"
  end.

(** The callback is represented by the line it prints. *)
Record Config : Type := {
  MaxFailures : Z;
  OpenTimeout : Z;
  HalfOpenMax : Z;
  OnStateChange : option (string → State → State → string);
}.

Definition DefaultConfig : Config :=
  {| MaxFailures := 5; OpenTimeout := 30 * Second; HalfOpenMax := 1;
     OnStateChange := None |}.

Record CircuitBreaker : Type := {
  name : string;
  cfg : Config;
  state : State;
  failures : Z;
  successes : Z;
  lastFailure : Z;
  halfOpenReq : Z;
}.

(** The zero [time.Time], January 1 of year 1. *)
Definition zero_time : Z := -62135596800 * Second.

Definition normalize (c : Config) : Config :=
  {| MaxFailures := if MaxFailures c <=? 0 then MaxFailures DefaultConfig else MaxFailures c;
     OpenTimeout := if OpenTimeout c <=? 0 then OpenTimeout DefaultConfig else OpenTimeout c;
     HalfOpenMax := if HalfOpenMax c <=? 0 then HalfOpenMax DefaultConfig else HalfOpenMax c;
     OnStateChange := OnStateChange c |}.

Definition New (nm : string) (c : Config) : CircuitBreaker :=
  {| name := nm; cfg := normalize c; state := StateClosed; failures := 0;
     successes := 0; lastFailure := zero_time; halfOpenReq := 0 |}.

Definition Name (cb : CircuitBreaker) : string := name cb.
Definition CurrentState (cb : CircuitBreaker) : State := state cb.

(** Field updates *)
Definition set_state (s : State) (cb : CircuitBreaker) : CircuitBreaker :=
  {| name := name cb; cfg := cfg cb; state := s; failures := failures cb;
     successes := successes cb; lastFailure := lastFailure cb;
     halfOpenReq := halfOpenReq cb |}.
Definition set_failures (n : Z) (cb : CircuitBreaker) : CircuitBreaker :=
  {| name := name cb; cfg := cfg cb; state := state cb; failures := n;
     successes := successes cb; lastFailure := lastFailure cb;
     halfOpenReq := halfOpenReq cb |}.
Definition set_successes (n : Z) (cb : CircuitBreaker) : CircuitBreaker :=
  {| name := name cb; cfg := cfg cb; state := state cb; failures := failures cb;
     successes := n; lastFailure := lastFailure cb; halfOpenReq := halfOpenReq cb |}.
Definition set_lastFailure (t : Z) (cb : CircuitBreaker) : CircuitBreaker :=
  {| name := name cb; cfg := cfg cb; state := state cb; failures := failures cb;
     successes := successes cb; lastFailure := t; halfOpenReq := halfOpenReq cb |}.
Definition set_halfOpenReq (n : Z) (cb : CircuitBreaker) : CircuitBreaker :=
  {| name := name cb; cfg := cfg cb; state := state cb; failures := failures cb;
     successes := successes cb; lastFailure := lastFailure cb; halfOpenReq := n |}.

(** ** Operations: the new breaker and the lines the callback printed *)

Definition transition (to : State) (cb : CircuitBreaker) : CircuitBreaker * list string :=
  let from := state cb in
  if decide (from = to) then (cb, [])
  else
    let cb := set_state to cb in
    match OnStateChange (cfg cb) with
    | Some f => (cb, [f (name cb) from to])
    | None => (cb, [])
    end.

(** [Allow] read at time [now]. *)
Definition Allow (now : Z) (cb : CircuitBreaker) : CircuitBreaker * list string * bool :=
  match state cb with
  | StateClosed => (cb, [], true)
  | StateOpen =>
      if OpenTimeout (cfg cb) <=? time_sub now (lastFailure cb) then
        let '(cb, out) := transition StateHalfOpen cb in
        (set_halfOpenReq 1 cb, out, true)
      else (cb, [], false)
  | StateHalfOpen =>
      if halfOpenReq cb <? HalfOpenMax (cfg cb) then
        (set_halfOpenReq (wrap64 (halfOpenReq cb + 1)) cb, [], true)
      else (cb, [], false)
  end.

Definition RecordSuccess (cb : CircuitBreaker) : CircuitBreaker * list string :=
  let cb := set_failures 0 cb in
  if decide (state cb = StateHalfOpen) then
    let cb := set_successes (wrap64 (successes cb + 1)) cb in
    if HalfOpenMax (cfg cb) <=? successes cb then
      transition StateClosed (set_halfOpenReq 0 (set_successes 0 cb))
    else (cb, [])
  else (cb, []).

Definition RecordFailure (now : Z) (cb : CircuitBreaker) : CircuitBreaker * list string :=
  let cb := set_lastFailure now cb in
  match state cb with
  | StateClosed =>
      let cb := set_failures (wrap64 (failures cb + 1)) cb in
      if MaxFailures (cfg cb) <=? failures cb then
        transition StateOpen (set_halfOpenReq 0 (set_successes 0 cb))
      else (cb, [])
  | StateHalfOpen =>
      let cb := set_failures (wrap64 (failures cb + 1)) cb in
      transition StateOpen (set_halfOpenReq 0 (set_successes 0 cb))
  | StateOpen => (cb, [])
  end.

(** ** Execute: a guarded call in a world [W] *)

Record Guarded (W : Type) : Type := {
  g_cb : CircuitBreaker;
  g_out : list string;
  g_world : W;
}.
Arguments g_cb {W}.
Arguments g_out {W}.
Arguments g_world {W}.

Definition put_cb {W} (r : CircuitBreaker * list string) (w : W) (out : list string)
    : Guarded W :=
  {| g_cb := r.1; g_out := out ++ r.2; g_world := w |}.

(** Which outcome of the call counts as a failure of the service. *)
Definition counts_as_failure `{StatusLib} (e : error) : bool :=
  match FromError e with
  | Some Canceled | Some DeadlineExceeded => false
  | Some _ => true
  | None => true
  end.

Definition open_error (cb : CircuitBreaker) : error :=
  StatusErr Unavailable ("circuit breaker [" +:+ name cb +:+ "] is OPEN (retry after " +:+
    Duration_String (OpenTimeout (cfg cb)) +:+ ")").

Definition Execute `{StatusLib} {W A} `{Clock W} (fn : M W A) : M (Guarded W) A := λ g,
  let '(cb, out, allowed) := Allow (Now (g_world g)) (g_cb g) in
  let out := g_out g ++ out in
  if allowed then
    match fn (g_world g) with
    | (w, Err e) =>
        if counts_as_failure e
        then (put_cb (RecordFailure (Now w) cb) w out, Err e)
        else (put_cb (cb, []) w out, Err e)
    | (w, Ok a) => (put_cb (RecordSuccess cb) w out, Ok a)
    end
  else (put_cb (cb, []) (g_world g) out, Err (open_error cb)).

(** [UnaryClientInterceptor]: the guarded call is the invoker. *)
Definition UnaryClientInterceptor `{StatusLib} {W Req Resp} `{Clock W}
    (invoker : Context → string → Req → M W Resp)
    (ctx : Context) (method : string) (req : Req) : M (Guarded W) Resp :=
  Execute (invoker ctx method req).

(** ** Well-formed breakers *)

(** A configuration after [normalize], with fields in Go's [int] range. *)
Definition cfg_ok (c : Config) : Prop :=
  0 < MaxFailures c ≤ max_int64 ∧ 0 < OpenTimeout c ≤ max_int64 ∧
  0 < HalfOpenMax c ≤ max_int64.

(** What the counters mean in each state. *)
Definition wf (cb : CircuitBreaker) : Prop :=
  cfg_ok (cfg cb) ∧
  match state cb with
  | StateClosed =>
      0 ≤ failures cb < MaxFailures (cfg cb) ∧ successes cb = 0 ∧ halfOpenReq cb = 0
  | StateOpen => successes cb = 0 ∧ halfOpenReq cb = 0
  | StateHalfOpen =>
      0 ≤ successes cb < HalfOpenMax (cfg cb) ∧
      1 ≤ halfOpenReq cb ≤ HalfOpenMax (cfg cb)
  end.

Lemma transition_fst to cb : (transition to cb).1 = set_state to cb.
Proof.
  unfold transition. case_bool; [by destruct cb; simplify_eq/=|].
  by destruct (OnStateChange _).
Qed.

(** [transition] always lands in the target state, with everything else kept. *)
Lemma transition_eq to cb : ∃ out, transition to cb = (set_state to cb, out).
Proof.
  pose proof (transition_fst to cb). destruct (transition to cb) as [c o]; simpl in *.
  subst. by eexists.
Qed.

Ltac step_transition :=
  match goal with
  | |- context [transition ?to ?cb] =>
      let out := fresh "out" in let E := fresh "E" in
      destruct (transition_eq to cb) as [out E]; rewrite E; clear E
  | H : context [transition ?to ?cb] |- _ =>
      let out := fresh "out" in let E := fresh "E" in
      destruct (transition_eq to cb) as [out E]; rewrite E in H; clear E
  end.

Ltac unfold_wrap := rewrite ?wrap64_id in * by (unfold min_int64, max_int64 in *; lia).

Lemma New_wf nm c :
  MaxFailures c ≤ max_int64 → OpenTimeout c ≤ max_int64 → HalfOpenMax c ≤ max_int64 →
  wf (New nm c).
Proof.
  intros. unfold wf, New, cfg_ok, normalize, max_int64 in *; simpl in *.
  repeat case_bool; simpl; unfold Second; lia.
Qed.

(** Runs one operation on every state and branch, and closes the arithmetic. *)
Ltac run_op cb :=
  let Est := fresh "Est" in
  destruct (state cb) eqn:Est; simpl in *; rewrite ?Est in *;
  repeat (case_bool || step_transition; simpl in *); rewrite ?Est in *;
  simpl in *; simplify_eq; unfold_wrap; rewrite ?Est; simpl.

Lemma Allow_wf now cb : wf cb → wf (Allow now cb).1.1.
Proof. intros [Hc Hs]. unfold Allow, wf, cfg_ok in *. run_op cb; lia. Qed.

Lemma RecordSuccess_wf cb : wf cb → wf (RecordSuccess cb).1.
Proof. intros [Hc Hs]. unfold RecordSuccess, wf, cfg_ok in *. run_op cb; lia. Qed.

Lemma RecordFailure_wf now cb : wf cb → wf (RecordFailure now cb).1.
Proof. intros [Hc Hs]. unfold RecordFailure, wf, cfg_ok in *. run_op cb; lia. Qed.
#[export] Hint Resolve Allow_wf RecordSuccess_wf RecordFailure_wf : circuit.

Section execute.
Context `{StatusLib} {W A : Type} `{Clock W}.
Implicit Types (fn : M W A) (g : Guarded W).

Lemma Execute_rejected fn g :
  (Allow (Now (g_world g)) (g_cb g)).2 = false →
  Allow (Now (g_world g)) (g_cb g) = (g_cb g, [], false) →
  Execute fn g = (g, Err (open_error (g_cb g))).
Proof.
  intros _ E. unfold Execute. rewrite E. unfold put_cb; simpl.
  rewrite !app_nil_r. by destruct g.
Qed.

Lemma Execute_wf fn g : wf (g_cb g) → wf (g_cb (Execute fn g).1).
Proof.
  intros Hw. unfold Execute.
  pose proof (Allow_wf (Now (g_world g)) (g_cb g) Hw) as Ha.
  destruct (Allow _ _) as [[cb out] []]; simpl in *; [|done].
  destruct (fn (g_world g)) as [w [a|e]]; simpl; [auto with circuit|].
  destruct (counts_as_failure e); simpl; auto with circuit.
Qed.

(** The breaker after [Execute], when the call was let through. *)
Definition after_call (r : W * res A) (cb : CircuitBreaker) : CircuitBreaker :=
  match r with
  | (w, Err e) => if counts_as_failure e then (RecordFailure (Now w) cb).1 else cb
  | (_, Ok _) => (RecordSuccess cb).1
  end.

Lemma Execute_allowed fn g cb out :
  Allow (Now (g_world g)) (g_cb g) = (cb, out, true) →
  g_cb (Execute fn g).1 = after_call (fn (g_world g)) cb ∧
  g_world (Execute fn g).1 = (fn (g_world g)).1 ∧
  (Execute fn g).2 = (fn (g_world g)).2.
Proof.
  intros E. unfold Execute, after_call. rewrite E.
  destruct (fn (g_world g)) as [w [a|e]]; simpl; [done|].
  by destruct (counts_as_failure e).
Qed.
End execute.

(** ** Sequential behaviour of a guarded service *)

Section sequential.
Context `{StatusLib} {W A : Type} `{Clock W}.
Implicit Types (fn : M W A) (g : Guarded W).

(** A call that fails with an error the breaker counts, whatever the world. *)
Definition always_fails fn : Prop :=
  ∀ w, ∃ w' e, fn w = (w', Err e) ∧ counts_as_failure e = true.

(** Calls made one after the other by one goroutine. *)
Fixpoint run_calls (fns : list (M W A)) (g : Guarded W) : Guarded W :=
  match fns with
  | [] => g
  | fn :: fns => run_calls fns (Execute fn g).1
  end.

Lemma fail_closed fn g :
  wf (g_cb g) → state (g_cb g) = StateClosed → always_fails fn →
  let cb := g_cb (Execute fn g).1 in
  cfg cb = cfg (g_cb g) ∧
  if failures (g_cb g) + 1 <? MaxFailures (cfg (g_cb g))
  then state cb = StateClosed ∧ failures cb = failures (g_cb g) + 1
  else state cb = StateOpen.
Proof.
  intros [Hc Hs] Est Hf. destruct (Hf (g_world g)) as (w & e & Hfn & He).
  rewrite Est in Hs. unfold cfg_ok in Hc.
  destruct (Execute_allowed fn g (g_cb g) []) as (-> & _); [by unfold Allow; rewrite Est|].
  rewrite Hfn; simpl; rewrite He. unfold RecordFailure; simpl; rewrite Est.
  rewrite wrap64_id by (unfold min_int64; lia).
  repeat (case_bool || step_transition; simpl in *); auto; lia.
Qed.

Lemma fail_open fn g :
  wf (g_cb g) → state (g_cb g) = StateOpen → always_fails fn →
  cfg (g_cb (Execute fn g).1) = cfg (g_cb g) ∧ state (g_cb (Execute fn g).1) = StateOpen.
Proof.
  intros [Hc Hs] Est Hf. destruct (Hf (g_world g)) as (w & e & Hfn & He).
  unfold Execute, Allow. rewrite Est.
  repeat (case_bool || step_transition; simpl); [|done].
  rewrite Hfn, He; simpl. unfold RecordFailure; simpl.
  by step_transition.
Qed.

Lemma run_calls_open fns g :
  wf (g_cb g) → state (g_cb g) = StateOpen → Forall always_fails fns →
  state (g_cb (run_calls fns g)) = StateOpen.
Proof.
  intros Hw Hs Hf. revert g Hw Hs.
  induction Hf as [|fn fns Hfn Hf IH]; intros g Hw Hs; simpl; [done|].
  apply IH; [by apply Execute_wf|by apply fail_open].
Qed.

Lemma run_calls_closed fns g :
  wf (g_cb g) → state (g_cb g) = StateClosed → Forall always_fails fns →
  let n := failures (g_cb g) + Z.of_nat (length fns) in
  if n <? MaxFailures (cfg (g_cb g))
  then state (g_cb (run_calls fns g)) = StateClosed ∧ failures (g_cb (run_calls fns g)) = n
  else state (g_cb (run_calls fns g)) = StateOpen.
Proof.
  intros Hw Hs Hf. revert g Hw Hs.
  induction Hf as [|fn fns Hfn Hf IH]; intros g Hw Hs; simpl.
  { destruct Hw as [_ Hw]. rewrite Hs in Hw. case_bool; [split; [done|lia]|lia]. }
  pose proof (fail_closed fn g Hw Hs Hfn) as [Hcfg Hstep].
  pose proof (Execute_wf fn g Hw) as Hw'.
  destruct (Z.ltb_spec (failures (g_cb g) + 1) (MaxFailures (cfg (g_cb g)))).
  - destruct Hstep as [Hs' Hn]. specialize (IH _ Hw' Hs').
    cbv zeta in IH. rewrite Hcfg, Hn in IH. repeat case_bool; try lia; [|done].
    destruct IH as [-> ->]. split; [done|lia].
  - rewrite run_calls_open by done. case_bool; [lia|done].
Qed.

(** As long as the calls are let through, the breaker's last failure is that of the last call. *)
Lemma run_calls_last fns g :
  wf (g_cb g) → state (g_cb g) = StateClosed → Forall always_fails fns →
  failures (g_cb g) + Z.of_nat (length fns) ≤ MaxFailures (cfg (g_cb g)) → fns ≠ [] →
  name (g_cb (run_calls fns g)) = name (g_cb g) ∧ cfg (g_cb (run_calls fns g)) = cfg (g_cb g) ∧
  lastFailure (g_cb (run_calls fns g)) = Now (g_world (run_calls fns g)).
Proof.
  intros Hw Hs Hf. revert g Hw Hs. induction Hf as [|fn fns Hfn Hf IH]; intros g Hw Hs Hn Hne; [done|]. simpl in *.
  assert (name (g_cb (Execute fn g).1) = name (g_cb g) ∧
    lastFailure (g_cb (Execute fn g).1) = Now (g_world (Execute fn g).1)) as [Hname Hlast].
  { destruct (Execute_allowed fn g (g_cb g) []) as (-> & -> & _); [by unfold Allow; rewrite Hs|].
    destruct (Hfn (g_world g)) as (w & e & -> & He). simpl. rewrite He. unfold RecordFailure. simpl. rewrite Hs.
    repeat (case_bool || step_transition; simpl); done. }
  pose proof (fail_closed fn g Hw Hs Hfn) as [Hcfg Hstep].
  destruct fns as [|fn' fns]; [cbn [run_calls]; by rewrite Hname, Hcfg, Hlast|].
  pose proof (Execute_wf fn g Hw) as Hw'.
  destruct (Z.ltb_spec (failures (g_cb g) + 1) (MaxFailures (cfg (g_cb g)))) as [Hlt|Hge]; [|simpl in *; lia].
  destruct Hstep as [Hs' Hc]. rewrite <- Hname, <- Hcfg. apply IH; try done. rewrite Hcfg, Hc. simpl in *. lia.
Qed.
End sequential.

(** ** Properties of the sequential breaker *)

Section properties.
Context `{StatusLib} {W A : Type} `{Clock W}.
Implicit Types (fn : M W A) (g : Guarded W).

(** Everything that can happen to a breaker used by one goroutine: guarded
    calls, and the world (so the clock) changing in between. *)
Inductive later : Guarded W → Guarded W → Prop :=
| later_refl g : later g g
| later_wait g g' w :
    later g g' → later g {| g_cb := g_cb g'; g_out := g_out g'; g_world := w |}
| later_call g g' (fn : M W A) : later g g' → later g (Execute fn g').1.

Lemma exhausted_rejects fn g :
  state (g_cb g) = StateHalfOpen →
  HalfOpenMax (cfg (g_cb g)) ≤ halfOpenReq (g_cb g) →
  Execute fn g = (g, Err (open_error (g_cb g))).
Proof.
  intros Hs Hle. assert (Allow (Now (g_world g)) (g_cb g) = (g_cb g, [], false)) as E.
  { unfold Allow. rewrite Hs. case_bool; [lia|done]. }
  apply Execute_rejected; by rewrite E.
Qed.

Lemma exhausted_later g g' :
  later g g' → state (g_cb g) = StateHalfOpen →
  HalfOpenMax (cfg (g_cb g)) ≤ halfOpenReq (g_cb g) → g_cb g' = g_cb g.
Proof.
  induction 1 as [|g g' w _ IH|g g' fn _ IH]; intros Hs Hle; simpl; auto.
  specialize (IH Hs Hle). rewrite exhausted_rejects; rewrite ?IH; auto.
Qed.

Lemma allow_elapsed cb now :
  state cb = StateOpen → OpenTimeout (cfg cb) ≤ time_sub now (lastFailure cb) →
  ∃ out, Allow now cb = (set_halfOpenReq 1 (set_state StateHalfOpen cb), out, true).
Proof.
  intros Hs Hle. unfold Allow. rewrite Hs. case_bool; [|lia].
  step_transition. by eexists.
Qed.

(** C16: While fewer than [MaxFailures] calls have failed, one after the other, a fresh breaker is closed and counts them, and
    the next call runs, whenever it is made. From the [MaxFailures]-th consecutive failure on it is open: the next
    call after that failure is not run but refused with an error, until [OpenTimeout] has passed. *)
Theorem breaker_trips nm c (fns : list (M W A)) g :
  MaxFailures c ≤ max_int64 → OpenTimeout c ≤ max_int64 → HalfOpenMax c ≤ max_int64 →
  g_cb g = New nm c → Forall always_fails fns →
  let g' := run_calls fns g in
  let n := Z.of_nat (length fns) in
  (n < MaxFailures (normalize c) →
     state (g_cb g') = StateClosed ∧ failures (g_cb g') = n ∧
     ∀ (fn : M W A) g2, g_cb g2 = g_cb g' → (g_world (Execute fn g2).1, (Execute fn g2).2) = fn (g_world g2)) ∧
  (MaxFailures (normalize c) ≤ n → state (g_cb g') = StateOpen) ∧
  (n = MaxFailures (normalize c) →
     ∀ (fn : M W A) g2, g_cb g2 = g_cb g' →
       time_sub (Now (g_world g2)) (Now (g_world g')) < OpenTimeout (normalize c) →
       Execute fn g2 = (g2, Err (open_error (New nm c)))).
Proof.
  intros Hm Ho Hh Hg Hf g' n. pose proof (New_wf nm c Hm Ho Hh) as Hwf.
  pose proof (run_calls_closed fns g) as Hr. cbv zeta in Hr.
  rewrite Hg in Hr. specialize (Hr Hwf eq_refl Hf).
  cbn [New cfg failures] in Hr. rewrite Z.add_0_l in Hr. fold g' n in Hr. split_and!.
  - intros Hn. case_bool; [|lia]. destruct Hr as [Hs Hc]. split_and!; [done..|]. intros fn g2 E.
    destruct (Execute_allowed fn g2 (g_cb g2) []) as (_ & -> & ->); [unfold Allow; by rewrite E, Hs|]. by destruct (fn _).
  - intros Hn. by case_bool; [lia|].
  - intros Hn fn g2 E Ht. case_bool; [lia|]. rename Hr into Hs.
    destruct (run_calls_last fns g) as (Hname & Hcfg & Hlast); rewrite ?Hg; [done..|unfold n in Hn; cbn [New failures cfg]; lia| |].
    { intros E0. pose proof (proj1 (proj1 Hwf)) as Hpos. change (cfg (New nm c)) with (normalize c) in Hpos.
      unfold n in Hn. rewrite E0 in Hn. simpl length in Hn. lia. }
    rewrite Hg in Hname, Hcfg. fold g' in Hname, Hcfg, Hlast.
    assert (Allow (Now (g_world g2)) (g_cb g2) = (g_cb g2, [], false)) as Ea.
    { unfold Allow. rewrite E, Hs, Hcfg, Hlast. simpl cfg. case_bool; [lia|done]. }
    rewrite (Execute_rejected fn g2 ltac:(by rewrite Ea) Ea). unfold open_error. rewrite E, Hname, Hcfg. done.
Qed.

(** C24: an open breaker answers at once, without running the call, until [OpenTimeout] has
    passed since the last failure; then it runs one trial call, whose result is
    returned: a success closes a breaker with [HalfOpenMax] 1, a counted
    failure opens it again from the failure's time. *)
Theorem open_fails_fast_then_probes fn g :
  wf (g_cb g) → state (g_cb g) = StateOpen →
  let elapsed := time_sub (Now (g_world g)) (lastFailure (g_cb g)) in
  let r := Execute fn g in
  (elapsed < OpenTimeout (cfg (g_cb g)) → r = (g, Err (open_error (g_cb g)))) ∧
  (OpenTimeout (cfg (g_cb g)) ≤ elapsed →
    (g_world r.1, r.2) = fn (g_world g) ∧
    match fn (g_world g) with
    | (_, Ok _) =>
        HalfOpenMax (cfg (g_cb g)) = 1 →
        state (g_cb r.1) = StateClosed ∧ failures (g_cb r.1) = 0
    | (w, Err e) =>
        counts_as_failure e = true →
        state (g_cb r.1) = StateOpen ∧ lastFailure (g_cb r.1) = Now w
    end).
Proof.
  intros [Hc Hs] Est elapsed r. rewrite Est in Hs. split; intros He.
  - assert (Allow (Now (g_world g)) (g_cb g) = (g_cb g, [], false)) as E.
    { unfold Allow. rewrite Est. case_bool; [unfold elapsed in *; lia|done]. }
    apply Execute_rejected; by rewrite E.
  - destruct (allow_elapsed _ _ Est He) as [out E].
    destruct (Execute_allowed fn g _ _ E) as (Ecb & Ew & Er). unfold r.
    rewrite Ecb, Ew, Er. split; [by destruct (fn _)|].
    destruct (fn (g_world g)) as [w [a|e]]; simpl.
    + intros E1. unfold RecordSuccess; simpl. destruct Hs as [-> _].
      rewrite E1. by step_transition.
    + intros ->. unfold RecordFailure; simpl. by step_transition.
Qed.

(** a trial call that ends in an error the breaker does not count (a
    cancelled or timed-out call) leaves a breaker with [HalfOpenMax] 1 rejecting
    every later call, without running it, at whatever time it is made. *)
Theorem uncounted_trial_wedges_breaker fn g w e :
  wf (g_cb g) → state (g_cb g) = StateOpen → HalfOpenMax (cfg (g_cb g)) = 1 →
  OpenTimeout (cfg (g_cb g)) ≤ time_sub (Now (g_world g)) (lastFailure (g_cb g)) →
  fn (g_world g) = (w, Err e) → counts_as_failure e = false →
  ∀ g' fn', later (Execute fn g).1 g' →
    Execute fn' g' = (g', Err (open_error (g_cb g'))).
Proof.
  intros Hw Est E1 He Hfn Hce g' fn' Hl.
  destruct (allow_elapsed _ _ Est He) as [out E].
  destruct (Execute_allowed fn g _ _ E) as (Ecb & _).
  rewrite Hfn in Ecb; simpl in Ecb. rewrite Hce in Ecb.
  assert (g_cb g' = g_cb (Execute fn g).1) as E'.
  { apply exhausted_later; [done|by rewrite Ecb|rewrite Ecb; simpl; lia]. }
  apply exhausted_rejects; rewrite E', Ecb; simpl; [done|lia].
Qed.
End properties.

(** A world that is only a clock, and calls on it. *)
#[local] Instance clock_Z : Clock Z := λ t, t.
Definition refused : M Z unit := λ t, (t + Second, Err (StatusErr Unavailable "connection refused")).
Definition timed_out : M Z unit := λ t, (t + Second, Err (StatusErr DeadlineExceeded "deadline exceeded")).

Definition fresh_guard : Guarded Z :=
  {| g_cb := New "identity" DefaultConfig; g_out := []; g_world := 0 |}.

Lemma refused_always_fails : always_fails refused.
Proof. intros w. by eexists _, _. Qed.

Lemma refusals k : Forall always_fails (replicate k refused).
Proof. apply Forall_replicate, refused_always_fails. Qed.

Lemma breaker_trips_witness :
  (Execute refused (run_calls (replicate 4 refused) fresh_guard)).2 = Err (StatusErr Unavailable "connection refused") ∧
  (Execute refused (run_calls (replicate 5 refused) fresh_guard)).2 =
    Err (StatusErr Unavailable "circuit breaker [identity] is OPEN (retry after 30s)").
Proof.
  assert (MaxFailures DefaultConfig ≤ max_int64 ∧ OpenTimeout DefaultConfig ≤ max_int64 ∧
    HalfOpenMax DefaultConfig ≤ max_int64) as (H1 & H2 & H3) by (vm_compute; split_and!; discriminate).
  split.
  - destruct (breaker_trips "identity" DefaultConfig _ fresh_guard H1 H2 H3 eq_refl (refusals 4)) as [Hlow _].
    destruct (Hlow ltac:(vm_compute; reflexivity)) as (_ & _ & Hrun).
    exact (f_equal snd (Hrun refused _ eq_refl)).
  - destruct (breaker_trips "identity" DefaultConfig _ fresh_guard H1 H2 H3 eq_refl (refusals 5)) as (_ & _ & Hopen).
    rewrite (Hopen ltac:(vm_compute; reflexivity) refused _ eq_refl); vm_compute; reflexivity.
Defined.

(** The breaker of [fresh_guard] after five refused calls, [t] nanoseconds
    after the last one. *)
Definition opened_guard (t : Z) : Guarded Z :=
  let g := run_calls (replicate 5 refused) fresh_guard in
  {| g_cb := g_cb g; g_out := g_out g; g_world := g_world g + t |}.

Lemma opened_guard_wf t : wf (g_cb (opened_guard t)).
Proof. vm_compute. repeat split; discriminate. Qed.

Lemma open_fails_fast_then_probes_witness :
  Execute refused (opened_guard Second)
    = (opened_guard Second, Err (open_error (g_cb fresh_guard))) ∧
  (Execute refused (opened_guard (30 * Second))).2 = (refused (36 * Second)).2.
Proof.
  split.
  - apply (open_fails_fast_then_probes refused (opened_guard Second));
      [apply opened_guard_wf|done|by vm_compute].
  - pose proof (open_fails_fast_then_probes refused (opened_guard (30 * Second))
      (opened_guard_wf _) eq_refl) as [_ Hp].
    destruct Hp as [Hp _]; [by vm_compute|]. exact (f_equal snd Hp).
Defined.

Lemma uncounted_trial_wedges_breaker_witness :
  let g' := (Execute timed_out (opened_guard (30 * Second))).1 in
  Execute refused g' = (g', Err (open_error (g_cb g'))).
Proof.
  apply (uncounted_trial_wedges_breaker timed_out (opened_guard (30 * Second)) (36 * Second)
    (StatusErr DeadlineExceeded "deadline exceeded"));
    [apply opened_guard_wf|done|done|by vm_compute|done|done|apply later_refl].
Defined.

(** ** Many goroutines *)

Module Concurrent.

(** Where a goroutine running [Execute] is.  An admitted call carries the number
    of state changes the breaker had made when it was admitted. *)
Inductive Thread : Type :=
| Start
| InCallback (epoch : nat)   (* inside Allow, mutex released by transition *)
| Calling (epoch : nat)      (* fn() is running *)
| Done.

#[export] Instance Thread_eq_dec : EqDecision Thread.
Proof. solve_decision. Defined.

(** How the guarded call ended, as [Execute] tells them apart. *)
Inductive Outcome : Type := Success | Failure | Ignored.

Record Conc : Type := {
  c_cb : CircuitBreaker;
  c_now : Z;
  c_epoch : nat;
  c_threads : list Thread;
}.

(** What a goroutine does after the first critical section of [Allow]. *)
Inductive allow_result : Type := AllowCall | Rejected | RunCallback.

(** [Allow] up to where it first releases the mutex. *)
Definition Allow_first (now : Z) (cb : CircuitBreaker) : CircuitBreaker * allow_result :=
  match state cb with
  | StateClosed => (cb, AllowCall)
  | StateOpen =>
      if OpenTimeout (cfg cb) <=? time_sub now (lastFailure cb) then
        match OnStateChange (cfg cb) with
        | Some _ => (set_state StateHalfOpen cb, RunCallback)
        | None => (set_halfOpenReq 1 (set_state StateHalfOpen cb), AllowCall)
        end
      else (cb, Rejected)
  | StateHalfOpen =>
      if halfOpenReq cb <? HalfOpenMax (cfg cb)
      then (set_halfOpenReq (wrap64 (halfOpenReq cb + 1)) cb, AllowCall)
      else (cb, Rejected)
  end.

(** The rest of [Allow] once the callback returned and the mutex is held again. *)
Definition Allow_second (cb : CircuitBreaker) : CircuitBreaker := set_halfOpenReq 1 cb.

(** What [Execute] records when the call has ended.  The only callback is at the
    end of the critical section, so one step is enough. *)
Definition record (o : Outcome) (now : Z) (cb : CircuitBreaker) : CircuitBreaker :=
  match o with
  | Success => (RecordSuccess cb).1
  | Failure => (RecordFailure now cb).1
  | Ignored => cb
  end.

Definition next_epoch (cb cb' : CircuitBreaker) (n : nat) : nat :=
  if decide (state cb = state cb') then n else S n.

(** The breaker moves to [cb'] and goroutine [i] to [t]. *)
Definition move (i : nat) (t : nat → Thread) (cb' : CircuitBreaker) (w : Conc) : Conc :=
  let n := next_epoch (c_cb w) cb' (c_epoch w) in
  {| c_cb := cb'; c_now := c_now w; c_epoch := n; c_threads := <[i := t n]> (c_threads w) |}.

Definition after_allow (r : allow_result) (n : nat) : Thread :=
  match r with
  | AllowCall => Calling n
  | Rejected => Done
  | RunCallback => InCallback n
  end.

Inductive step : Conc → Conc → Prop :=
| step_time w t :
    c_now w ≤ t →
    step w {| c_cb := c_cb w; c_now := t; c_epoch := c_epoch w; c_threads := c_threads w |}
| step_allow w i cb' r :
    c_threads w !! i = Some Start →
    Allow_first (c_now w) (c_cb w) = (cb', r) →
    step w (move i (after_allow r) cb' w)
| step_resume w i n :
    c_threads w !! i = Some (InCallback n) →
    step w (move i (λ _, Calling n) (Allow_second (c_cb w)) w)
| step_finish w i n o :
    c_threads w !! i = Some (Calling n) →
    step w (move i (λ _, Done) (record o (c_now w) (c_cb w)) w).

Definition init (nm : string) (c : Config) (k : nat) : Conc :=
  {| c_cb := New nm c; c_now := 0; c_epoch := 0; c_threads := replicate k Start |}.

(** Trial calls in flight: calls running that were admitted since the breaker
    last changed state. *)
Definition trials (w : Conc) : nat :=
  countP (λ t, t = Calling (c_epoch w)) (c_threads w).

(** One goroutine running [Allow] alone sees the two segments in sequence. *)
Lemma Allow_segments now cb :
  (Allow now cb).1.1 =
    match Allow_first now cb with
    | (cb', RunCallback) => Allow_second cb'
    | (cb', _) => cb'
    end.
Proof.
  unfold Allow, Allow_first. destruct (state cb) eqn:E; try case_bool; try done.
  unfold transition. rewrite E, decide_False by done. simpl.
  by destruct (OnStateChange (cfg cb)).
Qed.

(** The invariant of a breaker without callback. *)
Definition thread_ok (n : nat) (t : Thread) : Prop :=
  match t with
  | Start | Done => True
  | InCallback _ => False
  | Calling m => (m ≤ n)%nat
  end.

Definition inv (c : Config) (w : Conc) : Prop :=
  wf (c_cb w) ∧ cfg (c_cb w) = normalize c ∧
  Forall (thread_ok (c_epoch w)) (c_threads w) ∧
  (state (c_cb w) = StateHalfOpen → Z.of_nat (trials w) ≤ halfOpenReq (c_cb w)).

Lemma thread_ok_mono n m t : (n ≤ m)%nat → thread_ok n t → thread_ok m t.
Proof. destruct t; simpl; lia. Qed.

Lemma inv_init nm c k :
  MaxFailures c ≤ max_int64 → OpenTimeout c ≤ max_int64 → HalfOpenMax c ≤ max_int64 →
  inv c (init nm c k).
Proof.
  intros. split; [by apply New_wf|]. split; [done|]. split; [|done].
  apply Forall_replicate; simpl; done.
Qed.

(** A move keeps the invariant when the breaker stays well-formed, and, in the
    half-open state, has counted the call it lets through. *)
Lemma inv_move c w i t cb' :
  inv c w → wf cb' → cfg cb' = cfg (c_cb w) →
  (∀ n, thread_ok n (t n)) →
  (state cb' = StateHalfOpen →
     if decide (state (c_cb w) = state cb')
     then halfOpenReq (c_cb w) + (if decide (t (c_epoch w) = Calling (c_epoch w)) then 1 else 0)
          ≤ halfOpenReq cb'
     else True) →
  inv c (move i t cb' w).
Proof.
  intros (Hw & Hcfg & Hth & Htr) Hw' Hcfg' Ht Hreq.
  assert (Forall (thread_ok (next_epoch (c_cb w) cb' (c_epoch w))) (c_threads w)) as Hth'.
  { eapply Forall_impl; [exact Hth|]. intros ?. apply thread_ok_mono.
    unfold next_epoch. case_decide; lia. }
  split; [done|]. split; [by simpl; congruence|]. split; simpl.
  { apply Forall_insert; auto. }
  intros Hs. specialize (Hreq Hs). unfold trials; simpl. unfold next_epoch in *.
  destruct (decide (state (c_cb w) = state cb')) as [Heq|Hne].
  - pose proof (countP_insert_le (λ x, x = Calling (c_epoch w)) (c_threads w) i
      (t (c_epoch w))) as Hle. rewrite Heq in Htr. specialize (Htr Hs).
    unfold trials in Htr. repeat case_decide; lia.
  - pose proof (countP_insert_le (λ x, x = Calling (S (c_epoch w))) (c_threads w) i
      (t (S (c_epoch w)))) as Hle.
    rewrite (countP_none _ (c_threads w)) in Hle;
      [|eapply Forall_impl; [exact Hth|]; intros [] ? [=]; simpl in *; lia].
    destruct Hw' as [_ Hw']. rewrite Hs in Hw'. case_decide; lia.
Qed.

Lemma record_wf o now cb : wf cb → wf (record o now cb).
Proof. destruct o; simpl; auto with circuit. Qed.

Lemma record_cfg o now cb : cfg (record o now cb) = cfg cb.
Proof.
  destruct o; simpl; unfold RecordSuccess, RecordFailure; simpl;
    destruct (state cb) eqn:E; simpl; repeat (case_bool || step_transition; simpl); done.
Qed.

(** Recording an outcome never opens a half-open period, nor lowers its count. *)
Lemma record_half_open o now cb :
  state (record o now cb) = StateHalfOpen →
  state cb = StateHalfOpen ∧ halfOpenReq (record o now cb) = halfOpenReq cb.
Proof.
  destruct o; simpl; unfold RecordSuccess, RecordFailure; simpl;
    destruct (state cb) eqn:E; simpl; repeat (case_bool || step_transition; simpl);
    rewrite ?E; done.
Qed.

Lemma inv_step c w w' :
  OnStateChange c = None → inv c w → step w w' → inv c w'.
Proof.
  intros Hnone Hinv Hstep.
  assert (OnStateChange (cfg (c_cb w)) = None) as Hcb.
  { destruct Hinv as (_ & -> & _). done. }
  destruct Hstep as [w t Ht|w i cb' r Hi Ha|w i n Hi|w i n o Hi].
  - exact Hinv.
  - pose proof (Allow_segments (c_now w) (c_cb w)) as Hseg. rewrite Ha in Hseg.
    assert (r ≠ RunCallback) as Hr.
    { intros ->. unfold Allow_first in Ha. rewrite Hcb in Ha.
      destruct (state (c_cb w)); repeat case_bool; simplify_eq. }
    assert (wf cb') as Hw'.
    { replace cb' with (Allow (c_now w) (c_cb w)).1.1 by (destruct r; done).
      apply Allow_wf, Hinv. }
    assert (1 ≤ HalfOpenMax (cfg (c_cb w)) ≤ max_int64) as Hmax.
    { destruct Hinv as ((Hc & _) & _). unfold cfg_ok in Hc. lia. }
    assert (state (c_cb w) = StateHalfOpen → 1 ≤ halfOpenReq (c_cb w)) as Hlow.
    { destruct Hinv as ((_ & Hwf) & _). intros E. rewrite E in Hwf. lia. }
    apply inv_move; auto.
    + unfold Allow_first in Ha. rewrite Hcb in Ha.
      destruct (state (c_cb w)); repeat case_bool; simplify_eq; done.
    + intros n. destruct r; simpl; [lia|done|by destruct Hr].
    + intros Hs. unfold Allow_first in Ha. rewrite Hcb in Ha.
      destruct Hw' as [_ Hw']. rewrite Hs in Hw'.
      destruct (state (c_cb w)) eqn:E; repeat case_bool; simplify_eq/=; try congruence;
        try done; specialize (Hlow eq_refl);
        rewrite ?wrap64_id by (unfold min_int64; lia); lia.
  - exfalso. destruct Hinv as (_ & _ & Hth & _).
    by apply (Forall_lookup_1 _ _ _ _ Hth) in Hi.
  - apply inv_move; auto.
    + apply record_wf, Hinv.
    + apply record_cfg.
    + done.
    + intros [Hs Hreq]%record_half_open. rewrite Hreq.
      case_decide; [|done]. rewrite decide_False by done. lia.
Qed.

Lemma inv_rtc c w w' :
  OnStateChange c = None → rtc step w w' → inv c w → inv c w'.
Proof. induction 2; eauto using inv_step. Qed.

(** C25: in every interleaving of any number of goroutines, a breaker without
    [OnStateChange] never has more than [HalfOpenMax] trial calls in flight in a
    half-open period. *)
Theorem half_open_trials_bounded nm c k w :
  MaxFailures c ≤ max_int64 → OpenTimeout c ≤ max_int64 → HalfOpenMax c ≤ max_int64 →
  OnStateChange c = None → rtc step (init nm c k) w →
  state (c_cb w) = StateHalfOpen →
  Z.of_nat (trials w) ≤ HalfOpenMax (normalize c).
Proof.
  intros ??? Hnone Hr Hs.
  destruct (inv_rtc c _ _ Hnone Hr) as (Hw & <- & _ & Htr); [by apply inv_init|].
  destruct Hw as [_ Hw]. rewrite Hs in Hw. specialize (Htr Hs). lia.
Qed.

(** Executable schedules, to exhibit runs. *)
Inductive action : Type :=
| AtTime (t : Z)
| RunAllow (i : nat)
| Resume (i : nat)
| Finish (i : nat) (o : Outcome).

Definition act (a : action) (w : Conc) : option Conc :=
  match a with
  | AtTime t =>
      if c_now w <=? t then
        Some {| c_cb := c_cb w; c_now := t; c_epoch := c_epoch w; c_threads := c_threads w |}
      else None
  | RunAllow i =>
      match c_threads w !! i with
      | Some Start =>
          let '(cb', r) := Allow_first (c_now w) (c_cb w) in
          Some (move i (after_allow r) cb' w)
      | _ => None
      end
  | Resume i =>
      match c_threads w !! i with
      | Some (InCallback n) => Some (move i (λ _, Calling n) (Allow_second (c_cb w)) w)
      | _ => None
      end
  | Finish i o =>
      match c_threads w !! i with
      | Some (Calling _) => Some (move i (λ _, Done) (record o (c_now w) (c_cb w)) w)
      | _ => None
      end
  end.

Fixpoint acts (l : list action) (w : Conc) : option Conc :=
  match l with
  | [] => Some w
  | a :: l => match act a w with Some w' => acts l w' | None => None end
  end.

Lemma act_sound a w w' : act a w = Some w' → step w w'.
Proof.
  destruct a; simpl; repeat case_match; intros; simplify_eq.
  - apply step_time. by apply Z.leb_le.
  - by eapply step_allow.
  - by eapply step_resume.
  - by eapply step_finish.
Qed.

Lemma acts_sound l w w' : acts l w = Some w' → rtc step w w'.
Proof.
  revert w. induction l as [|a l IH]; intros w; simpl; [by intros [= ->]|].
  destruct (act a w) eqn:E; [|done]. intros H%IH.
  eapply rtc_l; [by eapply act_sound|done].
Qed.

(** Five goroutines fail and open the breaker.  After [OpenTimeout] a sixth enters
    [Allow] and is in the callback when a seventh gets through; the sixth then
    resumes. *)
Definition callback_race : list action :=
  flat_map (λ i, [RunAllow i; Finish i Failure]) (seq 0 5)
  ++ [AtTime (31 * Second); RunAllow 5; RunAllow 6; Resume 5].

(** with an [OnStateChange] callback, as the agent's client configures, two trial
    calls can be in flight in a half-open period of a breaker with [HalfOpenMax] 1,
    because [Allow] resets [halfOpenReq] after the callback released the mutex. *)
Theorem callback_breaks_trial_bound nm c f :
  MaxFailures c = 5 → OpenTimeout c = 30 * Second → HalfOpenMax c = 1 →
  OnStateChange c = Some f →
  ∃ w, rtc step (init nm c 7) w ∧ state (c_cb w) = StateHalfOpen ∧
       HalfOpenMax (cfg (c_cb w)) = 1 ∧ trials w = 2%nat.
Proof.
  intros Hm Ho Hh Hf. destruct c as [mf ot hm oc]; simpl in *. subst.
  match goal with |- context [init nm ?c 7] =>
    destruct (acts callback_race (init nm c 7)) as [w|] eqn:E end;
    [|by vm_compute in E].
  exists w. split; [by eapply acts_sound|].
  vm_compute in E. injection E as <-. done.
Qed.

Lemma half_open_trials_bounded_witness :
  ∃ w, rtc step (init "config" DefaultConfig 7) w ∧ state (c_cb w) = StateHalfOpen ∧
       Z.of_nat (trials w) ≤ HalfOpenMax (normalize DefaultConfig).
Proof.
  pose (l := flat_map (λ i, [RunAllow i; Finish i Failure]) (seq 0 5)
             ++ [AtTime (31 * Second); RunAllow 5; RunAllow 6]).
  destruct (acts l (init "config" DefaultConfig 7)) as [w|] eqn:E; [|by vm_compute in E].
  pose proof (acts_sound _ _ _ E) as Hr.
  assert (state (c_cb w) = StateHalfOpen) as Hs.
  { vm_compute in E. by injection E as <-. }
  exists w. split; [done|]. split; [done|].
  apply (half_open_trials_bounded "config" DefaultConfig 7); done.
Defined.

Lemma callback_breaks_trial_bound_witness :
  ∃ w, rtc step (init "identity"
    {| MaxFailures := 5; OpenTimeout := 30 * Second; HalfOpenMax := 1;
       OnStateChange := Some (λ n from to, n +:+ State_String from +:+ State_String to) |} 7) w
  ∧ state (c_cb w) = StateHalfOpen ∧ HalfOpenMax (cfg (c_cb w)) = 1 ∧ trials w = 2%nat.
Proof. by eapply callback_breaks_trial_bound. Defined.

End Concurrent.
