(* ===== verification/RateLimit.v ===== *)
(** pkg/ratelimit: the per-client request limiter in front of every service.

    The limiter's map is a [gmap]; [Allow] and [cleanup] hold the mutex for their
    whole body, so a run is a sequence of those two operations at the times read
    from the clock.  [New]'s goroutine is the possibility of a [Cleanup] event at
    any point of a run. *)

From S2P Require Import Prelude GoInt Grpc.

Record window : Type := { count : Z; resetAt : Z }.

#[export] Instance window_eq_dec : EqDecision window.
Proof. solve_decision. Defined.

Record Limiter : Type := {
  clients : gmap string window;
  maxReqs : Z;
  interval : Z;
}.

Definition set_clients (m : gmap string window) (l : Limiter) : Limiter :=
  {| clients := m; maxReqs := maxReqs l; interval := interval l |}.

Definition New (maxReqs interval : Z) : Limiter :=
  {| clients := ∅; maxReqs := maxReqs; interval := interval |}.

(** [now.After(w.resetAt)] *)
Definition expired (now : Z) (w : window) : bool := resetAt w <? now.

Definition Allow (now : Z) (clientIP : string) (l : Limiter) : Limiter * bool :=
  let fresh :=
    (set_clients (<[clientIP := {| count := 1; resetAt := now + interval l |}]> (clients l)) l,
     true) in
  match clients l !! clientIP with
  | None => fresh
  | Some w =>
      if expired now w then fresh
      else if maxReqs l <=? count w then (l, false)
      else (set_clients (<[clientIP := {| count := count w + 1; resetAt := resetAt w |}]>
                           (clients l)) l, true)
  end.

Definition cleanup (now : Z) (l : Limiter) : Limiter :=
  set_clients (filter (λ kw, expired now kw.2 = false) (clients l)) l.

(** ** The interceptor *)

(** A service state [W] behind the limiter. *)
Record Limited (W : Type) : Type := { lm_limiter : Limiter; lm_world : W }.
Arguments lm_limiter {W}.
Arguments lm_world {W}.

(** A handler of [W] run behind the limiter [l]. *)
Definition lift_world {W A} (l : Limiter) (r : W * res A) : Limited W * res A :=
  ({| lm_limiter := l; lm_world := r.1 |}, r.2).

Definition rate_limit_error : error := StatusErr ResourceExhausted "rate limit exceeded".

Definition UnaryInterceptor {W Req Resp} `{Clock W} (ctx : Context) (req : Req)
    (handler : UnaryHandler W Req Resp) : M (Limited W) Resp := λ s,
  let clientIP := default "unknown" (ctx_peer ctx) in
  let '(l, ok) := Allow (Now (lm_world s)) clientIP (lm_limiter s) in
  if ok then lift_world l (handler ctx req (lm_world s))
  else ({| lm_limiter := l; lm_world := lm_world s |}, Err rate_limit_error).

(** ** Runs *)

Inductive event : Type :=
| Request (now : Z) (clientIP : string)
| Cleanup (now : Z).

Definition event_time (e : event) : Z :=
  match e with Request t _ => t | Cleanup t => t end.

(** The events of a run in the order they took the mutex, with the clock not
    going back. *)
Fixpoint ordered (t : Z) (es : list event) : Prop :=
  match es with
  | [] => True
  | e :: es => t ≤ event_time e ∧ ordered (event_time e) es
  end.

Definition handle_event (e : event) (l : Limiter) : Limiter * list (string * bool) :=
  match e with
  | Request t ip => let '(l', b) := Allow t ip l in (l', [(ip, b)])
  | Cleanup t => (cleanup t l, [])
  end.

(** The limiter after a run, and the decision for each request. *)
Fixpoint run (es : list event) (l : Limiter) : Limiter * list (string * bool) :=
  match es with
  | [] => (l, [])
  | e :: es =>
      let '(l1, d) := handle_event e l in
      let '(l2, ds) := run es l1 in (l2, d ++ ds)
  end.

Definition is_request (e : event) : Prop :=
  match e with Request _ _ => True | Cleanup _ => False end.
#[export] Instance is_request_dec e : Decision (is_request e).
Proof. destruct e; simpl; apply _. Defined.

Definition admitted (ip : string) (ds : list (string * bool)) : nat :=
  countP (λ d, d = (ip, true)) ds.

(** ** Cleaning up does not change any decision *)

(** The window a request at [t] would find, once expired ones are ignored. *)
Definition live (t : Z) (w : option window) : option window :=
  match w with
  | Some w => if expired t w then None else Some w
  | None => None
  end.

(** Limiters that answer alike from time [t] on. *)
Record equiv_at (t : Z) (l1 l2 : Limiter) : Prop := {
  equiv_live ip : live t (clients l1 !! ip) = live t (clients l2 !! ip);
  equiv_max : maxReqs l1 = maxReqs l2;
  equiv_interval : interval l1 = interval l2;
}.

#[export] Instance equiv_at_equivalence t : Equivalence (equiv_at t).
Proof.
  split.
  - by intros l.
  - by intros l1 l2 [].
  - intros l1 l2 l3 [H1 ? ?] [H2 ? ?]. split; [intros ip; by rewrite H1|congruence..].
Qed.

Lemma live_mono t t' w w' : t ≤ t' → live t w = live t w' → live t' w = live t' w'.
Proof.
  intros Ht. unfold live, expired. destruct w as [w|], w' as [w'|]; simpl;
    repeat case_bool; intros; simplify_eq; try done; try lia.
Qed.

Lemma equiv_at_mono t t' l1 l2 : t ≤ t' → equiv_at t l1 l2 → equiv_at t' l1 l2.
Proof. intros Ht [H ? ?]. split; [|done..]. intros ip. by eapply live_mono. Qed.

Lemma Allow_live t ip l :
  Allow t ip l =
    match live t (clients l !! ip) with
    | None =>
        (set_clients (<[ip := {| count := 1; resetAt := t + interval l |}]> (clients l)) l, true)
    | Some w =>
        if maxReqs l <=? count w then (l, false)
        else (set_clients (<[ip := {| count := count w + 1; resetAt := resetAt w |}]>
                             (clients l)) l, true)
    end.
Proof.
  unfold Allow, live. destruct (clients l !! ip) as [w|]; [|done].
  by destruct (expired t w).
Qed.

Lemma equiv_at_insert t ip w l1 l2 :
  equiv_at t l1 l2 →
  equiv_at t (set_clients (<[ip := w]> (clients l1)) l1)
             (set_clients (<[ip := w]> (clients l2)) l2).
Proof.
  intros [H ? ?]. split; [|done..]. intros ip'; simpl.
  destruct (decide (ip = ip')) as [->|]; simplify_map_eq; auto.
Qed.

#[export] Instance Allow_proper t ip :
  Proper (equiv_at t ==> prod_relation (equiv_at t) eq) (Allow t ip).
Proof.
  intros l1 l2 He. rewrite !Allow_live. pose proof He as [Hl Hm Hi].
  rewrite Hl, Hm, Hi. destruct (live t (clients l2 !! ip)) as [w|].
  - case_bool; split; simpl; auto using equiv_at_insert.
  - split; simpl; auto using equiv_at_insert.
Qed.

Lemma cleanup_lookup t ip l : clients (cleanup t l) !! ip = live t (clients l !! ip).
Proof.
  unfold cleanup, live; simpl. destruct (clients l !! ip) as [w|] eqn:E.
  - destruct (expired t w) eqn:Ex.
    + apply map_lookup_filter_None_2. right. intros w' Hw. simpl. congruence.
    + by apply map_lookup_filter_Some_2.
  - apply map_lookup_filter_None_2. by left.
Qed.

Lemma live_idemp t w : live t (live t w) = live t w.
Proof. destruct w as [w|]; simpl; [|done]. destruct (expired t w) eqn:E; simpl; by rewrite ?E. Qed.

Lemma cleanup_equiv t l : equiv_at t (cleanup t l) l.
Proof. split; [|done..]. intros ip. by rewrite cleanup_lookup, live_idemp. Qed.

Lemma run_equiv es t l1 l2 :
  ordered t es → equiv_at t l1 l2 → (run es l1).2 = (run (filter is_request es) l2).2.
Proof.
  revert t l1 l2. induction es as [|e es IH]; intros t l1 l2; simpl; [done|].
  intros [Ht Ho] He. apply (equiv_at_mono _ _ _ _ Ht) in He.
  rewrite filter_cons. destruct e as [t' ip|t']; simpl in *.
  - pose proof (Allow_proper t' ip _ _ He) as Hp.
    destruct (Allow t' ip l1) as [l1' b1] eqn:E1.
    destruct (Allow t' ip l2) as [l2' b2] eqn:E2.
    destruct Hp as [Hp Hb]; simpl in *; subst. specialize (IH t' l1' l2' Ho Hp).
    destruct (run es l1') as [? ?], (run _ l2') as [? ?]; simpl in *. congruence.
  -
    specialize (IH t' (cleanup t' l1) l2 Ho).
    destruct (run es (cleanup t' l1)); simpl in *. apply IH. by rewrite cleanup_equiv.
Qed.

(** ** The bound on admitted requests *)

(** A window admits at least the request that opened it, whatever [maxReqs]. *)
Definition quota (l : Limiter) : Z := Z.max 1 (maxReqs l).

Definition limiter_ok (l : Limiter) : Prop :=
  ∀ ip w, clients l !! ip = Some w → 1 ≤ count w ≤ quota l.

(** What [ip] can still be granted by time [b]: what is left of its window, and one
    more whole window if this one ends before [b]. *)
Definition budget (b : Z) (ip : string) (l : Limiter) : Z :=
  match clients l !! ip with
  | None => quota l
  | Some w => quota l - count w + (if b <=? resetAt w then 0 else quota l)
  end.

Lemma New_ok m i : limiter_ok (New m i).
Proof. intros ip w. simpl. by rewrite lookup_empty. Qed.

Lemma insert_ok ip w l :
  limiter_ok l → 1 ≤ count w ≤ quota l →
  limiter_ok (set_clients (<[ip := w]> (clients l)) l).
Proof.
  intros Hl Hw ip' w'; simpl. rewrite lookup_insert_Some.
  intros [[_ <-]|[_ H]]; [done|by apply (Hl ip')].
Qed.

(** The three ways [Allow] answers. *)
Lemma Allow_cases t ip l :
  (live t (clients l !! ip) = None ∧
   Allow t ip l =
     (set_clients (<[ip := {| count := 1; resetAt := t + interval l |}]> (clients l)) l, true)) ∨
  (∃ w, clients l !! ip = Some w ∧ t ≤ resetAt w ∧
    ((maxReqs l ≤ count w ∧ Allow t ip l = (l, false)) ∨
     (count w < maxReqs l ∧
      Allow t ip l =
        (set_clients (<[ip := {| count := count w + 1; resetAt := resetAt w |}]> (clients l)) l,
         true)))).
Proof.
  rewrite Allow_live. destruct (live t (clients l !! ip)) as [w|] eqn:E; [right|by left].
  exists w. unfold live, expired in E. destruct (clients l !! ip) as [w'|]; [|done].
  destruct (Z.ltb_spec (resetAt w') t); simplify_eq.
  split; [done|]. split; [done|]. case_bool; auto.
Qed.

Lemma Allow_ok t ip l : limiter_ok l → limiter_ok (Allow t ip l).1.
Proof.
  intros Hl. destruct (Allow_cases t ip l) as [[_ ->]|(w & Hw & _ & [[_ ->]|[? ->]])]; simpl.
  - apply insert_ok; [done|]. unfold quota; simpl. lia.
  - done.
  - apply insert_ok; [done|]. apply Hl in Hw. unfold quota in *; simpl. lia.
Qed.

Lemma cleanup_ok t l : limiter_ok l → limiter_ok (cleanup t l).
Proof. intros Hl ip w. simpl. rewrite map_lookup_filter_Some. intros [H _]. by apply (Hl ip). Qed.

Lemma Allow_cfg t ip l :
  maxReqs (Allow t ip l).1 = maxReqs l ∧ interval (Allow t ip l).1 = interval l.
Proof. by destruct (Allow_cases t ip l) as [[_ ->]|(w & _ & _ & [[_ ->]|[_ ->]])]. Qed.

Lemma budget_insert b ip ip' w l :
  budget b ip (set_clients (<[ip' := w]> (clients l)) l) =
    if decide (ip' = ip) then quota l - count w + (if b <=? resetAt w then 0 else quota l)
    else budget b ip l.
Proof.
  unfold budget, quota; simpl. rewrite lookup_insert. by case_decide.
Qed.

(** Each grant to [ip] uses up one unit of its budget. *)
Lemma Allow_budget a b t ip ip' l :
  limiter_ok l → b ≤ a + interval l → a ≤ t ≤ b →
  (if decide ((Allow t ip' l).2 = true ∧ ip' = ip) then 1 else 0)
    + budget b ip (Allow t ip' l).1 ≤ budget b ip l.
Proof.
  intros Hl Hab Ht.
  destruct (Allow_cases t ip' l) as [[Hlive ->]|(w & Hw & Hr & [[Hc ->]|[Hc ->]])];
    cbn [fst snd];
    [|rewrite decide_False by naive_solver; lia|]; rewrite budget_insert;
    (destruct (decide (ip' = ip)) as [->|];
      [rewrite decide_True by done|rewrite decide_False by naive_solver; lia]);
    unfold budget; simpl.
  - unfold live, expired in Hlive. destruct (clients l !! ip) as [w|] eqn:E.
    + apply Hl in E. repeat case_bool; simplify_eq; lia.
    + case_bool; lia.
  - rewrite Hw. case_bool; lia.
Qed.

Lemma cleanup_budget b t ip l :
  limiter_ok l → t ≤ b → budget b ip (cleanup t l) ≤ budget b ip l.
Proof.
  intros Hl Ht. unfold budget. rewrite cleanup_lookup. unfold live, expired.
  destruct (clients l !! ip) as [w|] eqn:E; [|done].
  apply Hl in E. unfold quota in *; simpl. repeat case_bool; lia.
Qed.

Lemma budget_nonneg b ip l : limiter_ok l → 0 ≤ budget b ip l ≤ 2 * quota l.
Proof.
  intros Hl. unfold budget. destruct (clients l !! ip) as [w|] eqn:E; [apply Hl in E|];
    unfold quota in *; repeat case_bool; lia.
Qed.

Lemma run_budget a b t ip es l :
  limiter_ok l → b ≤ a + interval l → a ≤ t → ordered t es →
  Forall (λ e, event_time e ≤ b) es →
  Z.of_nat (admitted ip (run es l).2) ≤ budget b ip l.
Proof.
  unfold admitted. intros Hl Hab Ha Ho Hb. revert t l Hl Hab Ha Ho.
  induction Hb as [|e es He Hb IH]; intros t l Hl Hab Ha Ho; simpl.
  { pose proof (budget_nonneg b ip l Hl). unfold countP; simpl. lia. }
  destruct Ho as [Ht Ho]. destruct e as [t' ip'|t']; simpl in *.
  - pose proof (Allow_budget a b t' ip ip' l Hl Hab) as Hbud.
    pose proof (Allow_ok t' ip' l Hl) as Hl'.
    destruct (Allow_cfg t' ip' l) as [_ Hi].
    destruct (Allow t' ip' l) as [l1 d]; simpl in *.
    specialize (IH t' l1 Hl' ltac:(lia) ltac:(lia) Ho).
    destruct (run es l1) as [l2 ds]; simpl in *. rewrite countP_cons.
    specialize (Hbud ltac:(lia)).
    repeat case_decide; naive_solver lia.
  - specialize (IH t' (cleanup t' l) (cleanup_ok _ _ Hl) Hab ltac:(lia) Ho).
    pose proof (cleanup_budget b t' ip l Hl ltac:(lia)).
    destruct (run es (cleanup t' l)) as [l2 ds]; simpl in *. lia.
Qed.

Lemma run_cfg es l :
  maxReqs (run es l).1 = maxReqs l ∧ interval (run es l).1 = interval l.
Proof.
  revert l. induction es as [|e es IH]; intros l; simpl; [done|].
  destruct e as [t ip|t]; simpl.
  - pose proof (Allow_cfg t ip l) as Hc. destruct (Allow t ip l) as [l1 b]; simpl in *.
    specialize (IH l1). destruct (run es l1); simpl in *. intuition congruence.
  - specialize (IH (cleanup t l)). destruct (run es _); done.
Qed.

Lemma run_ok es l : limiter_ok l → limiter_ok (run es l).1.
Proof.
  revert l. induction es as [|e es IH]; intros l Hl; simpl; [done|].
  destruct e as [t ip|t]; simpl.
  - pose proof (Allow_ok t ip l Hl) as Hl1. destruct (Allow t ip l) as [l1 b]; simpl in *.
    specialize (IH l1 Hl1). by destruct (run es l1).
  - specialize (IH _ (cleanup_ok t l Hl)). by destruct (run es _).
Qed.

(** ** Requests of other clients do not matter *)

Definition concerns (ip : string) (e : event) : Prop :=
  match e with Request _ ip' => ip' = ip | Cleanup _ => True end.
#[export] Instance concerns_dec ip e : Decision (concerns ip e).
Proof. destruct e; simpl; apply _. Defined.

(** The limiters treat [ip] alike. *)
Record same_client (ip : string) (l1 l2 : Limiter) : Prop := {
  same_window : clients l1 !! ip = clients l2 !! ip;
  same_max : maxReqs l1 = maxReqs l2;
  same_interval : interval l1 = interval l2;
}.

Lemma Allow_same t ip l1 l2 :
  same_client ip l1 l2 →
  (Allow t ip l1).2 = (Allow t ip l2).2 ∧ same_client ip (Allow t ip l1).1 (Allow t ip l2).1.
Proof.
  intros [Hw Hm Hi]. unfold Allow. rewrite Hw, Hm, Hi.
  destruct (clients l2 !! ip) as [w|] eqn:E; [destruct (expired t w); [|case_bool]|];
    (split; [done|]); split; simpl; rewrite ?lookup_insert_eq; congruence.
Qed.

Lemma Allow_other t ip ip' l : ip' ≠ ip → same_client ip (Allow t ip' l).1 l.
Proof.
  intros Hne. unfold Allow. destruct (clients l !! ip') as [w|];
    [destruct (expired t w); [|case_bool]|]; split; simpl; rewrite ?lookup_insert_ne; done.
Qed.

Lemma cleanup_same t ip l1 l2 :
  same_client ip l1 l2 → same_client ip (cleanup t l1) (cleanup t l2).
Proof. intros [Hw ? ?]. split; [|done..]. by rewrite !cleanup_lookup, Hw. Qed.

Lemma same_client_trans ip l1 l2 l3 :
  same_client ip l1 l2 → same_client ip l2 l3 → same_client ip l1 l3.
Proof. intros [] []. split; congruence. Qed.

(** The answers [ip] got, in order. *)
Definition answers (ip : string) (ds : list (string * bool)) : list (string * bool) :=
  filter (λ d, d.1 = ip) ds.

(** what a client is answered depends on its own requests and on the
    cleanups only: dropping every request of the other clients from a run
    leaves its answers as they are. *)
Theorem clients_do_not_interfere ip es l :
  answers ip (run es l).2 = answers ip (run (filter (concerns ip) es) l).2.
Proof.
  enough (∀ l', same_client ip l l' →
    answers ip (run es l).2 = answers ip (run (filter (concerns ip) es) l').2) as Hall
    by (by apply Hall).
  unfold answers. revert l. induction es as [|e es IH]; intros l l' Hs; [done|].
  rewrite filter_cons. destruct e as [t ip'|t]; simpl.
  - case_decide as Hip; simpl in *; subst; simpl.
    + destruct (Allow_same t ip l l' Hs) as [Hb Hs'].
      destruct (Allow t ip l) as [l1 b1], (Allow t ip l') as [l2 b2]; simpl in *; subst.
      specialize (IH l1 l2 Hs'). destruct (run es l1), (run _ l2); simpl in *.
      rewrite !filter_cons; simpl. rewrite !decide_True by done. by f_equal.
    + pose proof (Allow_other t ip ip' l Hip) as Ho.
      destruct (Allow t ip' l) as [l1 b1]; simpl in *.
      specialize (IH l1 l' (same_client_trans _ _ _ _ Ho Hs)).
      destruct (run es l1); simpl in *. rewrite filter_cons; simpl. by rewrite decide_False.
  - specialize (IH _ _ (cleanup_same t ip l l' Hs)).
    by destruct (run es (cleanup t l)), (run _ (cleanup t l')).
Qed.

(** C40: the cleanup goroutine is invisible: whenever it runs, every request
    is answered as if it never had. *)
Theorem cleanup_transparent es t l :
  ordered t es → (run es l).2 = (run (filter is_request es) l).2.
Proof. intros Ho. by apply (run_equiv es t). Qed.

(** C27: within any span of [interval], at any point of the limiter's life, a
    client is granted at most twice the larger of [maxReqs] and 1. *)
Theorem requests_bounded m i es0 es t a ip :
  let l := (run es0 (New m i)).1 in
  a ≤ t → ordered t es → Forall (λ e, event_time e ≤ a + i) es →
  Z.of_nat (admitted ip (run es l).2) ≤ 2 * Z.max 1 m.
Proof.
  intros l Ha Ho Hb. pose proof (run_ok es0 _ (New_ok m i)) as Hl.
  destruct (run_cfg es0 (New m i)) as [Hm Hi]. fold l in Hl, Hm, Hi.
  pose proof (run_budget a (a + i) t ip es l Hl ltac:(simpl in *; lia) Ha Ho Hb).
  pose proof (budget_nonneg (a + i) ip l Hl). unfold quota in *. simpl in *. lia.
Qed.

(** A client that opens a window, waits until it is about to end, and uses it
    up on both sides of its end. *)
Definition burst_start (ip : string) : list event := [Request 0 ip].
Definition burst (m : nat) (i : Z) (ip : string) : list event :=
  replicate m (Request i ip) ++ replicate (S m) (Request (i + 1) ip).

Lemma run_app es1 es2 l :
  run (es1 ++ es2) l =
    ((run es2 (run es1 l).1).1, (run es1 l).2 ++ (run es2 (run es1 l).1).2).
Proof.
  revert l. induction es1 as [|e es1 IH]; intros l; simpl; [by destruct (run es2 l)|].
  destruct (handle_event e l) as [l1 d]. rewrite IH.
  destruct (run es1 l1); simpl. by rewrite app_assoc.
Qed.

(** Requests in a window with room for them are all granted. *)
Lemma run_fill k t ip l w :
  clients l !! ip = Some w → t ≤ resetAt w → count w + Z.of_nat k ≤ maxReqs l →
  admitted ip (run (replicate k (Request t ip)) l).2 = k ∧
  clients (run (replicate k (Request t ip)) l).1 !! ip =
    Some {| count := count w + Z.of_nat k; resetAt := resetAt w |}.
Proof.
  revert l w. induction k as [|k IH]; intros l w Hw Ht Hk; simpl.
  { rewrite Hw. destruct w; simpl. by rewrite Z.add_0_r. }
  assert (Allow t ip l = (set_clients (<[ip := {| count := count w + 1; resetAt := resetAt w |}]>
    (clients l)) l, true)) as E.
  { unfold Allow, expired. rewrite Hw. repeat case_bool; try lia; done. }
  rewrite E. specialize (IH (set_clients (<[ip := {| count := count w + 1; resetAt := resetAt w |}]>
    (clients l)) l) {| count := count w + 1; resetAt := resetAt w |}).
  destruct IH as [IH1 IH2]; simpl; [by rewrite lookup_insert_eq|done|lia|].
  destruct (run _ _) as [l2 ds]; simpl in *. unfold admitted in *.
  rewrite countP_cons, IH1, decide_True by done. split; [done|]. rewrite IH2. do 2 f_equal. lia.
Qed.

Lemma admitted_app ip ds1 ds2 : admitted ip (ds1 ++ ds2) = (admitted ip ds1 + admitted ip ds2)%nat.
Proof. unfold admitted, countP. by rewrite filter_app, length_app. Qed.

Lemma ordered_weaken t t' es : t' ≤ t → ordered t es → ordered t' es.
Proof. destruct es; simpl; [done|]. intros ? []. split; [lia|done]. Qed.

Lemma ordered_replicate k t t' ip es :
  t ≤ t' → ordered t' es → ordered t (replicate k (Request t' ip) ++ es).
Proof.
  revert t. induction k as [|k IH]; intros t Ht Ho; simpl; [by eapply ordered_weaken|].
  split; [done|]. by apply IH.
Qed.

(** the limit is per fixed window, not over a sliding one: with [maxReqs]
    [m + 1], a client can be granted [2 m + 1] requests within one nanosecond. *)
Theorem window_boundary_burst m i ip :
  0 ≤ i →
  let l := (run (burst_start ip) (New (Z.of_nat m + 1) i)).1 in
  Forall (λ e, i ≤ event_time e ≤ i + 1) (burst m i ip) ∧ ordered 0 (burst m i ip) ∧
  Z.of_nat (admitted ip (run (burst m i ip) l).2) = 2 * Z.of_nat m + 1.
Proof.
  intros Hi l. unfold burst. split_and!.
  - apply Forall_app. split; apply Forall_replicate; simpl; lia.
  - apply ordered_replicate; [lia|]. rewrite <- (app_nil_r (replicate (S m) _)).
    apply ordered_replicate; [lia|done].
  - assert (clients l !! ip = Some {| count := 1; resetAt := i |}) as Hw.
    { unfold l; simpl. unfold Allow; simpl. rewrite lookup_empty; simpl.
      by rewrite lookup_insert_eq. }
    destruct (run_cfg (burst_start ip) (New (Z.of_nat m + 1) i)) as [Hm Hint].
    fold l in Hm, Hint; simpl in Hm, Hint.
    rewrite run_app; simpl. rewrite admitted_app.
    destruct (run_fill m i ip l _ Hw) as [-> Hw1]; [simpl; lia..|].
    destruct (run_cfg (replicate m (Request i ip)) l) as [Hm1 Hint1].
    set (l1 := (run (replicate m (Request i ip)) l).1) in *.
    rewrite Allow_live, Hw1. unfold live, expired; simpl.
    case_bool; [|lia]. simpl.
    destruct (run_fill m (i + 1) ip
      (set_clients (<[ip := {| count := 1; resetAt := i + 1 + interval l1 |}]> (clients l1)) l1)
      {| count := 1; resetAt := i + 1 + interval l1 |}) as [Hc _];
      simpl; [by rewrite lookup_insert_eq|lia..|].
    unfold admitted in *.
    destruct (run (replicate m (Request (i + 1) ip)) _) as [l2 ds]; simpl in *.
    rewrite countP_cons, Hc, decide_True by done. lia.
Qed.

(** ** The interceptor *)

(** a request over the limit is answered ResourceExhausted and its handler does
    not run; any other request is answered by its handler, on the world as it was. *)
Lemma UnaryInterceptor_guards {W Req Resp} `{Clock W} (ctx : Context) (req : Req)
    (handler : UnaryHandler W Req Resp) (s : Limited W) :
  let client := default "unknown" (ctx_peer ctx) in
  let d := Allow (Now (lm_world s)) client (lm_limiter s) in
  lm_limiter (UnaryInterceptor ctx req handler s).1 = d.1 ∧
  (lm_world (UnaryInterceptor ctx req handler s).1, (UnaryInterceptor ctx req handler s).2) =
    if d.2 then handler ctx req (lm_world s) else (lm_world s, Err rate_limit_error).
Proof.
  unfold UnaryInterceptor. simpl. destruct (Allow _ _ _) as [l []]; simpl; [|done].
  by destruct (handler _ _ _).
Qed.

Lemma cleanup_transparent_witness :
  let es := [Request 0 "a"; Cleanup 5; Request 20 "a"; Cleanup 40; Request 41 "a"] in
  (run es (New 1 10)).2 = (run (filter is_request es) (New 1 10)).2.
Proof. apply (cleanup_transparent _ 0). simpl. lia. Defined.

Lemma requests_bounded_witness :
  let es := [Request 10 "a"; Request 12 "a"; Request 15 "a"] in
  let l := (run [Request 0 "a"; Cleanup 3] (New 1 10)).1 in
  Z.of_nat (admitted "a" (run es l).2) ≤ 2.
Proof.
  apply (requests_bounded 1 10 [Request 0 "a"; Cleanup 3]
    [Request 10 "a"; Request 12 "a"; Request 15 "a"] 10 10 "a"); simpl.
  - lia.
  - lia.
  - repeat constructor; simpl; lia.
Defined.

Lemma window_boundary_burst_witness :
  let l := (run (burst_start "10.0.0.1:50000") (New 100 Minute)).1 in
  Z.of_nat (admitted "10.0.0.1:50000" (run (burst 99 Minute "10.0.0.1:50000") l).2) = 199.
Proof. apply (window_boundary_burst 99 Minute "10.0.0.1:50000"). vm_compute. discriminate. Defined.
