(* ===== verification/Redis.v ===== *)
(** The Redis client (github.com/redis/go-redis) and server the config and discovery
    services keep their state in.

    Neither is part of the repository.  The class [Redis] is what the services call,
    with what can be observed of the server's data; [RedisLaws] states the
    documented effect and reply of each command, and that a command which returns an
    error has either taken effect or not.  [Sim] is an instance: a
    server in memory, with a script that says when time passes and which
    commands fail. *)

From S2P Require Import Prelude GoInt Grpc.

(** ** Commands *)

Inductive cmd : Type :=
| PING
| GET (k : string)
| SET (k v : string) (ttl : Z)      (* a [ttl] of 0 or less sets no expiry *)
| DEL (k : string)
| EXISTS (k : string)
| EXPIRE (k : string) (ttl : Z)
| SADD (k m : string)
| SREM (k m : string)
| SMEMBERS (k : string)
| SCARD (k : string).

Inductive reply : Type :=
| RNil
| RStatus
| RStr (v : string)
| RInt (n : Z)
| RList (l : list string).

(** A string key's value and the time it expires, if it does. *)
Definition entry : Type := string * option Z.

(** What is left of an entry at time [t]. *)
Definition prune (t : Z) (e : option entry) : option entry :=
  match e with
  | Some (v, Some x) => if x <? t then None else Some (v, Some x)
  | _ => e
  end.

Definition expiry (t ttl : Z) : option Z := if ttl <=? 0 then None else Some (t + ttl).

(** A command's effect, at server time [t], on the entry of key [k] and on the set at [k]. *)
Definition after_entry (c : cmd) (t : Z) (k : string) (e : option entry) : option entry :=
  match c with
  | SET k' v ttl => if decide (k' = k) then Some (v, expiry t ttl) else e
  | DEL k' => if decide (k' = k) then None else e
  | EXPIRE k' ttl =>
      if decide (k' = k) then
        match e with
        | Some (v, _) => if ttl <=? 0 then None else Some (v, Some (t + ttl))
        | None => None
        end
      else e
  | _ => e
  end.

Definition after_set (c : cmd) (k : string) (s : gset string) : gset string :=
  match c with
  | SADD k' m => if decide (k' = k) then {[m]} ∪ s else s
  | SREM k' m => if decide (k' = k) then s ∖ {[m]} else s
  | _ => s
  end.

(** Commands that change no data. *)
Definition read_only (c : cmd) : bool :=
  match c with
  | PING | GET _ | EXISTS _ | SMEMBERS _ | SCARD _ => true
  | _ => false
  end.

Definition bool_int (b : bool) : Z := if b then 1 else 0.

(** The replies a command may get, given the data it ran on. *)
Definition reply_ok (c : cmd) (entry_of : string → option entry)
    (set_of : string → gset string) (r : reply) : Prop :=
  match c with
  | PING => r = RStatus
  | GET k => r = match entry_of k with Some (v, _) => RStr v | None => RNil end
  | SET _ _ _ => r = RStatus
  | DEL k | EXISTS k | EXPIRE k _ => r = RInt (bool_int (bool_decide (is_Some (entry_of k))))
  | SADD k m => r = RInt (bool_int (bool_decide (m ∉ set_of k)))
  | SREM k m => r = RInt (bool_int (bool_decide (m ∈ set_of k)))
  | SMEMBERS k => ∃ l, r = RList l ∧ NoDup l ∧ ∀ m, m ∈ l ↔ m ∈ set_of k
  | SCARD k => r = RInt (Z.of_nat (size (set_of k)))
  end.

(** ** The interface *)

(** [rtime] is the server's clock when the last command ran; [r_entry] and [r_set]
    are the live data at that time. *)
Class Redis (R : Type) : Type := {
  rdo : cmd → M R reply;
  rtime : R → Z;
  r_entry : R → string → option entry;
  r_set : R → string → gset string;
}.
#[export] Hint Mode Redis + : typeclass_instances.

(** [c] took effect between [s] and [s']. *)
Definition did `{Redis R} (c : cmd) (s s' : R) : Prop :=
  rtime s ≤ rtime s' ∧
  (∀ k, r_entry s' k = after_entry c (rtime s') k (prune (rtime s') (r_entry s k))) ∧
  (∀ k, r_set s' k = after_set c k (r_set s k)).

(** Nothing happened but time passing. *)
Definition quiet `{Redis R} (s s' : R) : Prop := did PING s s'.

Class RedisLaws (R : Type) `{Redis R} : Prop := {
  r_live (s : R) k : prune (rtime s) (r_entry s k) = r_entry s k;
  rdo_ok c (s s' : R) r :
    rdo c s = (s', Ok r) →
    did c s s' ∧ reply_ok c (λ k, prune (rtime s') (r_entry s k)) (r_set s) r;
  rdo_err c (s s' : R) e :
    rdo c s = (s', Err e) → quiet s s' ∨ did c s s';
}.

(** A server that is up: every command is answered. *)
Class RedisUp (R : Type) `{Redis R} : Prop :=
  rdo_up c (s : R) : ∃ s' r, rdo c s = (s', Ok r).

(** ** The client's calls *)

(** [redis.Nil]: the error for a nil reply. *)
Definition redis_Nil : error := LibErr "redis: nil".
Definition unexpected_reply : error := LibErr "redis: unexpected reply".

Section calls.
Context `{Redis R}.

Definition as_unit (r : reply) : M R unit := ret tt.
Definition as_int (r : reply) : M R Z :=
  match r with RInt n => ret n | _ => throw unexpected_reply end.

Definition Ping : M R unit := bind (rdo PING) as_unit.
Definition Get (k : string) : M R string := bind (rdo (GET k)) (λ r,
  match r with RStr v => ret v | RNil => throw redis_Nil | _ => throw unexpected_reply end).
Definition Set_ (k v : string) (ttl : Z) : M R unit := bind (rdo (SET k v ttl)) as_unit.
Definition Del (k : string) : M R unit := bind (rdo (DEL k)) as_unit.
Definition Exists_ (k : string) : M R Z := bind (rdo (EXISTS k)) as_int.
Definition Expire (k : string) (ttl : Z) : M R unit := bind (rdo (EXPIRE k ttl)) as_unit.
Definition SAdd (k m : string) : M R unit := bind (rdo (SADD k m)) as_unit.
Definition SRem (k m : string) : M R unit := bind (rdo (SREM k m)) as_unit.
Definition SMembers (k : string) : M R (list string) := bind (rdo (SMEMBERS k)) (λ r,
  match r with RList l => ret l | _ => throw unexpected_reply end).
Definition SCard (k : string) : M R Z := bind (rdo (SCARD k)) as_int.
End calls.

Lemma prune_prune t t' e : t ≤ t' → prune t' (prune t e) = prune t' e.
Proof.
  intros Ht. unfold prune. destruct e as [[v [x|]]|]; try done.
  repeat (case_bool; simpl); try done; lia.
Qed.

Lemma prune_expiry t v ttl : prune t (Some (v, expiry t ttl)) = Some (v, expiry t ttl).
Proof. unfold prune, expiry. repeat case_bool; try done; lia. Qed.

(** ** What a call leaves behind *)

Section specs.
Context `{RedisLaws R}.
Implicit Types s : R.

Lemma quiet_refl s : quiet s s.
Proof. split; [done|]. split; [|done]. intros k. simpl. by rewrite r_live. Qed.
Lemma quiet_entry s s' k : quiet s s' → r_entry s' k = prune (rtime s') (r_entry s k).
Proof. by intros (_ & -> & _). Qed.
Lemma quiet_set s s' k : quiet s s' → r_set s' k = r_set s k.
Proof. by intros (_ & _ & ->). Qed.
Lemma did_time c s s' : did c s s' → rtime s ≤ rtime s'.
Proof. by intros (? & _). Qed.
Lemma quiet_time s s' : quiet s s' → rtime s ≤ rtime s'.
Proof. apply did_time. Qed.

Lemma did_read c s s' : read_only c = true → did c s s' → quiet s s'.
Proof.
  intros Hc (Ht & H1 & H2). split; [done|].
  split; intros k; [rewrite H1|rewrite H2]; by destruct c.
Qed.

Lemma rdo_read c s s' r : rdo c s = (s', r) → read_only c = true → quiet s s'.
Proof.
  intros Hr Hc. destruct r as [r|e].
  - apply rdo_ok in Hr as [Hd _]. by apply (did_read c).
  - apply rdo_err in Hr as [Hq|Hd]; [done|]. by apply (did_read c).
Qed.

(** A call that ignores its reply's value. *)
Lemma unit_call c s s' r :
  bind (rdo c) as_unit s = (s', r) → did c s s' ∨ (∃ e, r = Err e ∧ quiet s s').
Proof.
  intros Hb. apply bind_inv in Hb as [(e & Hr & ->)|(s1 & a & Hr & Ha)].
  - apply rdo_err in Hr as [Hq|Hd]; eauto.
  - apply rdo_ok in Hr as [Hd _]. injection Ha as <- <-. by left.
Qed.

Lemma unit_call_ok c s s' : bind (rdo c) as_unit s = (s', Ok tt) → did c s s'.
Proof. intros [Hd|(e & [=] & _)]%unit_call. done. Qed.

Lemma Get_spec k s s' r :
  Get k s = (s', r) →
  quiet s s' ∧
  match r with
  | Ok v => ∃ x, prune (rtime s') (r_entry s k) = Some (v, x)
  | Err _ => True
  end.
Proof.
  intros Hb. apply bind_inv in Hb as [(e & Hr & ->)|(s1 & a & Hr & Ha)].
  - split; [exact (rdo_read _ _ _ _ Hr eq_refl)|done].
  - pose proof (rdo_read _ _ _ _ Hr eq_refl) as Hq.
    apply rdo_ok in Hr as [_ Ho]; simpl in Ho.
    destruct (prune _ _) as [[v x]|] eqn:E; subst; injection Ha as <- <-;
      (split; [done|]); [rewrite E; by eexists|done].
Qed.

Lemma SMembers_spec k s s' r :
  SMembers k s = (s', r) →
  quiet s s' ∧
  match r with
  | Ok l => NoDup l ∧ ∀ m, m ∈ l ↔ m ∈ r_set s k
  | Err _ => True
  end.
Proof.
  intros Hb. apply bind_inv in Hb as [(e & Hr & ->)|(s1 & a & Hr & Ha)].
  - split; [exact (rdo_read _ _ _ _ Hr eq_refl)|done].
  - pose proof (rdo_read _ _ _ _ Hr eq_refl) as Hq.
    apply rdo_ok in Hr as [_ (l & -> & Hl)]. by injection Ha as <- <-.
Qed.

Lemma Exists_spec k s s' r :
  Exists_ k s = (s', r) →
  quiet s s' ∧
  match r with
  | Ok n => n = bool_int (bool_decide (is_Some (r_entry s' k)))
  | Err _ => True
  end.
Proof.
  intros Hb. apply bind_inv in Hb as [(e & Hr & ->)|(s1 & a & Hr & Ha)].
  - split; [exact (rdo_read _ _ _ _ Hr eq_refl)|done].
  - pose proof (rdo_read _ _ _ _ Hr eq_refl) as Hq.
    apply rdo_ok in Hr as [_ Ho]; simpl in Ho; subst. injection Ha as <- <-.
    split; [done|]. by rewrite (quiet_entry _ _ _ Hq).
Qed.

Lemma SCard_quiet k s s' r : SCard k s = (s', r) → quiet s s'.
Proof.
  intros Hb. apply bind_inv in Hb as [(e & Hr & ->)|(s1 & a & Hr & Ha)];
    [exact (rdo_read _ _ _ _ Hr eq_refl)|].
  pose proof (rdo_read _ _ _ _ Hr eq_refl) as Hq.
  apply rdo_ok in Hr as [_ ->]. by injection Ha as <- <-.
Qed.
End specs.

(** ** Steps that only let data go *)

(** From [s] to [s'] no entry and no set member appeared, entries went only by expiring. *)
Record wanes `{Redis R} (s s' : R) : Prop := {
  wanes_time : rtime s ≤ rtime s';
  wanes_entry k : r_entry s' k = prune (rtime s') (r_entry s k);
  wanes_set k : r_set s' k ⊆ r_set s k;
}.

Section wanes.
Context `{RedisLaws R}.
Implicit Types s : R.

#[export] Instance wanes_preorder : PreOrder (wanes (R := R)).
Proof.
  split.
  - intros s. split; [done|intros k; by rewrite r_live|done].
  - intros s1 s2 s3 [T1 E1 S1] [T2 E2 S2]. split; [lia| |].
    + intros k. rewrite E2, E1. by apply prune_prune.
    + intros k. by rewrite S2.
Qed.

Lemma quiet_wanes s s' : quiet s s' → wanes s s'.
Proof. intros (T & E & S). split; [done..|]. intros k. by rewrite S. Qed.

Lemma srem_wanes k m s s' : did (SREM k m) s s' → wanes s s'.
Proof.
  intros (T & E & S). split; [done..|]. intros k'. rewrite S. simpl. case_decide; set_solver.
Qed.

(** What is live later was live before, with the same value. *)
Lemma wanes_live s s' k e : wanes s s' → r_entry s' k = Some e → r_entry s k = Some e.
Proof.
  intros [_ E _]. rewrite E. destruct (r_entry s k) as [[v [x|]]|]; simpl; [case_bool|..]; naive_solver.
Qed.
End wanes.

(** ** Calls to a server that is up *)

Section up.
Context `{RedisLaws R, !RedisUp R}.
Implicit Types s : R.

Lemma unit_up c s : ∃ s', bind (rdo c) as_unit s = (s', Ok tt) ∧ did c s s'.
Proof.
  destruct (rdo_up c s) as (s' & r & E). exists s'.
  split; [by rewrite (bind_ok _ _ _ _ _ E)|]. by apply rdo_ok in E as [? _].
Qed.

Lemma Get_up k s :
  ∃ s', quiet s s' ∧
    Get k s = (s', match prune (rtime s') (r_entry s k) with
                   | Some (v, _) => Ok v
                   | None => Err redis_Nil
                   end).
Proof.
  destruct (rdo_up (GET k) s) as (s' & r & E). exists s'.
  pose proof (rdo_read _ _ _ _ E eq_refl) as Hq.
  unfold Get. rewrite (bind_ok _ _ _ _ _ E). apply rdo_ok in E as [_ Ho]; simpl in Ho.
  split; [done|]. destruct (prune _ _) as [[v x]|]; by subst.
Qed.

Lemma SMembers_up k s :
  ∃ s' l, SMembers k s = (s', Ok l) ∧ quiet s s' ∧ NoDup l ∧ ∀ m, m ∈ l ↔ m ∈ r_set s k.
Proof.
  destruct (rdo_up (SMEMBERS k) s) as (s' & r & E). exists s'.
  pose proof (rdo_read _ _ _ _ E eq_refl) as Hq.
  unfold SMembers. rewrite (bind_ok _ _ _ _ _ E).
  apply rdo_ok in E as [_ (l & -> & Hl)]. by exists l.
Qed.

Lemma Exists_up k s :
  ∃ s', quiet s s' ∧
    Exists_ k s = (s', Ok (bool_int (bool_decide (is_Some (r_entry s' k))))).
Proof.
  destruct (rdo_up (EXISTS k) s) as (s' & r & E). exists s'.
  pose proof (rdo_read _ _ _ _ E eq_refl) as Hq.
  unfold Exists_. rewrite (bind_ok _ _ _ _ _ E). apply rdo_ok in E as [_ Ho]; simpl in Ho.
  rewrite (quiet_entry _ _ _ Hq). subst r. by split.
Qed.

Lemma SCard_up k s :
  ∃ s', SCard k s = (s', Ok (Z.of_nat (size (r_set s k)))) ∧ quiet s s'.
Proof.
  destruct (rdo_up (SCARD k) s) as (s' & r & E). exists s'.
  pose proof (rdo_read _ _ _ _ E eq_refl) as Hq.
  unfold SCard. rewrite (bind_ok _ _ _ _ _ E). by apply rdo_ok in E as [_ ->].
Qed.
End up.

(** ** What a call leaves behind, in terms of a relation *)

Section runs.
Context `{RedisLaws R} (P : relation R) `{!PreOrder P}.

Lemma as_unit_runs r : runs P (as_unit r).
Proof. unfold as_unit. runs. Qed.

Lemma as_int_runs r : runs P (as_int r).
Proof. unfold as_int. runs. Qed.

Lemma rdo_runs c : (∀ s s', did c s s' ∨ quiet s s' → P s s') → runs P (rdo c).
Proof.
  intros Hc s s' [r|e] E; apply Hc; [apply rdo_ok in E as [E _]; by left|].
  apply rdo_err in E as [E|E]; [by right|by left].
Qed.

Lemma call_runs {A} c (k : reply → M R A) :
  runs P (rdo c) → (∀ r, runs P (k r)) → runs P (bind (rdo c) k).
Proof. apply runs_bind. exact _. Qed.
End runs.
#[export] Hint Resolve as_unit_runs as_int_runs : runs.

(** ** A server in memory *)

(** What happens to a command: it runs; it is lost before it runs; or it runs and its
    reply is lost. *)
Inductive fault : Type := NoFault | LostBefore | LostAfter.

(** The script gives, for each coming command, the time that passes before it
    and its fault; past its end no time passes and nothing fails. *)
Record Sim : Type := {
  sim_strs : gmap string entry;
  sim_sets : gmap string (gset string);
  sim_time : Z;
  sim_script : list (Z * fault);
}.

Definition sim_entry (s : Sim) (k : string) : option entry :=
  prune (sim_time s) (sim_strs s !! k).
Definition sim_set (s : Sim) (k : string) : gset string :=
  default ∅ (sim_sets s !! k).

Definition sim_apply (c : cmd) (t : Z) (s : Sim) : Sim :=
  let strs := match c with
    | SET k v ttl => <[k := (v, expiry t ttl)]> (sim_strs s)
    | DEL k => delete k (sim_strs s)
    | EXPIRE k ttl =>
        match prune t (sim_strs s !! k) with
        | Some (v, _) => if ttl <=? 0 then delete k (sim_strs s)
                         else <[k := (v, Some (t + ttl))]> (sim_strs s)
        | None => sim_strs s
        end
    | _ => sim_strs s
    end in
  let sets := match c with
    | SADD k m => <[k := {[m]} ∪ sim_set s k]> (sim_sets s)
    | SREM k m => <[k := sim_set s k ∖ {[m]}]> (sim_sets s)
    | _ => sim_sets s
    end in
  {| sim_strs := strs; sim_sets := sets; sim_time := t; sim_script := tail (sim_script s) |}.

Definition sim_reply (c : cmd) (t : Z) (s : Sim) : reply :=
  let e k := prune t (sim_strs s !! k) in
  match c with
  | PING | SET _ _ _ => RStatus
  | GET k => match e k with Some (v, _) => RStr v | None => RNil end
  | DEL k | EXISTS k | EXPIRE k _ => RInt (bool_int (bool_decide (is_Some (e k))))
  | SADD k m => RInt (bool_int (bool_decide (m ∉ sim_set s k)))
  | SREM k m => RInt (bool_int (bool_decide (m ∈ sim_set s k)))
  | SMEMBERS k => RList (elements (sim_set s k))
  | SCARD k => RInt (Z.of_nat (size (sim_set s k)))
  end.

Definition connection_lost : error := LibErr "redis: connection lost".

Definition sim_do (c : cmd) : M Sim reply := λ s,
  let '(d, f) := default (0, NoFault) (head (sim_script s)) in
  let t := sim_time s + Z.max 0 d in
  match f with
  | NoFault => (sim_apply c t s, Ok (sim_reply c t s))
  | LostBefore => (sim_apply PING t s, Err connection_lost)
  | LostAfter => (sim_apply c t s, Err connection_lost)
  end.

#[export] Instance sim_redis : Redis Sim :=
  {| rdo := sim_do; rtime := sim_time; r_entry := sim_entry; r_set := sim_set |}.

(** The service's own clock is taken to agree with the server's. *)
#[export] Instance sim_clock : Clock Sim := sim_time.

Lemma sim_apply_did c d s :
  did (R := Sim) c s (sim_apply c (sim_time s + Z.max 0 d) s).
Proof.
  set (t := sim_time s + Z.max 0 d). split; [simpl; lia|].
  split; intros k; simpl; unfold sim_entry, sim_set; simpl.
  - rewrite (prune_prune (sim_time s) t) by lia.
    destruct c; simpl; try done.
    + rewrite lookup_insert. case_decide; [apply prune_expiry|done].
    + rewrite lookup_delete. by case_decide.
    + destruct (prune t (sim_strs s !! k0)) as [[v x]|] eqn:E.
      * case_bool; rewrite ?lookup_delete, ?lookup_insert; case_decide; subst; rewrite ?E; simpl;
          try done. case_bool; [lia|done].
      * case_decide; subst; rewrite ?E; done.
  - unfold sim_set. destruct c; simpl; try done; rewrite lookup_insert; case_decide; subst; done.
Qed.

#[export] Instance sim_laws : RedisLaws Sim.
Proof.
  split; [intros s k; simpl; unfold sim_entry; by rewrite prune_prune by lia|..];
    intros c s s' r; simpl; unfold sim_do;
    destruct (default (0, NoFault) (head (sim_script s))) as [d []]; intros; simplify_eq.
  - split; [apply sim_apply_did|]. simpl. unfold sim_entry.
    destruct c; simpl; rewrite ?prune_prune by lia; try done.
    eexists. split; [done|]. split; [apply NoDup_elements|]. intros. by rewrite elem_of_elements.
  - left. apply (sim_apply_did PING).
  - right. apply sim_apply_did.
Qed.

(** The same server without the faults of its script: only the delays count. *)
Record Mem : Type := mk_mem { mem_sim : Sim }.

Definition calm (s : Sim) : Sim :=
  {| sim_strs := sim_strs s; sim_sets := sim_sets s; sim_time := sim_time s;
     sim_script := map (λ df, (df.1, NoFault)) (sim_script s) |}.

Definition mem_do (c : cmd) : M Mem reply := λ m,
  let '(s', r) := sim_do c (calm (mem_sim m)) in (mk_mem s', r).

#[export] Instance mem_redis : Redis Mem :=
  {| rdo := mem_do; rtime m := sim_time (mem_sim m);
     r_entry m := sim_entry (mem_sim m); r_set m := sim_set (mem_sim m) |}.
#[export] Instance mem_clock : Clock Mem := λ m, sim_time (mem_sim m).

Lemma mem_do_sim c (m : Mem) m' r :
  rdo c m = (m', r) → rdo c (calm (mem_sim m)) = (mem_sim m', r).
Proof.
  simpl. unfold mem_do. destruct (sim_do c (calm (mem_sim m))) as [s' x]. by intros [= <- <-].
Qed.

#[export] Instance mem_laws : RedisLaws Mem.
Proof.
  split; [intros m k; exact (r_live (R := Sim) (mem_sim m) k)|..]; intros c m m' r E%mem_do_sim.
  - by apply (rdo_ok (R := Sim)) in E.
  - by apply (rdo_err (R := Sim)) in E.
Qed.

#[export] Instance mem_up : RedisUp Mem.
Proof.
  intros c m. simpl. unfold mem_do, sim_do, calm; simpl.
  destruct (sim_script (mem_sim m)) as [|[d f] l]; simpl; eauto.
Qed.

Definition empty_sim : Sim :=
  {| sim_strs := ∅; sim_sets := ∅; sim_time := 0; sim_script := [] |}.
Definition empty_mem : Mem := mk_mem empty_sim.
