(* ===== verification/Allocator.v ===== *)
(** services/config/internal/allocator: the IP allocator of the config service.

    The allocator keeps its state in Redis: the set [ip:allocated] of the
    addresses in use and, per node, the string [ip:node:<id>] with its address.
    Every operation holds [a.mu], so operations run one after the other. *)

From S2P Require Import Prelude GoInt GoStrings GoNet Redis.

Definition allocatedSetKey : string := "ip:allocated".
Definition nodeIPKeyPrefix : string := "ip:node:".

Record Allocator : Type := { network : IPNet; gateway : IP }.

(** The Redis server and the gauge [metrics.AllocatedIPs]. *)
Record World (R : Type) : Type := { redis : R; AllocatedIPs : Z }.
Arguments redis {R} w : rename.
Arguments AllocatedIPs {R} w : rename.
Arguments Build_World {R} _ _.

Definition on_redis {R A} (m : M R A) : M (World R) A :=
  zoom redis (λ r w, {| redis := r; AllocatedIPs := AllocatedIPs w |}) m.
Definition AllocatedIPs_Set {R} (n : Z) : M (World R) unit := λ w,
  ({| redis := redis w; AllocatedIPs := n |}, Ok tt).

(** [ip[len(ip)-1] = b] *)
Fixpoint set_last (ip : IP) (b : Z) : IP :=
  match ip with
  | [] => []
  | [_] => [b]
  | x :: ip' => x :: set_last ip' b
  end.

(** ** incrementIP *)

(** The loop runs from the last byte to the first and stops at a byte that does
    not wrap to 0: the flag says that it goes on. *)
Fixpoint increment_from (ip : IP) : IP * bool :=
  match ip with
  | [] => ([], true)
  | b :: ip' =>
      match increment_from ip' with
      | (ip'', true) => let b' := (b + 1) mod 256 in (b' :: ip'', b' =? 0)
      | (ip'', false) => (b :: ip'', false)
      end
  end.
Definition incrementIP (ip : IP) : IP := (increment_from ip).1.

(** ** findAvailableIP's search *)

Inductive search : Type := Found (ip : IP) | Exhausted | OutOfFuel.

Fixpoint find_from `{Net6} (fuel : nat) (n : IPNet) (usedSet : list string) (ip : IP) : search :=
  match fuel with
  | O => OutOfFuel
  | S fuel' =>
      if Contains n ip then
        if decide (IP_String ip ∈ usedSet)
        then find_from fuel' n usedSet (incrementIP ip)
        else Found ip
      else Exhausted
  end.

Section operations.
Context `{Net6} `{Redis R}.

(** [New], on the outcome of [net.ParseCIDR] *)
Definition New (networkCIDR : string) : M (World R) Allocator :=
  let! _ := wrap_err (Wrapf "redis connection failed") (on_redis Ping) in
  match ParseCIDR networkCIDR with
  | None => throw (Wrapf "invalid CIDR" (LibErr "invalid CIDR address"))
  | Some network => ret {| network := network; gateway := set_last (net_IP network) 1 |}
  end.

Definition Ping (a : Allocator) : M (World R) unit := on_redis Redis.Ping.

Definition Gateway (a : Allocator) : string := IP_String (gateway a).

(** [fmt.Sprintf("%d.%d.%d.%d", mask[0], ...)]; a mask has four bytes or more. *)
Definition SubnetMask (a : Allocator) : string :=
  Join "." (map Itoa (take 4 (net_Mask (network a)))).

Definition no_available_IPs : error := Errorf "no available IPs in network".
Definition search_diverges : error := LibErr "findAvailableIP does not return".

(** The search visits different addresses, so it needs one step more than there
    are members of the set: see [find_from_terminates]. *)
Definition findAvailableIP (a : Allocator) : M (World R) IP :=
  let! allocated := wrap_err (Wrapf "redis smembers error") (on_redis (SMembers allocatedSetKey)) in
  match find_from (S (length allocated)) (network a) allocated (set_last (net_IP (network a)) 2) with
  | Found ip => ret ip
  | Exhausted => throw no_available_IPs
  | OutOfFuel => throw search_diverges
  end.

(** [count := a.client.SCard(...).Val(); metrics.AllocatedIPs.Set(...)]: the
    value of a failed command is 0. *)
Definition update_gauge : M (World R) unit :=
  let? count := on_redis (SCard allocatedSetKey) in
  AllocatedIPs_Set (match count with Ok n => n | Err _ => 0 end).

Definition AllocateIP (a : Allocator) (nodeID : string) : M (World R) string :=
  let? existing := on_redis (Get (nodeIPKeyPrefix +:+ nodeID)) in
  match existing with
  | Ok ip => ret ip
  | Err _ =>
      let! ip := findAvailableIP a in
      let ipStr := IP_String ip in
      let! _ := wrap_err (Wrapf "redis sadd error") (on_redis (SAdd allocatedSetKey ipStr)) in
      let! _ := wrap_err (Wrapf "redis set error")
                  (on_redis (Set_ (nodeIPKeyPrefix +:+ nodeID) ipStr 0)) in
      let! _ := update_gauge in
      ret ipStr
  end.

Definition ReleaseIP (a : Allocator) (nodeID ipAddress : string) : M (World R) unit :=
  let! _ := wrap_err (Wrapf "redis srem error") (on_redis (SRem allocatedSetKey ipAddress)) in
  let! _ := wrap_err (Wrapf "redis del error") (on_redis (Del (nodeIPKeyPrefix +:+ nodeID))) in
  update_gauge.
End operations.

(** ** incrementIP counts *)

Lemma increment_from_num ip :
  Forall is_byte ip →
  let (ip', wrapped) := increment_from ip in
  Forall is_byte ip' ∧ length ip' = length ip ∧
  num ip' + (if wrapped then 256 ^ Z.of_nat (length ip) else 0) = num ip + 1 ∧
  (wrapped = true → num ip' = 0).
Proof.
  induction 1 as [|b ip Hb H IH]; simpl; [by repeat split|].
  destruct (increment_from ip) as [ip' []]; destruct IH as (Hb' & Hl & En & Hw).
  - unfold is_byte in Hb. simpl length. rewrite Nat2Z.inj_succ, Z.pow_succ_r by lia.
    specialize (Hw eq_refl). rewrite Hw in En. split_and!; [|by rewrite Hl| |].
    + constructor; [|done]. apply Z.mod_pos_bound. lia.
    + simpl. rewrite Hl, Hw. destruct (Z.eqb_spec ((b + 1) mod 256) 0) as [E|E].
      * assert (b = 255) as -> by (Z.to_euclidean_division_equations; lia).
        change ((255 + 1) mod 256) with 0. lia.
      * rewrite Z.mod_small by (Z.to_euclidean_division_equations; lia). lia.
    + simpl. rewrite Hl, Hw. intros ->%Z.eqb_eq. lia.
  - split_and!; [by constructor|by simpl; rewrite Hl| |done]. simpl. rewrite Hl. lia.
Qed.

Lemma incrementIP_ok ip : is_ip4 ip → is_ip4 (incrementIP ip).
Proof.
  intros [Hl Hb]. unfold incrementIP. pose proof (increment_from_num ip Hb) as Hi.
  destruct (increment_from ip) as [ip' w]. destruct Hi as (Hb' & Hl' & _).
  split; [simpl; congruence|done].
Qed.

Lemma num_incrementIP ip : is_ip4 ip → num (incrementIP ip) = (num ip + 1) mod 2 ^ 32.
Proof.
  intros Hi. pose proof (incrementIP_ok ip Hi) as [Hl2 Hb2]. destruct Hi as [Hl Hb].
  pose proof (num_bound ip Hb) as B. rewrite Hl in B. pose proof (num_bound _ Hb2) as B2.
  rewrite Hl2 in B2. change (256 ^ Z.of_nat 4) with (2 ^ 32) in *.
  unfold incrementIP in *. pose proof (increment_from_num ip Hb) as Hi.
  destruct (increment_from ip) as [ip' w]. destruct Hi as (_ & Hl' & En & Hw). simpl in *.
  rewrite Hl in En. change (256 ^ Z.of_nat 4) with (2 ^ 32) in En. destruct w.
  - rewrite Hw in * by done. by rewrite <- En, Z.add_0_l, Z.mod_same.
  - rewrite Z.add_0_r in En. rewrite <- En. by rewrite Z.mod_small.
Qed.

(** ** The search returns the least address that is free *)

Section search.
Context `{Net6} (n : IPNet) (ones : nat) (used : list string).
Context (Hn : cidr_net ones n).

Definition free (x : Z) : Prop := IP_String (ip4 x) ∉ used.
Definition in_net (x : Z) : Prop := base n ≤ x < base n + hosts ones 4.

Lemma in_net_range x : in_net x → 0 ≤ x < 2 ^ 32.
Proof. pose proof (cidr_fits ones n Hn). unfold in_net. lia. Qed.

Lemma ip4_incr x : 0 ≤ x < 2 ^ 32 → incrementIP (ip4 x) = ip4 ((x + 1) mod 2 ^ 32).
Proof.
  intros Hx. pose proof (ip4_ok x) as Ho. rewrite <- (ip4_num (incrementIP _)) by (by apply incrementIP_ok).
  rewrite num_incrementIP, num_ip4 by done. done.
Qed.

Lemma Contains_ip4 x : 0 ≤ x < 2 ^ 32 → Contains n (ip4 x) = true ↔ in_net x.
Proof.
  intros Hx. rewrite (Contains_interval ones) by (done || apply ip4_ok).
  by rewrite num_ip4 by done.
Qed.

(** What the search returns, whatever its fuel *)
Lemma find_from_spec fuel x :
  (1 ≤ ones)%nat → 0 ≤ x < 2 ^ 32 →
  match find_from fuel n used (ip4 x) with
  | Found ip => in_net x ∧ ∃ y, ip = ip4 y ∧ x ≤ y ∧ in_net y ∧ free y ∧ ∀ z, x ≤ z < y → ¬ free z
  | Exhausted => ∀ z, x ≤ z → in_net x → in_net z → ¬ free z
  | OutOfFuel => ∀ z, x ≤ z < x + Z.of_nat fuel → in_net z ∧ ¬ free z
  end.
Proof.
  intros Ho. revert x. induction fuel as [|fuel IH]; intros x Hx; cbn [find_from].
  { intros z Hz. lia. }
  destruct (Contains n (ip4 x)) eqn:Ec; [apply Contains_ip4 in Ec; [|done]|].
  2:{ intros z Hz Hx'. exfalso. apply Contains_ip4 in Hx'; [congruence|done]. }
  destruct (decide _) as [Hused|Hfree].
  2:{ split; [done|]. exists x. repeat split; try lia; try apply Ec. exact Hfree. }
  assert (¬ free x) as Hnf by (unfold free; tauto).
  rewrite ip4_incr by done.
  pose proof (cidr_fits ones n Hn) as Hfit.
  assert (hosts ones 4 ≤ 2 ^ 31) as Hh by (apply Z.pow_le_mono_r; lia).
  destruct (decide (x + 1 = 2 ^ 32)) as [Hwrap|Hwrap].
  - (* the last address of all: the next one is outside the network *)
    rewrite Hwrap, Z.mod_same by done.
    assert (¬ in_net 0) as H0 by (unfold in_net in *; lia).
    destruct fuel as [|fuel]; cbn [find_from].
    + intros z Hz. replace z with x by lia. done.
    + replace (Contains n (ip4 0)) with false.
      2:{ symmetry. apply not_true_iff_false. by rewrite Contains_ip4. }
      intros z Hz _ Hin. apply in_net_range in Hin. by replace z with x by lia.
  - rewrite Z.mod_small in * by lia. specialize (IH (x + 1) ltac:(lia)).
    destruct (find_from fuel n used (ip4 (x + 1))) as [ip| |].
    + destruct IH as (_ & y & -> & Hle & Hin & Hf & Hmin). split; [done|]. exists y.
      repeat split; try done; try lia; try apply Hin.
      intros z Hz. destruct (decide (z = x)) as [->|]; [done|]. apply Hmin. lia.
    + intros z Hz Hinx Hinz. destruct (decide (z = x)) as [->|]; [done|].
      apply IH; [lia| |done]. unfold in_net in *. lia.
    + intros z Hz. destruct (decide (z = x)) as [->|]; [done|]. apply IH. lia.
Qed.

(** With one more step than there are used addresses the search always ends. *)
Lemma find_from_terminates x :
  (1 ≤ ones)%nat → 0 ≤ x < 2 ^ 32 →
  find_from (S (length used)) n used (ip4 x) ≠ OutOfFuel.
Proof.
  intros Ho Hx E. pose proof (find_from_spec (S (length used)) x Ho Hx) as Hs. rewrite E in Hs.
  set (k := S (length used)) in *.
  assert (NoDup ((λ i : nat, IP_String (ip4 (x + Z.of_nat i))) <$> seq 0 k)) as Hnd.
  { apply NoDup_fmap_2_strong; [|apply NoDup_seq].
    intros i j Hi%elem_of_seq Hj%elem_of_seq Eij.
    apply IP_String_inj in Eij; try apply ip4_ok.
    destruct (Hs (x + Z.of_nat i) ltac:(lia)) as [Ri%in_net_range _].
    destruct (Hs (x + Z.of_nat j) ltac:(lia)) as [Rj%in_net_range _].
    apply (f_equal num) in Eij. rewrite !num_ip4 in Eij by done. lia. }
  assert (k ≤ length used)%nat as Hlen.
  { rewrite <- (length_seq k 0), <- (length_fmap (λ i : nat, IP_String (ip4 (x + Z.of_nat i)))).
    apply submseteq_length, NoDup_submseteq; [done|].
    intros s (i & -> & Hi)%list_elem_of_fmap. apply elem_of_seq in Hi.
    destruct (Hs (x + Z.of_nat i) ltac:(lia)) as [_ Hf]. unfold free in Hf.
    destruct (decide (IP_String (ip4 (x + Z.of_nat i)) ∈ used)); [done|]. by destruct Hf. }
  subst k. lia.
Qed.
End search.

(** ** The table of leases: what Redis holds, abstractly *)

Record Table : Type := { lease : gmap string string; used : gset string }.

Definition node_key (node : string) : string := nodeIPKeyPrefix +:+ node.

Lemma node_key_inj n1 n2 : node_key n1 = node_key n2 → n1 = n2.
Proof. apply app_str_inv_l. Qed.

(** The server's data is the table; no lease expires. *)
Definition sees `{Redis R} (s : R) (t : Table) : Prop :=
  (∀ node, r_entry s (node_key node) = (λ ip, (ip, None)) <$> lease t !! node) ∧
  r_set s allocatedSetKey = used t.

(** The number of the first address the allocator tries. *)
Definition first_host (n : IPNet) : Z := num (set_last (net_IP n) 2).
Definition last_host (ones : nat) (n : IPNet) : Z := base n + hosts ones 4 - 1.

(** The specification of the search: the least free address of the network
    among those the allocator tries. *)
Definition least_free `{Net6} (ones : nat) (n : IPNet) (u : gset string) : option Z :=
  if decide (base n ≤ first_host n < base n + hosts ones 4) then
    option_map snd (list_find (λ x, IP_String (ip4 x) ∉ u)
      (seqZ (first_host n) (base n + hosts ones 4 - first_host n)))
  else None.

(** The specification of the operations. *)
Definition table_allocate `{Net6} (ones : nat) (n : IPNet) (node : string) (t : Table) :
    Table * res string :=
  match lease t !! node with
  | Some ip => (t, Ok ip)
  | None =>
      match least_free ones n (used t) with
      | Some x =>
          let ip := IP_String (ip4 x) in
          ({| lease := <[node := ip]> (lease t); used := {[ip]} ∪ used t |}, Ok ip)
      | None => (t, Err no_available_IPs)
      end
  end.

Definition table_release (node ip : string) (t : Table) : Table :=
  {| lease := delete node (lease t); used := used t ∖ {[ip]} |}.

(** ** Steps of the server, seen on the table *)

Section sees.
Context `{RedisLaws R}.
Implicit Types (s : R) (t : Table).

Lemma prune_lease (u : Z) (o : option string) :
  prune u ((λ ip, (ip, None)) <$> o) = (λ ip, (ip, None)) <$> o.
Proof. by destruct o. Qed.

Lemma sees_quiet s s' t : quiet s s' → sees s t → sees s' t.
Proof.
  intros (_ & He & Hs) [Hl Hu]. split; [|by rewrite Hs].
  intros node. by rewrite He, Hl, prune_lease.
Qed.

Lemma sees_sadd s s' t ip :
  did (SADD allocatedSetKey ip) s s' → sees s t →
  sees s' {| lease := lease t; used := {[ip]} ∪ used t |}.
Proof.
  intros (_ & He & Hs) [Hl Hu]. split; simpl.
  - intros node. by rewrite He, Hl, prune_lease.
  - rewrite Hs. simpl. by rewrite Hu.
Qed.

Lemma sees_srem s s' t ip :
  did (SREM allocatedSetKey ip) s s' → sees s t →
  sees s' {| lease := lease t; used := used t ∖ {[ip]} |}.
Proof.
  intros (_ & He & Hs) [Hl Hu]. split; simpl.
  - intros node. by rewrite He, Hl, prune_lease.
  - rewrite Hs. simpl. by rewrite Hu.
Qed.

Lemma sees_set s s' t node ip :
  did (SET (node_key node) ip 0) s s' → sees s t →
  sees s' {| lease := <[node := ip]> (lease t); used := used t |}.
Proof.
  intros (_ & He & Hs) [Hl Hu]. split; simpl; [|by rewrite Hs].
  intros node'. rewrite He, Hl, prune_lease. simpl.
  rewrite lookup_insert. case_decide as E; case_decide as E'; try done.
  - by apply node_key_inj in E.
  - by subst.
Qed.

Lemma sees_del s s' t node :
  did (DEL (node_key node)) s s' → sees s t →
  sees s' {| lease := delete node (lease t); used := used t |}.
Proof.
  intros (_ & He & Hs) [Hl Hu]. split; simpl; [|by rewrite Hs].
  intros node'. rewrite He, Hl, prune_lease. simpl.
  rewrite lookup_delete. case_decide as E; case_decide as E'; try done.
  - by apply node_key_inj in E.
  - by subst.
Qed.

Lemma sees_ext s t t' : sees s t → lease t = lease t' → used t = used t' → sees s t'.
Proof. by destruct t, t'; simpl; intros ? -> ->. Qed.
End sees.

(** ** Calls through the allocator's world *)

Section world.
Context {R : Type}.

Lemma on_redis_eq {A} (m : M R A) (w : World R) s x :
  m (redis w) = (s, x) → on_redis m w = (Build_World s (AllocatedIPs w), x).
Proof. unfold on_redis, zoom. by intros ->. Qed.

Lemma on_redis_inv {A} (m : M R A) (w w' : World R) x :
  on_redis m w = (w', x) → m (redis w) = (redis w', x).
Proof. unfold on_redis, zoom. destruct (m (redis w)). by intros [= <- <-]. Qed.

Lemma call_inv {A B} f (m : M R A) (k : A → M (World R) B) w w' r :
  bind (wrap_err f (on_redis m)) k w = (w', r) →
  (∃ e, m (redis w) = (redis w', Err e) ∧ r = Err (f e)) ∨
  (∃ w1 a, m (redis w) = (redis w1, Ok a) ∧ k a w1 = (w', r)).
Proof.
  intros [(e & Hw & ->)|(w1 & a & Hw & Hk)]%bind_inv.
  - apply wrap_err_inv in Hw as [(? & _ & [=])|(e' & He & [= ->])].
    apply on_redis_inv in He. eauto.
  - apply wrap_err_inv in Hw as [(? & He & [= <-])|(e' & _ & [=])].
    apply on_redis_inv in He. eauto.
Qed.

Lemma call_eq {A B} f (m : M R A) (k : A → M (World R) B) w s a :
  m (redis w) = (s, Ok a) →
  bind (wrap_err f (on_redis m)) k w = k a (Build_World s (AllocatedIPs w)).
Proof. intros E. apply bind_ok, wrap_err_ok. by apply on_redis_eq. Qed.
End world.

(** ** The search meets its specification *)

Section least.
Context `{Net6} (n : IPNet) (ones : nat).
Context (Hn : cidr_net ones n).

Lemma set_last_ok ip b : is_ip4 ip → is_byte b → is_ip4 (set_last ip b).
Proof.
  intros (a & c & d & e & -> & Ha & Hc & Hd & He)%is_ip4_inv Hb.
  split; [done|]. cbn [set_last]. by rewrite !Forall_cons, Forall_nil.
Qed.

Lemma num_set_last ip b : is_ip4 ip → num (set_last ip b) = num ip / 256 * 256 + b.
Proof.
  intros (a & c & d & e & -> & Ha & Hc & Hd & He)%is_ip4_inv. unfold is_byte in *. simpl.
  change (256 ^ 3) with 16777216. change (256 ^ 2) with 65536.
  change (256 ^ 1) with 256. change (256 ^ 0) with 1. Z.to_euclidean_division_equations; lia.
Qed.

Lemma first_host_ip : set_last (net_IP n) 2 = ip4 (first_host n) ∧ 0 ≤ first_host n < 2 ^ 32.
Proof.
  assert (is_ip4 (set_last (net_IP n) 2)) as Hi.
  { apply set_last_ok; [apply Hn|]. unfold is_byte. lia. }
  unfold first_host. split; [by rewrite ip4_num|].
  destruct Hi as [Hl Hb]. pose proof (num_bound _ Hb) as B. rewrite Hl in B. exact B.
Qed.

Lemma least_free_Some u x :
  least_free ones n u = Some x ↔
  in_net n ones (first_host n) ∧ first_host n ≤ x ∧ in_net n ones x ∧
  IP_String (ip4 x) ∉ u ∧ ∀ z, first_host n ≤ z < x → IP_String (ip4 z) ∈ u.
Proof.
  unfold least_free, in_net. case_decide as Hf; [|naive_solver].
  destruct (list_find _ _) as [[i y]|] eqn:E; simpl.
  - apply list_find_Some in E as ([-> Hi]%lookup_seqZ & Hfree & Hmin).
    assert (∀ z, first_host n ≤ z < first_host n + Z.of_nat i → IP_String (ip4 z) ∈ u) as Hu.
    { intros z Hz. destruct (decide (IP_String (ip4 z) ∈ u)); [done|]. exfalso.
      apply (Hmin (Z.to_nat (z - first_host n)) z); [|lia|done].
      apply lookup_seqZ. lia. }
    split.
    + intros [= <-]. split_and!; try done; lia.
    + intros (_ & Hle & Hin & Hx & Hxmin). f_equal.
      destruct (Z.lt_trichotomy x (first_host n + Z.of_nat i)) as [Hlt|[->|Hlt]]; [|done|].
      * destruct Hx. apply Hu. lia.
      * destruct Hfree. apply Hxmin. lia.
  - apply list_find_None in E. split; [done|]. intros (_ & Hle & Hin & Hx & _).
    rewrite Forall_forall in E. destruct (E x); [|done]. apply elem_of_seqZ. lia.
Qed.

Lemma least_free_None u :
  least_free ones n u = None ↔
  (in_net n ones (first_host n) →
   ∀ z, first_host n ≤ z → in_net n ones z → IP_String (ip4 z) ∈ u).
Proof.
  unfold least_free, in_net. case_decide as Hf; [|naive_solver].
  destruct (list_find _ _) as [[i y]|] eqn:E; simpl.
  - apply list_find_Some in E as ([-> Hi]%lookup_seqZ & Hfree & _). split; [done|].
    intros H'. destruct Hfree. apply H'; lia.
  - apply list_find_None in E. split; [|done]. intros _ _ z Hle Hin.
    rewrite Forall_forall in E. destruct (decide (IP_String (ip4 z) ∈ u)); [done|].
    destruct (E z); [|done]. apply elem_of_seqZ. lia.
Qed.

Lemma find_from_least l u :
  (1 ≤ ones)%nat → (∀ m, m ∈ l ↔ m ∈ u) →
  find_from (S (length l)) n l (set_last (net_IP n) 2) =
  match least_free ones n u with Some x => Found (ip4 x) | None => Exhausted end.
Proof.
  intros Ho Hl. destruct first_host_ip as [-> Hr].
  pose proof (find_from_spec n ones l Hn (S (length l)) (first_host n) Ho Hr) as Hs.
  pose proof (find_from_terminates n ones l Hn (first_host n) Ho Hr) as Ht.
  unfold free in Hs. destruct (find_from _ _ _ _) as [ip| |]; [| |done].
  - destruct Hs as (Hf & y & -> & Hle & Hin & Hy & Hmin).
    assert (least_free ones n u = Some y) as ->; [|done].
    apply least_free_Some. rewrite <- Hl. split_and!; try done; try apply Hf; try apply Hin.
    intros z Hz. apply Hl. destruct (decide (IP_String (ip4 z) ∈ l)); [done|]. by destruct (Hmin z Hz).
  - assert (least_free ones n u = None) as ->; [|done].
    apply least_free_None. intros Hf z Hle Hin. apply Hl.
    destruct (decide (IP_String (ip4 z) ∈ l)); [done|]. by destruct (Hs z Hle Hf Hin).
Qed.
End least.

(** ** The operations on the table *)

Definition assignable `{Net6} (ones : nat) (n : IPNet) (ip : string) : Prop :=
  ∃ y, ip = IP_String (ip4 y) ∧ first_host n ≤ y ∧ in_net n ones y.

(** The invariant: a leased address is the network's, and unless it is one of [spoilt], it is marked used and has no
    other lease. *)
Record table_ok `{Net6} (spoilt : gset string) (ones : nat) (n : IPNet) (t : Table) : Prop := {
  lease_used node ip : ip ∉ spoilt → lease t !! node = Some ip → ip ∈ used t;
  lease_assignable node ip : lease t !! node = Some ip → assignable ones n ip;
  lease_inj n1 n2 ip : ip ∉ spoilt → lease t !! n1 = Some ip → lease t !! n2 = Some ip → n1 = n2;
}.

Section table.
Context `{Net6} (spoilt : gset string) (n : IPNet) (ones : nat).
Notation ok := (table_ok spoilt ones n).

Lemma table_ok_empty : ok {| lease := ∅; used := ∅ |}.
Proof. by split; intros *; simpl; rewrite lookup_empty. Qed.

Lemma table_ok_used t u :
  used t ∖ spoilt ⊆ u → ok t → ok {| lease := lease t; used := u |}.
Proof.
  intros Hu [H1 H2 H3]. split; simpl; [|done..]. intros node ip Hip Hl. apply Hu. specialize (H1 _ _ Hip Hl). set_solver.
Qed.

Lemma table_ok_lease t node ip :
  ip ∉ used t → assignable ones n ip → ok t →
  ok {| lease := <[node := ip]> (lease t); used := {[ip]} ∪ used t |}.
Proof.
  intros Hip Ha [H1 H2 H3]. split; simpl.
  - intros nd ip' Hs. rewrite lookup_insert_Some. set_solver.
  - intros nd ip'. rewrite lookup_insert_Some. naive_solver.
  - intros n1 n2 ip' Hs. rewrite !lookup_insert_Some. naive_solver.
Qed.

Lemma table_ok_release t node ip :
  ip ∈ spoilt ∨ (∀ nd, lease t !! nd = Some ip → nd = node) → ok t → ok (table_release node ip t).
Proof.
  intros Hown [H1 H2 H3]. split; simpl.
  - intros nd ip' Hs [Hne Hl]%lookup_delete_Some. apply elem_of_difference.
    split; [by eapply H1|]. intros ->%elem_of_singleton. destruct Hown as [Hown|Hown]; [done|]. by rewrite (Hown nd) in Hne.
  - intros nd ip' [_ Hl]%lookup_delete_Some. by eapply H2.
  - intros n1 n2 ip' Hs [_ Hl1]%lookup_delete_Some [_ Hl2]%lookup_delete_Some. by eapply H3.
Qed.

Lemma least_free_assignable u x :
  least_free ones n u = Some x → IP_String (ip4 x) ∉ u ∧ assignable ones n (IP_String (ip4 x)).
Proof.
  intros (_ & Hle & Hin & Hx & _)%least_free_Some. split; [done|]. by exists x.
Qed.
End table.

(** ** The operations implement their specification *)

Section refinement.
Context `{Net6} `{RedisLaws R}.
Implicit Types (w : World R) (t : Table).

Lemma update_gauge_quiet w w' r :
  update_gauge w = (w', r) → quiet (redis w) (redis w') ∧ r = Ok tt.
Proof.
  intros (w1 & x & Hc & Hs)%handle_inv. apply on_redis_inv, SCard_quiet in Hc.
  injection Hs as <- <-. done.
Qed.

Lemma update_gauge_up `{!RedisUp R} w :
  ∃ s, update_gauge w = (Build_World s (Z.of_nat (size (r_set (redis w) allocatedSetKey))), Ok tt)
       ∧ quiet (redis w) s.
Proof.
  destruct (SCard_up allocatedSetKey (redis w)) as (s & E & Hq). exists s. split; [|done].
  unfold update_gauge. by rewrite (handle_eq _ _ _ _ _ (on_redis_eq _ _ _ _ E)).
Qed.

Lemma findAvailableIP_spec a ones w w' r t :
  cidr_net ones (network a) → (1 ≤ ones)%nat → sees (redis w) t →
  findAvailableIP a w = (w', r) →
  sees (redis w') t ∧
  match r with
  | Ok ip => ∃ x, least_free ones (network a) (used t) = Some x ∧ ip = ip4 x
  | Err e => e = no_available_IPs ∧ least_free ones (network a) (used t) = None ∨
             ∃ e', e = Wrapf "redis smembers error" e'
  end.
Proof.
  intros Hn Ho Hs [(e & He & ->)|(w1 & l & Hl & Hk)]%call_inv.
  - apply SMembers_spec in He as [Hq _]. split; [by eapply sees_quiet|]. eauto.
  - apply SMembers_spec in Hl as (Hq & _ & Hl).
    destruct Hs as [Hs Hu]. rewrite Hu in Hl. rewrite (find_from_least _ _ Hn _ _ Ho Hl) in Hk.
    destruct (least_free _ _ _) as [x|] eqn:E; injection Hk as <- <-;
      (split; [by eapply sees_quiet|]); eauto.
Qed.

Lemma findAvailableIP_up `{!RedisUp R} a ones w t :
  cidr_net ones (network a) → (1 ≤ ones)%nat → sees (redis w) t →
  ∃ s, findAvailableIP a w =
    (Build_World s (AllocatedIPs w),
     match least_free ones (network a) (used t) with
     | Some x => Ok (ip4 x)
     | None => Err no_available_IPs
     end) ∧ sees s t.
Proof.
  intros Hn Ho Hs. destruct (SMembers_up allocatedSetKey (redis w)) as (s & l & E & Hq & _ & Hl).
  exists s. split; [|by eapply sees_quiet]. unfold findAvailableIP. rewrite (call_eq _ _ _ _ _ _ E).
  destruct Hs as [_ Hu]. rewrite Hu in Hl. rewrite (find_from_least _ _ Hn _ _ Ho Hl).
  by destruct (least_free _ _ _).
Qed.

(** What a failing [AllocateIP] may leave behind: some or all of its effect. *)
Inductive allocate_outcome (ones : nat) (n : IPNet) (node : string) (t : Table) :
    Table → res string → Prop :=
| outcome_existing ip :
    lease t !! node = Some ip → allocate_outcome ones n node t t (Ok ip)
| outcome_nothing e : allocate_outcome ones n node t t (Err e)
| outcome_marked x e :
    least_free ones n (used t) = Some x →
    allocate_outcome ones n node t
      {| lease := lease t; used := {[IP_String (ip4 x)]} ∪ used t |} (Err e)
| outcome_leased x r :
    least_free ones n (used t) = Some x →
    (r = Ok (IP_String (ip4 x)) ∨ ∃ e, r = Err e) →
    allocate_outcome ones n node t
      {| lease := <[node := IP_String (ip4 x)]> (lease t);
         used := {[IP_String (ip4 x)]} ∪ used t |} r.

Lemma AllocateIP_outcome a ones node w w' r t :
  cidr_net ones (network a) → (1 ≤ ones)%nat → sees (redis w) t →
  AllocateIP a node w = (w', r) →
  ∃ t', sees (redis w') t' ∧ allocate_outcome ones (network a) node t t' r.
Proof.
  intros Hn Ho Hs (w1 & existing & Hg & Hk)%handle_inv.
  apply on_redis_inv, Get_spec in Hg as [Hq Hg].
  destruct existing as [ip|e]; cbn beta in Hk.
  { injection Hk as <- <-. exists t. split; [by eapply sees_quiet|]. apply outcome_existing.
    destruct Hg as [x Hx]. destruct Hs as [Hs _]. fold (node_key node) in Hx.
    rewrite Hs, prune_lease in Hx. destruct (lease t !! node); naive_solver. }
  clear Hg. apply (sees_quiet _ _ _ Hq) in Hs. clear Hq.
  apply bind_inv in Hk as [(e' & Hf & ->)|(w2 & ip & Hf & Hk)];
    apply (findAvailableIP_spec _ _ _ _ _ _ Hn Ho Hs) in Hf as [Hs2 Hf];
    [exists t; split; [done|constructor]|]. destruct Hf as (x & Hx & ->).
  cbn beta zeta in Hk.
  apply call_inv in Hk as [(e' & He & ->)|(w3 & [] & Hd & Hk)].
  { apply unit_call in He as [Hd|(_ & _ & Hq)].
    - eexists. split; [by eapply sees_sadd|]. by eapply outcome_marked.
    - exists t. split; [by eapply sees_quiet|constructor]. }
  apply unit_call_ok in Hd. apply (sees_sadd _ _ _ _ Hd) in Hs2 as Hs3.
  apply call_inv in Hk as [(e' & He & ->)|(w4 & [] & Hd4 & Hk)].
  { apply unit_call in He as [Hd'|(_ & _ & Hq)].
    - eexists. split; [by eapply sees_set|]. apply (outcome_leased ones (network a) node t x); eauto.
    - eexists. split; [by eapply sees_quiet|]. by eapply outcome_marked. }
  apply unit_call_ok in Hd4. apply (sees_set _ _ _ _ _ Hd4) in Hs3 as Hs4.
  apply bind_inv in Hk as [(e' & Hu & ->)|(w5 & [] & Hu & Hk)];
    apply update_gauge_quiet in Hu as [Hq Hr]; [done|].
  injection Hk as <- <-. eexists. split; [by eapply sees_quiet|]. apply (outcome_leased ones (network a) node t x); eauto.
Qed.

Lemma AllocateIP_up `{!RedisUp R} a ones node w t :
  cidr_net ones (network a) → (1 ≤ ones)%nat → sees (redis w) t →
  let '(t', r) := table_allocate ones (network a) node t in
  ∃ w', AllocateIP a node w = (w', r) ∧ sees (redis w') t' ∧
        (t' ≠ t → AllocatedIPs w' = Z.of_nat (size (used t'))).
Proof.
  intros Hn Ho Hs. destruct (Get_up (node_key node) (redis w)) as (s1 & Hq1 & E1).
  apply (sees_quiet _ _ _ Hq1) in Hs as Hs1.
  assert (∀ o, prune (rtime s1) (r_entry (redis w) (node_key node)) = o →
    o = (λ ip, (ip, None)) <$> lease t !! node) as Hlook.
  { intros o <-. destruct Hs as [Hs _]. by rewrite Hs, prune_lease. }
  unfold table_allocate, AllocateIP. unfold node_key in *.
  rewrite (handle_eq _ _ _ _ _ (on_redis_eq _ _ _ _ E1)).
  destruct (prune _ _) as [[ip x]|] eqn:Ep; specialize (Hlook _ eq_refl);
    destruct (lease t !! node) as [ip'|] eqn:El; simplify_eq/=.
  { eexists. split; [done|]. split; [done|]. by intros []. }
  set (w1 := Build_World s1 (AllocatedIPs w)).
  destruct (findAvailableIP_up a ones w1 t Hn Ho Hs1) as (s2 & E2 & Hs2).
  destruct (least_free _ _ _) as [x|] eqn:Ex.
  2:{ rewrite (bind_err _ _ _ _ _ E2). eexists. split; [done|]. split; [done|]. by intros []. }
  rewrite (bind_ok _ _ _ _ _ E2). cbn beta zeta.
  set (ip := IP_String (ip4 x)). set (w2 := Build_World s2 (AllocatedIPs w1)).
  destruct (unit_up (SADD allocatedSetKey ip) (redis w2)) as (s3 & E3 & Hd3).
  rewrite (call_eq _ _ _ _ _ _ E3). apply (sees_sadd _ _ _ _ Hd3) in Hs2 as Hs3.
  set (w3 := Build_World s3 (AllocatedIPs w2)).
  destruct (unit_up (SET (node_key node) ip 0) (redis w3)) as (s4 & E4 & Hd4).
  unfold node_key in E4. rewrite (call_eq _ _ _ _ _ _ E4).
  apply (sees_set _ _ _ _ _ Hd4) in Hs3 as Hs4. set (w4 := Build_World s4 (AllocatedIPs w3)).
  destruct (update_gauge_up w4) as (s5 & E5 & Hq5).
  rewrite (bind_ok _ _ _ _ _ E5). eexists. split; [done|].
  apply (sees_quiet _ _ _ Hq5) in Hs4 as Hs5. split; [done|]. intros _. simpl.
  do 2 f_equal. by destruct Hs4 as [_ ->].
Qed.

Lemma ReleaseIP_up `{!RedisUp R} a node ip w t :
  sees (redis w) t →
  ∃ w', ReleaseIP a node ip w = (w', Ok tt) ∧ sees (redis w') (table_release node ip t) ∧
        AllocatedIPs w' = Z.of_nat (size (used (table_release node ip t))).
Proof.
  intros Hs. unfold ReleaseIP.
  destruct (unit_up (SREM allocatedSetKey ip) (redis w)) as (s1 & E1 & Hd1).
  rewrite (call_eq _ _ _ _ _ _ E1). apply (sees_srem _ _ _ _ Hd1) in Hs as Hs1.
  set (w1 := Build_World s1 (AllocatedIPs w)).
  destruct (unit_up (DEL (node_key node)) (redis w1)) as (s2 & E2 & Hd2).
  unfold node_key in E2. rewrite (call_eq _ _ _ _ _ _ E2).
  apply (sees_del _ _ _ _ Hd2) in Hs1 as Hs2.
  destruct (update_gauge_up (Build_World s2 (AllocatedIPs w1))) as (s3 & E3 & Hq3).
  rewrite E3. eexists. split; [done|]. split; [by eapply sees_quiet|]. simpl.
  do 2 f_equal. by destruct Hs2 as [_ ->].
Qed.

Lemma ReleaseIP_done a node ip w w' t :
  sees (redis w) t → ReleaseIP a node ip w = (w', Ok tt) →
  sees (redis w') (table_release node ip t).
Proof.
  intros Hs [(e & _ & [=])|(w1 & [] & Hd1 & Hk)]%call_inv. apply unit_call_ok in Hd1.
  apply (sees_srem _ _ _ _ Hd1) in Hs as Hs1.
  apply call_inv in Hk as [(e & _ & [=])|(w2 & [] & Hd2 & Hk)]. apply unit_call_ok in Hd2.
  apply (sees_del _ _ _ _ Hd2) in Hs1 as Hs2.
  apply update_gauge_quiet in Hk as [Hq _]. by eapply sees_quiet.
Qed.

(** What a [ReleaseIP] may leave behind when it fails: nothing, the first of its two effects, or both. *)
Inductive release_outcome (node ip : string) (t : Table) : Table → Prop :=
| released_not : release_outcome node ip t t
| released_half : release_outcome node ip t {| lease := lease t; used := used t ∖ {[ip]} |}
| released_whole : release_outcome node ip t (table_release node ip t).

Lemma ReleaseIP_outcome a node ip w w' r t :
  sees (redis w) t → ReleaseIP a node ip w = (w', r) → ∃ t', sees (redis w') t' ∧ release_outcome node ip t t'.
Proof.
  intros Hs [(e & He & ->)|(w1 & [] & Hd1 & Hk)]%call_inv.
  { apply unit_call in He as [Hd|(_ & _ & Hq)].
    - eexists. split; [by eapply sees_srem|constructor].
    - exists t. split; [by eapply sees_quiet|constructor]. }
  apply unit_call_ok in Hd1. apply (sees_srem _ _ _ _ Hd1) in Hs as Hs1.
  apply call_inv in Hk as [(e & He & ->)|(w2 & [] & Hd2 & Hk)].
  { apply unit_call in He as [Hd|(_ & _ & Hq)].
    - eexists. split; [by eapply sees_del|apply released_whole].
    - eexists. split; [by eapply sees_quiet|apply released_half]. }
  apply unit_call_ok in Hd2. apply (sees_del _ _ _ _ Hd2) in Hs1 as Hs2.
  apply update_gauge_quiet in Hk as [Hq _]. eexists. split; [by eapply sees_quiet|apply released_whole].
Qed.
End refinement.

(** ** Runs of the allocator *)

(** [node]'s address, as the server has it. *)
Definition holds `{Redis R} (w : World R) (node ip : string) : Prop :=
  ∃ x, r_entry (redis w) (node_key node) = Some (ip, x).

(** A release by the only node, if any, that holds the address, all of which succeeds; or one that did nothing. *)
Definition proper_release `{Redis R} (w : World R) (node ip : string) (w' : World R) (r : res unit) : Prop :=
  (r = Ok tt ∧ ∀ nd, holds w nd ip → nd = node) ∨ quiet (redis w) (redis w').

(** Runs from an empty server: any calls, failing or not, and time passing. [spoilt] are the addresses that were
    released in another way than properly: by a node while another one held them, or by a call that failed. *)
Inductive reach `{Net6} `{Redis R} (spoilt : gset string) (a : Allocator) : World R → Prop :=
| reach_start w :
    sees (redis w) {| lease := ∅; used := ∅ |} → reach spoilt a w
| reach_allocate w node w' r :
    reach spoilt a w → AllocateIP a node w = (w', r) → reach spoilt a w'
| reach_release w node ip w' r :
    reach spoilt a w → ReleaseIP a node ip w = (w', r) → ip ∈ spoilt ∨ proper_release w node ip w' r → reach spoilt a w'
| reach_quiet w w' : reach spoilt a w → quiet (redis w) (redis w') → reach spoilt a w'.

Section runs.
Context `{Net6} `{RedisLaws R}.
Implicit Types (w : World R) (t : Table).

Lemma holds_lease w t node ip :
  sees (redis w) t → holds w node ip ↔ lease t !! node = Some ip.
Proof.
  intros [Hl _]. unfold holds. rewrite Hl. destruct (lease t !! node); naive_solver.
Qed.

Lemma allocate_outcome_ok spoilt ones n node t t' r :
  table_ok spoilt ones n t → allocate_outcome ones n node t t' r → table_ok spoilt ones n t'.
Proof.
  intros Ht Ho. destruct Ho as [|?|x e Hx|x r Hx _]; try done.
  - apply table_ok_used; [set_solver|done].
  - apply least_free_assignable in Hx as [Hx1 Hx2]. by apply table_ok_lease.
Qed.

Lemma release_outcome_ok spoilt ones n node ip t t' :
  ip ∈ spoilt → table_ok spoilt ones n t → release_outcome node ip t t' → table_ok spoilt ones n t'.
Proof.
  intros Hip Ht [| |]; [done|apply table_ok_used; [set_solver|done]|apply table_ok_release; [by left|done]].
Qed.

Lemma reach_table spoilt a ones w :
  cidr_net ones (network a) → (1 ≤ ones)%nat → reach spoilt a w →
  ∃ t, sees (redis w) t ∧ table_ok spoilt ones (network a) t.
Proof.
  intros Hn Ho. induction 1 as [w Hs|w node w' r _ (t & Hs & Ht) Ha|w node ip w' r _ (t & Hs & Ht) Hr Hp|w w' _ (t & Hs & Ht) Hq].
  - eexists. split; [done|]. apply table_ok_empty.
  - destruct (AllocateIP_outcome _ _ _ _ _ _ _ Hn Ho Hs Ha) as (t' & Hs' & Hout).
    exists t'. split; [done|]. by eapply allocate_outcome_ok.
  - destruct Hp as [Hip|[[-> Hown]|Hq]].
    + destruct (ReleaseIP_outcome _ _ _ _ _ _ _ Hs Hr) as (t' & Hs' & Hout). exists t'. split; [done|].
      by eapply release_outcome_ok.
    + exists (table_release node ip t). split; [by eapply ReleaseIP_done|].
      apply table_ok_release; [|done]. right. intros nd Hnd. apply Hown. by apply (holds_lease _ t).
    + exists t. split; [by eapply sees_quiet|done].
  - exists t. split; [by eapply sees_quiet|done].
Qed.
End runs.

(** ** Which addresses are handed out *)

Lemma first_host_low ones n :
  cidr_net ones n → first_host n = base n - base n mod 256 + 2.
Proof.
  intros Hn. unfold first_host. rewrite num_set_last by apply Hn. unfold base.
  pose proof (Z.div_mod (num (net_IP n)) 256 ltac:(lia)). lia.
Qed.

Lemma wide_base_mod ones n :
  cidr_net ones n → (ones ≤ 24)%nat → base n mod 256 = 0 ∧ 256 ≤ hosts ones 4.
Proof.
  intros Hn Ho. pose proof (cidr_base_multiple ones n Hn) as Hm.
  assert (hosts ones 4 = 2 ^ (24 - Z.of_nat ones) * 256) as E.
  { unfold hosts. change 256 with (2 ^ 8). rewrite <- Z.pow_add_r by lia. f_equal. lia. }
  assert (0 < 2 ^ (24 - Z.of_nat ones)) by (apply Z.pow_pos_nonneg; lia).
  rewrite E in *. split; [|lia].
  apply Z.mod_divide; [lia|]. apply Z.mod_divide in Hm as [k Hk]; [|lia].
  exists (k * 2 ^ (24 - Z.of_nat ones)). lia.
Qed.

Definition allocator_of (n : IPNet) : Allocator :=
  {| network := n; gateway := set_last (net_IP n) 1 |}.

Lemma gateway_not_assignable `{Net6} ones n ip :
  cidr_net ones n → assignable ones n ip → ip ≠ Gateway (allocator_of n).
Proof.
  intros Hn (y & -> & Hle & Hin) E. change (IP_String (ip4 y) = IP_String (set_last (net_IP n) 1)) in E.
  assert (is_ip4 (set_last (net_IP n) 1)) as Hg.
  { apply set_last_ok; [apply Hn|]. unfold is_byte. lia. }
  apply IP_String_inj in E; [|apply ip4_ok|done].
  apply (f_equal num) in E. pose proof (in_net_range n ones Hn y Hin).
  rewrite num_ip4, num_set_last in E by (done || apply Hn).
  unfold first_host in Hle. rewrite num_set_last in Hle by apply Hn. lia.
Qed.

(** ** Properties *)

Section properties.
Context `{Net6} `{RedisLaws R}.
Implicit Types (w : World R) (t : Table).

(** C8: [AllocateIP] implements its specification on the table of leases.
    Against a server that answers, it returns the address the node has, or gives
    it the least address of the network (from [.2] of the first block on) that is
    not in use and sets the gauge, or fails with nothing changed when none is left.
    In particular the search always ends. *)
Theorem AllocateIP_refines `{!RedisUp R} a ones node w t :
  cidr_net ones (network a) → (1 ≤ ones)%nat → sees (redis w) t →
  ∃ w', AllocateIP a node w = (w', (table_allocate ones (network a) node t).2) ∧
        sees (redis w') (table_allocate ones (network a) node t).1 ∧
        ((table_allocate ones (network a) node t).1 ≠ t →
         AllocatedIPs w' = Z.of_nat (size (used (table_allocate ones (network a) node t).1))).
Proof.
  intros Hn Ho Hs. pose proof (AllocateIP_up a ones node w t Hn Ho Hs) as Hup.
  by destruct (table_allocate ones (network a) node t).
Qed.

(** C3: In every run of the allocator from an empty server, whatever commands fail and whoever asks for and releases what:
    every address held is an address of the network other than the gateway's; and two nodes hold the same address
    only if it was spoilt, that is, if at some time a node released it while another one held it, or a release of it failed. *)
Theorem leases_exclusive spoilt n ones w :
  cidr_net ones n → (1 ≤ ones)%nat → reach spoilt (allocator_of n) w →
  (∀ node ip, holds w node ip →
     ip ≠ Gateway (allocator_of n) ∧ ∃ x, ip = IP_String (ip4 x) ∧ Contains n (ip4 x) = true) ∧
  ∀ n1 n2 ip, holds w n1 ip → holds w n2 ip → n1 = n2 ∨ ip ∈ spoilt.
Proof.
  intros Hn Ho Hr. destruct (reach_table spoilt (allocator_of n) ones _ Hn Ho Hr) as (t & Hs & Ht). split.
  - intros node ip H1'. rewrite (holds_lease _ _ _ _ Hs) in H1'.
    pose proof (lease_assignable _ _ _ _ Ht _ _ H1') as Ha.
    split; [by eapply gateway_not_assignable|].
    destruct Ha as (y & -> & _ & Hin). exists y. split; [done|].
    apply (Contains_ip4 n ones Hn y); [|done]. by eapply in_net_range.
  - intros n1 n2 ip H1' H2'. rewrite (holds_lease _ _ _ _ Hs) in H1'. rewrite (holds_lease _ _ _ _ Hs) in H2'.
    destruct (decide (ip ∈ spoilt)); [by right|left]. by eapply (lease_inj _ _ _ _ Ht).
Qed.

(** Allocating again returns the same address and changes no lease. *)
Theorem AllocateIP_idempotent `{!RedisUp R} a ones node w w' ip t :
  cidr_net ones (network a) → (1 ≤ ones)%nat → sees (redis w) t →
  AllocateIP a node w = (w', Ok ip) →
  ∃ w'', AllocateIP a node w' = (w'', Ok ip) ∧
    ∀ nd ip', holds w'' nd ip' ↔ holds w' nd ip'.
Proof.
  intros Hn Ho Hs Hrun. pose proof (AllocateIP_up a ones node w t Hn Ho Hs) as Hup.
  destruct (table_allocate ones (network a) node t) as [t' r] eqn:Et.
  destruct Hup as (w1 & E1 & Hs1 & _). rewrite Hrun in E1. injection E1 as <- <-.
  assert (lease t' !! node = Some ip) as Hl.
  { unfold table_allocate in Et. repeat case_match; simplify_eq/=; [done|].
    by rewrite lookup_insert, decide_True. }
  pose proof (AllocateIP_up a ones node w' t' Hn Ho Hs1) as Hup2.
  unfold table_allocate in Hup2. rewrite Hl in Hup2. destruct Hup2 as (w2 & E2 & Hs2 & _).
  exists w2. split; [done|]. intros nd ip'.
  by rewrite (holds_lease _ _ _ _ Hs2), (holds_lease _ _ _ _ Hs1).
Qed.

(** [ReleaseIP] does not look at who holds the address. If node [b] releases
    the address that node [v] holds, and it is then the least free one, the next node
    [c] to ask is given the address while [v] still holds it. *)
Theorem foreign_release_duplicates `{!RedisUp R} a ones v b c x w t :
  cidr_net ones (network a) → (1 ≤ ones)%nat → sees (redis w) t →
  lease t !! v = Some (IP_String (ip4 x)) → v ≠ b → lease t !! c = None →
  least_free ones (network a) (used t ∖ {[IP_String (ip4 x)]}) = Some x →
  ∃ w1 w2, ReleaseIP a b (IP_String (ip4 x)) w = (w1, Ok tt) ∧
           AllocateIP a c w1 = (w2, Ok (IP_String (ip4 x))) ∧
           holds w2 v (IP_String (ip4 x)) ∧ holds w2 c (IP_String (ip4 x)) ∧ v ≠ c.
Proof.
  intros Hn Ho Hs Hv Hvb Hc Hx.
  destruct (ReleaseIP_up a b (IP_String (ip4 x)) w t Hs) as (w1 & E1 & Hs1 & _).
  pose proof (AllocateIP_up a ones c w1 _ Hn Ho Hs1) as Hup. unfold table_allocate in Hup.
  assert (v ≠ c) as Hvc by (intros ->; congruence).
  assert (lease (table_release b (IP_String (ip4 x)) t) !! c = None) as Hc'.
  { apply lookup_delete_None. by right. }
  rewrite Hc' in Hup.
  change (used (table_release b (IP_String (ip4 x)) t)) with (used t ∖ {[IP_String (ip4 x)]}) in Hup.
  rewrite Hx in Hup.
  destruct Hup as (w2 & E2 & Hs2 & _). exists w1, w2. split; [done|]. split; [done|].
  rewrite !(holds_lease _ _ _ _ Hs2). simpl.
  rewrite lookup_insert_ne, lookup_delete_ne, lookup_insert by done.
  by rewrite decide_True.
Qed.

(** A network with a prefix longer than 24 bits that does not start at the first
    addresses of its block of 256 never gives out an address: the search starts
    below the network; the gateway lies outside the network too. *)
Theorem high_block_never_allocates `{!RedisUp R} n ones node w t :
  cidr_net ones n → (1 ≤ ones)%nat → 2 < base n mod 256 → sees (redis w) t →
  lease t !! node = None →
  (∃ w', AllocateIP (allocator_of n) node w = (w', Err no_available_IPs) ∧ sees (redis w') t) ∧
  Contains n (gateway (allocator_of n)) = false.
Proof.
  intros Hn Ho Hhigh Hs Hl. pose proof (first_host_low ones n Hn) as Hf. split.
  - pose proof (AllocateIP_up (allocator_of n) ones node w t Hn Ho Hs) as Hup.
    unfold table_allocate in Hup. rewrite Hl in Hup. simpl network in Hup.
    assert (least_free ones n (used t) = None) as E.
    { apply least_free_None. unfold in_net. lia. }
    rewrite E in Hup. destruct Hup as (w' & E' & Hs' & _). by exists w'.
  - apply not_true_iff_false. simpl gateway.
    assert (is_ip4 (set_last (net_IP n) 1)) as Hg.
    { apply set_last_ok; [apply Hn|]. unfold is_byte. lia. }
    rewrite (Contains_interval ones) by done. rewrite num_set_last by apply Hn.
    unfold base in *. pose proof (Z.div_mod (num (net_IP n)) 256 ltac:(lia)). lia.
Qed.
End properties.

(** ** Concrete servers *)

(** A server that holds the table [t], with a script of delays and faults. *)
Definition server_of (t : Table) (script : list (Z * fault)) : Sim :=
  {| sim_strs := kmap node_key ((λ ip, (ip, None)) <$> lease t);
     sim_sets := {[ allocatedSetKey := used t ]};
     sim_time := 0; sim_script := script |}.

#[export] Instance node_key_Inj : Inj (=) (=) node_key := node_key_inj.

Lemma server_of_sees t script : sees (server_of t script) t.
Proof.
  split.
  - intros node. simpl. unfold sim_entry, server_of; simpl.
    rewrite (lookup_kmap node_key), lookup_fmap. by destruct (lease t !! node).
  - simpl. unfold sim_set, server_of; simpl. by rewrite lookup_singleton, decide_True.
Qed.

Lemma mem_of_sees t script : sees (mk_mem (server_of t script)) t.
Proof. apply server_of_sees. Qed.

Definition empty_table : Table := {| lease := ∅; used := ∅ |}.
Definition one_lease (node ip : string) : Table :=
  {| lease := {[ node := ip ]}; used := {[ ip ]} |}.

(** The network of the default configuration, 10.8.0.0/16, and the third quarter of 10.0.0.0/24. *)
Definition default_net : IPNet := {| net_IP := [10; 8; 0; 0]; net_Mask := CIDRMask 16 4 |}.
Definition quarter_net : IPNet := {| net_IP := [10; 0; 0; 128]; net_Mask := CIDRMask 26 4 |}.

Lemma default_net_parsed `{Net6} : ParseCIDR "10.8.0.0/16" = Some default_net.
Proof. vm_compute. reflexivity. Qed.

Lemma default_net_cidr : cidr_net 16 default_net.
Proof.
  change default_net with {| net_IP := Mask [10; 8; 0; 0] (CIDRMask 16 4); net_Mask := CIDRMask 16 4 |}.
  apply make_cidr_net; [|lia]. split; [done|]. by repeat constructor.
Qed.

Lemma quarter_net_cidr : cidr_net 26 quarter_net.
Proof.
  change quarter_net with {| net_IP := Mask [10; 0; 0; 128] (CIDRMask 26 4); net_Mask := CIDRMask 26 4 |}.
  apply make_cidr_net; [|lia]. split; [done|]. by repeat constructor.
Qed.

Definition world_of (t : Table) : World Mem := Build_World (mk_mem (server_of t [])) 0.
Definition default_allocator : Allocator := allocator_of default_net.

(** A failed release: the address is removed from the set, the command that
    deletes the lease is lost. *)
Definition release_script : list (Z * fault) := [(0, NoFault); (0, LostBefore)].
Definition lossy_world : World Sim :=
  Build_World (server_of (one_lease "a" "10.8.0.2") release_script) 1.
Definition after_release : World Sim :=
  (ReleaseIP default_allocator "a" "10.8.0.2" lossy_world).1.
Definition after_reuse : World Sim :=
  (AllocateIP (H := no_ip6) default_allocator "b" after_release).1.

(** The set and the lease are changed by separate commands. When the second one
    of a [ReleaseIP] is lost the caller gets an error, the node keeps its lease, and
    the next node is given the same address. *)
Theorem failed_release_duplicates :
  (ReleaseIP default_allocator "a" "10.8.0.2" lossy_world).2 =
    Err (Wrapf "redis del error" connection_lost) ∧
  (AllocateIP (H := no_ip6) default_allocator "b" after_release).2 = Ok "10.8.0.2" ∧
  holds after_reuse "a" "10.8.0.2" ∧ holds after_reuse "b" "10.8.0.2".
Proof.
  repeat split; try (exists None); vm_compute; reflexivity.
Qed.

Definition get_lost : World Sim := Build_World (server_of (one_lease "a" "10.8.0.2") [(0, LostBefore)]) 1.
Definition after_lost_get : World Sim := (AllocateIP (H := no_ip6) default_allocator "a" get_lost).1.

(** AllocateIP takes any error of its GET for a node without a lease. When the reply is lost a node that has an address is
    given a second one; the first stays in use and belongs to nobody, so no release ever gives it back. *)
Theorem lost_get_leaks_address :
  (AllocateIP (H := no_ip6) default_allocator "a" get_lost).2 = Ok "10.8.0.3" ∧
  holds after_lost_get "a" "10.8.0.3" ∧
  r_set (redis after_lost_get) allocatedSetKey = {["10.8.0.2"; "10.8.0.3"]}.
Proof. repeat split; try (exists None); vm_compute; reflexivity. Qed.

(** ** Witnesses *)

#[local] Existing Instance no_ip6.

Lemma default_first u :
  "10.8.0.2" ∉ u → least_free 16 default_net u = Some 168296450.
Proof.
  intros Hu. apply least_free_Some. unfold in_net.
  change (first_host default_net) with 168296450. change (base default_net) with 168296448.
  change (hosts 16 4) with 65536. change (IP_String (ip4 168296450)) with "10.8.0.2".
  split_and!; try done; lia.
Qed.

Lemma allocate_first node :
  table_allocate 16 default_net node empty_table = (one_lease node "10.8.0.2", Ok "10.8.0.2").
Proof.
  unfold table_allocate, empty_table. cbn [lease used]. rewrite lookup_empty, default_first by set_solver.
  change (IP_String (ip4 168296450)) with "10.8.0.2". cbv zeta. unfold one_lease.
  by rewrite insert_empty, (right_id_L ∅ (∪)).
Qed.

Lemma AllocateIP_refines_witness :
  ∃ w', AllocateIP default_allocator "a" (world_of empty_table) = (w', Ok "10.8.0.2") ∧
        AllocatedIPs w' = 1.
Proof.
  destruct (AllocateIP_refines default_allocator 16 "a" (world_of empty_table) empty_table
    default_net_cidr ltac:(lia) (mem_of_sees _ _)) as (w' & E & _ & G).
  change (network default_allocator) with default_net in *. rewrite allocate_first in E, G.
  exists w'. split; [exact E|]. rewrite G; [vm_compute; reflexivity|].
  intros Hc%(f_equal (size ∘ used)). vm_compute in Hc. discriminate Hc.
Defined.

Definition world_a : World Mem := (AllocateIP default_allocator "a" (world_of empty_table)).1.

(** Node b releases the address that a has been given. *)
Definition world_b : World Mem := (ReleaseIP default_allocator "b" "10.8.0.2" world_a).1.

Lemma leases_exclusive_witness :
  reach {["10.8.0.2"]} default_allocator world_b ∧ holds world_b "a" "10.8.0.2" ∧ "10.8.0.2" ≠ Gateway default_allocator.
Proof.
  assert (reach {["10.8.0.2"]} default_allocator world_b) as Hr.
  { eapply (reach_release _ _ world_a "b" "10.8.0.2"); [|apply surjective_pairing|left; set_solver].
    eapply (reach_allocate _ _ (world_of empty_table) "a"); [|apply surjective_pairing].
    apply reach_start. apply mem_of_sees. }
  assert (holds world_b "a" "10.8.0.2") as Hh by (exists None; vm_compute; reflexivity).
  split; [exact Hr|]. split; [exact Hh|].
  exact (proj1 (proj1 (leases_exclusive _ default_net 16 world_b default_net_cidr ltac:(lia) Hr) _ _ Hh)).
Defined.

Lemma AllocateIP_idempotent_witness :
  ∃ w'', AllocateIP default_allocator "a" world_a = (w'', Ok "10.8.0.2") ∧
         holds w'' "a" "10.8.0.2".
Proof.
  destruct (AllocateIP_idempotent default_allocator 16 "a" (world_of empty_table) world_a "10.8.0.2"
    empty_table default_net_cidr ltac:(lia) (mem_of_sees _ _)) as (w'' & E & Hh).
  { vm_compute. reflexivity. }
  exists w''. split; [exact E|]. apply Hh. exists None. vm_compute. reflexivity.
Defined.

Lemma foreign_release_duplicates_witness :
  ∃ w2 : World Mem, holds w2 "victim" "10.8.0.2" ∧ holds w2 "new" "10.8.0.2".
Proof.
  assert ("10.8.0.2" = IP_String (ip4 168296450)) as E by (vm_compute; reflexivity).
  destruct (foreign_release_duplicates default_allocator 16 "victim" "attacker" "new" 168296450
    (world_of (one_lease "victim" "10.8.0.2")) (one_lease "victim" "10.8.0.2")
    default_net_cidr ltac:(lia) (mem_of_sees _ _)) as (w1 & w2 & _ & _ & H1 & H2 & _);
    [vm_compute; reflexivity|discriminate|vm_compute; reflexivity|apply default_first; set_solver|].
  exists w2. rewrite E. by split.
Defined.

Lemma high_block_never_allocates_witness :
  ∃ w', AllocateIP (allocator_of quarter_net) "a" (world_of empty_table) = (w', Err no_available_IPs).
Proof.
  destruct (high_block_never_allocates quarter_net 26 "a" (world_of empty_table) empty_table
    quarter_net_cidr ltac:(lia) ltac:(vm_compute; reflexivity) (mem_of_sees _ _) eq_refl)
    as [(w' & E & _) _]. by exists w'.
Defined.
