(* ===== verification/Auth.v ===== *)
(** pkg/auth: the client of the identity service and the server interceptor.

    The config and discovery services see the identity service through the class
    [TokenService]: the remote call ValidateToken, and which tokens stand for which
    node.  [TokenLaws] is what they rely on; Identity.v proves it of the service. *)

From S2P Require Import Prelude GoStrings Grpc.

Record ValidateTokenResponse : Type := { Valid : bool; NodeId : string }.

Class TokenService (W : Type) : Type := {
  rpc_ValidateToken : Context → string → M W ValidateTokenResponse;
  token_of : W → string → string → Prop;
}.
#[export] Hint Mode TokenService + : typeclass_instances.

(** A token the service calls valid stands for the node it names, at the time
    the call was served. *)
Class TokenLaws (W : Type) `{TokenService W} : Prop := {
  rpc_valid ctx token (w w' : W) resp :
    rpc_ValidateToken ctx token w = (w', Ok resp) → Valid resp = true →
    token_of w' token (NodeId resp);
}.

(** ** client.go *)

Definition ValidateToken `{TokenService W} (ctx : Context) (token : string) : M W string :=
  let! resp := wrap_err (Wrapf "identity service error") (rpc_ValidateToken ctx token) in
  if negb (Valid resp) then throw (Errorf "invalid token") else ret (NodeId resp).

(** ** interceptor.go *)

Definition extractToken (ctx : Context) : string :=
  match ctx_incoming ctx with
  | None => ""
  | Some md =>
      match md_Get md "authorization" with
      | [] => ""
      | token :: _ => token
      end
  end.

Definition AuthInterceptor `{TokenService W} {Req Resp : Type} : UnaryServerInterceptor W Req Resp :=
  λ ctx req method handler,
    let token := extractToken ctx in
    if decide (token = "") then handler ctx req
    else
      let! nodeID := wrap_err (StatusErrf Unauthenticated "authentication failed")
                       (ValidateToken ctx token) in
      handler (WithValue ctx NodeIDKey nodeID) req.

Definition NodeIDFromContext (ctx : Context) : string :=
  match ctx_Value ctx NodeIDKey with
  | Some nodeID => nodeID
  | None => ""
  end.

(** ** What a validated token means *)

Section facts.
Context `{TokenLaws W}.

Lemma ValidateToken_ok ctx token (w w' : W) node :
  ValidateToken ctx token w = (w', Ok node) → token_of w' token node.
Proof.
  intros (w1 & resp & Hr & Hk)%bind_inv_ok. apply wrap_err_inv in Hr as [(? & Hr & [= <-])|(? & _ & [=])].
  destruct (Valid resp) eqn:Ev; simpl in Hk; [|done]. injection Hk as <- <-.
  by eapply rpc_valid.
Qed.

(** A call to the identity service: either its error, or the node of the token. *)
Lemma ValidateToken_cases ctx token (w w' : W) r :
  ValidateToken ctx token w = (w', r) →
  (∃ e, r = Err e) ∨ (∃ node, r = Ok node ∧ token_of w' token node).
Proof.
  destruct r as [node|e]; [|by left; eexists]. intros Hr%ValidateToken_ok. right. eauto.
Qed.
End facts.

(** The interceptor never runs the handler for a caller whose token the
    identity service does not vouch for: a handler that did run under a token saw the
    token's node in its context; a caller that sends no token is let through
    without one. *)
Theorem AuthInterceptor_identifies `{TokenLaws W} {Req Resp} ctx (req : Req) method
    (handler : UnaryHandler W Req Resp) (w w' : W) r :
  AuthInterceptor ctx req method handler w = (w', r) →
  (extractToken ctx = "" ∧ handler ctx req w = (w', r)) ∨
  (extractToken ctx ≠ "" ∧ ∃ e, r = Err (StatusErrf Unauthenticated "authentication failed" e)) ∨
  (∃ node w1, token_of w1 (extractToken ctx) node ∧
     NodeIDFromContext (WithValue ctx NodeIDKey node) = node ∧
     handler (WithValue ctx NodeIDKey node) req w1 = (w', r)).
Proof.
  unfold AuthInterceptor. intros Hr. case_decide as Ht; [by left|right].
  apply bind_inv in Hr as [(e & Hv & ->)|(w1 & node & Hv & Hk)];
    apply wrap_err_inv in Hv as [(x & Hv & [=])|(e' & Hv & [=])]; subst.
  - left. eauto.
  - right. exists x, w1. apply ValidateToken_ok in Hv. split; [done|]. split; [|done].
    unfold NodeIDFromContext. by rewrite ctx_Value_WithValue.
Qed.

(** ** A service that knows one token *)

Definition one_token (token node : string) : TokenService unit :=
  {| rpc_ValidateToken ctx t := ret (if decide (t = token) then {| Valid := true; NodeId := node |}
                                     else {| Valid := false; NodeId := "" |});
     token_of _ t n := t = token ∧ n = node |}.

Lemma one_token_laws token node : @TokenLaws unit (one_token token node).
Proof.
  split. simpl. intros ctx t w w' resp [= <- <-]. by case_decide; simplify_eq/=.
Qed.

Definition bearer (token : string) : Context :=
  {| ctx_incoming := Some {[ "authorization" := [token] ]}; ctx_outgoing := [];
     ctx_values := []; ctx_peer := None |}.

Definition whoami : UnaryHandler unit unit string := λ ctx _, ret (NodeIDFromContext ctx).

Lemma AuthInterceptor_identifies_witness :
  @AuthInterceptor unit (one_token "t0" "node-a") unit string (bearer "t0") tt "/m" whoami tt
    = (tt, Ok "node-a") ∧ "node-a" = "node-a".
Proof.
  assert (@AuthInterceptor unit (one_token "t0" "node-a") unit string (bearer "t0") tt "/m" whoami tt
    = (tt, Ok "node-a")) as E by (vm_compute; reflexivity).
  split; [exact E|].
  destruct (@AuthInterceptor_identifies unit (one_token "t0" "node-a") (one_token_laws _ _)
    unit string (bearer "t0") tt "/m" whoami tt tt (Ok "node-a") E)
    as [(Ht & _)|[(_ & e & He)|(node & w1 & (_ & Hn) & _)]].
  - vm_compute in Ht. discriminate Ht.
  - discriminate He.
  - reflexivity.
Defined.
