(* ===== verification/IdentityStore.v ===== *)
(** services/identity/internal/storage: nodes and tokens in PostgreSQL.

    The database server and its driver are not part of the repository; the
    statements and the schema (services/identity/migrations) are. A [Database] holds the two
    tables and what the environment does to the coming statements: the time that passes, and
    whether a statement or its answer is lost. Theorems hold for every such script.
    [uuids] are the values uuid_generate_v4 will return. *)

From S2P Require Import Prelude GoInt Grpc Redis.

Record Node : Type := {
  ID : string;
  PublicKey : string;
  Version : string;
  PeerID : option string;
  CreatedAt : Z;
  UpdatedAt : Z;
}.

Record Token : Type := {
  tk_ID : string;
  tk_Token : string;
  tk_NodeID : string;
  tk_ExpiresAt : Z;
  tk_CreatedAt : Z;
}.

Record Database : Type := {
  nodes : list Node;
  tokens : list Token;
  uuids : list string;
  clock : Z;
  script : list (Z * fault);
}.

#[export] Instance db_clock : Clock Database := clock.

Definition set_nodes (l : list Node) (d : Database) : Database :=
  {| nodes := l; tokens := tokens d; uuids := uuids d; clock := clock d; script := script d |}.
Definition set_tokens (l : list Token) (d : Database) : Database :=
  {| nodes := nodes d; tokens := l; uuids := uuids d; clock := clock d; script := script d |}.
Definition pop_uuid (d : Database) : Database :=
  {| nodes := nodes d; tokens := tokens d; uuids := tail (uuids d); clock := clock d;
     script := script d |}.
Definition next_uuid (d : Database) : string := default "" (head (uuids d)).

(** Time passes until the next statement runs. *)
Definition advance (d : Database) : Database :=
  let '(delay, _) := default (0, NoFault) (head (script d)) in
  {| nodes := nodes d; tokens := tokens d; uuids := uuids d;
     clock := clock d + Z.max 0 delay; script := tail (script d) |}.
Definition next_fault (d : Database) : fault := (default (0, NoFault) (head (script d))).2.

Definition connection_error : error := LibErr "pq: connection lost".
Definition no_rows : error := LibErr "sql: no rows in result set".
Definition unique_violation : error := LibErr "pq: duplicate key value violates unique constraint".
Definition foreign_key_violation : error := LibErr "pq: insert violates foreign key constraint".

(** A statement [f] runs at the server, unless it is lost on the way; its answer may be lost too. *)
Definition query {A} (f : M Database A) : M Database A := λ d,
  match next_fault d with
  | NoFault => f (advance d)
  | LostBefore => (advance d, Err connection_error)
  | LostAfter => ((f (advance d)).1, Err connection_error)
  end.

(** ** Statements *)

Definition has_key (publicKey : string) (n : Node) : bool := bool_decide (PublicKey n = publicKey).
Definition has_id (id : string) (n : Node) : bool := bool_decide (ID n = id).
Definition has_value (v : string) (t : Token) : bool := bool_decide (tk_Token t = v).

Definition find_row {A} (p : A → bool) (l : list A) : option A := find p l.

(** INSERT INTO nodes ... ON CONFLICT (public_key) DO UPDATE ... RETURNING *)
Definition insert_node (publicKey version : string) (peerID : option string) : M Database Node := λ d,
  match find_row (has_key publicKey) (nodes d) with
  | Some n =>
      let n' := {| ID := ID n; PublicKey := publicKey; Version := version; PeerID := peerID;
                   CreatedAt := CreatedAt n; UpdatedAt := clock d |} in
      (set_nodes (map (λ m, if has_key publicKey m then n' else m) (nodes d)) d, Ok n')
  | None =>
      let id := next_uuid d in
      let d' := pop_uuid d in
      if existsb (has_id id) (nodes d) then (d', Err unique_violation)
      else
        let n := {| ID := id; PublicKey := publicKey; Version := version; PeerID := peerID;
                    CreatedAt := clock d; UpdatedAt := clock d |} in
        (set_nodes (nodes d ++ [n]) d', Ok n)
  end.

Definition select_node (p : Node → bool) : M Database Node := λ d,
  match find_row p (nodes d) with
  | Some n => (d, Ok n)
  | None => (d, Err no_rows)
  end.

(** INSERT INTO tokens ... RETURNING id, created_at, against the constraints of the schema *)
Definition insert_token (token nodeID : string) (expiresAt : Z) : M Database Token := λ d,
  let id := next_uuid d in
  let d' := pop_uuid d in
  if existsb (has_value token) (tokens d) || existsb (λ t, bool_decide (tk_ID t = id)) (tokens d)
  then (d', Err unique_violation)
  else if negb (existsb (has_id nodeID) (nodes d)) then (d', Err foreign_key_violation)
  else
    let t := {| tk_ID := id; tk_Token := token; tk_NodeID := nodeID; tk_ExpiresAt := expiresAt;
                tk_CreatedAt := clock d |} in
    (set_tokens (tokens d ++ [t]) d', Ok t).

Definition select_token (v : string) : M Database Token := λ d,
  match find_row (has_value v) (tokens d) with
  | Some t => (d, Ok t)
  | None => (d, Err no_rows)
  end.

(** DELETE FROM tokens WHERE expires_at < NOW() *)
Definition delete_expired : M Database unit := λ d,
  (set_tokens (filter (λ t, ¬ tk_ExpiresAt t < clock d) (tokens d)) d, Ok tt).

(** ** postgres.go *)

Section storage.
(** A TIMESTAMP column keeps the wall clock of the time it is given and is read back as UTC: [tz] is the
    service's offset from UTC when the time was stored. *)
Context (tz : Z).

Definition timestamp (t : Z) : Z := t + tz.

Definition Ping : M Database unit := query (ret tt).

Definition CreateNode (publicKey version peerID : string) : M Database Node :=
  let pID := if decide (peerID = "") then None else Some peerID in
  wrap_err (Wrapf "failed to create/update node") (query (insert_node publicKey version pID)).

Definition GetNodeByID (id : string) : M Database Node :=
  wrap_err (Wrapf "failed to get node") (query (select_node (has_id id))).

Definition GetNodeByPublicKey (publicKey : string) : M Database Node :=
  wrap_err (Wrapf "failed to get node") (query (select_node (has_key publicKey))).

Definition CreateToken (token nodeID : string) (expiresAt : Z) : M Database Token :=
  wrap_err (Wrapf "failed to create token") (query (insert_token token nodeID (timestamp expiresAt))).

Definition GetTokenByValue (tokenValue : string) : M Database Token :=
  wrap_err (Wrapf "failed to get token") (query (select_token tokenValue)).

Definition DeleteExpiredTokens : M Database unit :=
  wrap_err (Wrapf "failed to delete expired tokens") (query delete_expired).
End storage.

(** *** metrics.go, which the service does not use

    The counter of queries by operation and status, and what the histogram of durations has seen *)

Record DBMetrics : Type := {
  DBQueriesTotal : list (string * string);
  DBQueryDuration : list (string * Z);
}.

Definition recordDBMetrics {A} (operation : string) (fn : M Database A) : M (Database * DBMetrics) A := λ '(d, m),
  let '(d', r) := fn d in
  let status := match r with Ok _ => "success" | Err _ => "error" end in
  ((d', {| DBQueriesTotal := DBQueriesTotal m ++ [(operation, status)];
           DBQueryDuration := DBQueryDuration m ++ [(operation, clock d' - clock d)] |}), r).

Definition CreateNodeWithMetrics (publicKey version peerID : string) : M (Database * DBMetrics) Node :=
  recordDBMetrics "create_node" (CreateNode publicKey version peerID).

(** ** The schema's constraints *)

Record db_ok (d : Database) : Prop := {
  ids_unique n m : n ∈ nodes d → m ∈ nodes d → ID n = ID m → n = m;
  keys_unique n m : n ∈ nodes d → m ∈ nodes d → PublicKey n = PublicKey m → n = m;
  tokens_unique t u : t ∈ tokens d → u ∈ tokens d → tk_Token t = tk_Token u → t = u;
  token_refs t : t ∈ tokens d → ∃ n, n ∈ nodes d ∧ ID n = tk_NodeID t;
}.

Lemma find_row_Some {A} (p : A → bool) l x : find_row p l = Some x → x ∈ l ∧ p x = true.
Proof. intros H%find_some. by rewrite list_elem_of_In. Qed.

Lemma find_row_None {A} (p : A → bool) l x : find_row p l = None → x ∈ l → p x = false.
Proof. intros H Hx. eapply find_none; [done|]. by apply list_elem_of_In. Qed.

Lemma find_row_in {A} (p : A → bool) l x : x ∈ l → p x = true → is_Some (find_row p l).
Proof.
  intros Hx Hp. destruct (find_row p l) eqn:E; [done|]. by rewrite (find_row_None _ _ _ E Hx) in Hp.
Qed.

Lemma existsb_false {A} (p : A → bool) l x : existsb p l = false → x ∈ l → p x = false.
Proof.
  intros H Hx. apply not_true_is_false. intros Hp. apply not_true_iff_false in H. apply H.
  apply existsb_exists. exists x. by rewrite <- list_elem_of_In.
Qed.

(** What a statement may do to the tables while tokens stay valid: nodes keep their id and key, and a
    token disappears only after its expiry. *)
Record keeps (d d' : Database) : Prop := {
  keeps_clock : clock d ≤ clock d';
  keeps_nodes n : n ∈ nodes d → ∃ n', n' ∈ nodes d' ∧ ID n' = ID n ∧ PublicKey n' = PublicKey n;
  keeps_tokens t : t ∈ tokens d → clock d' ≤ tk_ExpiresAt t → t ∈ tokens d';
}.

#[export] Instance keeps_preorder : PreOrder keeps.
Proof.
  split.
  - intros d. split; [done|intros n Hn; by exists n|done].
  - intros d1 d2 d3 [C1 N1 T1] [C2 N2 T2]. split; [lia| |].
    + intros n (n2 & Hn2 & E2 & K2)%N1. apply N2 in Hn2 as (n3 & Hn3 & E3 & K3).
      exists n3. split; [done|]. split; congruence.
    + intros t Ht Hc. apply T2; [|done]. apply T1; [done|lia].
Qed.

Lemma advance_keeps d : keeps d (advance d).
Proof.
  unfold advance. destruct (default _ _) as [dl f]. split; simpl; [lia| |done].
  intros n Hn. by exists n.
Qed.

Lemma advance_ok d : db_ok d → db_ok (advance d).
Proof. unfold advance. destruct (default _ _). intros [H1 H2 H3 H4]. by split. Qed.

(** Every query keeps what its statement keeps. *)
Lemma query_keeps {A} (f : M Database A) d d' r :
  (∀ e e' x, f e = (e', x) → db_ok e → keeps e e' ∧ db_ok e') →
  query f d = (d', r) → db_ok d → keeps d d' ∧ db_ok d'.
Proof.
  intros Hf Hq Hd. pose proof (advance_keeps d) as Ha. pose proof (advance_ok d Hd) as Hd1.
  unfold query in Hq. destruct (next_fault d).
  - destruct (Hf _ _ _ Hq Hd1). split; [by trans (advance d)|done].
  - injection Hq as <- <-. done.
  - destruct (f (advance d)) as [e x] eqn:E. injection Hq as <- <-.
    destruct (Hf _ _ _ E Hd1). split; [by trans (advance d)|done].
Qed.

Lemma insert_node_keeps k v p d d' r :
  insert_node k v p d = (d', r) → db_ok d → keeps d d' ∧ db_ok d'.
Proof.
  unfold insert_node. intros Hi Hd. destruct Hd as [H1 H2 H3 H4].
  destruct (find_row (has_key k) (nodes d)) as [n|] eqn:E.
  - apply find_row_Some in E as [Hn Hk%bool_decide_eq_true]. injection Hi as <- <-.
    set (n' := {| ID := ID n; PublicKey := k; Version := v; PeerID := p; CreatedAt := CreatedAt n;
                  UpdatedAt := clock d |}).
    assert (∀ m, m ∈ nodes d → has_key k m = true → m = n) as Huniq.
    { intros m Hm Hkm%bool_decide_eq_true. apply H2; congruence. }
    assert (∀ m, m ∈ nodes d → ID (if has_key k m then n' else m) = ID m) as HID.
    { intros m Hm. destruct (has_key k m) eqn:Em; [|done]. by rewrite (Huniq m). }
    split; [split; [done| |done]|split; simpl].
    + intros m Hm. exists (if has_key k m then n' else m). split; [|split].
      * apply list_elem_of_fmap. eauto.
      * by apply HID.
      * destruct (has_key k m) eqn:Em; [|done]. simpl. by apply bool_decide_eq_true in Em.
    + intros m1 m2 (a & -> & Ha)%list_elem_of_fmap (b & -> & Hb)%list_elem_of_fmap Eid.
      rewrite !HID in Eid by done. by rewrite (H1 a b).
    + intros m1 m2 (a & -> & Ha)%list_elem_of_fmap (b & -> & Hb)%list_elem_of_fmap Ek.
      destruct (has_key k a) eqn:Ka, (has_key k b) eqn:Kb; [done| | |by apply H2].
      * exfalso. apply bool_decide_eq_false in Kb. simpl in Ek. by destruct Kb.
      * exfalso. apply bool_decide_eq_false in Ka. simpl in Ek. by destruct Ka.
    + done.
    + intros t (m & Hm & Em)%H4. exists (if has_key k m then n' else m). split.
      * apply list_elem_of_fmap. eauto.
      * by rewrite HID.
  - pose proof (λ x, find_row_None _ _ x E) as Hno.
    destruct (existsb (has_id (next_uuid d)) (nodes d)) eqn:Ex; injection Hi as <- <-.
    { split; [|by split]. split; simpl; [done| |done]. intros m Hm. by exists m. }
    pose proof (λ x, existsb_false _ _ x Ex) as Hnid.
    split; [split; simpl; [done| |done]|split; simpl].
    + intros m Hm. exists m. split; [|done]. apply elem_of_app. by left.
    + intros m1 m2 [A|A%list_elem_of_singleton]%elem_of_app [B|B%list_elem_of_singleton]%elem_of_app Eid;
        subst; [by apply H1| | |done].
      * specialize (Hnid _ A). apply bool_decide_eq_false in Hnid. by destruct Hnid.
      * specialize (Hnid _ B). apply bool_decide_eq_false in Hnid. simpl in Eid. by destruct Hnid.
    + intros m1 m2 [A|A%list_elem_of_singleton]%elem_of_app [B|B%list_elem_of_singleton]%elem_of_app Eid;
        subst; [by apply H2| | |done].
      * specialize (Hno _ A). apply bool_decide_eq_false in Hno. by destruct Hno.
      * specialize (Hno _ B). apply bool_decide_eq_false in Hno. simpl in Eid. by destruct Hno.
    + done.
    + intros t (m & Hm & Em)%H4. exists m. split; [|done]. apply elem_of_app. by left.
Qed.

Lemma insert_token_keeps v n x d d' r :
  insert_token v n x d = (d', r) → db_ok d → keeps d d' ∧ db_ok d'.
Proof.
  unfold insert_token. intros Hi Hd. pose proof Hd as [H1 H2 H3 H4].
  assert (keeps d (pop_uuid d)) as Hp by (split; simpl; [done|eauto|done]).
  assert (db_ok (pop_uuid d)) as Hp2 by (by split).
  destruct (existsb (has_value v) (tokens d)) eqn:Ev; [by injection Hi as <- <-|].
  destruct (existsb _ (tokens d)) eqn:Ei in Hi; [by injection Hi as <- <-|]. simpl in Hi.
  destruct (existsb (has_id n) (nodes d)) eqn:En; simpl in Hi; injection Hi as <- <-; [|done].
  pose proof (λ y, existsb_false _ _ y Ev) as Hno.
  split; [split; simpl; [done|eauto|]|split; simpl; [done..| |]].
  - intros t Ht _. apply elem_of_app. by left.
  - intros t u [A|A%list_elem_of_singleton]%elem_of_app [B|B%list_elem_of_singleton]%elem_of_app Et;
      subst; [by apply H3| | |done].
    + specialize (Hno _ A). apply bool_decide_eq_false in Hno. by destruct Hno.
    + specialize (Hno _ B). apply bool_decide_eq_false in Hno. simpl in Et. by destruct Hno.
  - intros t [A|A%list_elem_of_singleton]%elem_of_app; [by apply H4|subst]. simpl.
    apply existsb_exists in En as (m & Hm & Em%bool_decide_eq_true). exists m.
    split; [by apply list_elem_of_In|done].
Qed.

Lemma select_keeps {A} (p : A → bool) (rows : Database → list A) d d' (r : res A) :
  match find_row p (rows d) with Some x => (d, Ok x) | None => (d, Err no_rows) end = (d', r) →
  db_ok d → keeps d d' ∧ db_ok d'.
Proof. destruct (find_row p (rows d)); by intros [= <- <-]. Qed.

Lemma delete_expired_keeps d d' r :
  delete_expired d = (d', r) → db_ok d → keeps d d' ∧ db_ok d'.
Proof.
  intros [= <- <-] [H1 H2 H3 H4]. split; [split; simpl; [done|eauto|]|split; simpl; [done..| |]].
  - intros t Ht Hc. apply list_elem_of_filter. split; [lia|done].
  - intros t u [_ Ht]%list_elem_of_filter [_ Hu]%list_elem_of_filter. by apply H3.
  - intros t [_ Ht]%list_elem_of_filter. by apply H4.
Qed.
