(* ===== verification/Identity.v ===== *)
(** services/identity/internal/service and internal/grpc: registration and tokens.

    github.com/golang-jwt/jwt is the class [JWT]. Its laws are what the package documents of [Parse]: it decodes the token
    without trusting it, asks the caller's function for the key, verifies the signature with the token's own method, and
    validates the expiry, where an [exp] of zero counts as absent. That the signature of another key does not verify
    is cryptography and no law. *)

From S2P Require Import Prelude GoInt GoStrings Grpc Redis Auth IdentityStore.

(** jwt.MapClaims, as far as the service reads and writes it *)
Record MapClaims : Type := { c_node_id : option string; c_exp : Z; c_iat : Z }.

(** token.Method: the method that the token's own header names *)
Inductive SigningMethod : Type := SigningMethodHMAC (alg : string) | OtherMethod (alg : string).

(** jwt.Token *)
Record JToken : Type := { jt_Method : SigningMethod; jt_Claims : MapClaims; jt_Valid : bool }.

(** The expiry check of jwt.Validator *)
Definition unexpired (now : Z) (c : MapClaims) : Prop := c_exp c = 0 ∨ now < time_of_unix (c_exp c).

(** [SignedString] is [jwt.NewWithClaims(jwt.SigningMethodHS256, claims).SignedString(key)]; times are whole seconds that a
    JSON number carries exactly. [ParseUnverified] is the token as it is decoded, [Verify] its method's check of the
    signature. *)
Class JWT : Type := {
  SignedString : string → MapClaims → res string;
  ParseUnverified : string → option JToken;
  Verify : JToken → string → string → bool;    (* of a token's text, with a key *)
  Parse : Z → string → (JToken → res string) → res JToken;
  SignedString_decodes key c s :
    SignedString key c = Ok s →
    ∃ u, ParseUnverified s = Some u ∧ jt_Method u = SigningMethodHMAC "HS256" ∧ jt_Claims u = c ∧ Verify u s key = true;
  Parse_signed now key c s keyFunc :
    SignedString key c = Ok s → unexpired now c →
    (∀ u, jt_Method u = SigningMethodHMAC "HS256" → keyFunc u = Ok key) →
    ∃ t, Parse now s keyFunc = Ok t ∧ jt_Claims t = c ∧ jt_Valid t = true;
  Parse_checks now s keyFunc t :
    Parse now s keyFunc = Ok t →
    ∃ u key, ParseUnverified s = Some u ∧ keyFunc u = Ok key ∧ Verify u s key = true ∧ unexpired now (jt_Claims u) ∧
             jt_Claims t = jt_Claims u;
}.

(** [tz] is the service's offset from UTC: see IdentityStore.v. *)
Record IdentityService : Type := {
  jwtSecret : string;
  networkSecret : string;
  tokenTTL : Z;
  tz : Z;
}.

Definition New (jwtSecret networkSecret : string) (tokenDurationHours tz : Z) : IdentityService :=
  {| jwtSecret := jwtSecret; networkSecret := networkSecret;
     tokenTTL := wrap64 (tokenDurationHours * Hour); tz := tz |}.

(** The database and the counters metrics.TokensIssuedTotal and AuthFailuresTotal{reason} *)
Record World : Type := { db : Database; TokensIssued : Z; AuthFailures : string → Z }.

#[export] Instance world_clock : Clock World := λ w, clock (db w).

Definition on_db {A} (m : M Database A) : M World A :=
  zoom db (λ d w, {| db := d; TokensIssued := TokensIssued w; AuthFailures := AuthFailures w |}) m.
Definition AuthFailures_Inc (reason : string) : M World unit := λ w,
  ({| db := db w; TokensIssued := TokensIssued w;
      AuthFailures := λ r, if decide (r = reason) then AuthFailures w r + 1 else AuthFailures w r |},
   Ok tt).
Definition TokensIssued_Inc : M World unit := λ w,
  ({| db := db w; TokensIssued := TokensIssued w + 1; AuthFailures := AuthFailures w |}, Ok tt).
Definition now : M World Z := λ w, (w, Ok (Now w)).

Section service.
Context `{JWT}.

Definition generateToken (s : IdentityService) (nodeID : string) : M World (string * Z) :=
  let! t := now in
  let expiresAt := unix_of_time (t + tokenTTL s) in
  let! t' := now in
  let claims := {| c_node_id := Some nodeID; c_exp := expiresAt; c_iat := unix_of_time t' |} in
  match SignedString (jwtSecret s) claims with
  | Ok tokenString => ret (tokenString, expiresAt)
  | Err e => throw (Wrapf "failed to sign token" e)
  end.

Definition RegisterNode (s : IdentityService) (publicKey version peerID reqSecret : string) :
    M World (string * string * Z) :=
  if decide (networkSecret s ≠ "" ∧ reqSecret ≠ networkSecret s) then
    let! _ := AuthFailures_Inc "invalid_network_secret" in
    throw (Errorf "invalid network secret")
  else
    let! node := wrap_err (Wrapf "failed to create node") (on_db (CreateNode publicKey version peerID)) in
    let! '(tokenString, exp) := wrap_err (Wrapf "failed to generate token") (generateToken s (ID node)) in
    let! _ := wrap_err (Wrapf "failed to create token")
                (on_db (CreateToken (tz s) tokenString (ID node) (time_of_unix exp))) in
    let! _ := TokensIssued_Inc in
    ret (ID node, tokenString, exp).

(** The function that [ValidateToken] hands to jwt.Parse *)
Definition keyFunc (s : IdentityService) (token : JToken) : res string :=
  match jt_Method token with
  | SigningMethodHMAC _ => Ok (jwtSecret s)
  | OtherMethod alg => Err (Errorf ("unexpected signing method: " +:+ alg))
  end.

Definition ValidateToken (s : IdentityService) (tokenString : string) : M World (string * bool) :=
  let! t := now in
  match Parse t tokenString (keyFunc s) with
  | Err _ => let! _ := AuthFailures_Inc "invalid_token" in ret ("", false)
  | Ok token =>
      if negb (jt_Valid token) then let! _ := AuthFailures_Inc "invalid_token" in ret ("", false)
      else
        match c_node_id (jt_Claims token) with
        | None => throw (Errorf "node_id not found in token")
        | Some nodeIDStr =>
            let? tokenRecord := on_db (GetTokenByValue tokenString) in
            match tokenRecord with
            | Err _ => let! _ := AuthFailures_Inc "token_not_found" in ret ("", false)
            | Ok tokenRecord =>
                let! t' := now in
                if tk_ExpiresAt tokenRecord <? t' then
                  let! _ := AuthFailures_Inc "expired_token" in ret ("", false)
                else ret (nodeIDStr, true)
            end
        end
  end.

Definition GetPublicKey (s : IdentityService) (nodeID : string) : M World string :=
  let! node := wrap_err (Wrapf "node not found") (on_db (GetNodeByID nodeID)) in
  ret (PublicKey node).

Definition CleanupExpiredTokens (s : IdentityService) : M World unit := on_db DeleteExpiredTokens.

(** ** internal/grpc/handler.go *)

Record RegisterNodeRequest : Type := {
  rn_PublicKey : string; rn_Version : string; rn_PeerId : string; rn_NetworkSecret : string;
}.
Record RegisterNodeResponse : Type := { rn_NodeId : string; rn_Token : string; rn_ExpiresAt : Z }.

Definition RegisterNode_handler (s : IdentityService) (req : RegisterNodeRequest) :
    M World RegisterNodeResponse :=
  if decide (rn_PublicKey req = "") then throw (StatusErr InvalidArgument "public_key is required")
  else if decide (rn_Version req = "") then throw (StatusErr InvalidArgument "version is required")
  else
    let! '(nodeID, token, expiresAt) := wrap_err (StatusErrf Internal "failed to register node")
      (RegisterNode s (rn_PublicKey req) (rn_Version req) (rn_PeerId req) (rn_NetworkSecret req)) in
    ret {| rn_NodeId := nodeID; rn_Token := token; rn_ExpiresAt := expiresAt |}.

Definition ValidateToken_handler (s : IdentityService) (token : string) : M World ValidateTokenResponse :=
  if decide (token = "") then throw (StatusErr InvalidArgument "token is required")
  else
    let! '(nodeID, valid) := wrap_err (StatusErrf Internal "failed to validate token")
                               (ValidateToken s token) in
    ret {| Valid := valid; NodeId := nodeID |}.

Definition GetPublicKey_handler (s : IdentityService) (nodeID : string) : M World string :=
  if decide (nodeID = "") then throw (StatusErr InvalidArgument "node_id is required")
  else wrap_err (StatusErrf NotFound "node not found") (GetPublicKey s nodeID).
End service.

(** ** Facts *)

Section facts.
Context `{JWT} (s : IdentityService).
Implicit Types w : World.

Lemma on_db_inv {A} (m : M Database A) w w' r : on_db m w = (w', r) → m (db w) = (db w', r).
Proof. unfold on_db, zoom. destruct (m (db w)). by intros [= <- <-]. Qed.

(** A wrapped statement of the store, run on the world's database *)
Lemma store_inv {A} (f g : error → error) (q : M Database A) w w' r :
  wrap_err f (on_db (wrap_err g (query q))) w = (w', r) →
  (∃ a, r = Ok a ∧ query q (db w) = (db w', Ok a)) ∨
  (∃ e, r = Err (f (g e)) ∧ query q (db w) = (db w', Err e)).
Proof.
  intros [(a & Hr & ->)|(e & Hr & ->)]%wrap_err_inv; apply on_db_inv in Hr;
    apply wrap_err_inv in Hr as [(b & Hr & [=])|(e' & Hr & [=])]; subst; eauto.
Qed.

Lemma query_ok {A} (f : M Database A) d d' a :
  query f d = (d', Ok a) → f (advance d) = (d', Ok a).
Proof. unfold query. by destruct (next_fault d). Qed.

(** What a completed registration did: the node's row, then the token's. *)
Lemma RegisterNode_inv k v p rs w w' id tok exp :
  RegisterNode s k v p rs w = (w', Ok (id, tok, exp)) →
  (networkSecret s = "" ∨ rs = networkSecret s) ∧
  ∃ w1 n t, query (insert_node k v (if decide (p = "") then None else Some p)) (db w) = (db w1, Ok n) ∧
    ID n = id ∧ exp = unix_of_time (Now w1 + tokenTTL s) ∧
    SignedString (jwtSecret s)
      {| c_node_id := Some id; c_exp := exp; c_iat := unix_of_time (Now w1) |} = Ok tok ∧
    query (insert_token tok id (timestamp (tz s) (time_of_unix exp))) (db w1) = (db w', Ok t).
Proof.
  unfold RegisterNode. case_decide as Hs.
  { unfold bind, AuthFailures_Inc, throw. discriminate. }
  intros Hr. split.
  { destruct (decide (networkSecret s = "")); [by left|right].
    destruct (decide (rs = networkSecret s)); [done|]. by destruct Hs. }
  apply bind_inv_ok in Hr as (w1 & n & Hn & Hr).
  apply store_inv in Hn as [(? & [= <-] & Hn)|(? & [=] & _)].
  apply bind_inv_ok in Hr as (w2 & [tok' exp'] & Hg & Hr).
  apply wrap_err_inv in Hg as [(? & Hg & [= <-])|(? & _ & [=])].
  unfold generateToken, now, bind in Hg. destruct (SignedString _ _) as [x|] eqn:Es; [|done].
  injection Hg as <- <- <-.
  apply bind_inv_ok in Hr as (w3 & t & Ht & Hr).
  apply store_inv in Ht as [(? & [= <-] & Ht)|(? & [=] & _)].
  apply bind_inv_ok in Hr as (w4 & u & Hu & Hr).
  injection Hu as <- <-. injection Hr as <- <- <- <-. by exists w1, n, t.
Qed.

Lemma insert_node_ok k v p d d' n :
  insert_node k v p d = (d', Ok n) → n ∈ nodes d' ∧ PublicKey n = k ∧ tokens d' = tokens d ∧ clock d' = clock d.
Proof.
  unfold insert_node. destruct (find_row _ _) as [m|] eqn:E.
  - intros [= <- <-]. simpl. split_and!; try done. apply list_elem_of_fmap. exists m.
    apply find_row_Some in E as [Hm Hk]. by rewrite Hk.
  - destruct (existsb _ _); [done|]. intros [= <- <-]. simpl. split_and!; try done.
    apply elem_of_app. right. by apply list_elem_of_singleton.
Qed.

Lemma insert_token_ok v n x d d' t :
  insert_token v n x d = (d', Ok t) →
  t ∈ tokens d' ∧ tk_Token t = v ∧ tk_NodeID t = n ∧ tk_ExpiresAt t = x ∧ nodes d' = nodes d ∧
  find_row (has_value v) (tokens d) = None ∧ clock d' = clock d.
Proof.
  unfold insert_token. destruct (_ || _) eqn:E; [done|]. apply orb_false_iff in E as [E _].
  destruct (negb _); [done|]. intros [= <- <-]. simpl.
  split_and!; try done; [apply elem_of_app; right; by apply list_elem_of_singleton|].
  destruct (find_row _ _) eqn:Ef; [|done]. apply find_row_Some in Ef as [Hin Hv].
  by rewrite (existsb_false _ _ _ E Hin) in Hv.
Qed.

Lemma advance_tables d : nodes (advance d) = nodes d ∧ tokens (advance d) = tokens d.
Proof. unfold advance. by destruct (default _ _). Qed.

(** The node's row is there when the registration is done. *)
Lemma registered_row k v p rs w w' id tok exp :
  RegisterNode s k v p rs w = (w', Ok (id, tok, exp)) →
  ∃ n, n ∈ nodes (db w') ∧ PublicKey n = k ∧ ID n = id.
Proof.
  intros (_ & w0 & n & t & Hn & Hid & _ & _ & Ht)%RegisterNode_inv.
  apply query_ok, insert_node_ok in Hn as (Hin & Hkey & _).
  apply query_ok, insert_token_ok in Ht as (_ & _ & _ & _ & Hnodes & _).
  exists n. by rewrite Hnodes, (proj1 (advance_tables _)).
Qed.

(** The key that is looked up is that of the node's row. *)
Lemma public_key_row id w w' k :
  GetPublicKey s id w = (w', Ok k) → ∃ n, n ∈ nodes (db w') ∧ ID n = id ∧ PublicKey n = k.
Proof.
  intros (w1 & n & Hn & [= <- <-])%bind_inv_ok. apply store_inv in Hn as [(a & [= <-] & Hq)|(e & [=] & _)].
  apply query_ok in Hq. unfold select_node in Hq.
  destruct (find_row (has_id id) _) as [x|] eqn:Ex; [|done]. injection Hq as Hd <-.
  apply find_row_Some in Ex as [Hx Hid%bool_decide_eq_true]. exists x. by rewrite <- Hd.
Qed.

(** *** Operations over time *)

Lemma query_step {A} (f : M Database A) d d' r :
  (∀ e e' x, f e = (e', x) → db_ok e → keeps e e' ∧ db_ok e') →
  query f d = (d', r) → db_ok d → keeps d d' ∧ db_ok d'.
Proof. apply query_keeps. Qed.

(** Everything that may happen to the service's world: any operation, with any outcome, and time passing. *)
Inductive ops_step : World → World → Prop :=
| step_register k v p rs w w' r : RegisterNode s k v p rs w = (w', r) → ops_step w w'
| step_validate tok w w' r : ValidateToken s tok w = (w', r) → ops_step w w'
| step_key id w w' r : GetPublicKey s id w = (w', r) → ops_step w w'
| step_cleanup w w' r : CleanupExpiredTokens s w = (w', r) → ops_step w w'
| step_time w w' : db w' = advance (db w) → ops_step w w'.

Lemma generateToken_world id w w' r : generateToken s id w = (w', r) → w = w'.
Proof. unfold generateToken, now, bind. by destruct (SignedString _ _); intros [= <- <-]. Qed.

Lemma register_keeps k v p rs w w' r :
  RegisterNode s k v p rs w = (w', r) → db_ok (db w) → keeps (db w) (db w') ∧ db_ok (db w').
Proof.
  intros Hr Hd. unfold RegisterNode in Hr. case_decide; [by injection Hr as <- <-|].
  apply bind_inv in Hr as [(e & Hn & ->)|(w1 & n & Hn & Hr)];
    (apply store_inv in Hn as [(? & ? & Hn)|(? & ? & Hn)];
     destruct (query_keeps _ _ _ _ (insert_node_keeps _ _ _) Hn Hd) as [Hk1 Hd1]); [done..| |done].
  apply bind_inv in Hr as [(e & Hg & ->)|(w2 & [tok exp] & Hg & Hr)];
    apply wrap_err_inv in Hg as [(? & Hg & ?)|(? & Hg & ?)];
    apply generateToken_world in Hg as <-; [done..| |done].
  apply bind_inv in Hr as [(e & Ht & ->)|(w3 & t & Ht & Hr)];
    (apply store_inv in Ht as [(? & ? & Ht)|(? & ? & Ht)];
     destruct (query_keeps _ _ _ _ (insert_token_keeps _ _ _) Ht Hd1) as [Hk2 Hd2]).
  all: try (injection Hr as <- <-; simpl).
  all: split; [by trans (db w1)|done].
Qed.

Lemma validate_db tok w w' r :
  ValidateToken s tok w = (w', r) →
  db w' = db w ∨ ∃ x, query (select_token tok) (db w) = (db w', x).
Proof.
  unfold ValidateToken. unfold bind at 1, now. cbv beta iota.
  destruct (Parse _ _ _) as [j|e]; [|intros [= <- <-]; by left].
  destruct (negb _); [intros [= <- <-]; by left|].
  destruct (c_node_id _); [|intros [= <- <-]; by left].
  intros (w1 & x & Hq & Hk)%handle_inv. apply on_db_inv in Hq.
  assert (∃ y, query (select_token tok) (db w) = (db w1, y)) as [y Hy].
  { apply wrap_err_inv in Hq as [(? & Hq & _)|(? & Hq & _)]; eauto. }
  right. exists y. destruct x as [t|e]; [|by injection Hk as <- <-].
  unfold bind, now in Hk. destruct (tk_ExpiresAt t <? Now w1); by injection Hk as <- <-.
Qed.

Lemma ops_keep w w' : ops_step w w' → db_ok (db w) → keeps (db w) (db w') ∧ db_ok (db w').
Proof.
  intros [k v p rs ? ? r Hr|tok ? ? r Hr|id ? ? r Hr|? ? r Hr|? ? Hr] Hd.
  - by eapply register_keeps.
  - apply validate_db in Hr as [->|[x Hq]]; [done|].
    eapply query_keeps; [|exact Hq|done]. intros e e' y He. unfold select_token in He.
    by eapply (select_keeps (has_value tok) tokens).
  - unfold GetPublicKey in Hr. apply bind_inv in Hr as [(e & Hn & ->)|(w1 & n & Hn & Hr)];
      [|injection Hr as <- <-];
      apply store_inv in Hn as [(? & _ & Hn)|(? & _ & Hn)];
      (eapply query_keeps; [|exact Hn|done]); intros e1 e2 y He;
      by eapply (select_keeps (has_id id) nodes).
  - apply on_db_inv in Hr. apply wrap_err_inv in Hr as [(? & Hq & _)|(? & Hq & _)];
      (eapply query_keeps; [|exact Hq|done]); apply delete_expired_keeps.
  - rewrite Hr. split; [apply advance_keeps|by apply advance_ok].
Qed.

Lemma ops_keep_rtc w w' : rtc ops_step w w' → db_ok (db w) → keeps (db w) (db w') ∧ db_ok (db w').
Proof.
  induction 1 as [w|w1 w2 w3 Hs _ IH]; [done|]. intros Hd.
  destruct (ops_keep _ _ Hs Hd) as [Hk Hd2]. destruct (IH Hd2). split; [by trans (db w2)|done].
Qed.

(** A token whose row is there is found. *)
Lemma select_token_found t d :
  db_ok d → t ∈ tokens d → select_token (tk_Token t) d = (d, Ok t).
Proof.
  intros Hd Ht. unfold select_token.
  destruct (find_row (has_value (tk_Token t)) (tokens d)) as [u|] eqn:E.
  - apply find_row_Some in E as [Hu Hv%bool_decide_eq_true].
    by rewrite (tokens_unique _ Hd u t).
  - pose proof (find_row_None _ _ _ E Ht) as Hn. apply bool_decide_eq_false in Hn. done.
Qed.

Lemma find_none_select v d : find_row (has_value v) (tokens d) = None → select_token v d = (d, Err no_rows).
Proof. unfold select_token. by intros ->. Qed.
End facts.

(** ** The service as the other services see it *)

(** A token stands for a node while its row is there, unexpired, and its signature was good when it was
    checked. *)
Definition stands_for `{JWT} (s : IdentityService) (w : World) (token node : string) : Prop :=
  (∃ t, t ∈ tokens (db w) ∧ tk_Token t = token ∧ Now w ≤ tk_ExpiresAt t) ∧
  (∃ checked j, checked ≤ Now w ∧ Parse checked token (keyFunc s) = Ok j ∧ c_node_id (jt_Claims j) = Some node).

Definition identity_tokens `{JWT} (s : IdentityService) : TokenService World :=
  {| rpc_ValidateToken ctx token := ValidateToken_handler s token;
     token_of := stands_for s |}.

Section validate.
Context `{JWT} (s : IdentityService).
Implicit Types w : World.

Lemma query_clock v d d' r : query (select_token v) d = (d', r) → clock d ≤ clock d' ∧ tokens d' = tokens d.
Proof.
  pose proof (keeps_clock _ _ (advance_keeps d)) as Hc.
  assert (tokens (advance d) = tokens d) as Ht by (unfold advance; by destruct (default _ _)).
  unfold query, select_token. destruct (next_fault d); [| |]; try destruct (find_row _ _);
    intros [= <- <-]; simpl; auto.
Qed.

Lemma ValidateToken_valid token w w' node :
  ValidateToken s token w = (w', Ok (node, true)) → stands_for s w' token node.
Proof.
  unfold ValidateToken. unfold bind at 1, now. cbv beta iota.
  destruct (Parse (Now w) token (keyFunc s)) as [j|e] eqn:Ep; [|done].
  destruct (negb (jt_Valid j)); [done|].
  destruct (c_node_id (jt_Claims j)) as [nd|] eqn:En; [|done].
  intros (w1 & x & Hq & Hk)%handle_inv. destruct x as [t|e]; [|done].
  apply on_db_inv in Hq. apply wrap_err_inv in Hq as [(? & Hq & [= <-])|(? & _ & [=])].
  pose proof (query_clock _ _ _ _ Hq) as [Hc Htok].
  apply query_ok in Hq. unfold select_token in Hq.
  destruct (find_row _ _) as [u|] eqn:Ef; [|done]. injection Hq as Hd ->.
  apply find_row_Some in Ef as [Hin Hv%bool_decide_eq_true].
  unfold bind, now in Hk. destruct (Z.ltb_spec (tk_ExpiresAt t) (Now w1)); [done|].
  injection Hk as <- ->. split.
  - exists t. split; [by rewrite <- Hd|]. by split.
  - exists (Now w), j. done.
Qed.

Lemma identity_laws : @TokenLaws World (identity_tokens s).
Proof.
  split. simpl. intros ctx token w w' resp Hr Hv. unfold ValidateToken_handler in Hr.
  case_decide; [done|]. apply bind_inv_ok in Hr as (w1 & [node valid] & Hr & Hk).
  injection Hk as <- <-. simpl in *. subst.
  apply wrap_err_inv in Hr as [(? & Hr & [= <-])|(? & _ & [=])]. by eapply ValidateToken_valid.
Qed.
End validate.

(** ** Properties *)

Section properties.
Context `{JWT} (s : IdentityService).
Implicit Types w : World.

(** What the service has signed it takes back until the token's expiry. *)
Lemma signed_accepted c tok :
  SignedString (jwtSecret s) c = Ok tok → ∀ t, unexpired t c →
  ∃ j, Parse t tok (keyFunc s) = Ok j ∧ jt_Claims j = c ∧ jt_Valid j = true.
Proof. intros Hs t Ht. eapply Parse_signed; [done..|]. intros u Hu. unfold keyFunc. by rewrite Hu. Qed.

(** C5: A token is good until it expires. After a registration, whatever operations
    follow (by anyone, with any faults, clean-ups included), validating the token before its
    expiry says it is valid and names the node that was registered, if the database answers.
    The service's clock must not be behind UTC ([tz] at least 0). *)
Theorem token_valid_until_expiry k v p rs w w1 w2 id tok exp :
  0 ≤ tz s → db_ok (db w) →
  RegisterNode s k v p rs w = (w1, Ok (id, tok, exp)) →
  rtc (ops_step s) w1 w2 →
  next_fault (db w2) = NoFault → clock (advance (db w2)) < time_of_unix exp →
  (ValidateToken s tok w2).2 = Ok (id, true).
Proof.
  intros Htz Hd Hr Hops Hf Hc.
  destruct (register_keeps s _ _ _ _ _ _ _ Hr Hd) as [_ Hd1].
  destruct (ops_keep_rtc s _ _ Hops Hd1) as [Hk Hd2].
  apply RegisterNode_inv in Hr as (_ & w0 & n & t & _ & _ & _ & Hsign & Ht).
  apply query_ok, insert_token_ok in Ht as (Hin & Htok & _ & Hexp & _).
  pose proof (advance_keeps (db w2)) as Ha. pose proof (keeps_clock _ _ Ha) as Hca.
  assert (tk_ExpiresAt t = time_of_unix exp + tz s) as Hx by (rewrite Hexp; done).
  assert (t ∈ tokens (advance (db w2))) as Hin2.
  { apply (keeps_tokens _ _ Ha); [|lia]. apply (keeps_tokens _ _ Hk); [done|lia]. }
  unfold ValidateToken, bind at 1, now. cbv beta iota.
  destruct (signed_accepted _ _ Hsign (Now w2)) as (j & Hp & Hj & Hval).
  { right. unfold Now, world_clock. simpl. lia. }
  rewrite Hp, Hval, Hj. cbn [negb c_node_id].
  unfold handle, on_db, zoom, GetTokenByValue, wrap_err, query. rewrite Hf.
  rewrite <- Htok. rewrite (select_token_found t _ (advance_ok _ Hd2) Hin2).
  unfold bind. cbn [db Now world_clock clock]. unfold Now, world_clock. cbn [db].
  destruct (Z.ltb_spec (tk_ExpiresAt t) (clock (advance (db w2)))); [lia|done].
Qed.

(** What makes a token's text worth nothing at a time, whatever the database says: it does not decode, its header names a
    method other than HMAC, its signature does not verify under the service's secret, or it has expired *)
Definition bad_token (tok : string) (now : Z) : Prop :=
  match ParseUnverified tok with
  | None => True
  | Some u => (∃ alg, jt_Method u = OtherMethod alg) ∨ Verify u tok (jwtSecret s) = false ∨
              c_exp (jt_Claims u) ≠ 0 ∧ time_of_unix (c_exp (jt_Claims u)) ≤ now
  end.

Lemma bad_token_parse tok t : bad_token tok t → is_ok (Parse t tok (keyFunc s)) = false.
Proof.
  intros Hbad. destruct (Parse t tok (keyFunc s)) as [j|e] eqn:E; [exfalso|done].
  apply Parse_checks in E as (u & key & Hu & Hk & Hv & Hx & _). unfold bad_token in Hbad. rewrite Hu in Hbad.
  unfold keyFunc in Hk. destruct (jt_Method u) as [alg|alg]; [injection Hk as <-|done].
  destruct Hbad as [[? [=]]|[?|[Hne Hle]]]; [congruence|]. destruct Hx; [done|lia].
Qed.

(** The row decides: a token that it has not, or only expired, is never valid. *)
Lemma unrecorded_rejected tok w w' r :
  (∀ t, t ∈ tokens (db w) → tk_Token t = tok → tk_ExpiresAt t < Now w) →
  ValidateToken s tok w = (w', r) → ∀ id, r ≠ Ok (id, true).
Proof.
  intros Hrow Hr id ->. apply ValidateToken_valid in Hr as Hs. destruct Hs as [(t & Ht & Htok & Hle) _].
  apply validate_db in Hr as Hdb. assert (clock (db w) ≤ clock (db w') ∧ tokens (db w') = tokens (db w)) as [Hc Htoks].
  { destruct Hdb as [->|[x Hq]]; [by split|]. by apply query_clock in Hq. }
  rewrite Htoks in Ht. specialize (Hrow t Ht Htok). unfold Now, world_clock in *. lia.
Qed.

(** C28: A token that does not decode, whose header names a method other than HMAC (none, or one with a public key), whose
    signature does not verify under the service's secret, or that has expired, is rejected in any state of the database: the
    database is not even asked, and the counter of invalid tokens, and no other, goes up by one. And a token with a good
    signature that is not among the rows, or only with an expired one, is never valid either. *)
Theorem expired_or_forged_rejected tok w :
  (bad_token tok (Now w) →
   ∃ w', ValidateToken s tok w = (w', Ok ("", false)) ∧ db w' = db w ∧ TokensIssued w' = TokensIssued w ∧
     ∀ reason, AuthFailures w' reason = AuthFailures w reason + (if decide (reason = "invalid_token") then 1 else 0)) ∧
  ((∀ t, t ∈ tokens (db w) → tk_Token t = tok → tk_ExpiresAt t < Now w) →
   ∀ id, (ValidateToken s tok w).2 ≠ Ok (id, true)).
Proof.
  split.
  - intros Hp%bad_token_parse. unfold ValidateToken, bind at 1, now. cbv beta iota.
    destruct (Parse (Now w) tok (keyFunc s)); [done|].
    eexists. split; [reflexivity|]. split; [done|]. split; [done|]. intros reason. simpl. case_decide; lia.
  - intros Hrow. apply (unrecorded_rejected tok w (ValidateToken s tok w).1 _ Hrow). apply surjective_pairing.
Qed.

(** The validation the other services rely on is sound: a token the service calls valid
    has a row in the database that has not expired and a good signature over the
    node's id. *)
Theorem valid_means_recorded ctx token w w' resp :
  @rpc_ValidateToken World (identity_tokens s) ctx token w = (w', Ok resp) → Valid resp = true →
  (∃ t, t ∈ tokens (db w') ∧ tk_Token t = token ∧ Now w' ≤ tk_ExpiresAt t) ∧
  ∃ checked j, checked ≤ Now w' ∧ Parse checked token (keyFunc s) = Ok j ∧
               c_node_id (jt_Claims j) = Some (NodeId resp).
Proof. intros Hr Hv. exact (@rpc_valid _ _ (identity_laws s) ctx token w w' resp Hr Hv). Qed.

(** C29: A public key is one node for ever: between two registrations, whatever happens, the same
    key gets the same node id and different keys get different ones. *)
Theorem node_identity k1 v1 p1 rs1 k2 v2 p2 rs2 w w1 w2 w3 id1 id2 tok1 tok2 exp1 exp2 :
  db_ok (db w) →
  RegisterNode s k1 v1 p1 rs1 w = (w1, Ok (id1, tok1, exp1)) →
  rtc (ops_step s) w1 w2 →
  RegisterNode s k2 v2 p2 rs2 w2 = (w3, Ok (id2, tok2, exp2)) →
  k1 = k2 ↔ id1 = id2.
Proof.
  intros Hd Hr1 Hops Hr2.
  destruct (register_keeps s _ _ _ _ _ _ _ Hr1 Hd) as [_ Hd1].
  destruct (ops_keep_rtc s _ _ Hops Hd1) as [Hk Hd2].
  destruct (register_keeps s _ _ _ _ _ _ _ Hr2 Hd2) as [Hk3 Hd3].
  destruct (registered_row s _ _ _ _ _ _ _ _ _ Hr1) as (n1 & Hn1 & Hk1 & Hi1).
  destruct (registered_row s _ _ _ _ _ _ _ _ _ Hr2) as (n2 & Hn2 & Hk2 & Hi2).
  apply (keeps_nodes _ _ Hk) in Hn1 as (n1' & Hn1 & Hi1' & Hk1').
  apply (keeps_nodes _ _ Hk3) in Hn1 as (n1'' & Hn1 & Hi1'' & Hk1''). split.
  - intros Ek. assert (n1'' = n2) as En by (apply (keys_unique _ Hd3); congruence). congruence.
  - intros Ei. assert (n1'' = n2) as En by (apply (ids_unique _ Hd3); congruence). congruence.
Qed.

(** A node that registers twice within one second is refused: the second token would have the same
    claims, so it is the same text, and the column is UNIQUE. The caller gets an error although its
    node is registered. *)
Theorem reregistration_within_second_fails k v p rs v' p' rs' w w1 w2 id tok exp r ttl_seconds :
  db_ok (db w) → tokenTTL s = ttl_seconds * Second →
  RegisterNode s k v p rs w = (w1, Ok (id, tok, exp)) →
  unix_of_time (clock (advance (db w1))) = unix_of_time (clock (advance (db w))) →
  RegisterNode s k v' p' rs' w1 = (w2, r) →
  ∃ e, r = Err e.
Proof.
  intros Hd Httl Hr1 Hsec Hr2. destruct r as [[[id2 tok2] exp2]|e]; [exfalso|by eexists].
  destruct (register_keeps s _ _ _ _ _ _ _ Hr1 Hd) as [_ Hd1].
  pose proof Hr1 as (_ & u1 & n1 & t1 & Hn1 & Hid1 & Hexp1 & Hs1 & Ht1)%RegisterNode_inv.
  pose proof Hr2 as (_ & u2 & n2 & t2 & Hn2 & Hid2 & Hexp2 & Hs2 & Ht2)%RegisterNode_inv.
  pose proof (query_keeps _ _ _ _ (insert_node_keeps _ _ _) Hn2 Hd1) as [Hkeep Hdu2].
  pose proof (query_ok _ _ _ _ Hn1) as Hn1'. apply insert_node_ok in Hn1' as (Hin1 & Hkey1 & _ & Hc1).
  pose proof (query_ok _ _ _ _ Hn2) as Hn2'. apply insert_node_ok in Hn2' as (Hin2 & Hkey2 & Htok2 & Hc2).
  apply query_ok, insert_token_ok in Ht1 as (Hrow & Htok & _ & Hexp & Hnodes & _ & Hc).
  apply query_ok, insert_token_ok in Ht2 as (_ & _ & _ & _ & _ & Hfree & _).
  assert (unix_of_time (Now u2) = unix_of_time (Now u1)) as Hnow.
  { unfold Now, world_clock. rewrite Hc2, Hc1. exact Hsec. }
  assert (∀ t, unix_of_time (t + tokenTTL s) = unix_of_time t + ttl_seconds) as Hadd.
  { intros t. rewrite Httl. unfold unix_of_time. by rewrite Z.div_add. }
  assert (ID n2 = ID n1) as Eid.
  { destruct (registered_row s _ _ _ _ _ _ _ _ _ Hr1) as (m & Hm & Hmk & Hmi).
    apply (keeps_nodes _ _ Hkeep) in Hm as (m' & Hm' & Hmi' & Hmk').
    assert (m' = n2) as <- by (apply (keys_unique _ Hdu2); congruence). congruence. }
  assert (exp2 = exp) as Eexp by (rewrite Hexp2, Hexp1, !Hadd; lia).
  assert (tok2 = tok) as Etok.
  { rewrite Eexp, Hnow, <- Hid2, Eid, Hid1 in Hs2. congruence. }
  destruct (find_row_in (has_value tok2) (tokens (advance (db u2))) t1) as [x Hx]; [| |congruence].
  - rewrite (proj2 (advance_tables _)), Htok2, (proj2 (advance_tables _)). done.
  - apply bool_decide_eq_true. congruence.
Qed.

(** The expiry column has no time zone: the time is stored as the service's wall clock and read back as
    UTC. A service behind UTC rejects its own tokens that long before they expire. *)
Theorem timezone_shortens_tokens k v p rs w w1 w2 id tok exp :
  db_ok (db w) → RegisterNode s k v p rs w = (w1, Ok (id, tok, exp)) →
  tokens (db w2) = tokens (db w1) → clock (advance (db w2)) < time_of_unix exp →
  time_of_unix exp + tz s < clock (advance (db w2)) →
  (ValidateToken s tok w2).2 = Ok ("", false).
Proof.
  intros Hd Hr Htoks Hc Hlate.
  destruct (register_keeps s _ _ _ _ _ _ _ Hr Hd) as [_ Hd1].
  apply RegisterNode_inv in Hr as (_ & w0 & n & t & _ & _ & _ & Hsign & Ht).
  apply query_ok, insert_token_ok in Ht as (Hin & Htok & _ & Hexp & _).
  pose proof (keeps_clock _ _ (advance_keeps (db w2))) as Hca.
  unfold ValidateToken, bind at 1, now. cbv beta iota.
  destruct (signed_accepted _ _ Hsign (Now w2)) as (j & Hp & Hj & Hval).
  { right. unfold Now, world_clock. simpl. lia. }
  rewrite Hp, Hval, Hj. cbn [negb c_node_id].
  unfold handle, on_db, zoom, GetTokenByValue, wrap_err, query.
  destruct (next_fault (db w2)); [|done|by destruct (select_token _ _)].
  unfold select_token. rewrite (proj2 (advance_tables _)), Htoks.
  destruct (find_row _ _) as [u|] eqn:Ef; [|done].
  apply find_row_Some in Ef as [Hu Hv%bool_decide_eq_true].
  assert (u = t) as -> by (apply (tokens_unique _ Hd1); congruence).
  unfold bind, Now, world_clock. cbn [db]. rewrite Hexp. unfold timestamp.
  destruct (Z.ltb_spec (time_of_unix exp + tz s) (clock (advance (db w2)))); [done|lia].
Qed.
End properties.

(** ** Witnesses *)

(** A signer that writes the method, the key and the claims out. *)
Definition token_text (alg key : string) (c : MapClaims) : string :=
  bits_of (encode (alg, key, c_node_id c, c_exp c, c_iat c)).
Definition claims_text : string → MapClaims → string := token_text "HS256".
Definition plain_decode (s : string) : option (JToken * string) :=
  '(alg, key, id, exp, iat) ← decode (A := string * string * option string * Z * Z) (of_bits s);
  Some ({| jt_Method := if decide (alg = "HS256") then SigningMethodHMAC alg else OtherMethod alg;
           jt_Claims := {| c_node_id := id; c_exp := exp; c_iat := iat |}; jt_Valid := false |}, key).

#[export] Instance unexpired_dec now c : Decision (unexpired now c).
Proof. unfold unexpired. apply _. Defined.

Definition plain_parse (now : Z) (s : string) (keyFunc : JToken → res string) : res JToken :=
  match plain_decode s with
  | None => Err (LibErr "token is malformed")
  | Some (u, key) =>
      match keyFunc u with
      | Err e => Err (Wrapf "token is unverifiable" e)
      | Ok key' =>
          if decide (key' = key ∧ unexpired now (jt_Claims u))
          then Ok {| jt_Method := jt_Method u; jt_Claims := jt_Claims u; jt_Valid := true |}
          else Err (LibErr "token is invalid")
      end
  end.

Lemma plain_decode_text alg key c :
  plain_decode (token_text alg key c) =
  Some ({| jt_Method := if decide (alg = "HS256") then SigningMethodHMAC alg else OtherMethod alg;
           jt_Claims := c; jt_Valid := false |}, key).
Proof. unfold plain_decode, token_text. rewrite of_bits_of, decode_encode. by destruct c. Qed.

#[local] Instance plain_jwt : JWT.
Proof.
  refine {| SignedString key c := Ok (claims_text key c); ParseUnverified s := fst <$> plain_decode s;
    Verify u s key := bool_decide (snd <$> plain_decode s = Some key); Parse := plain_parse |}.
  - abstract (intros key c s [= <-]; unfold claims_text; rewrite plain_decode_text; eexists; split; [done|];
      split; [done|]; split; [done|]; by apply bool_decide_eq_true).
  - abstract (intros now key c s kf [= <-] Hx Hk; unfold plain_parse, claims_text; rewrite plain_decode_text, Hk by done;
      rewrite decide_True by done; by eexists).
  - abstract (intros now s kf t; unfold plain_parse; destruct (plain_decode s) as [[u key]|]; [|done];
      destruct (kf u) as [key'|] eqn:Hk; [|done]; case_decide as Hd; [|done]; destruct Hd as [-> Hx]; intros [= <-];
      exists u, key; split; [done|]; split; [done|]; split; [by apply bool_decide_eq_true|done]).
Defined.

Definition svc (tz : Z) : IdentityService := New "jwt-secret" "net-secret" 24 tz.
Definition db0 : Database :=
  {| nodes := []; tokens := []; uuids := ["id-1"; "id-2"; "id-3"; "id-4"]; clock := 0; script := [] |}.
Definition w0 : World := {| db := db0; TokensIssued := 0; AuthFailures := λ _, 0 |}.
Definition w1 : World := (RegisterNode (svc 0) "key" "1.0" "" "net-secret" w0).1.
Definition day : Z := 86400.
Definition tok1 : string :=
  claims_text "jwt-secret" {| c_node_id := Some "id-1"; c_exp := day; c_iat := 0 |}.

Lemma db0_ok : db_ok db0.
Proof. by split; simpl; intros *; rewrite elem_of_nil. Qed.

Lemma registered1 : RegisterNode (svc 0) "key" "1.0" "" "net-secret" w0 = (w1, Ok ("id-1", tok1, day)).
Proof. apply run_snd. vm_compute. reflexivity. Qed.

(** The same world an hour later *)
Definition at_time (t : Z) (w : World) : World :=
  {| db := {| nodes := nodes (db w); tokens := tokens (db w); uuids := uuids (db w); clock := t;
              script := [] |};
     TokensIssued := TokensIssued w; AuthFailures := AuthFailures w |}.

Lemma token_valid_until_expiry_witness :
  (ValidateToken (svc 0) tok1 w1).2 = Ok ("id-1", true).
Proof.
  apply (token_valid_until_expiry (svc 0) "key" "1.0" "" "net-secret" w0 w1 w1 "id-1" tok1 day).
  - vm_compute. discriminate.
  - exact db0_ok.
  - exact registered1.
  - apply rtc_refl.
  - vm_compute. reflexivity.
  - vm_compute. reflexivity.
Defined.

(** The token of the registered node after its expiry, one that claims to be the node's under no method, one that is signed
    under another secret, and one with the service's signature that was never recorded *)
Definition tok_none : string := token_text "none" "jwt-secret" {| c_node_id := Some "id-1"; c_exp := day; c_iat := 0 |}.
Definition tok_forged : string := claims_text "guessed" {| c_node_id := Some "id-1"; c_exp := day; c_iat := 0 |}.
Definition tok_unknown : string := claims_text "jwt-secret" {| c_node_id := Some "id-1"; c_exp := day; c_iat := 1 |}.

Lemma unknown_unrecorded t : t ∈ tokens (db w1) → tk_Token t ≠ tok_unknown.
Proof.
  assert (forallb (λ t, bool_decide (tk_Token t ≠ tok_unknown)) (tokens (db w1)) = true) as Hall by (vm_compute; reflexivity).
  rewrite forallb_forall in Hall. intros Ht%list_elem_of_In%Hall. by apply bool_decide_eq_true in Ht.
Qed.

Lemma expired_or_forged_rejected_witness :
  (∃ w', ValidateToken (svc 0) tok1 (at_time (25 * Hour) w1) = (w', Ok ("", false))) ∧
  (∃ w', ValidateToken (svc 0) tok_none w1 = (w', Ok ("", false))) ∧
  (∃ w', ValidateToken (svc 0) tok_forged w1 = (w', Ok ("", false))) ∧
  (ValidateToken (svc 0) tok_unknown w1).2 ≠ Ok ("id-1", true).
Proof.
  split; [|split; [|split]].
  - destruct (expired_or_forged_rejected (svc 0) tok1 (at_time (25 * Hour) w1)) as [Hb _].
    destruct Hb as (w' & E & _); [|by exists w']. vm_compute. right; right. split; discriminate.
  - destruct (expired_or_forged_rejected (svc 0) tok_none w1) as [Hb _].
    destruct Hb as (w' & E & _); [|by exists w']. vm_compute. left. by eexists.
  - destruct (expired_or_forged_rejected (svc 0) tok_forged w1) as [Hb _].
    destruct Hb as (w' & E & _); [|by exists w']. vm_compute. right; left. reflexivity.
  - destruct (expired_or_forged_rejected (svc 0) tok_unknown w1) as [_ Hb]. apply Hb.
    intros t Ht Hv. exfalso. apply (unknown_unrecorded t); [exact Ht|exact Hv].
Defined.

Lemma valid_means_recorded_witness :
  ∃ t, t ∈ tokens (db w1) ∧ tk_Token t = tok1.
Proof.
  destruct (valid_means_recorded (svc 0) Background tok1 w1 w1 {| Valid := true; NodeId := "id-1" |})
    as ((t & Hin & Ht & _) & _).
  - assert ((@rpc_ValidateToken World (identity_tokens (svc 0)) Background tok1 w1).1 = w1) as E
      by (vm_compute; reflexivity).
    rewrite <- E at 2. apply run_snd. vm_compute. reflexivity.
  - reflexivity.
  - exists t. split; [exact Hin|exact Ht].
Defined.

Definition w2 : World := (RegisterNode (svc 0) "other" "1.0" "" "net-secret" w1).1.

Lemma node_identity_witness :
  ∃ tok, RegisterNode (svc 0) "other" "1.0" "" "net-secret" w1 = (w2, Ok ("id-3", tok, day)) ∧ "id-1" ≠ "id-3".
Proof.
  exists (claims_text "jwt-secret" {| c_node_id := Some "id-3"; c_exp := day; c_iat := 0 |}).
  assert (RegisterNode (svc 0) "other" "1.0" "" "net-secret" w1 =
    (w2, Ok ("id-3", claims_text "jwt-secret" {| c_node_id := Some "id-3"; c_exp := day; c_iat := 0 |}, day)))
    as E by (apply run_snd; vm_compute; reflexivity).
  split; [exact E|]. intros Hid.
  assert ("key" = "other") as Hk; [|discriminate Hk].
  apply (node_identity (svc 0) "key" "1.0" "" "net-secret" "other" "1.0" "" "net-secret" w0 w1 w1 w2
    "id-1" "id-3" tok1 _ day day db0_ok registered1 (rtc_refl _ _) E). exact Hid.
Defined.

Lemma reregistration_within_second_fails_witness :
  ∃ e, (RegisterNode (svc 0) "key" "1.0" "" "net-secret" w1).2 = Err e.
Proof.
  apply (reregistration_within_second_fails (svc 0) "key" "1.0" "" "net-secret" "1.0" "" "net-secret"
    w0 w1 (RegisterNode (svc 0) "key" "1.0" "" "net-secret" w1).1 "id-1" tok1 day _ day db0_ok).
  - vm_compute. reflexivity.
  - exact registered1.
  - vm_compute. reflexivity.
  - apply surjective_pairing.
Defined.

Definition w1_west : World := (RegisterNode (svc (- (5 * Hour))) "key" "1.0" "" "net-secret" w0).1.

Lemma timezone_shortens_tokens_witness :
  (ValidateToken (svc (- (5 * Hour))) tok1 (at_time (20 * Hour) w1_west)).2 = Ok ("", false).
Proof.
  apply (timezone_shortens_tokens (svc (- (5 * Hour))) "key" "1.0" "" "net-secret" w0 w1_west
    (at_time (20 * Hour) w1_west) "id-1" tok1 day db0_ok).
  - apply run_snd. vm_compute. reflexivity.
  - reflexivity.
  - vm_compute. reflexivity.
  - vm_compute. reflexivity.
Defined.
