(* ===== verification/ConfigService.v ===== *)
(** services/config/internal/grpc: the config service's handlers.

    [cfgMu] makes the four reloadable fields change together; the allocator's mutex and
    the remote call to the identity service are the other shared parts of [State]. *)

From S2P Require Import Prelude GoInt GoStrings GoNet Redis Grpc Auth Allocator.

(** ** Messages *)

Record GetConfigRequest : Type := { gc_Token : string; gc_ConfigVersion : Z }.
Record GetConfigResponse : Type := {
  NetworkCidr : string;
  Mtu : Z;
  DnsServers : list string;
  ConfigVersion : Z;
  UpToDate : bool;
}.
Record RequestIPRequest : Type := { rq_Token : string; rq_NodeId : string }.
Record RequestIPResponse : Type := { rp_IpAddress : string; rp_SubnetMask : string; rp_Gateway : string }.
Record ReleaseIPRequest : Type := { rl_Token : string; rl_NodeId : string; rl_IpAddress : string }.
Record ReleaseIPResponse : Type := { Success : bool; Message : string }.

(** ** The handler *)

Record ConfigHandler : Type := {
  allocator : Allocator;
  authClient : bool;        (* whether there is a client of the identity service *)
  networkCIDR : string;
  mtu : Z;                  (* int32 *)
  dnsServers : list string;
  configVersion : Z;        (* int32 *)
}.

Definition NewConfigHandler (alloc : Allocator) (authClient : bool) (networkCIDR : string)
    (mtu : Z) (dnsServers : list string) : ConfigHandler :=
  {| allocator := alloc; authClient := authClient; networkCIDR := networkCIDR;
     mtu := wrap32 mtu; dnsServers := dnsServers; configVersion := 1 |}.

(** The handler, its Redis server, and the identity service. *)
Record State (R A : Type) : Type := { st_handler : ConfigHandler; st_world : World R; st_auth : A }.
Arguments st_handler {R A} s : rename.
Arguments st_world {R A} s : rename.
Arguments st_auth {R A} s : rename.
Arguments Build_State {R A} _ _ _.

Definition in_world {R A B} (m : M (World R) B) : M (State R A) B :=
  zoom st_world (λ w s, Build_State (st_handler s) w (st_auth s)) m.
Definition in_auth {R A B} (m : M A B) : M (State R A) B :=
  zoom st_auth (λ a s, Build_State (st_handler s) (st_world s) a) m.
Definition get_handler {R A} : M (State R A) ConfigHandler := λ s, (s, Ok (st_handler s)).

Definition ReloadConfig (networkCIDR : string) (mtu : Z) (dnsServers : list string)
    (h : ConfigHandler) : ConfigHandler :=
  {| allocator := allocator h; authClient := authClient h; networkCIDR := networkCIDR;
     mtu := wrap32 mtu; dnsServers := dnsServers;
     configVersion := wrap32 (configVersion h + 1) |}.

Section handlers.
Context `{Net6} `{Redis R} `{TokenService A}.

Definition resolveNodeID (ctx : Context) (token : string) : M (State R A) string :=
  let! h := get_handler in
  if authClient h then in_auth (ValidateToken ctx token)
  else if len token <? 8 then throw (Errorf "token too short")
  else ret (take_str 8 token).

Definition GetConfig (ctx : Context) (req : GetConfigRequest) : M (State R A) GetConfigResponse :=
  if decide (gc_Token req = "") then throw (StatusErr InvalidArgument "token is required")
  else
    let! _ := wrap_err (StatusErrf Unauthenticated "auth failed")
                (resolveNodeID ctx (gc_Token req)) in
    let! h := get_handler in
    if (0 <? gc_ConfigVersion req) && (configVersion h <=? gc_ConfigVersion req) then
      ret {| NetworkCidr := ""; Mtu := 0; DnsServers := [];
             ConfigVersion := configVersion h; UpToDate := true |}
    else
      ret {| NetworkCidr := networkCIDR h; Mtu := mtu h; DnsServers := dnsServers h;
             ConfigVersion := configVersion h; UpToDate := false |}.

Definition RequestIP (ctx : Context) (req : RequestIPRequest) : M (State R A) RequestIPResponse :=
  if decide (rq_Token req = "") then throw (StatusErr InvalidArgument "token is required")
  else if decide (rq_NodeId req = "") then throw (StatusErr InvalidArgument "node_id is required")
  else
    let! _ := wrap_err (StatusErrf Unauthenticated "auth failed")
                (resolveNodeID ctx (rq_Token req)) in
    let! h := get_handler in
    let! ip := wrap_err (StatusErrf Internal "IP allocation failed")
                 (in_world (AllocateIP (allocator h) (rq_NodeId req))) in
    ret {| rp_IpAddress := ip; rp_SubnetMask := SubnetMask (allocator h);
           rp_Gateway := Gateway (allocator h) |}.

Definition ReleaseIP (ctx : Context) (req : ReleaseIPRequest) : M (State R A) ReleaseIPResponse :=
  if decide (rl_Token req = "") then throw (StatusErr InvalidArgument "token is required")
  else if decide (rl_NodeId req = "") then throw (StatusErr InvalidArgument "node_id is required")
  else
    let! _ := wrap_err (StatusErrf Unauthenticated "auth failed")
                (resolveNodeID ctx (rl_Token req)) in
    let! h := get_handler in
    let! _ := wrap_err (StatusErrf Internal "IP release failed")
                (in_world (Allocator.ReleaseIP (allocator h) (rl_NodeId req) (rl_IpAddress req))) in
    ret {| Success := true; Message := "IP released" |}.
End handlers.

(** ** Facts *)

Section facts.
Context `{Net6} `{Redis R} `{TokenLaws A}.
Implicit Types s : State R A.

(** Whether there is an identity service or not, resolving a token touches nothing
    of the config service. *)
Lemma resolveNodeID_frame ctx token s s' r :
  resolveNodeID ctx token s = (s', r) →
  st_handler s' = st_handler s ∧ st_world s' = st_world s ∧
  (∀ node, r = Ok node → authClient (st_handler s) = true → token_of (st_auth s') token node).
Proof.
  unfold resolveNodeID, get_handler. cbn [bind]. unfold bind.
  destruct (authClient (st_handler s)).
  - unfold in_auth, zoom. destruct (ValidateToken ctx token (st_auth s)) as [a x] eqn:E.
    intros [= <- <-]. cbn [st_handler st_world st_auth]. split_and!; [done..|].
    intros node -> _. by eapply ValidateToken_ok.
  - case_bool; intros [= <- <-]; split_and!; naive_solver.
Qed.

(** The first steps every handler shares: after them the token has been vouched for and
    the rest runs on the same handler and Redis server. *)
Lemma guarded_inv {B} ctx token (k : ConfigHandler → M (State R A) B) s s' r :
  (let! _ := wrap_err (StatusErrf Unauthenticated "auth failed") (resolveNodeID ctx token) in
   let! h := get_handler in k h) s = (s', r) →
  (∃ e, r = Err (StatusErrf Unauthenticated "auth failed" e) ∧
        st_handler s' = st_handler s ∧ st_world s' = st_world s) ∨
  (∃ (a : A) node, (authClient (st_handler s) = true → token_of a token node) ∧
     k (st_handler s) (Build_State (st_handler s) (st_world s) a) = (s', r)).
Proof.
  intros [(e & Hv & ->)|(s1 & node & Hv & Hk)]%bind_inv;
    apply wrap_err_inv in Hv as [(x & Hv & [=])|(e' & Hv & [=])]; subst;
    apply resolveNodeID_frame in Hv as (Hh & Hw & Ht); [left; eauto|right].
  exists (st_auth s1), x. split; [intros Hc; by apply Ht|].
  unfold bind, get_handler in Hk. destruct s1; simpl in *; subst. exact Hk.
Qed.

Lemma guarded_ok {B} ctx token (k : ConfigHandler → M (State R A) B) s a node :
  authClient (st_handler s) = true → ValidateToken ctx token (st_auth s) = (a, Ok node) →
  (let! _ := wrap_err (StatusErrf Unauthenticated "auth failed") (resolveNodeID ctx token) in
   let! h := get_handler in k h) s =
  k (st_handler s) (Build_State (st_handler s) (st_world s) a).
Proof.
  intros Hc Hv. unfold resolveNodeID, bind, wrap_err, get_handler.
  rewrite Hc. unfold in_auth, zoom. by rewrite Hv.
Qed.

Lemma in_world_inv {B} (m : M (World R) B) s s' r :
  in_world m s = (s', r) → m (st_world s) = (st_world s', r) ∧ st_handler s' = st_handler s.
Proof. unfold in_world, zoom. destruct (m (st_world s)). by intros [= <- <-]. Qed.
End facts.

(** ** Version checks *)

(** What a client that polls GetConfig keeps: the last full answer. *)
Record Cached : Type := { c_version : Z; c_cidr : string; c_mtu : Z; c_dns : list string }.

(** The client's side of the version protocol (api/proto/config): an answer that says
    up to date changes nothing, any other replaces the copy. *)
Definition apply_response (resp : GetConfigResponse) (c : Cached) : Cached :=
  if UpToDate resp then c
  else {| c_version := ConfigVersion resp; c_cidr := NetworkCidr resp;
          c_mtu := Mtu resp; c_dns := DnsServers resp |}.

Definition no_config : Cached := {| c_version := 0; c_cidr := ""; c_mtu := 0; c_dns := [] |}.

Definition current (h : ConfigHandler) : Cached :=
  {| c_version := configVersion h; c_cidr := networkCIDR h; c_mtu := mtu h; c_dns := dnsServers h |}.

(** A client and the handler over time: the handler reloads (SIGHUP) or the client polls. *)
Inductive polls `{Net6} `{Redis R} `{TokenService A} (ctx : Context) (token : string) :
    nat → State R A * Cached → Prop :=
| polls_start al ac cidr mtu dns w a :
    polls ctx token 0 (Build_State (NewConfigHandler al ac cidr mtu dns) w a, no_config)
| polls_reload n cidr mtu dns h w a c :
    polls ctx token n (Build_State h w a, c) →
    polls ctx token (S n) (Build_State (ReloadConfig cidr mtu dns h) w a, c)
| polls_poll n s s' c resp :
    polls ctx token n (s, c) →
    GetConfig ctx {| gc_Token := token; gc_ConfigVersion := c_version c |} s = (s', Ok resp) →
    polls ctx token n (s', apply_response resp c)
| polls_failed n s s' c e :
    polls ctx token n (s, c) →
    GetConfig ctx {| gc_Token := token; gc_ConfigVersion := c_version c |} s = (s', Err e) →
    polls ctx token n (s', c).

Section polling.
Context `{Net6} `{Redis R} `{TokenLaws A}.
Implicit Types s : State R A.

Lemma GetConfig_inv ctx req s s' r :
  GetConfig ctx req s = (s', r) →
  st_handler s' = st_handler s ∧ st_world s' = st_world s ∧
  ∀ resp, r = Ok resp →
    let h := st_handler s in
    if (0 <? gc_ConfigVersion req) && (configVersion h <=? gc_ConfigVersion req)
    then UpToDate resp = true
    else UpToDate resp = false ∧
         resp = {| NetworkCidr := networkCIDR h; Mtu := mtu h; DnsServers := dnsServers h;
                   ConfigVersion := configVersion h; UpToDate := false |}.
Proof.
  unfold GetConfig. case_decide.
  { intros [= <- <-]. naive_solver. }
  intros [(e & -> & Hh & Hw)|(a & node & _ & Hk)]%guarded_inv; [naive_solver|].
  cbv zeta. destruct (_ && _); injection Hk as <- <-; split_and!; naive_solver.
Qed.

(** The client's copy is never newer than the handler's, and of the same version only if equal. *)
Lemma polls_inv ctx token n s c :
  Z.of_nat n < 2 ^ 31 - 1 → polls ctx token n (s, c) →
  configVersion (st_handler s) = 1 + Z.of_nat n ∧
  0 ≤ c_version c ≤ configVersion (st_handler s) ∧
  (c_version c = configVersion (st_handler s) → c = current (st_handler s)).
Proof.
  intros Hn Hp. remember (s, c) as sc eqn:E. revert s c E Hn.
  induction Hp as [al ac cidr mt dns w a|n cidr mt dns h w a c0 Hp IH|n s0 s1 c0 resp Hp IH Hg
    |n s0 s1 c0 e Hp IH Hg]; intros s c [= <- <-] Hn.
  - simpl. lia.
  - destruct (IH _ _ eq_refl ltac:(lia)) as (IH1 & IH2 & IH3). simpl in *.
    rewrite IH1 in *. rewrite wrap32_id by lia. lia.
  - destruct (IH _ _ eq_refl Hn) as (IH1 & IH2 & IH3).
    apply GetConfig_inv in Hg as (Hh & _ & Hg). specialize (Hg _ eq_refl). cbn [gc_ConfigVersion] in Hg.
    rewrite Hh. unfold apply_response. cbv zeta in Hg.
    destruct ((0 <? c_version c0) && (configVersion (st_handler s0) <=? c_version c0)).
    + by rewrite Hg.
    + destruct Hg as [-> ->]. simpl. split_and!; [done|lia|lia|done].
  - destruct (IH _ _ eq_refl Hn) as (IH1 & IH2 & IH3).
    apply GetConfig_inv in Hg as (Hh & _ & _). by rewrite Hh.
Qed.
End polling.

(** ** Properties *)

Section properties.
Context `{Net6} `{RedisLaws R} `{TokenLaws A}.
Implicit Types s : State R A.

(** C34: The version check never hides a change: however reloads and polls
    alternate (fewer than 2^31 - 1 reloads, as the version is an int32), after an
    answered poll the client's copy is the handler's current configuration. *)
Theorem GetConfig_keeps_clients_current ctx token n s s' c resp :
  Z.of_nat n < 2 ^ 31 - 1 → polls ctx token n (s, c) →
  GetConfig ctx {| gc_Token := token; gc_ConfigVersion := c_version c |} s = (s', Ok resp) →
  apply_response resp c = current (st_handler s').
Proof.
  intros Hn Hp Hg. apply polls_inv in Hp as (Hv & Hc & Heq); [|done].
  apply GetConfig_inv in Hg as (Hh & _ & Hg). specialize (Hg _ eq_refl). cbv zeta in Hg.
  cbn [gc_ConfigVersion] in Hg. rewrite Hh. unfold apply_response.
  destruct (Z.ltb_spec 0 (c_version c)), (Z.leb_spec (configVersion (st_handler s)) (c_version c));
    simpl in Hg; [rewrite Hg; apply Heq; lia|destruct Hg as [-> ->]; done..].
Qed.

(** RequestIP reaches the allocator only for a caller whose token the
    identity service vouches for; every other call leaves Redis and the
    configuration as they were and answers with the status of the check that
    failed. A successful answer carries the allocator's address, mask and gateway. *)
Theorem RequestIP_guarded ctx req s s' r :
  RequestIP ctx req s = (s', r) → authClient (st_handler s) = true →
  (st_world s' = st_world s ∧
   ((∃ m, r = Err (StatusErr InvalidArgument m) ∧ (rq_Token req = "" ∨ rq_NodeId req = "")) ∨
    (∃ e, r = Err (StatusErrf Unauthenticated "auth failed" e)))) ∨
  (∃ (a : A) node, token_of a (rq_Token req) node ∧
   ∃ x, AllocateIP (allocator (st_handler s)) (rq_NodeId req) (st_world s) = (st_world s', x) ∧
        r = match x with
            | Ok ip => Ok {| rp_IpAddress := ip;
                             rp_SubnetMask := SubnetMask (allocator (st_handler s));
                             rp_Gateway := Gateway (allocator (st_handler s)) |}
            | Err e => Err (StatusErrf Internal "IP allocation failed" e)
            end).
Proof.
  unfold RequestIP. intros Hr Hc. case_decide; [injection Hr as <- <-; left; eauto 10|].
  case_decide; [injection Hr as <- <-; left; eauto 10|].
  apply guarded_inv in Hr as [(e & -> & _ & Hw)|(a & node & Ht & Hk)]; [left; eauto|right].
  exists a, node. split; [by apply Ht|].
  apply bind_inv in Hk as [(e & He & ->)|(s1 & ip & He & Hk)];
    apply wrap_err_inv in He as [(x & He & [=])|(e' & He & [=])]; subst;
    apply in_world_inv in He as [He _]; simpl in He; [by eexists|].
  injection Hk as <- <-. by eexists.
Qed.

(** ReleaseIP does not compare the node it is asked to release with the node
    the token stands for: any valid token releases any node's address. *)
Theorem ReleaseIP_any_token `{!RedisUp R} ctx token me victim ip s a t :
  authClient (st_handler s) = true → token ≠ "" → victim ≠ "" →
  ValidateToken ctx token (st_auth s) = (a, Ok me) → sees (redis (st_world s)) t →
  ∃ s', ReleaseIP ctx {| rl_Token := token; rl_NodeId := victim; rl_IpAddress := ip |} s =
          (s', Ok {| Success := true; Message := "IP released" |}) ∧
        sees (redis (st_world s')) (table_release victim ip t).
Proof.
  intros Hc Ht Hv Hok Hs. unfold ReleaseIP. cbn [rl_Token rl_NodeId rl_IpAddress].
  rewrite !decide_False by done. rewrite (guarded_ok _ _ _ _ _ _ Hc Hok).
  destruct (ReleaseIP_up (allocator (st_handler s)) victim ip (st_world s) t Hs) as (w & E & Hs' & _).
  exists (Build_State (st_handler s) w a). split; [|exact Hs'].
  unfold bind, wrap_err, in_world, zoom. cbn [st_world]. by rewrite E.
Qed.
End properties.

(** ** Witnesses *)

#[local] Existing Instance no_ip6.
#[local] Instance one : TokenService unit := one_token "token-1" "node-1".
#[local] Instance one_laws : TokenLaws unit := one_token_laws "token-1" "node-1".

Definition handler0 : ConfigHandler :=
  NewConfigHandler default_allocator true "10.8.0.0/16" 1420 ["1.1.1.1"; "8.8.8.8"].
Definition state_of (t : Table) : State Mem unit := Build_State handler0 (world_of t) tt.
Definition reloaded : State Mem unit :=
  Build_State (ReloadConfig "10.9.0.0/16" 1400 ["9.9.9.9"] handler0) (world_of empty_table) tt.

Lemma GetConfig_keeps_clients_current_witness :
  ∃ resp, (GetConfig Background {| gc_Token := "token-1"; gc_ConfigVersion := 0 |} reloaded).2 = Ok resp ∧
          apply_response resp no_config = current (st_handler reloaded).
Proof.
  eexists. split; [vm_compute; reflexivity|].
  apply (GetConfig_keeps_clients_current (R := Mem) (A := unit) Background "token-1" 1
    reloaded reloaded no_config); [lia| |vm_compute; reflexivity].
  apply polls_reload, (polls_start (R := Mem) (A := unit)).
Defined.

Lemma RequestIP_guarded_witness :
  (RequestIP Background {| rq_Token := "token-1"; rq_NodeId := "node-1" |} (state_of empty_table)).2 =
    Ok {| rp_IpAddress := "10.8.0.2"; rp_SubnetMask := "255.255.0.0"; rp_Gateway := "10.8.0.1" |} ∧
  ∃ node, token_of (W := unit) tt "token-1" node.
Proof.
  split; [vm_compute; reflexivity|].
  destruct (RequestIP_guarded Background {| rq_Token := "token-1"; rq_NodeId := "node-1" |}
    (state_of empty_table) _ _ (surjective_pairing _) eq_refl)
    as [(_ & [(m & He & _)|(e & He)])|(a & node & Ht & _)].
  - vm_compute in He. discriminate He.
  - vm_compute in He. discriminate He.
  - exists node. destruct a. exact Ht.
Defined.

Lemma ReleaseIP_any_token_witness :
  ∃ s', ReleaseIP Background
          {| rl_Token := "token-1"; rl_NodeId := "node-2"; rl_IpAddress := "10.8.0.2" |}
          (state_of (one_lease "node-2" "10.8.0.2")) =
        (s', Ok {| Success := true; Message := "IP released" |}) ∧
        sees (redis (st_world s')) (table_release "node-2" "10.8.0.2" (one_lease "node-2" "10.8.0.2")).
Proof.
  destruct (ReleaseIP_any_token (R := Mem) (A := unit) Background "token-1" "node-1" "node-2" "10.8.0.2"
    (state_of (one_lease "node-2" "10.8.0.2")) tt (one_lease "node-2" "10.8.0.2"))
    as (s' & E & Hs); [reflexivity|discriminate..| | |].
  - vm_compute. reflexivity.
  - apply mem_of_sees.
  - exists s'. by split.
Defined.
