(* ===== verification/Registry.v ===== *)
(** services/discovery/internal/registry and matcher: the peers that are online.

    A peer is online while its record [peer:<id>] has not expired; the set
    [peers:online] indexes the records. The registry keeps nothing in memory, and
    its callers run concurrently: nothing orders their Redis commands.
    encoding/json is the class [PeerJSON]. *)

From S2P Require Import Prelude GoInt GoStrings Redis Grpc.

Record Peer : Type := {
  NodeID : string;
  PublicKey : string;
  Endpoint : string;
  Version : string;
  PeerID : string;
  P2PAddrs : list string;
  IsExitNode : bool;
  LastSeen : Z;
}.

#[export] Instance Peer_eq_dec : EqDecision Peer.
Proof. solve_decision. Defined.

(** [json.Marshal] and [json.Unmarshal] at type [Peer]. Encoding replaces bytes that
    are not UTF-8, so only records of valid text are read back as they were. *)
Class PeerJSON : Type := {
  Marshal : Peer → string;
  Unmarshal : string → res Peer;
  valid_text : Peer → Prop;
  Unmarshal_Marshal p : valid_text p → Unmarshal (Marshal p) = Ok p;
}.

Definition peerKeyPrefix : string := "peer:".
Definition peersSetKey : string := "peers:online".

Record Registry : Type := { ttl : Z }.

(** The server and the gauges [metrics.ActivePeers{is_exit_node}]. *)
Record World (R : Type) : Type := { redis : R; ActivePeers : bool → Z }.
Arguments redis {R} w : rename.
Arguments ActivePeers {R} w : rename.
Arguments Build_World {R} _ _.

Definition on_redis {R A} (m : M R A) : M (World R) A :=
  zoom redis (λ r w, Build_World r (ActivePeers w)) m.

Definition set_LastSeen (t : Z) (p : Peer) : Peer :=
  {| NodeID := NodeID p; PublicKey := PublicKey p; Endpoint := Endpoint p; Version := Version p;
     PeerID := PeerID p; P2PAddrs := P2PAddrs p; IsExitNode := IsExitNode p; LastSeen := t |}.

Section operations.
Context `{PeerJSON} `{Redis R} `{Clock R}.

Definition New (heartbeatTTL : Z) : M R Registry :=
  let! _ := wrap_err (Wrapf "redis connection failed") Redis.Ping in
  ret {| ttl := wrap64 (heartbeatTTL * Second) |}.

Definition Ping (r : Registry) : M R unit := Redis.Ping.

Definition now : M R Z := λ s, (s, Ok (Now s)).

Definition Register (r : Registry) (peer : Peer) : M R unit :=
  let! t := now in
  let data := Marshal (set_LastSeen (unix_of_time t) peer) in
  let! _ := wrap_err (Wrapf "redis set error")
              (Set_ (peerKeyPrefix +:+ NodeID peer) data (ttl r)) in
  wrap_err (Wrapf "redis sadd error") (SAdd peersSetKey (NodeID peer)).

Definition Heartbeat (r : Registry) (nodeID : string) : M R unit :=
  let key := peerKeyPrefix +:+ nodeID in
  let! exists_ := wrap_err (Wrapf "redis exists error") (Exists_ key) in
  if exists_ =? 0 then throw (Errorf ("peer not found: " +:+ nodeID))
  else wrap_err (Wrapf "redis expire error") (Expire key (ttl r)).

Definition Unregister (r : Registry) (nodeID : string) : M R unit :=
  let! _ := wrap_err (Wrapf "redis del error") (Del (peerKeyPrefix +:+ nodeID)) in
  wrap_err (Wrapf "redis srem error") (SRem peersSetKey nodeID).

Definition GetPeer (r : Registry) (nodeID : string) : M R Peer :=
  let? data := Get (peerKeyPrefix +:+ nodeID) in
  match data with
  | Err e =>
      if decide (e = redis_Nil) then throw (Errorf ("peer not found: " +:+ nodeID))
      else throw (Wrapf "redis get error" e)
  | Ok data =>
      match Unmarshal data with
      | Ok peer => ret peer
      | Err e => throw (Wrapf "unmarshal error" e)
      end
  end.

(** The loop of [ListOnlinePeers]: an id whose record cannot be had is dropped from
    the set, whatever the error was. *)
Fixpoint collect (r : Registry) (nodeIDs : list string) : M R (list Peer) :=
  match nodeIDs with
  | [] => ret []
  | nodeID :: rest =>
      let? peer := GetPeer r nodeID in
      match peer with
      | Err _ => let? _ := SRem peersSetKey nodeID in collect r rest
      | Ok peer => let! peers := collect r rest in ret (peer :: peers)
      end
  end.

Definition count_exit (b : bool) (peers : list Peer) : Z :=
  Z.of_nat (length (filter (λ p, IsExitNode p = b) peers)).

Definition ListOnlinePeers (r : Registry) : M (World R) (list Peer) :=
  let! nodeIDs := on_redis (wrap_err (Wrapf "redis smembers error") (SMembers peersSetKey)) in
  let! peers := on_redis (collect r nodeIDs) in
  λ w, (Build_World (redis w) (λ b, count_exit b peers), Ok peers).

(** [pipe.Exec] of EXISTS commands: all are sent; the first error is returned. *)
Fixpoint pipe_exists (nodeIDs : list string) : M R (list Z) :=
  match nodeIDs with
  | [] => ret []
  | id :: rest =>
      let? v := Exists_ (peerKeyPrefix +:+ id) in
      let? vs := pipe_exists rest in
      match v with
      | Err e => throw e
      | Ok n => match vs with Ok ns => ret (n :: ns) | Err e => throw e end
      end
  end.

(** The removal loop; the error of an SREM is ignored. *)
Fixpoint remove_stale (nodeIDs : list string) (exist : list Z) : M R Z :=
  match nodeIDs, exist with
  | id :: ids, n :: ns =>
      if n =? 0 then
        let? _ := SRem peersSetKey id in
        let! removed := remove_stale ids ns in ret (removed + 1)
      else remove_stale ids ns
  | _, _ => ret 0
  end.

Definition CleanupStale (r : Registry) : M R Z :=
  let! nodeIDs := wrap_err (Wrapf "redis smembers error") (SMembers peersSetKey) in
  if Nat.eqb (length nodeIDs) 0 then ret 0
  else
    let! exist := wrap_err (Wrapf "pipeline exec error") (pipe_exists nodeIDs) in
    remove_stale nodeIDs exist.

(** matcher.go; [Intn n] is [rand.Intn(n)]. *)
Definition FindPeer (r : Registry) (Intn : nat → nat) (requesterID : string) : M (World R) Peer :=
  let! peers := wrap_err (Wrapf "failed to list peers") (ListOnlinePeers r) in
  let candidates := filter (λ p, NodeID p ≠ requesterID) peers in
  if Nat.eqb (length candidates) 0 then throw (Errorf "no available peers")
  else match candidates !! Intn (length candidates) with
       | Some selected => ret selected
       | None => throw (LibErr "index out of range")
       end.
End operations.

(** ** What the server holds for a node *)

Definition peer_key (node : string) : string := peerKeyPrefix +:+ node.

Lemma peer_key_inj n1 n2 : peer_key n1 = peer_key n2 → n1 = n2.
Proof. apply app_str_inv_l. Qed.

(** [node] has a live record that reads as [p]. *)
Definition record_of `{PeerJSON} `{Redis R} (s : R) (node : string) (p : Peer) : Prop :=
  ∃ v x, r_entry s (peer_key node) = Some (v, x) ∧ Unmarshal v = Ok p.
Definition indexed `{Redis R} (s : R) (node : string) : Prop := node ∈ r_set s peersSetKey.

Section facts.
Context `{PeerJSON} `{RedisLaws R} `{Clock R}.
Implicit Types s : R.

Lemma record_of_wanes s s' node p : wanes s s' → record_of s' node p → record_of s node p.
Proof. intros Hw (v & x & E & Hu). exists v, x. split; [by eapply wanes_live|done]. Qed.

Lemma record_of_fun s node p q : record_of s node p → record_of s node q → p = q.
Proof. intros (v & x & E & Hu) (v' & x' & E' & Hu'). congruence. Qed.

Lemma indexed_wanes s s' node : wanes s s' → indexed s' node → indexed s node.
Proof. intros Hw. apply (wanes_set _ _ Hw). Qed.

Lemma GetPeer_spec r node s s' x :
  GetPeer r node s = (s', x) →
  quiet s s' ∧ ∀ p, x = Ok p → record_of s' node p.
Proof.
  intros (s1 & d & Hg & Hk)%handle_inv. pose proof (Get_spec _ _ _ _ Hg) as [Hq Hv].
  destruct d as [v|e].
  - destruct (Unmarshal v) as [p|e] eqn:Eu; injection Hk as <- <-; (split; [done|]); [|done].
    intros q [= <-]. destruct Hv as [y Hy]. exists v, y. split; [|done].
    by rewrite (quiet_entry _ _ _ Hq).
  - case_decide; injection Hk as <- <-; done.
Qed.

Lemma GetPeer_up `{!RedisUp R} r node s :
  ∃ s', quiet s s' ∧
    ((∃ p, GetPeer r node s = (s', Ok p) ∧ record_of s' node p) ∨
     (∃ e, GetPeer r node s = (s', Err e) ∧ ∀ p, ¬ record_of s' node p)).
Proof.
  destruct (Get_up (peer_key node) s) as (s' & Hq & E). exists s'. split; [done|].
  rewrite <- (quiet_entry _ _ (peer_key node) Hq) in E.
  unfold GetPeer. fold (peer_key node). rewrite (handle_eq _ _ _ _ _ E).
  destruct (r_entry s' (peer_key node)) as [[v x]|] eqn:Ee; simpl.
  - destruct (Unmarshal v) as [p|e] eqn:Eu; [left|right].
    + exists p. split; [done|]. by exists v, x.
    + eexists. split; [done|]. intros p (v' & x' & E' & Hu). congruence.
  - right. eexists. split; [done|]. intros p (v' & x' & E' & Hu). congruence.
Qed.

(** *** The listing loop *)

(** Whatever fails, the loop returns records that were there, and only lets data go. *)
Lemma collect_sound r ids s s' x :
  collect r ids s = (s', x) →
  wanes s s' ∧ ∃ ps, x = Ok ps ∧ Forall (λ p, ∃ id, id ∈ ids ∧ record_of s id p) ps.
Proof.
  revert s s' x. induction ids as [|id ids IH]; intros s s' x; cbn [collect].
  { intros [= <- <-]. split; [done|]. by exists []. }
  intros (s1 & o & Hg & Hk)%handle_inv. apply GetPeer_spec in Hg as [Hq Hp].
  pose proof (quiet_wanes _ _ Hq) as Hw. destruct o as [p|e].
  - apply bind_inv in Hk as [(e & Hc & ->)|(s2 & ps & Hc & Hk)]; apply IH in Hc as (Hw2 & qs & Eq & Hqs);
      [done|]. injection Hk as <- <-. injection Eq as ->. split; [by trans s1|].
    eexists. split; [done|]. constructor.
    + exists id. split; [left|]. eapply record_of_wanes; [done|by apply Hp].
    + eapply Forall_impl; [exact Hqs|]. intros q (i & Hi & Hr). exists i.
      split; [by right|]. by eapply record_of_wanes.
  - apply handle_inv in Hk as (s2 & u & Hs & Hk). apply IH in Hk as (Hw2 & qs & -> & Hqs).
    assert (wanes s1 s2) as Hw1.
    { apply unit_call in Hs as [Hd|(_ & _ & Hq')]; [by eapply srem_wanes|by apply quiet_wanes]. }
    split; [by trans s1; [|trans s2]|]. eexists. split; [done|].
    eapply Forall_impl; [exact Hqs|]. intros q (i & Hi & Hr). exists i.
    split; [by right|]. eapply record_of_wanes; [by trans s1|done].
Qed.

Lemma collect_length r ids s s' ps : collect r ids s = (s', Ok ps) → (length ps ≤ length ids)%nat.
Proof.
  revert s s' ps. induction ids as [|id ids IH]; intros s s' ps; cbn [collect]; [by intros [= _ <-]|].
  intros (s1 & o & _ & Hk)%handle_inv. destruct o as [p|e].
  - apply bind_inv_ok in Hk as (s2 & qs & Hc%IH & [= _ <-]). simpl. lia.
  - apply handle_inv in Hk as (s2 & u & _ & Hc%IH). simpl. lia.
Qed.

(** When the server answers: a record that is there to the end is returned and stays
    indexed, and one that is gone from the start is dropped from the index. *)
Lemma collect_up `{!RedisUp R} r ids s :
  NoDup ids →
  ∃ s' ps, collect r ids s = (s', Ok ps) ∧
    (∀ id p, id ∈ ids → record_of s' id p → p ∈ ps) ∧
    (∀ id p, indexed s id → record_of s' id p → indexed s' id) ∧
    (∀ id, id ∈ ids → (∀ p, ¬ record_of s id p) → ¬ indexed s' id) ∧
    (∀ id, indexed s id → id ∉ ids → indexed s' id).
Proof.
  intros Hnd. revert s. induction Hnd as [|id ids Hid Hnd IH]; intros s; cbn [collect].
  { exists s, []. split; [done|]. split_and!; set_solver. }
  destruct (GetPeer_up r id s) as (s1 & Hq & [(p & E & Hp)|(e & E & Hno)]);
    rewrite (handle_eq _ _ _ _ _ E); pose proof (quiet_wanes _ _ Hq) as Hw1;
    pose proof (quiet_set _ _ peersSetKey Hq) as Hset.
  - destruct (IH s1) as (s' & ps & Ec & K2 & K3 & K4 & K5).
    pose proof (collect_sound _ _ _ _ _ Ec) as [Hw2 _].
    rewrite (bind_ok _ _ _ _ _ Ec). exists s', (p :: ps). split; [done|].
    unfold indexed in *. rewrite Hset in *. split_and!.
    + intros i q [->|Hi]%elem_of_cons Hr; apply elem_of_cons; [left|right; by eapply K2].
      apply (record_of_wanes _ _ _ _ Hw2) in Hr. by eapply record_of_fun.
    + done.
    + intros i [->|Hi]%elem_of_cons Hn; [|apply K4; [done|]].
      * destruct (Hn p). by eapply record_of_wanes.
      * intros q Hq'. destruct (Hn q). by eapply record_of_wanes.
    + intros i Hi [_ Hn]%not_elem_of_cons. by apply K5.
  - destruct (unit_up (SREM peersSetKey id) s1) as (s2 & E2 & Hd). unfold SRem.
    rewrite (handle_eq _ _ _ _ _ E2). pose proof (srem_wanes _ _ _ _ Hd) as Hw2.
    assert (∀ i, indexed s2 i ↔ indexed s i ∧ i ≠ id) as Hset2.
    { intros i. unfold indexed. destruct Hd as (_ & _ & ->). simpl. rewrite Hset. set_solver. }
    destruct (IH s2) as (s' & ps & Ec & K2 & K3 & K4 & K5).
    pose proof (collect_sound _ _ _ _ _ Ec) as [Hw3 _]. exists s', ps. split; [done|].
    assert (∀ q, ¬ record_of s' id q) as Hgone.
    { intros q Hr. destruct (Hno q). eapply record_of_wanes; [by trans s2|done]. }
    split_and!.
    + intros i q [->|Hi]%elem_of_cons Hr; [by destruct (Hgone q)|by eapply K2].
    + intros i q Hi Hr. destruct (decide (i = id)) as [->|Hne]; [by destruct (Hgone q)|].
      eapply K3; [by apply Hset2|done].
    + intros i [->|Hi]%elem_of_cons Hn.
      * intros Hx. apply (indexed_wanes _ _ _ Hw3), Hset2 in Hx. naive_solver.
      * apply K4; [done|]. intros q Hr. destruct (Hn q).
        eapply record_of_wanes; [|done]. by trans s1.
    + intros i Hi [Hne Hn]%not_elem_of_cons. apply K5; [|done]. by apply Hset2.
Qed.
End facts.

(** ** The operations one by one *)

(** [node]'s record is [v], and expires at [x]. *)
Definition lives_until `{Redis R} (s : R) (node v : string) (x : Z) : Prop :=
  r_entry s (peer_key node) = Some (v, Some x).

Section operations_facts.
Context `{PeerJSON} `{RedisLaws R} `{Clock R}.
Implicit Types s : R.

Lemma wrap_unit_inv (f : error → error) c s s' :
  wrap_err f (bind (rdo c) as_unit) s = (s', Ok tt) → did c s s'.
Proof. intros [([] & Hu & _)|(e & _ & [=])]%wrap_err_inv. by apply unit_call_ok. Qed.

Lemma lives_wanes s s' node v x :
  wanes s s' → rtime s' ≤ x → lives_until s node v x → lives_until s' node v x.
Proof.
  intros [_ E _] Hx Hl. unfold lives_until in *. rewrite E, Hl. simpl. case_bool; [lia|done].
Qed.

Lemma expired_wanes s s' node v x :
  wanes s s' → x < rtime s' → lives_until s node v x → r_entry s' (peer_key node) = None.
Proof.
  intros [_ E _] Hx Hl. unfold lives_until in *. rewrite E, Hl. simpl. case_bool; [done|lia].
Qed.

Lemma absent_wanes s s' k : wanes s s' → r_entry s k = None → r_entry s' k = None.
Proof. intros [_ E _] Hn. by rewrite E, Hn. Qed.

(** A completed registration: the record of the time of the call, indexed. *)
Lemma Register_done r p s s' :
  0 < ttl r → Register r p s = (s', Ok tt) →
  ∃ x, rtime s + ttl r ≤ x ∧ indexed s' (NodeID p) ∧
    (rtime s' ≤ x → lives_until s' (NodeID p) (Marshal (set_LastSeen (unix_of_time (Now s)) p)) x).
Proof.
  intros Httl Hr. unfold Register, now in Hr. unfold bind in Hr at 1.
  apply bind_inv in Hr as [(e & _ & [=])|(s1 & [] & Hset%wrap_unit_inv & Hadd%wrap_unit_inv)].
  exists (rtime s1 + ttl r). pose proof (did_time _ _ _ Hset). split; [lia|].
  destruct Hset as (_ & Es & _), Hadd as (_ & Ea & Sa). split.
  - unfold indexed. rewrite Sa. simpl. set_solver.
  - intros Hx. unfold lives_until. rewrite Ea. simpl. rewrite Es. simpl.
    unfold peer_key. rewrite decide_True by done. unfold expiry. case_bool; [lia|]. simpl. case_bool; [lia|done].
Qed.

Lemma Register_up `{!RedisUp R} r p s : ∃ s', Register r p s = (s', Ok tt).
Proof.
  unfold Register, now. unfold bind at 1.
  destruct (unit_up (SET (peerKeyPrefix +:+ NodeID p)
    (Marshal (set_LastSeen (unix_of_time (Now s)) p)) (ttl r)) s) as (s1 & E1 & _).
  destruct (unit_up (SADD peersSetKey (NodeID p)) s1) as (s2 & E2 & _).
  exists s2. rewrite (bind_ok _ _ _ _ _ (wrap_err_ok _ _ _ _ _ E1)). by apply wrap_err_ok.
Qed.

(** A heartbeat answered before the record expires starts its time anew; the record
    itself, with its [LastSeen], stays as it was. *)
Lemma Heartbeat_live `{!RedisUp R} r node v x s s' o :
  0 < ttl r → lives_until s node v x → Heartbeat r node s = (s', o) → rtime s' ≤ x →
  o = Ok tt ∧ lives_until s' node v (rtime s' + ttl r) ∧ ∀ k, r_set s' k = r_set s k.
Proof.
  intros Httl Hl Hh Hx. unfold Heartbeat in Hh. fold (peer_key node) in Hh.
  destruct (Exists_up (peer_key node) s) as (s1 & Hq & E).
  rewrite (bind_ok _ _ _ _ _ (wrap_err_ok _ _ _ _ _ E)) in Hh.
  assert (∀ s2 o2, (if bool_int (bool_decide (is_Some (r_entry s1 (peer_key node)))) =? 0
    then throw (Errorf ("peer not found: " +:+ node))
    else wrap_err (Wrapf "redis expire error") (Expire (peer_key node) (ttl r))) s1 = (s2, o2) →
    rtime s1 ≤ rtime s2) as Hmono.
  { intros s2 o2. case_match; [by intros [= <- _]|].
    intros [(a & Hu & _)|(e & Hu & _)]%wrap_err_inv;
      apply unit_call in Hu as [Hd|(? & _ & Hd)]; by eapply did_time. }
  pose proof (Hmono _ _ Hh) as Ht.
  assert (lives_until s1 node v x) as Hl1 by
    (apply (lives_wanes s); [by apply quiet_wanes|lia|done]).
  unfold lives_until in Hl1. rewrite Hl1 in Hh. rewrite bool_decide_true in Hh by done. simpl in Hh.
  destruct (unit_up (EXPIRE (peer_key node) (ttl r)) s1) as (s2 & E2 & Hd).
  unfold Expire in Hh. rewrite (wrap_err_ok _ _ _ _ _ E2) in Hh. injection Hh as <- <-.
  split; [done|]. destruct Hd as (_ & Ee & Es). split.
  - unfold lives_until. rewrite Ee, Hl1. simpl. case_bool; [lia|]. rewrite decide_True by done.
    case_bool; [lia|done].
  - intros k. rewrite Es. simpl. by apply (quiet_set _ _ _ Hq).
Qed.

Lemma Heartbeat_gone `{!RedisUp R} r node s :
  r_entry s (peer_key node) = None →
  ∃ s', Heartbeat r node s = (s', Err (Errorf ("peer not found: " +:+ node))) ∧ quiet s s'.
Proof.
  intros Hn. destruct (Exists_up (peer_key node) s) as (s1 & Hq & E). exists s1.
  split; [|done]. unfold Heartbeat. fold (peer_key node).
  rewrite (bind_ok _ _ _ _ _ (wrap_err_ok _ _ _ _ _ E)).
  by rewrite (absent_wanes _ _ _ (quiet_wanes _ _ Hq) Hn).
Qed.

Lemma ListOnlinePeers_up `{!RedisUp R} r (w : World R) :
  ∃ w' ps, ListOnlinePeers r w = (w', Ok ps) ∧
    Forall (λ p, ∃ id, indexed (redis w) id ∧ record_of (redis w) id p) ps ∧
    (∀ id p, indexed (redis w) id → record_of (redis w') id p →
       p ∈ ps ∧ indexed (redis w') id) ∧
    (∀ id, (∀ p, ¬ record_of (redis w) id p) → ¬ indexed (redis w') id) ∧
    (∀ b, ActivePeers w' b = count_exit b ps) ∧ (length ps ≤ size (r_set (redis w) peersSetKey))%nat ∧
    wanes (redis w) (redis w').
Proof.
  destruct (SMembers_up peersSetKey (redis w)) as (s1 & ids & E1 & Hq & Hnd & Hids).
  destruct (collect_up r ids s1 Hnd) as (s2 & ps & E2 & K2 & K3 & K4 & K5).
  pose proof (collect_sound _ _ _ _ _ E2) as [Hw2 (ps' & [= <-] & Hsound)].
  pose proof (quiet_wanes _ _ Hq) as Hw1.
  exists (Build_World s2 (λ b, count_exit b ps)), ps. split_and!.
  - unfold ListOnlinePeers, bind, on_redis, zoom, wrap_err. rewrite E1. simpl. by rewrite E2.
  - eapply Forall_impl; [exact Hsound|]. intros p (id & Hid & Hr). exists id.
    split; [by apply Hids|]. by eapply record_of_wanes.
  - intros id p Hi Hr. split; [eapply K2; [by apply Hids|done]|].
    eapply K3; [|done]. unfold indexed. by rewrite (quiet_set _ _ _ Hq).
  - intros id Hn Hi. simpl in Hi. apply (indexed_wanes _ _ _ Hw2) in Hi as Hi1.
    unfold indexed in Hi1. rewrite (quiet_set _ _ _ Hq) in Hi1.
    apply (K4 id); [by apply Hids| |done]. intros p Hr. destruct (Hn p). by eapply record_of_wanes.
  - done.
  - pose proof (collect_length _ _ _ _ _ E2) as Hl. simpl. replace (size _) with (length ids); [done|].
    rewrite <- (size_list_to_set (C := gset string) ids) by done. f_equal. apply set_eq. intros i.
    by rewrite elem_of_list_to_set, Hids.
  - simpl. by trans s1.
Qed.

(** *** The stale sweep *)

Lemma pipe_exists_up `{!RedisUp R} ids s :
  ∃ s' ns, pipe_exists ids s = (s', Ok ns) ∧ quiet s s' ∧
    Forall2 (λ id n, (n = 0 → r_entry s' (peer_key id) = None) ∧
                     (r_entry s (peer_key id) = None → n = 0)) ids ns.
Proof.
  revert s. induction ids as [|id ids IH]; intros s; cbn [pipe_exists].
  { exists s, []. split; [done|]. split; [|constructor].
    split; [done|]. split; [|done]. intros k. simpl. by rewrite r_live. }
  destruct (Exists_up (peer_key id) s) as (s1 & Hq1 & E1). fold (peer_key id).
  rewrite (handle_eq _ _ _ _ _ E1). destruct (IH s1) as (s2 & ns & E2 & Hq2 & Hall).
  rewrite (handle_eq _ _ _ _ _ E2). eexists _, _. split; [done|].
  pose proof (quiet_wanes _ _ Hq1) as Hw1. pose proof (quiet_wanes _ _ Hq2) as Hw2. split.
  - destruct (PreOrder_Transitive _ _ _ Hw1 Hw2) as [T E _]. split; [done|]. split; [done|].
    intros k. rewrite (quiet_set _ _ _ Hq2). apply (quiet_set _ _ _ Hq1).
  - constructor.
    + split.
      * intros Hn. apply (absent_wanes _ _ _ Hw2).
        destruct (r_entry s1 (peer_key id)); [by rewrite bool_decide_true in Hn|done].
      * intros Hn. by rewrite (absent_wanes _ _ _ Hw1 Hn).
    + eapply Forall2_impl; [exact Hall|]. intros i n [Ha Hb]. split; [done|].
      intros Hn. apply Hb. by eapply absent_wanes.
Qed.

Lemma remove_stale_up `{!RedisUp R} ids ns s :
  length ids = length ns →
  ∃ s', remove_stale ids ns s = (s', Ok (Z.of_nat (length (filter (.= 0) ns)))) ∧ wanes s s' ∧
    ∀ id, indexed s' id ↔ indexed s id ∧ (id, 0) ∉ zip ids ns.
Proof.
  revert ns s. induction ids as [|i ids IH]; intros [|n ns] s Hl; try done; cbn [remove_stale].
  { exists s. split; [done|]. split; [done|]. set_solver. }
  injection Hl as Hl. destruct (Z.eqb_spec n 0) as [->|Hn].
  - destruct (unit_up (SREM peersSetKey i) s) as (s1 & E1 & Hd).
    unfold SRem. rewrite (handle_eq _ _ _ _ _ E1).
    destruct (IH ns s1 Hl) as (s2 & E2 & Hw & Hi). rewrite (bind_ok _ _ _ _ _ E2).
    exists s2. split; [|split; [by trans s1; [eapply srem_wanes|]|]].
    + rewrite filter_cons_True by done. simpl length. unfold ret. do 2 f_equal. lia.
    + intros id. rewrite Hi. unfold indexed. destruct Hd as (_ & _ & ->). simpl.
      rewrite elem_of_cons. set_solver.
  - destruct (IH ns s Hl) as (s2 & E2 & Hw & Hi). rewrite E2.
    exists s2. split; [by rewrite filter_cons_False|]. split; [done|].
    intros id. rewrite Hi. simpl. rewrite elem_of_cons. naive_solver.
Qed.
End operations_facts.

(** ** Runs *)

(** [node] is left alone between [s] and [s']. *)
Record spares `{Redis R} (node : string) (s s' : R) : Prop := {
  spares_time : rtime s ≤ rtime s';
  spares_entry : r_entry s' (peer_key node) = prune (rtime s') (r_entry s (peer_key node));
  spares_index : indexed s node → indexed s' node;
}.

Section properties.
Context `{PeerJSON} `{RedisLaws R} `{Clock R}.
Implicit Types s : R.

(** C32: A listing, against a Redis server that answers, returns the peers that are online: every peer it returns had a live
    record and was indexed when it started; every indexed peer whose record is live when it ends is
    returned and stays indexed; an indexed peer that had no record when it started
    is dropped from the index. No more peers are returned than ids were indexed, and afterwards the gauge of exit
    nodes is the number of exit nodes returned and the other gauge that of the other peers. *)
Theorem ListOnlinePeers_correct `{!RedisUp R} r (w : World R) :
  ∃ w' ps, ListOnlinePeers r w = (w', Ok ps) ∧
    (∀ p, p ∈ ps → ∃ id, indexed (redis w) id ∧ record_of (redis w) id p) ∧
    (∀ id p, indexed (redis w) id → record_of (redis w') id p →
       p ∈ ps ∧ indexed (redis w') id) ∧
    (∀ id, (∀ p, ¬ record_of (redis w) id p) → ¬ indexed (redis w') id) ∧
    (length ps ≤ size (r_set (redis w) peersSetKey))%nat ∧
    (∀ exit, ActivePeers w' exit = Z.of_nat (length (filter (λ p, IsExitNode p = exit) ps))) ∧
    ActivePeers w' true + ActivePeers w' false = Z.of_nat (length ps).
Proof.
  destruct (ListOnlinePeers_up r w) as (w' & ps & E & Hs & Hc & Hd & Hg & Hlen & _).
  exists w', ps. rewrite Forall_forall in Hs. split_and!; try done.
  rewrite !Hg. unfold count_exit. clear. induction ps as [|p ps IH]; [done|].
  rewrite !filter_cons. destruct (IsExitNode p); simpl; lia.
Qed.

(** CleanupStale drops from the index the ids whose record was gone when it started, keeps those
    whose record is there when it ends, and returns how many it dropped. *)
Theorem CleanupStale_correct `{!RedisUp R} r s :
  ∃ s' n, CleanupStale r s = (s', Ok n) ∧ wanes s s' ∧ 0 ≤ n ∧
    (∀ id, r_entry s (peer_key id) = None → ¬ indexed s' id) ∧
    (∀ id, indexed s id → r_entry s' (peer_key id) ≠ None → indexed s' id).
Proof.
  unfold CleanupStale. destruct (SMembers_up peersSetKey s) as (s1 & ids & E1 & Hq1 & _ & Hids).
  rewrite (bind_ok _ _ _ _ _ (wrap_err_ok _ _ _ _ _ E1)). pose proof (quiet_wanes _ _ Hq1) as Hw1.
  assert (∀ id, indexed s1 id ↔ id ∈ ids) as Hix.
  { intros id. unfold indexed. by rewrite (quiet_set _ _ _ Hq1), Hids. }
  destruct ids as [|i0 ids0] eqn:Eids; [clear Eids|rewrite <- Eids in *].
  { subst. exists s1, 0. split; [done|]. split; [done|]. split; [done|]. split.
    - intros id _ Hi. apply Hix in Hi. set_solver.
    - intros id Hi _. unfold indexed in *. by rewrite (quiet_set _ _ _ Hq1). }
  replace (Nat.eqb (length ids) 0) with false by by rewrite Eids.
  destruct (pipe_exists_up ids s1) as (s2 & ns & E2 & Hq2 & Hall).
  rewrite (bind_ok _ _ _ _ _ (wrap_err_ok _ _ _ _ _ E2)). pose proof (quiet_wanes _ _ Hq2) as Hw2.
  destruct (remove_stale_up ids ns s2 (Forall2_length _ _ _ Hall)) as (s3 & E3 & Hw3 & Hi3).
  exists s3, (Z.of_nat (length (filter (.= 0) ns))). split; [done|].
  split; [by trans s1; [|trans s2]|]. split; [lia|]. split.
  - intros id Hn [Hi Hz]%Hi3. apply (indexed_wanes _ _ _ Hw2), Hix in Hi.
    apply list_elem_of_lookup in Hi as [k Hk].
    destruct (Forall2_lookup_l _ _ _ _ _ Hall Hk) as (n & Hkn & _ & Hn0).
    rewrite Hn0 in Hkn by (eapply absent_wanes; [exact Hw1|done]).
    apply Hz. apply list_elem_of_lookup. exists k. by apply lookup_zip_Some.
  - intros id Hi Hn. apply Hi3. split.
    + unfold indexed. rewrite (quiet_set _ _ _ Hq2), (quiet_set _ _ _ Hq1). exact Hi.
    + intros Hz. apply list_elem_of_lookup in Hz as [k [Hk Hkn]%lookup_zip_Some].
      destruct (Forall2_lookup_lr _ _ _ _ _ _ Hall Hk Hkn) as [Hgone _].
      apply Hn. eapply absent_wanes; [exact Hw3|by apply Hgone].
Qed.

(** CleanupStale races with Register. If a node registers between the check that found no record
    and the removal that follows it, the node ends up with a live record that no
    listing will return, as it is not indexed. *)
Theorem CleanupStale_races_Register `{!RedisUp R} r p s s1 ns s2 s3 n :
  0 < ttl r → r_entry s (peer_key (NodeID p)) = None →
  pipe_exists [NodeID p] s = (s1, Ok ns) →
  Register r p s1 = (s2, Ok tt) →
  remove_stale [NodeID p] ns s2 = (s3, Ok n) →
  rtime s3 ≤ rtime s1 + ttl r →
  ¬ indexed s3 (NodeID p) ∧
  ∃ v x, r_entry s3 (peer_key (NodeID p)) = Some (v, x).
Proof.
  intros Httl Hn Hp Hr Hrm Ht.
  destruct (pipe_exists_up [NodeID p] s) as (s1' & ns' & E & _ & Hall).
  rewrite Hp in E. injection E as <- <-. inversion Hall as [|? m ? ns2 [_ Hm] Hall2]; subst.
  inversion Hall2; subst. rewrite Hm in * by done.
  destruct (Register_done _ _ _ _ Httl Hr) as (x & Hx & _ & Hl).
  destruct (remove_stale_up [NodeID p] [0] s2 eq_refl) as (s3' & E3 & Hw & Hi).
  rewrite Hrm in E3. injection E3 as <- _. split.
  - intros [_ Hz]%Hi. apply Hz. simpl. set_solver.
  - eexists _, _. apply (lives_wanes _ _ _ _ x Hw); [lia|]. apply Hl.
    pose proof (wanes_time _ _ Hw). lia.
Qed.
End properties.

(** ** A codec to run the model with *)

Definition peer_tuple (p : Peer) : string * string * string * string * string * list string * bool * Z :=
  (NodeID p, PublicKey p, Endpoint p, Version p, PeerID p, P2PAddrs p, IsExitNode p, LastSeen p).
Definition tuple_peer (t : string * string * string * string * string * list string * bool * Z) : Peer :=
  let '(a, b, c, d, e, f, g, h) := t in
  {| NodeID := a; PublicKey := b; Endpoint := c; Version := d; PeerID := e; P2PAddrs := f;
     IsExitNode := g; LastSeen := h |}.

Definition bits_json : PeerJSON.
Proof.
  refine {| Marshal p := bits_of (encode (peer_tuple p));
            Unmarshal s := match decode (of_bits s) with
              | Some t => Ok (tuple_peer t)
              | None => Err (LibErr "invalid character")
              end;
            valid_text _ := True |}.
  abstract (intros p _; rewrite of_bits_of, decode_encode; by destruct p).
Defined.

#[local] Existing Instance bits_json.

Definition reg30 : Registry := {| ttl := 30 * Second |}.
Definition peer_a : Peer :=
  {| NodeID := "a"; PublicKey := ""; Endpoint := "10.8.0.2:51820"; Version := "1.0.0"; PeerID := "";
     P2PAddrs := []; IsExitNode := false; LastSeen := 0 |}.
Definition gauges0 : bool → Z := λ _, 0.

(** A listing whose GET is lost: register (2 commands), list (SMEMBERS, GET lost, SREM),
    heartbeat (2 commands), list. *)
Definition flaky : Sim :=
  {| sim_strs := ∅; sim_sets := ∅; sim_time := 0;
     sim_script := [(0, NoFault); (0, NoFault); (0, NoFault); (0, LostBefore)] |}.
Definition flaky1 : Sim := (Register reg30 peer_a flaky).1.
Definition flaky2 : World Sim := (ListOnlinePeers reg30 (Build_World flaky1 gauges0)).1.
Definition flaky3 : Sim := (Heartbeat reg30 "a" (redis flaky2)).1.

(** [ListOnlinePeers] treats every error of GetPeer as an expired record. After one lost GET the
    online peer is dropped from the index; its heartbeats go on succeeding, its record stays
    alive, and it is not listed again. *)
Theorem lost_get_hides_live_peer :
  (Register reg30 peer_a flaky).2 = Ok tt ∧
  (ListOnlinePeers reg30 (Build_World flaky1 gauges0)).2 = Ok [] ∧
  (Heartbeat reg30 "a" (redis flaky2)).2 = Ok tt ∧
  (GetPeer reg30 "a" flaky3).2 = Ok peer_a ∧
  (ListOnlinePeers reg30 (Build_World flaky3 gauges0)).2 = Ok [].
Proof. repeat split; vm_compute; reflexivity. Qed.

(** [FindPeer] never matches a requester with itself, and picks one of the peers listed. *)
Theorem FindPeer_another `{PeerJSON} `{RedisLaws R} r Intn requester (w w' : World R) p :
  FindPeer r Intn requester w = (w', Ok p) →
  NodeID p ≠ requester ∧
  ∃ w1 ps, ListOnlinePeers r w = (w1, Ok ps) ∧ p ∈ ps.
Proof.
  intros (w1 & ps & Hl & Hk)%bind_inv_ok. apply wrap_err_inv in Hl as [(? & Hl & [= <-])|(? & _ & [=])].
  cbv zeta in Hk. set (cs := filter (λ q, NodeID q ≠ requester) ps) in Hk.
  destruct (Nat.eqb (length cs) 0); [done|]. destruct (cs !! Intn (length cs)) as [q|] eqn:Eq; [|done].
  injection Hk as <- <-. apply list_elem_of_lookup_2, list_elem_of_filter in Eq as [Hne Hin].
  split; [done|]. by exists w1, ps.
Qed.

(** ** Witnesses *)

Definition good0 : Mem := empty_mem.
Definition good1 : Mem := (Register reg30 peer_a good0).1.
Definition world1 : World Mem := Build_World good1 gauges0.

(** The same server 31 seconds later. *)
Definition later_mem (m : Mem) (d : Z) : Mem :=
  mk_mem {| sim_strs := sim_strs (mem_sim m); sim_sets := sim_sets (mem_sim m);
            sim_time := sim_time (mem_sim m) + d; sim_script := [] |}.

Lemma later_wanes m d : 0 ≤ d → wanes m (later_mem m d).
Proof.
  intros Hd. split; simpl; [lia| |done]. intros k. unfold sim_entry. simpl.
  by rewrite prune_prune by lia.
Qed.

Lemma ListOnlinePeers_correct_witness :
  ∃ w' ps, ListOnlinePeers reg30 world1 = (w', Ok ps) ∧ peer_a ∈ ps.
Proof.
  destruct (ListOnlinePeers_correct reg30 world1) as (w' & ps & E & _ & Hc & _).
  exists w', ps. split; [exact E|]. apply (Hc "a").
  - vm_compute. reflexivity.
  - assert (redis w' = redis (ListOnlinePeers reg30 world1).1) as -> by by rewrite E.
    eexists _, _. split; vm_compute; reflexivity.
Defined.

Lemma CleanupStale_correct_witness :
  ∃ s' n, CleanupStale reg30 (later_mem good1 (31 * Second)) = (s', Ok n) ∧ ¬ indexed s' "a".
Proof.
  destruct (CleanupStale_correct reg30 (later_mem good1 (31 * Second))) as (s' & n & E & _ & _ & Hd & _).
  exists s', n. split; [exact E|]. apply Hd. vm_compute. reflexivity.
Defined.

Definition race1 : Mem := (pipe_exists ["a"] good0).1.
Definition race2 : Mem := (Register reg30 peer_a race1).1.
Definition race3 : Mem := (remove_stale ["a"] [0] race2).1.

Lemma CleanupStale_races_Register_witness :
  ¬ indexed race3 "a" ∧ (GetPeer reg30 "a" race3).2 = Ok peer_a.
Proof.
  split; [|vm_compute; reflexivity].
  apply (CleanupStale_races_Register reg30 peer_a good0 race1 [0] race2 race3 1).
  - vm_compute. reflexivity.
  - vm_compute. reflexivity.
  - vm_compute. reflexivity.
  - apply run_snd. vm_compute. reflexivity.
  - apply run_snd. vm_compute. reflexivity.
  - vm_compute. discriminate.
Defined.

Lemma FindPeer_another_witness :
  ∃ w', FindPeer reg30 (λ n, 0%nat) "b" world1 = (w', Ok peer_a) ∧ NodeID peer_a ≠ "b".
Proof.
  exists (FindPeer reg30 (λ n, 0%nat) "b" world1).1.
  assert (FindPeer reg30 (λ n, 0%nat) "b" world1 =
    ((FindPeer reg30 (λ n, 0%nat) "b" world1).1, Ok peer_a)) as E.
  { apply run_snd. vm_compute. reflexivity. }
  split; [exact E|]. by destruct (FindPeer_another reg30 (λ n, 0%nat) "b" world1 _ peer_a E).
Defined.
