(* ===== verification/Presence.v ===== *)
(** services/discovery/internal/registry over time: which peers a listing has while calls, sweeps and listings go on.

    Redis runs one command at a time, and nothing orders the commands of concurrent calls. [tends] is a step of
    everybody around a peer that keeps its heartbeats: single commands of others, and the sweeps and listings in the pieces
    between which other commands may come. [listing] is one listing in pieces, among such steps. [unheard] is what happens around
    a peer that has fallen silent. *)

From S2P Require Import Prelude GoInt GoStrings Redis Grpc Registry.

(** ** Commands of others *)

(** [c] neither changes [node]'s record nor takes [node] off the index. *)
Definition bystander (node : string) (c : cmd) : Prop :=
  match c with
  | SET k _ _ | DEL k | EXPIRE k _ => k ≠ peer_key node
  | SREM k m => k = peersSetKey → m ≠ node
  | _ => True
  end.

(** [c] neither writes or renews [node]'s record nor puts [node] on the index. *)
Definition not_from (node : string) (c : cmd) : Prop :=
  match c with
  | SET k _ _ | EXPIRE k _ => k ≠ peer_key node
  | SADD k m => k = peersSetKey → m ≠ node
  | _ => True
  end.

(** Commands in [P], one after the other, whatever becomes of them, and time passing *)
Definition sends `{Redis R} (P : cmd → Prop) : relation R :=
  rtc (λ s s', quiet s s' ∨ ∃ c o, P c ∧ rdo c s = (s', o)).

#[export] Instance sends_preorder `{Redis R} P : PreOrder (sends (R := R) P).
Proof. unfold sends. exact _. Qed.

Section sends.
Context `{PeerJSON} `{Redis R} `{Clock R} (P : cmd → Prop).

Lemma sends_rdo c : P c → runs (S := R) (sends P) (rdo (R := R) c).
Proof. intros Hc s s' o E. apply rtc_once. right. by exists c, o. Qed.

Lemma sends_call {A} c (k : reply → M R A) : P c → (∀ x, runs (S := R) (sends P) (k x)) → runs (S := R) (sends P) (bind (rdo c) k).
Proof. intros Hc Hk. refine (runs_bind _ _ _ _ _); [by apply sends_rdo|exact Hk]. Qed.

(** What each operation of the registry sends *)
Lemma Register_sends r p :
  (∀ v ttl, P (SET (peer_key (NodeID p)) v ttl)) → P (SADD peersSetKey (NodeID p)) → runs (S := R) (sends P) (Register r p).
Proof.
  intros Hset Hadd. unfold Register, now. runs; [exact (runs_read _ Now)|..];
    (apply sends_call; [first [apply Hset|apply Hadd]|intros ?; runs]).
Qed.

Lemma Heartbeat_sends r node :
  P (EXISTS (peer_key node)) → P (EXPIRE (peer_key node) (ttl r)) → runs (S := R) (sends P) (Heartbeat r node).
Proof.
  intros Hex Hexp. unfold Heartbeat. runs; (apply sends_call; [first [exact Hex|exact Hexp]|intros ?; runs]).
Qed.

Lemma collect_sends r ids :
  (∀ id, P (GET (peer_key id)) ∧ P (SREM peersSetKey id)) → runs (S := R) (sends P) (collect r ids).
Proof.
  intros Hid. induction ids as [|id ids IH]; cbn [collect]; runs; try done.
  - unfold GetPeer. runs. apply sends_call; [apply (Hid id)|intros ?; runs].
  - apply sends_call; [apply (Hid id)|intros ?; runs].
Qed.

Lemma ListOnlinePeers_sends r :
  P (SMEMBERS peersSetKey) → (∀ id, P (GET (peer_key id)) ∧ P (SREM peersSetKey id)) →
  runs (S := World R) (over redis (sends P)) (ListOnlinePeers r).
Proof.
  intros Hm Hid. unfold ListOnlinePeers. runs.
  - apply (runs_zoom _ _ _ (sends (R := R) P)); [done|]. runs. apply sends_call; [exact Hm|intros ?; runs].
  - apply (runs_zoom _ _ _ (sends (R := R) P)); [done|]. by apply collect_sends.
  - intros w w' x [= <- <-]. unfold over. reflexivity.
Qed.

Lemma CleanupStale_sends r :
  P (SMEMBERS peersSetKey) → (∀ id, P (EXISTS (peer_key id)) ∧ P (SREM peersSetKey id)) →
  runs (S := R) (sends P) (CleanupStale r).
Proof.
  intros Hm Hid.
  assert (∀ ids, runs (S := R) (sends P) (pipe_exists ids)) as Hp.
  { induction ids as [|id ids IH]; cbn [pipe_exists]; runs; try done. apply sends_call; [apply (Hid id)|intros ?; runs]. }
  assert (∀ ids ns, runs (S := R) (sends P) (remove_stale ids ns)) as Hr.
  { induction ids as [|id ids IH]; intros [|n ns]; cbn [remove_stale]; runs; try done.
    apply sends_call; [apply (Hid id)|intros ?; runs]. }
  unfold CleanupStale. runs; [apply sends_call; [exact Hm|intros ?; runs]|done..].
Qed.
End sends.

(** ** A peer that keeps its heartbeats *)

(** A sweep, or a listing, that has looked for the records of these ids, with what it found, and has not dropped them yet *)
Notation sweep := (list string * list Z)%type.

(** A step around [node], with the deadline of its next heartbeat and the sweeps under way. Everybody may send
    anything at any time but what would write [node]'s record; [node] is taken off the index only the way that
    CleanupStale and ListOnlinePeers do it: after having looked. *)
Inductive tends `{PeerJSON} `{Redis R} `{Clock R} (r : Registry) (node : string) :
    R → Z → list sweep → R → Z → list sweep → Prop :=
| tends_heartbeat s x looked s' o :
    Heartbeat r node s = (s', o) → rtime s' ≤ x → tends r node s x looked s' (rtime s' + ttl r) looked
| tends_command s x looked c s' o :
    bystander node c → rdo c s = (s', o) → rtime s' ≤ x → tends r node s x looked s' x looked
| tends_time s x looked s' : quiet s s' → rtime s' ≤ x → tends r node s x looked s' x looked
| tends_list w x looked w' o :
    ListOnlinePeers r w = (w', o) → rtime (redis w') ≤ x → tends r node (redis w) x looked (redis w') x looked
| tends_cleanup s x looked s' o :
    CleanupStale r s = (s', o) → rtime s' ≤ x → tends r node s x looked s' x looked
| tends_look s x looked ids s' ns :
    pipe_exists ids s = (s', Ok ns) → rtime s' ≤ x → tends r node s x looked s' x ((ids, ns) :: looked)
| tends_remove s x looked ids ns s' o :
    (ids, ns) ∈ looked → remove_stale ids ns s = (s', o) → rtime s' ≤ x → tends r node s x looked s' x looked
| tends_miss s x looked id s' e :
    GetPeer r id s = (s', Err e) → rtime s' ≤ x → tends r node s x looked s' x (([id], [0]) :: looked)
| tends_drop s x looked id s' o :
    ([id], [0]) ∈ looked → SRem peersSetKey id s = (s', o) → rtime s' ≤ x → tends r node s x looked s' x looked.

(** [kept r p t s x looked]: [p] registered when the service's clock read [t], when no sweep or listing was under way that had
    looked for it already; and every heartbeat since came before the deadline [x] of the time. *)
Inductive kept `{PeerJSON} `{Redis R} `{Clock R} (r : Registry) (p : Peer) (t : Z) : R → Z → list sweep → Prop :=
| kept_registered s s' :
    Register r p s = (s', Ok tt) → t = Now s → rtime s' ≤ rtime s + ttl r →
    kept r p t s' (rtime s + ttl r) []
| kept_step s x looked s' x' looked' :
    kept r p t s x looked → tends r (NodeID p) s x looked s' x' looked' → kept r p t s' x' looked'.

(** [listing r node ids s x looked ps s' x' looked']: the loop of ListOnlinePeers over [ids], with [node]'s surroundings taking any
    steps before, between and after its look-ups, returns [ps]. An id whose record it does not find is one to drop. *)
Inductive listing `{PeerJSON} `{Redis R} `{Clock R} (r : Registry) (node : string) :
    list string → R → Z → list sweep → list Peer → R → Z → list sweep → Prop :=
| listing_done s x looked : listing r node [] s x looked [] s x looked
| listing_others ids s x looked s1 x1 looked1 ps s2 x2 looked2 :
    tends r node s x looked s1 x1 looked1 → listing r node ids s1 x1 looked1 ps s2 x2 looked2 →
    listing r node ids s x looked ps s2 x2 looked2
| listing_found id ids s x looked q s1 ps s2 x2 looked2 :
    GetPeer r id s = (s1, Ok q) → rtime s1 ≤ x → listing r node ids s1 x looked ps s2 x2 looked2 →
    listing r node (id :: ids) s x looked (q :: ps) s2 x2 looked2
| listing_gone id ids s x looked e s1 ps s2 x2 looked2 :
    GetPeer r id s = (s1, Err e) → rtime s1 ≤ x → listing r node ids s1 x (([id], [0]) :: looked) ps s2 x2 looked2 →
    listing r node (id :: ids) s x looked ps s2 x2 looked2.

Section kept.
Context `{PeerJSON} `{RedisLaws R, !RedisUp R} `{Clock R}.
Context (r : Registry) (p : Peer) (t : Z) (Httl : 0 < ttl r).
Context (Hvalid : valid_text (set_LastSeen (unix_of_time t) p)).
Implicit Types s : R.
Notation node := (NodeID p).
Notation record := (Marshal (set_LastSeen (unix_of_time t) p)).

(** The peer is indexed, its record lives to the deadline, and no sweep has found it gone. *)
Record present s (x : Z) (looked : list sweep) : Prop := {
  present_index : indexed s node;
  present_record : ∃ x', x ≤ x' ∧ lives_until s node record x';
  present_found ids ns : (ids, ns) ∈ looked → length ids = length ns ∧ (node, 0) ∉ zip ids ns;
}.

Lemma present_has s x looked : present s x looked → r_entry s (peer_key node) ≠ None.
Proof. intros [_ (x' & _ & Hl) _]. unfold lives_until in Hl. congruence. Qed.

Lemma present_wanes s x looked s' : wanes s s' → rtime s' ≤ x →
  (indexed s node → indexed s' node) → present s x looked → present s' x looked.
Proof.
  intros Hw Hx Hi [Hin (x' & Hx' & Hl) Hf]. split; [by apply Hi| |done].
  exists x'. split; [done|]. eapply lives_wanes; [exact Hw|lia|done].
Qed.

Lemma quiet_present s x looked s' : quiet s s' → rtime s' ≤ x → present s x looked → present s' x looked.
Proof.
  intros Hq Hx. apply present_wanes; [by apply quiet_wanes|done|]. unfold indexed. by rewrite (quiet_set _ _ _ Hq).
Qed.

Lemma bystander_present c s x looked s' o :
  bystander node c → rdo c s = (s', o) → rtime s' ≤ x → present s x looked → present s' x looked.
Proof.
  intros Hc E Hx [Hi (x' & Hx' & Hl) Hf].
  assert (did c s s' ∨ quiet s s') as [(Ht & He & Hs)|Hq].
  { destruct o as [a|e]; [apply rdo_ok in E as [E _]; by left|]. apply rdo_err in E as [E|E]; auto. }
  - split; [| |done].
    + unfold indexed in *. rewrite Hs. destruct c; simpl in *; try done; case_decide; set_solver.
    + exists x'. split; [done|]. unfold lives_until in *. rewrite He, Hl. simpl.
      assert (x' <? rtime s' = false) as -> by (apply Z.ltb_ge; lia).
      destruct c; simpl in *; try done; by case_decide.
  - eapply quiet_present; [exact Hq|done|]. by split; [|exists x'|].
Qed.

Lemma present_record_of s x looked : present s x looked → record_of s node (set_LastSeen (unix_of_time t) p).
Proof. intros [_ (x' & _ & Hl) _]. exists record, (Some x'). split; [done|by apply Unmarshal_Marshal]. Qed.

Lemma list_present (w w' : World R) x looked o :
  ListOnlinePeers r w = (w', o) → rtime (redis w') ≤ x → present (redis w) x looked → present (redis w') x looked.
Proof.
  intros E Hx Hp. destruct (ListOnlinePeers_up r w) as (w2 & ps & E2 & _ & Hc & _ & _ & _ & Hw).
  rewrite E in E2. injection E2 as <- ->. eapply present_wanes; [exact Hw|done| |done]. intros Hi.
  apply (Hc node (set_LastSeen (unix_of_time t) p) Hi).
  destruct Hp as [_ (x' & Hx' & Hl) _]. exists record, (Some x').
  split; [eapply lives_wanes; [exact Hw|lia|done]|by apply Unmarshal_Marshal].
Qed.

Lemma cleanup_present s s' x looked o :
  CleanupStale r s = (s', o) → rtime s' ≤ x → present s x looked → present s' x looked.
Proof.
  intros E Hx Hp. destruct (CleanupStale_correct r s) as (s2 & n & E2 & Hw & _ & _ & Hkeep).
  rewrite E in E2. injection E2 as <- ->. eapply present_wanes; [exact Hw|done| |done]. intros Hi.
  apply Hkeep; [done|]. destruct Hp as [_ (x' & Hx' & Hl) _].
  assert (lives_until s' node record x') as Hl' by (eapply lives_wanes; [exact Hw|lia|done]).
  unfold lives_until in Hl'. by rewrite Hl'.
Qed.

Lemma look_present ids s s' ns x looked :
  pipe_exists ids s = (s', Ok ns) → rtime s' ≤ x → present s x looked → present s' x ((ids, ns) :: looked).
Proof.
  intros E Hx Hp. destruct (pipe_exists_up ids s) as (s2 & ns2 & E2 & Hq & Hall). rewrite E in E2. injection E2 as <- <-.
  assert (present s' x looked) as Hp'.
  { by eapply quiet_present. }
  pose proof (present_has _ _ _ Hp') as Hhas. destruct Hp' as [Hi Hl Hf]. split; [done..|].
  intros ids' ns' [[= -> ->]|Hin]%elem_of_cons; [|by apply Hf]. split; [by eapply Forall2_length|].
  intros [k [Hk Hn]%lookup_zip_Some]%list_elem_of_lookup.
  destruct (Forall2_lookup_lr _ _ _ _ _ _ Hall Hk Hn) as [Hgone _]. by apply Hhas, Hgone.
Qed.

Lemma remove_present ids ns s s' x looked o :
  (ids, ns) ∈ looked → remove_stale ids ns s = (s', o) → rtime s' ≤ x → present s x looked → present s' x looked.
Proof.
  intros Hin E Hx Hp. destruct (present_found _ _ _ Hp _ _ Hin) as [Hlen Hf]. destruct (remove_stale_up ids ns s Hlen) as (s2 & E2 & Hw & Hi).
  rewrite E in E2. injection E2 as <- _. eapply present_wanes; [exact Hw|done| |done].
  intros Hind. by apply Hi.
Qed.

Lemma miss_present id s s' e x looked :
  GetPeer r id s = (s', Err e) → rtime s' ≤ x → present s x looked → present s' x (([id], [0]) :: looked).
Proof.
  intros E Hx Hp. destruct (GetPeer_up r id s) as (s2 & Hq & [(q & E2 & _)|(e' & E2 & Hno)]);
    rewrite E in E2; [done|]. injection E2 as <- _.
  assert (present s' x looked) as Hp'.
  { by eapply quiet_present. }
  pose proof (present_record_of _ _ _ Hp') as Hrec. destruct Hp' as [Hi Hl Hf]. split; [done..|].
  intros ids' ns' [[= -> ->]|Hin]%elem_of_cons; [|by apply Hf]. split; [done|].
  simpl. intros [[= <-]|[]%not_elem_of_nil]%elem_of_cons. by eapply Hno.
Qed.

Lemma drop_present id s s' o x looked :
  ([id], [0]) ∈ looked → SRem peersSetKey id s = (s', o) → rtime s' ≤ x → present s x looked → present s' x looked.
Proof.
  intros Hin E Hx Hp. assert (id ≠ node) as Hne.
  { intros ->. destruct (present_found _ _ _ Hp _ _ Hin) as [_ Hf]. apply Hf. simpl. by left. }
  unfold SRem in E. apply bind_inv in E as [(e & E & ->)|(s1 & a & E & [= <- <-])];
    (eapply (bystander_present (SREM peersSetKey id)); [by intros _|exact E|exact Hx|exact Hp]).
Qed.

Lemma tends_present s x looked s' x' looked' :
  tends r node s x looked s' x' looked' → present s x looked → present s' x' looked'.
Proof.
  intros [? ? ? ? o Hh Ht|? ? ? c ? o Hc E Ht|? ? ? ? Hq Ht|? ? ? ? o E Ht|? ? ? ? o E Ht|? ? ? ids ? ns E Ht|? ? ? ids ns ? o Hin E Ht
    |? ? ? id ? e E Ht|? ? ? id ? o Hin E Ht] Hp.
  - destruct Hp as [Hi (x1 & Hx & Hl) Hf].
    destruct (Heartbeat_live r _ _ _ _ _ _ Httl Hl Hh ltac:(lia)) as (_ & Hl' & Hs).
    split; [unfold indexed; by rewrite Hs|by eexists|done].
  - by eapply bystander_present.
  - eapply quiet_present; eassumption.
  - by eapply list_present.
  - by eapply cleanup_present.
  - by eapply look_present.
  - by eapply remove_present.
  - by eapply miss_present.
  - by eapply drop_present.
Qed.

Lemma kept_present s x looked : kept r p t s x looked → present s x looked.
Proof.
  induction 1 as [s s' Hr Ht' Ht|s x looked s' x' looked' _ IH Hs]; [|by eapply tends_present].
  destruct (Register_done _ _ _ _ Httl Hr) as (x & Hx & Hi & Hl). split; [done| |by intros *; rewrite elem_of_nil].
  exists x. split; [done|]. rewrite Ht'. apply Hl. lia.
Qed.

(** What others send *)
Lemma sends_present s s' x looked :
  sends (bystander node) s s' → rtime s' ≤ x → present s x looked → present s' x looked.
Proof.
  intros Hs. assert (∀ s s', sends (bystander node) s s' → rtime s ≤ rtime s') as Hmono.
  { clear s s' Hs. induction 1 as [|s1 s2 s3 [Hq|(c & o & _ & E)] _ IH]; [lia|pose proof (quiet_time _ _ Hq); lia|].
    assert (rtime s1 ≤ rtime s2); [|lia]. destruct o as [a|e].
    - apply rdo_ok in E as [E _]. by eapply did_time.
    - apply rdo_err in E as [E|E]; by eapply did_time. }
  induction Hs as [s|s1 s2 s3 Hstep Hs IH]; intros Hx Hp; [done|]. specialize (Hmono _ _ Hs). apply IH; [done|].
  destruct Hstep as [Hq|(c & o & Hc & E)]; [eapply quiet_present|eapply bystander_present]; (eassumption || lia).
Qed.

Lemma listing_present ids s x looked ps s' x' looked' :
  listing r node ids s x looked ps s' x' looked' → present s x looked → node ∈ ids →
  set_LastSeen (unix_of_time t) p ∈ ps.
Proof.
  induction 1 as [s x looked|ids s x looked s1 x1 looked1 ps s2 x2 looked2 Ht _ IH
    |id ids s x looked q s1 ps s2 x2 looked2 E Hx _ IH|id ids s x looked e s1 ps s2 x2 looked2 E Hx _ IH]; intros Hp Hin.
  - by apply not_elem_of_nil in Hin.
  - apply IH; [by eapply tends_present|done].
  - destruct (GetPeer_up r id s) as (s3 & Hq & [(q' & E2 & Hrec)|(e & E2 & _)]); rewrite E in E2; [|done].
    injection E2 as <- <-. assert (present s1 x looked) as Hp1 by (by eapply quiet_present).
    apply elem_of_cons in Hin as [<-|Hin]; [|right; by apply IH].
    destruct (present_record_of _ _ _ Hp1) as (v & x1 & Ev & Eu), Hrec as (v' & x1' & Ev' & Eu').
    rewrite Ev in Ev'. injection Ev' as <- <-. rewrite Eu in Eu'. injection Eu' as <-. by left.
  - assert (present s1 x (([id], [0]) :: looked)) as Hp1 by (by eapply miss_present). apply IH; [done|].
    apply elem_of_cons in Hin as [<-|Hin]; [exfalso|done].
    destruct (present_found _ _ _ Hp1 [node] [0]) as [_ Hf]; [by left|]. apply Hf. simpl. by left.
Qed.

(** What is listed at such a time *)
Lemma present_listed (w w' : World R) x looked ps :
  present (redis w) x looked → ListOnlinePeers r w = (w', Ok ps) → rtime (redis w') ≤ x →
  set_LastSeen (unix_of_time t) p ∈ ps ∧ (length ps ≤ size (r_set (redis w) peersSetKey))%nat.
Proof.
  intros [Hi (x' & Hx' & Hl) _] E Hx.
  destruct (ListOnlinePeers_up r w) as (w2 & qs & E2 & _ & Hc & _ & _ & Hlen & Hw).
  rewrite E in E2. injection E2 as <- <-. split; [|done]. apply (Hc node); [done|].
  exists record, (Some x'). split; [eapply lives_wanes; [done|lia|done]|by apply Unmarshal_Marshal].
Qed.
End kept.

(** ** A peer that has fallen silent *)

(** Everybody but [node] sends what they like. *)
Definition unheard `{Redis R} (node : string) : relation R := sends (not_from node).

Section unheard.
Context `{PeerJSON} `{RedisLaws R} `{Clock R} (node : string).
Implicit Types s : R.

(** The operations of the registry, but for a registration or a heartbeat of [node] *)
Lemma others_unheard r :
  (∀ q, NodeID q ≠ node → runs (S := R) (unheard node) (Register r q)) ∧
  (∀ id, id ≠ node → runs (S := R) (unheard node) (Heartbeat r id)) ∧
  runs (S := World R) (over redis (unheard node)) (ListOnlinePeers r) ∧ runs (S := R) (unheard node) (CleanupStale r).
Proof.
  split_and!.
  - intros q Hq. apply Register_sends; simpl; [intros _ _ Hk; by apply peer_key_inj in Hk|done].
  - intros id Hid. apply Heartbeat_sends; simpl; [done|intros Hk; by apply peer_key_inj in Hk].
  - by apply ListOnlinePeers_sends.
  - by apply CleanupStale_sends.
Qed.

Lemma unheard_expired v x s s' : unheard node s s' →
  r_entry s (peer_key node) = None ∨ lives_until s node v x →
  rtime s ≤ rtime s' ∧ (r_entry s' (peer_key node) = None ∨ lives_until s' node v x).
Proof.
  induction 1 as [s|s1 s2 s3 Hstep _ IH]; intros Hl; [done|].
  assert (rtime s1 ≤ rtime s2 ∧ (r_entry s2 (peer_key node) = None ∨ lives_until s2 node v x)) as [Ht Hl2].
  { assert (∃ c', not_from node c' ∧ did c' s1 s2) as (c' & Hc' & (Ht & He & _)).
    { destruct Hstep as [Hq|(c & o & Hc & E)]; [by exists PING|].
      destruct o as [a|e]; [apply rdo_ok in E as [E _]; eauto|]. apply rdo_err in E as [E|E]; [by exists PING|eauto]. }
    split; [done|]. unfold lives_until in *. rewrite He.
    destruct Hl as [Hn|Hl]; [rewrite Hn|rewrite Hl]; simpl.
    - left. destruct c'; simpl in *; try done; by repeat case_decide.
    - destruct (x <? rtime s2); [left|]; destruct c'; simpl in *; try done; repeat case_decide; auto; done. }
  destruct (IH Hl2) as [Ht3 Hl3]. split; [lia|done].
Qed.
End unheard.

(** ** Properties *)

Section properties.
Context `{PeerJSON} `{RedisLaws R, !RedisUp R} `{Clock R}.
Implicit Types s : R.

(** C6: A peer whose registration is done and whose heartbeats come in time is listed, against a Redis server that answers,
    by every listing: by one that runs undisturbed and ends before the peer's deadline, and by one whose commands come
    between those of others, its heartbeats still coming in time. That is so whatever other clients of Redis do meanwhile to
    other keys, and whatever other listings and sweeps of the index run, as a whole or with the commands of others in between:
    of these, all that look for the peer look after it has registered. The peer is listed with the [LastSeen] of its
    registration: heartbeats do not renew it. *)
Theorem heartbeats_keep_listed r p t (w : World R) x looked :
  0 < ttl r → valid_text (set_LastSeen (unix_of_time t) p) → kept r p t (redis w) x looked →
  (∀ w' ps, ListOnlinePeers r w = (w', Ok ps) → rtime (redis w') ≤ x → set_LastSeen (unix_of_time t) p ∈ ps) ∧
  (∀ s0 ids ps s' x' looked', SMembers peersSetKey (redis w) = (s0, Ok ids) → rtime s0 ≤ x →
     listing r (NodeID p) ids s0 x looked ps s' x' looked' → set_LastSeen (unix_of_time t) p ∈ ps).
Proof.
  intros Httl Hv Hk%kept_present; [|done..]. split; [intros w' ps E Hx; by eapply present_listed|].
  intros s0 ids ps s' x' looked' Hm Hx Hl.
  destruct (SMembers_up peersSetKey (redis w)) as (s1 & l & E & Hq & _ & Hall). rewrite E in Hm. injection Hm as <- <-.
  eapply listing_present; [done|done|exact Hl|by eapply quiet_present|]. apply Hall, (present_index _ _ _ _ _ Hk).
Qed.

(** C33: A peer that stays silent past its deadline is gone, whatever everybody else sends to Redis meanwhile. Against a
    server that answers, a listing that starts later does not return its record and drops it from the index, and its next
    heartbeat is an error, so that only a new registration brings it back. *)
Theorem silent_peer_expires r node v x s (w : World R) :
  lives_until s node v x → unheard node s (redis w) → x < rtime (redis w) →
  (∃ w' ps, ListOnlinePeers r w = (w', Ok ps) ∧ ¬ indexed (redis w') node ∧
     ∀ p, p ∈ ps → ∃ id, id ≠ node ∧ record_of (redis w) id p) ∧
  (∃ s', Heartbeat r node (redis w) = (s', Err (Errorf ("peer not found: " +:+ node)))).
Proof.
  intros Hl Hw Hx. destruct (unheard_expired node v x _ _ Hw (or_intror Hl)) as [_ Hn'].
  assert (r_entry (redis w) (peer_key node) = None) as Hn.
  { destruct Hn' as [Hn|Hl']; [done|]. pose proof (r_live (redis w) (peer_key node)) as E.
    unfold lives_until in Hl'. rewrite Hl' in E. simpl in E. case_bool; [done|lia]. }
  assert (∀ p, ¬ record_of (redis w) node p) as Hnone by (intros p (v' & x' & E & _); congruence).
  split.
  - destruct (ListOnlinePeers_up r w) as (w' & ps & E & Hs & _ & Hd & _).
    exists w', ps. split; [done|]. split; [by apply Hd|]. intros p Hp.
    rewrite Forall_forall in Hs. destruct (Hs p Hp) as (id & _ & Hr). exists id.
    split; [|done]. intros ->. by destruct (Hnone p).
  - destruct (Heartbeat_gone r node (redis w) Hn) as (s' & E & _). by exists s'.
Qed.
End properties.

(** ** Witnesses *)

#[local] Existing Instance bits_json.

(** The peer of Registry.v registers, a sweep has looked for it, another peer registers, the first one sends a heartbeat and the
    sweep ends. *)
Definition peer_b : Peer :=
  {| NodeID := "b"; PublicKey := ""; Endpoint := "10.8.0.3:51820"; Version := "1.0.0"; PeerID := "";
     P2PAddrs := []; IsExitNode := true; LastSeen := 0 |}.
Definition looked1 : Mem := (pipe_exists ["a"; "b"] good1).1.
Definition set_b : Mem := (rdo (SET "peer:b" (Marshal peer_b) (30 * Second)) looked1).1.
Definition added_b : Mem := (rdo (SADD peersSetKey "b") set_b).1.
Definition beaten : Mem := (Heartbeat reg30 "a" added_b).1.
Definition swept : Mem := (remove_stale ["a"; "b"] [1; 0] beaten).1.

Lemma kept_beaten : kept reg30 peer_a 0 beaten (30 * Second) [(["a"; "b"], [1; 0])].
Proof.
  apply (kept_step _ _ _ added_b (30 * Second) [(["a"; "b"], [1; 0])]).
  { apply (kept_step _ _ _ set_b (30 * Second) [(["a"; "b"], [1; 0])]).
    { apply (kept_step _ _ _ looked1 (30 * Second) [(["a"; "b"], [1; 0])]).
      { apply (kept_step _ _ _ good1 (30 * Second) []).
        - change (30 * Second) with (rtime good0 + ttl reg30). apply (kept_registered reg30 peer_a 0 good0 good1);
            [apply run_snd; vm_compute; reflexivity|vm_compute; reflexivity|vm_compute; discriminate].
        - apply tends_look; [apply run_snd; vm_compute; reflexivity|vm_compute; discriminate]. }
      eapply (tends_command _ _ _ _ _ (SET "peer:b" (Marshal peer_b) (30 * Second)));
        [simpl; discriminate|apply surjective_pairing|vm_compute; discriminate]. }
    eapply (tends_command _ _ _ _ _ (SADD peersSetKey "b")); [exact I|apply surjective_pairing|vm_compute; discriminate]. }
  change (30 * Second) with (rtime beaten + ttl reg30) at 2. eapply tends_heartbeat;
    [apply surjective_pairing|vm_compute; discriminate].
Qed.

Lemma kept_swept : kept reg30 peer_a 0 swept (30 * Second) [(["a"; "b"], [1; 0])].
Proof.
  apply (kept_step _ _ _ beaten (30 * Second) [(["a"; "b"], [1; 0])]); [exact kept_beaten|].
  eapply (tends_remove _ _ _ _ _ ["a"; "b"] [1; 0]); [by left|apply surjective_pairing|vm_compute; discriminate].
Qed.

(** A listing that is at its second look-up when the first peer sends a heartbeat *)
Definition beaten2 : Mem := (Heartbeat reg30 "a" beaten).1.

Lemma listing_between : listing reg30 "a" ["a"; "b"] beaten (30 * Second) [(["a"; "b"], [1; 0])] [peer_a; peer_b]
  beaten2 (30 * Second) [(["a"; "b"], [1; 0])].
Proof.
  apply (listing_found _ _ _ _ _ _ _ _ beaten); [apply run_snd; vm_compute; reflexivity|vm_compute; discriminate|].
  apply (listing_others _ _ _ _ _ _ beaten2 (30 * Second) [(["a"; "b"], [1; 0])]).
  { change (30 * Second) with (rtime beaten2 + ttl reg30) at 2. eapply tends_heartbeat;
      [apply surjective_pairing|vm_compute; discriminate]. }
  apply (listing_found _ _ _ _ _ _ _ _ beaten2); [apply run_snd; vm_compute; reflexivity|vm_compute; discriminate|].
  apply listing_done.
Qed.

Lemma heartbeats_keep_listed_witness :
  (∃ ps, (ListOnlinePeers reg30 (Build_World swept gauges0)).2 = Ok ps ∧ set_LastSeen (unix_of_time 0) peer_a ∈ ps) ∧
  SMembers peersSetKey beaten = (beaten, Ok ["a"; "b"]) ∧ set_LastSeen (unix_of_time 0) peer_a ∈ [peer_a; peer_b].
Proof.
  split.
  - exists [peer_a]. split; [vm_compute; reflexivity|].
    destruct (heartbeats_keep_listed reg30 peer_a 0 (Build_World swept gauges0) (30 * Second) [(["a"; "b"], [1; 0])])
      as [Hl _]; [vm_compute; reflexivity|exact I|exact kept_swept|].
    apply (Hl (ListOnlinePeers reg30 (Build_World swept gauges0)).1).
    + apply run_snd. vm_compute. reflexivity.
    + vm_compute. discriminate.
  - assert (SMembers peersSetKey beaten = (beaten, Ok ["a"; "b"])) as E by (vm_compute; reflexivity).
    split; [exact E|].
    destruct (heartbeats_keep_listed reg30 peer_a 0 (Build_World beaten gauges0) (30 * Second) [(["a"; "b"], [1; 0])])
      as [_ Hl]; [vm_compute; reflexivity|exact I|exact kept_beaten|].
    refine (Hl beaten ["a"; "b"] _ _ _ _ E _ listing_between). vm_compute. discriminate.
Defined.

(** After 31 seconds, in which another peer has registered *)
Definition later_b : Mem := (Register reg30 peer_b (later_mem good1 (31 * Second))).1.

Lemma later_quiet : quiet (later_mem good1 (30 * Second)) (later_mem good1 (31 * Second)).
Proof.
  split; [vm_compute; discriminate|]. split; [|done]. intros k. simpl. unfold sim_entry. simpl.
  by rewrite prune_prune by (vm_compute; discriminate).
Qed.

Lemma silent_peer_expires_witness :
  (ListOnlinePeers reg30 (Build_World later_b gauges0)).2 = Ok [set_LastSeen 31 peer_b] ∧
  ∃ s', Heartbeat reg30 "a" later_b = (s', Err (Errorf "peer not found: a")).
Proof.
  split; [vm_compute; reflexivity|].
  assert (lives_until (later_mem good1 (30 * Second)) "a" (Marshal peer_a) (30 * Second)) as Hl by (vm_compute; reflexivity).
  destruct (silent_peer_expires reg30 "a" _ _ _ (Build_World later_b gauges0) Hl)
    as [_ [s' E]]; [|vm_compute; reflexivity|exists s'; exact E].
  trans (later_mem good1 (31 * Second)).
  - apply rtc_once. left. apply later_quiet.
  - apply (proj1 (others_unheard "a" reg30) peer_b) with (r := Ok tt); [discriminate|].
    apply run_snd. vm_compute. reflexivity.
Defined.
