(* ===== verification/Discovery.v ===== *)
(** services/discovery/internal/grpc: the discovery service's handlers. *)

From S2P Require Import Prelude GoInt GoStrings GoNet Redis Grpc Auth Registry.
From Stdlib Require Import Ascii.
#[local] Open Scope Z_scope.

(** ** Messages *)

Record RegisterPeerRequest : Type := {
  rg_Token : string;
  rg_IpAddress : string;
  rg_Port : Z;              (* int32 *)
  rg_PeerId : string;
  rg_P2PAddrs : list string;
  rg_IsExitNode : bool;
}.
Record RegisterPeerResponse : Type := { rg_Success : bool; rg_Message : string }.

(** discoveryv1.Peer; the service leaves [Bandwidth] at 0. *)
Record PeerInfo : Type := {
  pi_NodeId : string;
  pi_IpAddress : string;
  pi_Port : Z;              (* int32 *)
  pi_Region : string;
  pi_PeerId : string;
  pi_P2PAddrs : list string;
  pi_IsExitNode : bool;
  pi_LastSeen : Z;
}.
Record ListPeersRequest : Type := { lp_Region : string; lp_Limit : Z }.
Record ListPeersResponse : Type := { lp_Peers : list PeerInfo }.
Record HeartbeatRequest : Type := { hb_Token : string; hb_Bandwidth : Z }.
Record HeartbeatResponse : Type := { hb_Success : bool; hb_Ttl : Z }.

(** ** The handler *)

Record DiscoveryHandler : Type := { registry : Registry; authClient : bool }.

Definition NewDiscoveryHandler (reg : Registry) (authClient : bool) : DiscoveryHandler :=
  {| registry := reg; authClient := authClient |}.

(** The handler's Redis server and gauges, and the identity service. *)
Record State (R A : Type) : Type := { st_world : World R; st_auth : A }.
Arguments st_world {R A} s : rename.
Arguments st_auth {R A} s : rename.
Arguments Build_State {R A} _ _.

Definition in_world {R A B} (m : M (World R) B) : M (State R A) B :=
  zoom st_world (λ w s, Build_State w (st_auth s)) m.
Definition in_auth {R A B} (m : M A B) : M (State R A) B :=
  zoom st_auth (λ a s, Build_State (st_world s) a) m.

(** The address and port of an endpoint: the two parts around its only colon, or
    nothing; a port that is not a number is 0. *)
Definition parse_endpoint (endpoint : string) : string * Z :=
  match Split ":" endpoint with
  | [ipAddress; port] =>
      (ipAddress, match Atoi port with Some parsedPort => wrap32 parsedPort | None => 0 end)
  | _ => ("", 0)
  end.

Definition to_proto (p : Peer) : PeerInfo :=
  let '(ipAddress, port) := parse_endpoint (Endpoint p) in
  {| pi_NodeId := NodeID p; pi_IpAddress := ipAddress; pi_Port := port; pi_Region := Version p;
     pi_PeerId := PeerID p; pi_P2PAddrs := P2PAddrs p; pi_IsExitNode := IsExitNode p;
     pi_LastSeen := LastSeen p |}.

(** [protoPeers[:limit]], with a limit that is not positive, or too large, taken as all. *)
Definition apply_limit {A} (limit : Z) (l : list A) : list A :=
  if (limit <=? 0) || (Z.of_nat (length l) <? limit) then l else take (Z.to_nat limit) l.

Definition tokenFromMetadata (ctx : Context) : string :=
  match ctx_incoming ctx with
  | None => ""
  | Some md =>
      match md_Get md "authorization" with
      | [] => ""
      | v :: _ => TrimPrefix "Bearer " v
      end
  end.

Definition peer_of_request (nodeID : string) (req : RegisterPeerRequest) : Peer :=
  {| NodeID := nodeID; PublicKey := ""; Endpoint := rg_IpAddress req +:+ ":" +:+ Itoa (rg_Port req);
     Version := "1.0.0"; PeerID := rg_PeerId req; P2PAddrs := rg_P2PAddrs req;
     IsExitNode := rg_IsExitNode req; LastSeen := 0 |}.

Section handlers.
Context `{PeerJSON} `{Redis R} `{Clock R} `{TokenService A}.

Definition resolveNodeID (h : DiscoveryHandler) (ctx : Context) (token : string) : M (State R A) string :=
  if authClient h then in_auth (ValidateToken ctx token)
  else if len token <? 8 then throw (Errorf "token too short")
  else ret (take_str 8 token).

Definition RegisterPeer (h : DiscoveryHandler) (ctx : Context) (req : RegisterPeerRequest) :
    M (State R A) RegisterPeerResponse :=
  if decide (rg_Token req = "") then throw (StatusErr InvalidArgument "token is required")
  else if decide (rg_IpAddress req = "") then throw (StatusErr InvalidArgument "ip_address is required")
  else
    let! nodeID := wrap_err (StatusErrf Unauthenticated "auth failed") (resolveNodeID h ctx (rg_Token req)) in
    let! _ := wrap_err (StatusErrf Internal "register failed")
                (in_world (on_redis (Register (registry h) (peer_of_request nodeID req)))) in
    ret {| rg_Success := true; rg_Message := "peer registered" |}.

Definition ListPeers (h : DiscoveryHandler) (ctx : Context) (req : ListPeersRequest) :
    M (State R A) ListPeersResponse :=
  let token := tokenFromMetadata ctx in
  if decide (token = "") then throw (StatusErr Unauthenticated "authorization token required")
  else
    let! _ := wrap_err (StatusErrf Unauthenticated "auth failed") (resolveNodeID h ctx token) in
    let! peers := wrap_err (StatusErrf Internal "list peers failed")
                    (in_world (ListOnlinePeers (registry h))) in
    ret {| lp_Peers := apply_limit (lp_Limit req) (map to_proto peers) |}.

Definition Heartbeat (h : DiscoveryHandler) (ctx : Context) (req : HeartbeatRequest) :
    M (State R A) HeartbeatResponse :=
  if decide (hb_Token req = "") then throw (StatusErr InvalidArgument "token is required")
  else
    let! nodeID := wrap_err (StatusErrf Unauthenticated "auth failed") (resolveNodeID h ctx (hb_Token req)) in
    let! _ := wrap_err (StatusErrf NotFound "heartbeat failed")
                (in_world (on_redis (Registry.Heartbeat (registry h) nodeID))) in
    ret {| hb_Success := true; hb_Ttl := 30 |}.
End handlers.

(** ** Endpoints *)

Lemma parse_endpoint_join ip port :
  str_forall (not_char ":") ip = true → - 2 ^ 31 ≤ port < 2 ^ 31 →
  parse_endpoint (ip +:+ ":" +:+ Itoa port) = (ip, port).
Proof.
  intros Hip Hport. unfold parse_endpoint. change (":" +:+ Itoa port) with (String ":" (Itoa port)).
  rewrite Split_app by done. rewrite Split_no_sep by (by apply Itoa_no_char_all).
  rewrite Atoi_Itoa_all by (unfold max_int64; lia). by rewrite wrap32_id.
Qed.

Lemma parse_endpoint_address ip port :
  str_forall (not_char ":") ip = true → (parse_endpoint (ip +:+ ":" +:+ Itoa port)).1 = ip.
Proof.
  intros Hip. unfold parse_endpoint. change (":" +:+ Itoa port) with (String ":" (Itoa port)).
  rewrite Split_app by done. by rewrite Split_no_sep by (by apply Itoa_no_char_all).
Qed.

(** An address with a colon in it makes more than two parts. *)
Lemma parse_endpoint_colon s1 s2 s3 :
  str_forall (not_char ":") s1 = true →
  parse_endpoint (s1 +:+ String ":" (s2 +:+ String ":" s3)) = ("", 0).
Proof.
  intros H1. unfold parse_endpoint. rewrite Split_app by done.
  assert (∃ a b l, Split ":" (s2 +:+ String ":" s3) = a :: b :: l) as (a & b & l & ->); [|done].
  clear. induction s2 as [|c s2 (a & b & l & E)].
  - change (EmptyString +:+ String ":" s3) with (String ":" s3). cbn [Split].
    rewrite decide_True by done. destruct (Split ":" s3) as [|x y] eqn:E; [by apply Split_nonempty in E|].
    by exists EmptyString, x, y.
  - change (String c s2 +:+ String ":" s3) with (String c (s2 +:+ String ":" s3)). cbn [Split].
    case_decide; rewrite E; eauto.
Qed.

(** What is registered is what is listed: for an IPv4 address (any text without a colon) and an
    int32 port, the endpoint is taken apart into the same address and port, and the peer id, addresses
    and exit flag come through; the region field carries the program version. *)
Lemma to_proto_request node req t :
  str_forall (not_char ":") (rg_IpAddress req) = true → - 2 ^ 31 ≤ rg_Port req < 2 ^ 31 →
  to_proto (set_LastSeen t (peer_of_request node req)) =
  {| pi_NodeId := node; pi_IpAddress := rg_IpAddress req; pi_Port := rg_Port req; pi_Region := "1.0.0";
     pi_PeerId := rg_PeerId req; pi_P2PAddrs := rg_P2PAddrs req; pi_IsExitNode := rg_IsExitNode req;
     pi_LastSeen := t |}.
Proof.
  intros Hip Hport. unfold to_proto, set_LastSeen, peer_of_request.
  cbn [Endpoint NodeID Version PeerID P2PAddrs IsExitNode LastSeen].
  by rewrite parse_endpoint_join.
Qed.

(** ** Facts *)

Section facts.
Context `{PeerJSON} `{RedisLaws R} `{Clock R} `{TokenLaws A}.
Implicit Types s : State R A.

(** [token] is taken for [node]'s: by the identity service, or without one by its first characters. *)
Definition stands_for (h : DiscoveryHandler) (a : A) (token node : string) : Prop :=
  if authClient h then token_of a token node else node = take_str 8 token.

Lemma disc_resolveNodeID_frame h ctx token s s' r :
  resolveNodeID h ctx token s = (s', r) →
  st_world s' = st_world s ∧ (∀ node, r = Ok node → stands_for h (st_auth s') token node).
Proof.
  unfold resolveNodeID, stands_for. destruct (authClient h).
  - unfold in_auth, zoom. destruct (ValidateToken ctx token (st_auth s)) as [a x] eqn:E.
    intros [= <- <-]. cbn [st_world st_auth]. split; [done|].
    intros node ->. by eapply ValidateToken_ok.
  - case_bool; intros [= <- <-]; split; naive_solver.
Qed.

Lemma disc_in_world_inv {B} (m : M (World R) B) s s' r :
  in_world m s = (s', r) → m (st_world s) = (st_world s', r).
Proof. unfold in_world, zoom. destruct (m (st_world s)). by intros [= <- <-]. Qed.

Lemma disc_on_redis_inv {B} (m : M R B) (w w' : World R) r :
  on_redis m w = (w', r) → m (redis w) = (redis w', r).
Proof. unfold on_redis, zoom. destruct (m (redis w)). by intros [= <- <-]. Qed.

(** The steps all three handlers share. *)
Lemma disc_guarded_stands {B C} h ctx token (f : error → error) (m : string → M (World R) B)
    (k : B → M (State R A) C) s s' r :
  (let! nodeID := wrap_err (StatusErrf Unauthenticated "auth failed") (resolveNodeID h ctx token) in
   let! b := wrap_err f (in_world (m nodeID)) in k b) s = (s', r) →
  (∃ e, r = Err (StatusErrf Unauthenticated "auth failed" e) ∧ st_world s' = st_world s) ∨
  (∃ (a : A) node w x, stands_for h a token node ∧
     m node (st_world s) = (w, x) ∧
     match x with
     | Err e => r = Err (f e) ∧ s' = Build_State w a
     | Ok b => k b (Build_State w a) = (s', r)
     end).
Proof.
  intros [(e & Hv & ->)|(s1 & node & Hv & Hk)]%bind_inv;
    apply wrap_err_inv in Hv as [(x & Hv & [=])|(e' & Hv & [=])]; subst;
    apply disc_resolveNodeID_frame in Hv as (Hw & Ht); [left; eauto|right].
  apply bind_inv in Hk as [(e & He & ->)|(s2 & b & He & Hk)];
    apply wrap_err_inv in He as [(y & He & [=])|(e' & He & [=])]; subst.
  - unfold in_world, zoom in He. destruct (m x (st_world s1)) as [w z] eqn:Em.
    injection He as <- ->. rewrite Hw in Em.
    exists (st_auth s1), x, w, (Err e'). split_and!; auto.
  - unfold in_world, zoom in He. destruct (m x (st_world s1)) as [w z] eqn:Em.
    injection He as <- ->. rewrite Hw in Em.
    exists (st_auth s1), x, w, (Ok y). split_and!; auto.
Qed.
Lemma disc_guarded_inv {B C} h ctx token (f : error → error) (m : string → M (World R) B)
    (k : B → M (State R A) C) s s' r :
  (let! nodeID := wrap_err (StatusErrf Unauthenticated "auth failed") (resolveNodeID h ctx token) in
   let! b := wrap_err f (in_world (m nodeID)) in k b) s = (s', r) →
  (∃ e, r = Err (StatusErrf Unauthenticated "auth failed" e) ∧ st_world s' = st_world s) ∨
  (∃ (a : A) node w x, (authClient h = true → token_of a token node) ∧
     m node (st_world s) = (w, x) ∧
     match x with
     | Err e => r = Err (f e) ∧ s' = Build_State w a
     | Ok b => k b (Build_State w a) = (s', r)
     end).
Proof.
  intros [He|(a & node & w & x & Hs & Hm & Hk)]%disc_guarded_stands; [by left|right]. exists a, node, w, x.
  split; [|done]. unfold stands_for in Hs. by intros Hc; rewrite Hc in Hs.
Qed.
End facts.

(** ** Properties *)

Section properties.
Context `{PeerJSON} `{RedisLaws R} `{Clock R} `{TokenLaws A}.
Implicit Types s : State R A.

(** C31: A caller can only register itself: with an identity service, a call that changes
    Redis carries a token the service vouches for, and the record it writes is that of the token's
    node, at the address and port of the request. *)
Theorem RegisterPeer_registers_token_node h ctx req s s' r :
  RegisterPeer h ctx req s = (s', r) → authClient h = true →
  (st_world s' = st_world s ∧
   ((∃ m, r = Err (StatusErr InvalidArgument m) ∧ (rg_Token req = "" ∨ rg_IpAddress req = "")) ∨
    ∃ e, r = Err (StatusErrf Unauthenticated "auth failed" e))) ∨
  (∃ (a : A) node x, token_of a (rg_Token req) node ∧
     Register (registry h) (peer_of_request node req) (redis (st_world s)) = (redis (st_world s'), x) ∧
     r = match x with
         | Ok _ => Ok {| rg_Success := true; rg_Message := "peer registered" |}
         | Err e => Err (StatusErrf Internal "register failed" e)
         end).
Proof.
  unfold RegisterPeer. intros Hr Hc. case_decide; [injection Hr as <- <-; left; eauto 10|].
  case_decide; [injection Hr as <- <-; left; eauto 10|].
  apply disc_guarded_inv in Hr as [(e & -> & Hw)|(a & node & w & x & Ht & Hm & Hx)]; [left; eauto|right].
  apply disc_on_redis_inv in Hm. exists a, node, x. split; [by apply Ht|].
  destruct x as [[]|e].
  - injection Hx as <- <-. done.
  - destruct Hx as [-> ->]. done.
Qed.

(** An address that contains a colon, as every IPv6 address does, is lost on the way: the peer is
    listed with an empty address and port 0. *)
Theorem colon_address_lost node req t (ip1 ip2 : string) :
  rg_IpAddress req = ip1 +:+ String ":" ip2 → str_forall (not_char ":") ip1 = true →
  pi_IpAddress (to_proto (set_LastSeen t (peer_of_request node req))) = "" ∧
  pi_Port (to_proto (set_LastSeen t (peer_of_request node req))) = 0.
Proof.
  intros Hip H1'. unfold to_proto, set_LastSeen, peer_of_request.
  cbn [Endpoint NodeID Version PeerID P2PAddrs IsExitNode LastSeen]. rewrite Hip.
  rewrite <- app_str_assoc. change (String ":" ip2 +:+ ?x) with (String ":" (ip2 +:+ x)).
  change (":" +:+ Itoa (rg_Port req)) with (String ":" (Itoa (rg_Port req))).
  by rewrite parse_endpoint_colon.
Qed.

End properties.

(** ** Witnesses *)

#[local] Existing Instance bits_json.
#[local] Instance one : TokenService unit := one_token "token-1" "a".
#[local] Instance one_laws : TokenLaws unit := one_token_laws "token-1" "a".

Definition handler0 : DiscoveryHandler := NewDiscoveryHandler reg30 true.
Definition request_a : RegisterPeerRequest :=
  {| rg_Token := "token-1"; rg_IpAddress := "10.8.0.2"; rg_Port := 51820; rg_PeerId := "";
     rg_P2PAddrs := []; rg_IsExitNode := false |}.
Definition state0 : State Mem unit := Build_State (Build_World good0 gauges0) tt.
Definition state1 : State Mem unit := Build_State world1 tt.
Definition info_a : PeerInfo :=
  {| pi_NodeId := "a"; pi_IpAddress := "10.8.0.2"; pi_Port := 51820; pi_Region := "1.0.0";
     pi_PeerId := ""; pi_P2PAddrs := []; pi_IsExitNode := false; pi_LastSeen := 0 |}.

Lemma RegisterPeer_registers_token_node_witness :
  (RegisterPeer handler0 Background request_a state0).2 =
    Ok {| rg_Success := true; rg_Message := "peer registered" |} ∧
  ∃ node, token_of (W := unit) tt "token-1" node.
Proof.
  split; [vm_compute; reflexivity|].
  destruct (RegisterPeer_registers_token_node handler0 Background request_a state0 _ _
    (surjective_pairing _) eq_refl) as [(_ & [(m & He & _)|(e & He)])|(u & node & x & Ht & _)].
  - vm_compute in He. discriminate He.
  - vm_compute in He. discriminate He.
  - exists node. destruct u. exact Ht.
Defined.

Lemma colon_address_lost_witness :
  pi_IpAddress (to_proto (set_LastSeen 0 (peer_of_request "a"
    {| rg_Token := "t"; rg_IpAddress := "fe80::1"; rg_Port := 51820; rg_PeerId := "";
       rg_P2PAddrs := []; rg_IsExitNode := false |}))) = "".
Proof.
  refine (proj1 (colon_address_lost "a"
    {| rg_Token := "t"; rg_IpAddress := "fe80::1"; rg_Port := 51820; rg_PeerId := "";
       rg_P2PAddrs := []; rg_IsExitNode := false |} 0 "fe80" ":1" _ _)); vm_compute; reflexivity.
Defined.

Definition caller : Context := bearer "Bearer token-1".
