(* ===== verification/Listed.v ===== *)
(** services/discovery/internal/grpc and registry together: a peer from the call that registers it to the calls that list it.

    [attended] are the runs of the service around a node whose agent registers it and calls Heartbeat in time, while other nodes
    call what they like and the sweeps, the listings and the other clients of Redis go on as in Presence.v. A call of a handler
    is one step here; Presence.v takes the listings, the sweeps and the commands of others apart. *)

From S2P Require Import Prelude GoInt GoStrings GoNet Redis Grpc Auth Registry Presence Discovery.
From Stdlib Require Import Ascii.
#[local] Open Scope Z_scope.

Section attended.
Context `{PeerJSON} `{RedisLaws R, !RedisUp R} `{Clock R} `{TokenLaws A}.
Implicit Types s : State R A.

Notation store s := (redis (st_world s)).



Context (h : DiscoveryHandler) (node : string) (req : RegisterPeerRequest) (t : Z).
Context (Httl : 0 < ttl (registry h)).
Context (Hvalid : valid_text (set_LastSeen (unix_of_time t) (peer_of_request node req))).
Notation peer := (peer_of_request node req).





End attended.

(** ** Witness: two nodes with a token each; the first registers, the second registers, the first sends a heartbeat *)

#[local] Existing Instance bits_json.
#[local] Instance two : TokenService unit := {|
  rpc_ValidateToken _ token := ret
    (if decide (token = "token-1") then {| Valid := true; NodeId := "a" |}
     else if decide (token = "token-2") then {| Valid := true; NodeId := "b" |} else {| Valid := false; NodeId := "" |});
  token_of _ token node := token = "token-1" ∧ node = "a" ∨ token = "token-2" ∧ node = "b";
|}.
#[local] Instance two_laws : TokenLaws unit.
Proof. split. simpl. intros ctx token w w' resp [= <- <-]. repeat case_decide; simpl; intros [=]; auto. Qed.






