(* ===== verification/Backend.v ===== *)
(** The three services as one system.

    The services of deployments/docker-compose share one Redis server: the config service keeps the
    leases in it and the discovery service the peers, and both ask the identity service about tokens. [Backend] is
    their joint state, [step] everything that may happen to it, labelled by the node whose lease it may change.
    Shown here: the two users of Redis do not disturb each other, every step keeps the invariant of the backend, keeps
    the identity service's rows, and changes no lease but that of its label. *)

From S2P Require Import Prelude GoInt GoStrings GoNet Redis Grpc Auth.
From S2P Require Allocator IdentityStore Identity ConfigService Registry Discovery.

Record Backend (R : Type) : Type := {
  b_identity : Identity.World;
  b_config : ConfigService.ConfigHandler;
  b_redis : R;
  b_allocated : Z;                  (* the gauges of the two users of Redis *)
  b_active : bool → Z;
}.
Arguments b_identity {R}.
Arguments b_config {R}.
Arguments b_redis {R}.
Arguments b_allocated {R}.
Arguments b_active {R}.
Arguments Build_Backend {R}.

Section views.
Context {R : Type}.

Definition set_identity (w : Identity.World) (b : Backend R) : Backend R :=
  Build_Backend w (b_config b) (b_redis b) (b_allocated b) (b_active b).
Definition set_handler (h : ConfigService.ConfigHandler) (b : Backend R) : Backend R :=
  Build_Backend (b_identity b) h (b_redis b) (b_allocated b) (b_active b).
Definition set_redis (s : R) (b : Backend R) : Backend R :=
  Build_Backend (b_identity b) (b_config b) s (b_allocated b) (b_active b).

(** What each handler sees of the backend *)
Definition config_state (b : Backend R) : ConfigService.State R Identity.World :=
  ConfigService.Build_State (b_config b) (Allocator.Build_World (b_redis b) (b_allocated b)) (b_identity b).
Definition put_config (s : ConfigService.State R Identity.World) (b : Backend R) : Backend R :=
  Build_Backend (ConfigService.st_auth s) (ConfigService.st_handler s)
    (Allocator.redis (ConfigService.st_world s)) (Allocator.AllocatedIPs (ConfigService.st_world s)) (b_active b).
Definition discovery_state (b : Backend R) : Discovery.State R Identity.World :=
  Discovery.Build_State (Registry.Build_World (b_redis b) (b_active b)) (b_identity b).
Definition put_discovery (s : Discovery.State R Identity.World) (b : Backend R) : Backend R :=
  Build_Backend (Discovery.st_auth s) (b_config b) (Registry.redis (Discovery.st_world s)) (b_allocated b)
    (Registry.ActivePeers (Discovery.st_world s)).

Definition on_identity {A} (m : M Identity.World A) : M (Backend R) A := zoom b_identity set_identity m.
Definition on_config {A} (m : M (ConfigService.State R Identity.World) A) : M (Backend R) A :=
  zoom config_state put_config m.
Definition on_discovery {A} (m : M (Discovery.State R Identity.World) A) : M (Backend R) A :=
  zoom discovery_state put_discovery m.
End views.

(** ** Two users of one Redis server *)

(** From [s] to [s'] time passed and nothing changed but the keys in [K] and the sets in [T]. *)
Record only `{Redis R} (K T : string → Prop) (s s' : R) : Prop := {
  only_time : rtime s ≤ rtime s';
  only_entry k : ¬ K k → r_entry s' k = prune (rtime s') (r_entry s k);
  only_set k : ¬ T k → r_set s' k = r_set s k;
}.

Definition lease_key (k : string) : Prop := ∃ node, k = Allocator.node_key node.
Definition lease_set (k : string) : Prop := k = Allocator.allocatedSetKey.
Definition record_key (k : string) : Prop := ∃ node, k = Registry.peer_key node.
Definition record_set (k : string) : Prop := k = Registry.peersSetKey.

Lemma lease_not_record k : lease_key k → ¬ record_key k.
Proof. intros [n ->] [n' [=]]. Qed.
Lemma lease_set_not_record k : lease_set k → ¬ record_set k.
Proof. by intros ->. Qed.

Section only.
Context `{RedisLaws R} (K T : string → Prop).
Implicit Types s : R.

#[export] Instance only_preorder : PreOrder (only (R := R) K T).
Proof.
  split.
  - intros s. split; [done| |done]. intros k _. by rewrite r_live.
  - intros s1 s2 s3 [T1 E1 S1] [T2 E2 S2]. split; [lia| |].
    + intros k Hk. rewrite E2, E1 by done. by apply prune_prune.
    + intros k Hk. by rewrite S2, S1.
Qed.

(** The commands that stay within [K] and [T] *)
Definition within (c : cmd) : Prop :=
  match c with
  | SET k _ _ | DEL k | EXPIRE k _ => K k
  | SADD k _ | SREM k _ => T k
  | _ => True
  end.

Lemma did_only c s s' : within c → did c s s' → only K T s s'.
Proof.
  intros Hc (Ht & He & Hs). split; [done| |]; intros k Hk; [rewrite He|rewrite Hs];
    destruct c; simpl in *; try done; case_decide; naive_solver.
Qed.

Lemma within_only c s s' : within c → did c s s' ∨ quiet s s' → only K T s s'.
Proof. intros Hc [Hd|Hq]; [by eapply did_only|by apply (did_only PING)]. Qed.

Lemma call_only {A} c (k : reply → M R A) :
  within c → (∀ r, runs (S:=R) (only K T) (k r)) → runs (S:=R) (only K T) (bind (rdo c) k).
Proof. intros Hc. apply call_runs; [exact _|]. apply rdo_runs. intros s s'. by apply within_only. Qed.

End only.

Ltac redis_call :=
  apply call_only; [simpl; unfold record_key, record_set, lease_key, lease_set; eauto|intros ?; runs].

(** The allocator touches leases only. *)
Section allocator.
Context `{Net6} `{RedisLaws R}.
Notation leases_only := (only (R := R) lease_key lease_set).

Definition alloc_only (w w' : Allocator.World R) : Prop := leases_only (Allocator.redis w) (Allocator.redis w').
#[export] Instance alloc_only_preorder : PreOrder alloc_only.
Proof. split; unfold alloc_only; [by intros w|intros w1 w2 w3 ? ?; by trans (Allocator.redis w2)]. Qed.

Lemma alloc_redis {A} (m : M R A) : runs leases_only m → runs alloc_only (Allocator.on_redis m).
Proof. intros Hm. by apply (runs_zoom _ _ _ leases_only). Qed.

Lemma update_gauge_only : runs alloc_only Allocator.update_gauge.
Proof.
  unfold Allocator.update_gauge. runs; [apply alloc_redis; redis_call|].
  intros w w' r [= <- <-]. unfold alloc_only. reflexivity.
Qed.

Lemma AllocateIP_only a node : runs alloc_only (Allocator.AllocateIP a node).
Proof.
  unfold Allocator.AllocateIP, Allocator.findAvailableIP.
  repeat first [apply update_gauge_only|apply alloc_redis; redis_call|progress runs].
Qed.

Lemma ReleaseIP_only a node ip : runs alloc_only (Allocator.ReleaseIP a node ip).
Proof.
  unfold Allocator.ReleaseIP.
  repeat first [apply update_gauge_only|apply alloc_redis; redis_call|progress runs].
Qed.
End allocator.

(** What the registry does besides registering: it reads, renews records and drops ids from the index. *)
Definition renewing (c : cmd) : Prop :=
  match c with
  | SET _ _ _ | DEL _ | SADD _ _ => False
  | EXPIRE k _ => record_key k
  | SREM k _ => record_set k
  | _ => True
  end.

Section renewing.
Context `{Registry.PeerJSON} `{RedisLaws R} `{Clock R}.
Context (P : relation R) `{!PreOrder P} (HP : ∀ c, renewing c → runs P (rdo c)).

Ltac renewal := apply call_runs; [exact _|apply HP; simpl; unfold record_key, record_set; eauto|intros ?; runs].

Lemma Heartbeat_renews r node : runs P (Registry.Heartbeat r node).
Proof. unfold Registry.Heartbeat, Registry.peerKeyPrefix. runs; renewal. Qed.

Lemma GetPeer_renews r node : runs P (Registry.GetPeer r node).
Proof. unfold Registry.GetPeer. runs. renewal. Qed.

Lemma collect_renews r ids : runs P (Registry.collect r ids).
Proof. induction ids as [|id ids IH]; cbn [Registry.collect]; runs; try done; [apply GetPeer_renews|renewal]. Qed.

Lemma CleanupStale_renews r : runs P (Registry.CleanupStale r).
Proof.
  assert (∀ ids, runs P (Registry.pipe_exists ids)) as Hp.
  { induction ids as [|id ids IH]; cbn [Registry.pipe_exists]; runs; try done. renewal. }
  assert (∀ ids ns, runs P (Registry.remove_stale ids ns)) as Hr.
  { induction ids as [|id ids IH]; intros [|n ns]; cbn [Registry.remove_stale]; runs; try done. renewal. }
  unfold Registry.CleanupStale. runs; [renewal|done..].
Qed.

Lemma ListOnlinePeers_renews r : runs (over Registry.redis P) (Registry.ListOnlinePeers r).
Proof.
  unfold Registry.ListOnlinePeers. runs.
  - apply (runs_zoom _ _ _ P); [done|]. runs. renewal.
  - apply (runs_zoom _ _ _ P); [done|]. apply collect_renews.
  - intros w w' x [= <- <-]. unfold over. reflexivity.
Qed.
End renewing.

(** The registry touches records only. *)
Section registry.
Context `{Registry.PeerJSON} `{RedisLaws R} `{Clock R}.
Notation records_only := (only (R := R) record_key record_set).

Lemma Register_only r p : runs records_only (Registry.Register r p).
Proof.
  unfold Registry.Register, Registry.now, Registry.peerKeyPrefix.
  runs; [exact (runs_read _ Now)|redis_call..].
Qed.

Lemma renewing_only c : renewing c → runs records_only (rdo c).
Proof. intros Hc. apply rdo_runs. intros s s'. apply within_only. by destruct c. Qed.

Lemma Heartbeat_only r node : runs records_only (Registry.Heartbeat r node).
Proof. apply Heartbeat_renews; [exact _|exact renewing_only]. Qed.

Lemma CleanupStale_only r : runs records_only (Registry.CleanupStale r).
Proof. apply CleanupStale_renews; [exact _|exact renewing_only]. Qed.

Definition reg_only (w w' : Registry.World R) : Prop := records_only (Registry.redis w) (Registry.redis w').
#[export] Instance reg_only_preorder : PreOrder reg_only.
Proof. split; unfold reg_only; [by intros w|intros w1 w2 w3 ? ?; by trans (Registry.redis w2)]. Qed.

Lemma reg_redis {A} (m : M R A) : runs records_only m → runs reg_only (Registry.on_redis m).
Proof. intros Hm. by apply (runs_zoom _ _ _ records_only). Qed.

Lemma ListOnlinePeers_only r : runs reg_only (Registry.ListOnlinePeers r).
Proof. apply ListOnlinePeers_renews; [exact _|exact renewing_only]. Qed.
End registry.

(** ** Everything that may happen to the backend *)

(** [node]'s address, as the server has it *)
Definition leased `{Redis R} (b : Backend R) (node ip : string) : Prop :=
  ∃ x, r_entry (b_redis b) (Allocator.node_key node) = Some (ip, x).

(** [node] is the node of public key [key]. *)
Definition registered {R} (b : Backend R) (node key : string) : Prop :=
  ∃ row, row ∈ IdentityStore.nodes (Identity.db (b_identity b)) ∧
    IdentityStore.ID row = node ∧ IdentityStore.PublicKey row = key.

Section steps.
Context `{Identity.JWT} (svc : Identity.IdentityService) (dh : Discovery.DiscoveryHandler) (spoilt : gset string).
Context `{Registry.PeerJSON} `{Net6} `{Redis R} `{Clock R}.

(** The identity service as the two others reach it *)
Definition tokens : TokenService Identity.World := Identity.identity_tokens svc.
#[local] Existing Instance tokens.

(** The label is the node whose lease a step may change. Steps that change no lease have none: a call to the identity
    service, a poll or reload of the configuration, a call to the discovery service, its clean-up, time passing. Any call
    may be made, and fail, at any time; [spoilt] are the addresses that are ever released by a node while another one
    holds them, or by a release that fails after it has reached Redis. *)
Inductive step : option string → Backend R → Backend R → Prop :=
| step_identity b w : Identity.ops_step svc (b_identity b) w → step None b (set_identity w b)
| step_get_config ctx req b b' r : on_config (ConfigService.GetConfig ctx req) b = (b', r) → step None b b'
| step_request ctx req b b' r :
    on_config (ConfigService.RequestIP ctx req) b = (b', r) → step (Some (ConfigService.rq_NodeId req)) b b'
| step_release ctx req b b' resp :
    (∀ node, leased b node (ConfigService.rl_IpAddress req) → node = ConfigService.rl_NodeId req) →
    on_config (ConfigService.ReleaseIP ctx req) b = (b', Ok resp) → step (Some (ConfigService.rl_NodeId req)) b b'
| step_refused ctx req b b' e :
    on_config (ConfigService.ReleaseIP ctx req) b = (b', Err e) → quiet (b_redis b) (b_redis b') → step None b b'
| step_spoil ctx req b b' r :
    ConfigService.rl_IpAddress req ∈ spoilt →
    on_config (ConfigService.ReleaseIP ctx req) b = (b', r) → step (Some (ConfigService.rl_NodeId req)) b b'
| step_reload cidr mtu dns b :
    step None b (set_handler (ConfigService.ReloadConfig cidr mtu dns (b_config b)) b)
| step_register ctx req b b' r : on_discovery (Discovery.RegisterPeer dh ctx req) b = (b', r) → step None b b'
| step_list ctx req b b' r : on_discovery (Discovery.ListPeers dh ctx req) b = (b', r) → step None b b'
| step_heartbeat ctx req b b' r : on_discovery (Discovery.Heartbeat dh ctx req) b = (b', r) → step None b b'
| step_cleanup b s r :
    Registry.CleanupStale (Discovery.registry dh) (b_redis b) = (s, r) → step None b (set_redis s b)
| step_time b s : quiet (b_redis b) s → step None b (set_redis s b).

(** What the others may do while a node is [me]: anything that is not about [me]'s lease *)
Definition others (me : string) : relation (Backend R) :=
  rtc (λ b b', ∃ l, l ≠ Some me ∧ step l b b').

#[export] Instance others_preorder me : PreOrder (others me).
Proof. unfold others. exact _. Qed.

Lemma others_step me l b b' : l ≠ Some me → step l b b' → others me b b'.
Proof. intros Hl Hs. apply rtc_once. by exists l. Qed.
End steps.

(** ** The invariant *)

Record good `{Net6} `{Redis R} (spoilt : gset string) (n : IPNet) (ones : nat) (b : Backend R) : Prop := {
  good_db : IdentityStore.db_ok (Identity.db (b_identity b));
  good_allocator : ConfigService.allocator (b_config b) = Allocator.allocator_of n;
  good_leases : ∃ t, Allocator.sees (b_redis b) t ∧ Allocator.table_ok spoilt ones n t;
}.

(** The services when they have just been set up *)
Definition set_up `{Redis R} (n : IPNet) (b : Backend R) : Prop :=
  IdentityStore.nodes (Identity.db (b_identity b)) = [] ∧ IdentityStore.tokens (Identity.db (b_identity b)) = [] ∧
  ConfigService.allocator (b_config b) = Allocator.allocator_of n ∧ Allocator.sees (b_redis b) Allocator.empty_table.

Lemma set_up_good `{Net6} `{Redis R} spoilt n ones (b : Backend R) : set_up n b → good spoilt n ones b.
Proof.
  intros (Hn & Ht & Ha & Hs). split; [|done|].
  - split; rewrite ?Hn, ?Ht; intros *; by rewrite elem_of_nil.
  - exists Allocator.empty_table. split; [done|]. apply Allocator.table_ok_empty.
Qed.

Section invariant.
Context `{Identity.JWT} (svc : Identity.IdentityService) (dh : Discovery.DiscoveryHandler).
Context `{Registry.PeerJSON} `{Net6} `{RedisLaws R} `{Clock R}.
Notation id_ops := (rtc (Identity.ops_step svc)).

#[local] Instance id_tokens : TokenService Identity.World := tokens svc.
#[local] Instance id_laws : TokenLaws Identity.World := Identity.identity_laws svc.

Lemma validate_ops ctx token : runs id_ops (Auth.ValidateToken ctx token).
Proof.
  unfold Auth.ValidateToken. runs. intros w w' r E. simpl in E. unfold Identity.ValidateToken_handler in E.
  case_decide; [injection E as <- <-; reflexivity|].
  apply bind_inv in E as [(e & E & _)|(w1 & [node valid] & E & E1)];
    [|injection E1 as <- <-]; apply wrap_err_inv in E as [(x & E & _)|(x & E & _)];
    eapply rtc_once, Identity.step_validate; exact E.
Qed.

(** What a call to one of the two services does to the parts of its state *)
Definition config_rel (s s' : ConfigService.State R Identity.World) : Prop :=
  ConfigService.st_handler s' = ConfigService.st_handler s ∧
  id_ops (ConfigService.st_auth s) (ConfigService.st_auth s') ∧
  alloc_only (ConfigService.st_world s) (ConfigService.st_world s').
Definition discovery_rel (s s' : Discovery.State R Identity.World) : Prop :=
  id_ops (Discovery.st_auth s) (Discovery.st_auth s') ∧ reg_only (Discovery.st_world s) (Discovery.st_world s').

#[local] Instance config_rel_preorder : PreOrder config_rel.
Proof.
  split; unfold config_rel; [by intros s|]. intros s1 s2 s3 (? & ? & ?) (? & ? & ?).
  split; [congruence|]. split; [by trans (ConfigService.st_auth s2)|by trans (ConfigService.st_world s2)].
Qed.
#[local] Instance discovery_rel_preorder : PreOrder discovery_rel.
Proof.
  split; unfold discovery_rel; [by intros s|]. intros s1 s2 s3 (? & ?) (? & ?).
  split; [by trans (Discovery.st_auth s2)|by trans (Discovery.st_world s2)].
Qed.

Lemma config_auth ctx token : runs config_rel (ConfigService.resolveNodeID ctx token).
Proof.
  unfold ConfigService.resolveNodeID, ConfigService.get_handler. runs; [by intros s s' r [= <- <-]|].
  apply (runs_zoom _ _ _ id_ops); [|apply validate_ops]. intros s w Hw. by split; [|split; [exact Hw|]].
Qed.

Lemma config_world {A} (m : M (Allocator.World R) A) : runs alloc_only m → runs config_rel (ConfigService.in_world m).
Proof. apply runs_zoom. intros s w Hw. by split; [|split; [|exact Hw]]. Qed.

Lemma discovery_auth ctx token : runs discovery_rel (Discovery.resolveNodeID dh ctx token).
Proof.
  unfold Discovery.resolveNodeID. runs.
  apply (runs_zoom _ _ _ id_ops); [|apply validate_ops]. intros s w Hw. by split; [exact Hw|].
Qed.

Lemma discovery_world {A} (m : M (Registry.World R) A) : runs reg_only m → runs discovery_rel (Discovery.in_world m).
Proof. apply runs_zoom. intros s w Hw. by split; [|exact Hw]. Qed.
(** *** The calls *)

Lemma GetConfig_rel ctx req : runs config_rel (ConfigService.GetConfig ctx req).
Proof.
  unfold ConfigService.GetConfig. runs; [apply config_auth|].
  unfold ConfigService.get_handler. by intros s s' r [= <- <-].
Qed.

Lemma GetConfig_world ctx req (s s' : ConfigService.State R Identity.World) r :
  ConfigService.GetConfig ctx req s = (s', r) → config_rel s s' ∧ ConfigService.st_world s' = ConfigService.st_world s.
Proof. intros Hr. split; [by eapply GetConfig_rel|]. by apply ConfigService.GetConfig_inv in Hr as (_ & Hw & _). Qed.

Lemma RequestIP_rel ctx req : runs config_rel (ConfigService.RequestIP ctx req).
Proof.
  unfold ConfigService.RequestIP. runs; [apply config_auth| |apply config_world, AllocateIP_only].
  unfold ConfigService.get_handler. by intros s s' r [= <- <-].
Qed.

Lemma ReleaseIP_rel ctx req : runs config_rel (ConfigService.ReleaseIP ctx req).
Proof.
  unfold ConfigService.ReleaseIP. runs; [apply config_auth| |apply config_world, ReleaseIP_only].
  unfold ConfigService.get_handler. by intros s s' r [= <- <-].
Qed.

Lemma RegisterPeer_rel ctx req : runs discovery_rel (Discovery.RegisterPeer dh ctx req).
Proof.
  unfold Discovery.RegisterPeer. runs; [apply discovery_auth|]. apply discovery_world, reg_redis, Register_only.
Qed.

Lemma ListPeers_rel ctx req : runs discovery_rel (Discovery.ListPeers dh ctx req).
Proof.
  unfold Discovery.ListPeers. runs; [apply discovery_auth|]. apply discovery_world, ListOnlinePeers_only.
Qed.

Lemma Heartbeat_rel ctx req : runs discovery_rel (Discovery.Heartbeat dh ctx req).
Proof.
  unfold Discovery.Heartbeat. runs; [apply discovery_auth|]. apply discovery_world, reg_redis, Heartbeat_only.
Qed.

(** A call for an address reaches the allocator or leaves Redis alone. *)
Lemma RequestIP_world ctx req (s s' : ConfigService.State R Identity.World) r :
  ConfigService.RequestIP ctx req s = (s', r) →
  (ConfigService.st_world s' = ConfigService.st_world s ∧ ∃ e, r = Err e) ∨
  ∃ x, Allocator.AllocateIP (ConfigService.allocator (ConfigService.st_handler s)) (ConfigService.rq_NodeId req)
         (ConfigService.st_world s) = (ConfigService.st_world s', x) ∧
       ∀ resp, r = Ok resp → x = Ok (ConfigService.rp_IpAddress resp).
Proof.
  unfold ConfigService.RequestIP. intros Hr.
  case_decide; [injection Hr as <- <-; left; eauto|]. case_decide; [injection Hr as <- <-; left; eauto|].
  apply ConfigService.guarded_inv in Hr as [(e & -> & _ & Hw)|(a & node & _ & Hk)]; [left; eauto|]. right.
  apply bind_inv in Hk as [(e & He & ->)|(s1 & ip & He & Hk)];
    apply wrap_err_inv in He as [(x & He & [=])|(e' & He & [=])]; subst;
    apply ConfigService.in_world_inv in He as [He _].
  - eexists. by split; [exact He|].
  - injection Hk as <- <-. eexists. split; [exact He|]. by intros resp [= <-].
Qed.

Lemma ReleaseIP_world ctx req (s s' : ConfigService.State R Identity.World) r :
  ConfigService.ReleaseIP ctx req s = (s', r) →
  (ConfigService.st_world s' = ConfigService.st_world s ∧ ∃ e, r = Err e) ∨
  ∃ x, Allocator.ReleaseIP (ConfigService.allocator (ConfigService.st_handler s)) (ConfigService.rl_NodeId req)
         (ConfigService.rl_IpAddress req) (ConfigService.st_world s) = (ConfigService.st_world s', x) ∧
       match r with Ok _ => x = Ok tt | Err _ => ∃ e, x = Err e end.
Proof.
  unfold ConfigService.ReleaseIP. intros Hr.
  case_decide; [injection Hr as <- <-; left; eauto|]. case_decide; [injection Hr as <- <-; left; eauto|].
  apply ConfigService.guarded_inv in Hr as [(e & -> & _ & Hw)|(a & node & _ & Hk)]; [left; eauto|]. right.
  apply bind_inv in Hk as [(e & He & ->)|(s1 & [] & He & Hk)];
    apply wrap_err_inv in He as [([] & He & [=])|(e' & He & [=])]; subst;
    apply ConfigService.in_world_inv in He as [He _].
  - eexists. split; [exact He|eauto].
  - injection Hk as <- <-. eexists. by split; [exact He|].
Qed.
End invariant.

(** ** Every step keeps the invariant, the rows and the other leases *)

Record effect `{Net6} `{Redis R} (spoilt : gset string) (n : IPNet) (ones : nat) (l : option string) (b b' : Backend R) :
    Prop := {
  effect_good : good spoilt n ones b';
  effect_rows : IdentityStore.keeps (Identity.db (b_identity b)) (Identity.db (b_identity b'));
  effect_lease node ip : l ≠ Some node → leased b node ip ↔ leased b' node ip;
}.

Section effects.
Context `{Identity.JWT} (svc : Identity.IdentityService) (dh : Discovery.DiscoveryHandler).
Context `{Registry.PeerJSON} `{Net6} `{RedisLaws R} `{Clock R} (spoilt : gset string).
#[local] Existing Instance IdentityStore.keeps_preorder.
#[local] Instance effect_tokens : TokenService Identity.World := tokens svc.
Context (n : IPNet) (ones : nat) (Hn : cidr_net ones n) (Hones : (1 ≤ ones)%nat).
Notation id_ops := (rtc (Identity.ops_step svc)).
Implicit Types (b : Backend R) (s : R).

Lemma leased_table b t node ip : Allocator.sees (b_redis b) t → leased b node ip ↔ Allocator.lease t !! node = Some ip.
Proof. intros Hs. exact (Allocator.holds_lease (Allocator.Build_World (b_redis b) 0) t node ip Hs). Qed.

(** The discovery service's keys are not the allocator's. *)
Lemma sees_records s s' t : only record_key record_set s s' → Allocator.sees s t → Allocator.sees s' t.
Proof.
  intros [_ He Hs] [Hl Hu]. split.
  - intros node. rewrite He, Hl by (intros Hk; eapply lease_not_record; [by exists node|done]).
    apply Allocator.prune_lease.
  - rewrite Hs; [done|]. by apply lease_set_not_record.
Qed.

(** Nor are the allocator's keys the discovery service's. *)
Lemma spares_leases node s s' : only lease_key lease_set s s' → Registry.spares node s s'.
Proof.
  intros [Ht He Hs]. split; [done| |].
  - apply He. intros Hk. eapply lease_not_record; [exact Hk|by exists node].
  - unfold Registry.indexed. rewrite Hs; [done|]. intros Hk. by apply lease_set_not_record in Hk.
Qed.

Lemma effect_intro l b b' :
  good spoilt n ones b → id_ops (b_identity b) (b_identity b') →
  ConfigService.allocator (b_config b') = ConfigService.allocator (b_config b) →
  (∀ t, Allocator.sees (b_redis b) t → Allocator.table_ok spoilt ones n t →
     ∃ t', Allocator.sees (b_redis b') t' ∧ Allocator.table_ok spoilt ones n t' ∧
       ∀ node, l ≠ Some node → Allocator.lease t' !! node = Allocator.lease t !! node) →
  effect spoilt n ones l b b'.
Proof.
  intros [Hd Ha (t & Hs & Ht)] Hops Hh Hk.
  destruct (Identity.ops_keep_rtc svc _ _ Hops Hd) as [Hrows Hd'].
  destruct (Hk t Hs Ht) as (t' & Hs' & Ht' & Hl). split; [|done|].
  - split; [done|congruence|by exists t'].
  - intros node ip Hne. by rewrite (leased_table _ _ _ _ Hs), (leased_table _ _ _ _ Hs'), (Hl node Hne).
Qed.

Lemma on_config_inv {A} (m : M (ConfigService.State R Identity.World) A) b b' r :
  on_config m b = (b', r) → ∃ st, m (config_state b) = (st, r) ∧ b' = put_config st b.
Proof. unfold on_config, zoom. destruct (m (config_state b)) as [st x]. intros [= <- <-]. by exists st. Qed.

Lemma on_discovery_inv {A} (m : M (Discovery.State R Identity.World) A) b b' r :
  on_discovery m b = (b', r) → ∃ st, m (discovery_state b) = (st, r) ∧ b' = put_discovery st b.
Proof. unfold on_discovery, zoom. destruct (m (discovery_state b)) as [st x]. intros [= <- <-]. by exists st. Qed.

Lemma discovery_effect b st :
  good spoilt n ones b → discovery_rel svc (discovery_state b) st → effect spoilt n ones None b (put_discovery st b).
Proof.
  intros Hg [Hops Hr]. apply effect_intro; [done|exact Hops|done|].
  intros t Hs Ht. exists t. split; [by apply (sees_records _ _ _ Hr)|done].
Qed.

Lemma redis_effect b s : good spoilt n ones b → only record_key record_set (b_redis b) s → effect spoilt n ones None b (set_redis s b).
Proof.
  intros Hg Hr. apply effect_intro; [done|apply rtc_refl|done|].
  intros t Hs Ht. exists t. split; [by apply (sees_records _ _ _ Hr)|done].
Qed.

(** A call to the config service that leaves the world it does not name alone *)
Lemma config_effect l b st :
  good spoilt n ones b → config_rel svc (config_state b) st →
  (∀ t, Allocator.sees (b_redis b) t → Allocator.table_ok spoilt ones n t →
     ∃ t', Allocator.sees (Allocator.redis (ConfigService.st_world st)) t' ∧ Allocator.table_ok spoilt ones n t' ∧
       ∀ node, l ≠ Some node → Allocator.lease t' !! node = Allocator.lease t !! node) →
  effect spoilt n ones l b (put_config st b).
Proof. intros Hg (Hh & Hops & _) Hk. apply effect_intro; [done|exact Hops| |done]. simpl. by rewrite Hh. Qed.

Lemma allocate_effect node t t' (r : res string) :
  Allocator.allocate_outcome ones n node t t' r →
  ∀ nd, Some node ≠ Some nd → Allocator.lease t' !! nd = Allocator.lease t !! nd.
Proof.
  intros Ho nd Hne. destruct Ho; simpl; try done. apply lookup_insert_ne. congruence.
Qed.

Lemma request_effect ctx req b b' r :
  good spoilt n ones b → on_config (ConfigService.RequestIP ctx req) b = (b', r) →
  effect spoilt n ones (Some (ConfigService.rq_NodeId req)) b b' ∧
  ∀ resp, r = Ok resp → leased b' (ConfigService.rq_NodeId req) (ConfigService.rp_IpAddress resp).
Proof.
  intros Hg (st & Hr & ->)%on_config_inv. pose proof (RequestIP_rel svc _ _ _ _ _ Hr) as Hrel.
  apply (RequestIP_world svc) in Hr as [[Hw [e ->]]|(x & Ha & Hx)].
  - split; [|done]. apply config_effect; [done..|]. rewrite Hw. intros t Hs Ht. by exists t.
  - simpl in Ha. rewrite (good_allocator _ _ _ _ Hg) in Ha. split.
    + apply config_effect; [done..|]. intros t Hs Ht.
      destruct (Allocator.AllocateIP_outcome (Allocator.allocator_of n) ones _ (ConfigService.st_world (config_state b)) _ _ t
          Hn Hones Hs Ha)
        as (t' & Hs' & Ho).
      exists t'. split; [done|]. split; [by eapply Allocator.allocate_outcome_ok|]. by eapply allocate_effect.
    + intros resp ->. specialize (Hx _ eq_refl). subst x. destruct (good_leases _ _ _ _ Hg) as (t & Hs & Ht).
      destruct (Allocator.AllocateIP_outcome (Allocator.allocator_of n) ones _ (ConfigService.st_world (config_state b)) _ _ t
          Hn Hones Hs Ha)
        as (t' & Hs' & Ho).
      rewrite (leased_table (put_config st b) _ _ _ Hs'). inversion Ho as [|?|?|? ? ? Hor]; subst; [done|].
      destruct Hor as [[= ->]|[? [=]]]. simpl. by rewrite lookup_insert_eq.
Qed.

Lemma release_effect ctx req b b' resp :
  good spoilt n ones b → (∀ node, leased b node (ConfigService.rl_IpAddress req) → node = ConfigService.rl_NodeId req) →
  on_config (ConfigService.ReleaseIP ctx req) b = (b', Ok resp) →
  effect spoilt n ones (Some (ConfigService.rl_NodeId req)) b b'.
Proof.
  intros Hg Hown (st & Hr & ->)%on_config_inv. pose proof (ReleaseIP_rel svc _ _ _ _ _ Hr) as Hrel.
  apply (ReleaseIP_world svc) in Hr as [[_ [e [=]]]|(x & Ha & Hx)]. subst x.
  apply config_effect; [done..|]. intros t Hs Ht.
  eexists. split; [by eapply (Allocator.ReleaseIP_done _ _ _ (ConfigService.st_world (config_state b)))|]. split.
  - apply Allocator.table_ok_release; [|done]. right. intros nd Hnd. apply Hown. by apply (leased_table _ t).
  - intros node Hne. simpl. apply lookup_delete_ne. congruence.
Qed.

(** A release that is answered leaves the node it names without an address. *)
Lemma release_gone ctx req b b' resp ip :
  good spoilt n ones b → on_config (ConfigService.ReleaseIP ctx req) b = (b', Ok resp) →
  ¬ leased b' (ConfigService.rl_NodeId req) ip.
Proof.
  intros Hg (st & Hr & ->)%on_config_inv. apply (ReleaseIP_world svc) in Hr as [[_ [e [=]]]|(x & Ha & Hx)]. subst x.
  destruct (good_leases _ _ _ _ Hg) as (t & Hs & Ht).
  pose proof (Allocator.ReleaseIP_done _ _ _ (ConfigService.st_world (config_state b)) _ t Hs Ha) as Hs'.
  rewrite (leased_table (put_config st b) _ _ _ Hs'). simpl. by rewrite lookup_delete_eq.
Qed.

(** A release that spoils the address it names *)
Lemma spoil_effect ctx req b b' r :
  good spoilt n ones b → ConfigService.rl_IpAddress req ∈ spoilt → on_config (ConfigService.ReleaseIP ctx req) b = (b', r) →
  effect spoilt n ones (Some (ConfigService.rl_NodeId req)) b b'.
Proof.
  intros Hg Hip (st & Hr & ->)%on_config_inv. pose proof (ReleaseIP_rel svc _ _ _ _ _ Hr) as Hrel.
  apply config_effect; [done..|]. intros t Hs Ht.
  apply (ReleaseIP_world svc) in Hr as [[Hw _]|(x & Ha & _)]; [rewrite Hw; by exists t|].
  destruct (Allocator.ReleaseIP_outcome _ _ _ (ConfigService.st_world (config_state b)) _ _ t Hs Ha) as (t' & Hs' & Ho).
  exists t'. split; [done|]. split; [by eapply Allocator.release_outcome_ok|].
  intros node Hne. destruct Ho; simpl; try done. apply lookup_delete_ne. congruence.
Qed.

Lemma step_effect l b b' : good spoilt n ones b → step svc dh spoilt l b b' → effect spoilt n ones l b b'.
Proof.
  intros Hg Hstep. revert Hg.
  destruct Hstep as [? w Hop|ctx req ? ? r Hr|ctx req ? ? r Hr|ctx req ? ? resp Hown Hr|ctx req ? ? e Hr Hs|ctx req ? ? r Hip Hr|cidr mtu dns ?
    |ctx req ? ? r Hr|ctx req ? ? r Hr|ctx req ? ? r Hr|? s r Hr|? s Hq]; intros Hg.
  - apply effect_intro; [done|by apply rtc_once|done|]. intros t Hs Ht. by exists t.
  - apply on_config_inv in Hr as (st & Hr & ->). apply (GetConfig_world svc) in Hr as [Hrel Hw].
    apply config_effect; [done..|]. rewrite Hw. intros t Hs Ht. by exists t.
  - by eapply request_effect.
  - by eapply release_effect.
  - apply on_config_inv in Hr as (st & Hr & ->). pose proof (ReleaseIP_rel svc _ _ _ _ _ Hr) as Hrel.
    apply config_effect; [done..|]. intros t Hs' Ht. exists t. split; [by eapply Allocator.sees_quiet|done].
  - by eapply spoil_effect.
  - apply effect_intro; [done|apply rtc_refl|done|]. intros t Hs Ht. by exists t.
  - apply on_discovery_inv in Hr as (st & Hr & ->). apply discovery_effect; [done|]. by eapply RegisterPeer_rel.
  - apply on_discovery_inv in Hr as (st & Hr & ->). apply discovery_effect; [done|]. by eapply ListPeers_rel.
  - apply on_discovery_inv in Hr as (st & Hr & ->). apply discovery_effect; [done|]. by eapply Heartbeat_rel.
  - apply redis_effect; [done|]. by eapply CleanupStale_only.
  - apply redis_effect; [done|]. by apply (did_only _ _ PING).
Qed.

(** Whatever the others do, the backend stays good, no row is lost, and [me]'s lease is as it was. *)
Lemma others_effect me b b' :
  good spoilt n ones b → others svc dh spoilt me b b' →
  good spoilt n ones b' ∧ IdentityStore.keeps (Identity.db (b_identity b)) (Identity.db (b_identity b')) ∧
  ∀ ip, leased b me ip ↔ leased b' me ip.
Proof.
  intros Hg Ho. revert Hg. induction Ho as [b|b1 b2 b3 (l & Hl & Hs) _ IH]; intros Hg; [split; [done|]; split; [reflexivity|done]|].
  destruct (step_effect _ _ _ Hg Hs) as [Hg2 Hr2 Hl2]. destruct (IH Hg2) as (Hg3 & Hr3 & Hme).
  split; [done|]. split; [etrans; eassumption|]. intros ip. rewrite <- (Hme ip). by apply Hl2.
Qed.

(** *** What the invariant says *)

Lemma registered_keeps b b' node key :
  IdentityStore.keeps (Identity.db (b_identity b)) (Identity.db (b_identity b')) →
  registered b node key → registered b' node key.
Proof.
  intros Hk (row & Hr & Hid & Hkey). apply (IdentityStore.keeps_nodes _ _ Hk) in Hr as (row' & Hr' & Hi & Hp).
  exists row'. split; [done|]. split; congruence.
Qed.

Lemma registered_once b n1 k1 n2 k2 : good spoilt n ones b → registered b n1 k1 → registered b n2 k2 → n1 = n2 ↔ k1 = k2.
Proof.
  intros [[Hids Hkeys _ _] _ _] (r1 & Hr1 & <- & <-) (r2 & Hr2 & <- & <-).
  split; intros Heq; [rewrite (Hids r1 r2)|rewrite (Hkeys r1 r2)]; done.
Qed.

Lemma leased_once b n1 n2 ip : good spoilt n ones b → ip ∉ spoilt → leased b n1 ip → leased b n2 ip → n1 = n2.
Proof.
  intros [_ _ (t & Hs & Ht)] Hip Hl1 Hl2. rewrite (leased_table _ _ _ _ Hs) in Hl1. rewrite (leased_table _ _ _ _ Hs) in Hl2.
  by eapply (Allocator.lease_inj _ _ _ _ Ht).
Qed.

Lemma leased_address b node ip : good spoilt n ones b → leased b node ip →
  ip ≠ Allocator.Gateway (Allocator.allocator_of n) ∧
  ∃ x, ip = IP_String (ip4 x) ∧ Contains n (ip4 x) = true.
Proof.
  intros [_ _ (t & Hs & Ht)] Hl. rewrite (leased_table _ _ _ _ Hs) in Hl.
  pose proof (Allocator.lease_assignable _ _ _ _ Ht _ _ Hl) as Ha.
  split; [by eapply Allocator.gateway_not_assignable|]. destruct Ha as (y & -> & _ & Hin). exists y. split; [done|].
  apply (Allocator.Contains_ip4 n ones Hn y); [|done]. by eapply Allocator.in_net_range.
Qed.
(** Together *)
Lemma good_says b : good spoilt n ones b →
  (∀ n1 n2 ip, leased b n1 ip → leased b n2 ip → n1 = n2 ∨ ip ∈ spoilt) ∧
  (∀ node ip, leased b node ip →
     ip ≠ Allocator.Gateway (Allocator.allocator_of n) ∧ ∃ x, ip = IP_String (ip4 x) ∧ Contains n (ip4 x) = true) ∧
  (∀ n1 k1 n2 k2, registered b n1 k1 → registered b n2 k2 → n1 = n2 ↔ k1 = k2).
Proof.
  intros Hg. split_and!; [|intros *; by apply leased_address|intros *; by apply registered_once].
  intros n1 n2 ip H1' H2'. destruct (decide (ip ∈ spoilt)); [by right|left]. by eapply leased_once.
Qed.
End effects.

(** ** One Redis server for two services *)

Section sharing.
Context `{Identity.JWT} (svc : Identity.IdentityService) (dh : Discovery.DiscoveryHandler).
Context `{Registry.PeerJSON} `{Net6} `{RedisLaws R} `{Clock R}.
#[local] Instance sharing_tokens : TokenService Identity.World := tokens svc.

(** The calls to the two services, and the clean-up that the discovery service runs besides them *)
Inductive discovery_call : relation (Backend R) :=
| call_register ctx req b b' r : on_discovery (Discovery.RegisterPeer dh ctx req) b = (b', r) → discovery_call b b'
| call_list ctx req b b' r : on_discovery (Discovery.ListPeers dh ctx req) b = (b', r) → discovery_call b b'
| call_heartbeat ctx req b b' r : on_discovery (Discovery.Heartbeat dh ctx req) b = (b', r) → discovery_call b b'
| call_cleanup b s r :
    Registry.CleanupStale (Discovery.registry dh) (b_redis b) = (s, r) → discovery_call b (set_redis s b).
Inductive config_call : relation (Backend R) :=
| call_get_config ctx req b b' r : on_config (ConfigService.GetConfig ctx req) b = (b', r) → config_call b b'
| call_request ctx req b b' r : on_config (ConfigService.RequestIP ctx req) b = (b', r) → config_call b b'
| call_release ctx req b b' r : on_config (ConfigService.ReleaseIP ctx req) b = (b', r) → config_call b b'.

(** C21: The config service and the discovery service use one Redis server and do not disturb each other: whatever commands
    fail, a call or clean-up of the one changes no lease, and a call of the other changes no peer's record. *)
Theorem services_share_redis b b' :
  (discovery_call b b' → ∀ t, Allocator.sees (b_redis b) t → Allocator.sees (b_redis b') t) ∧
  (config_call b b' → ∀ node, Registry.spares node (b_redis b) (b_redis b')).
Proof.
  split.
  - intros [ctx req ? ? r Hr|ctx req ? ? r Hr|ctx req ? ? r Hr|? s r Hr] t;
      try (apply on_discovery_inv in Hr as (st & Hr & ->)); apply sees_records.
    + by eapply RegisterPeer_rel in Hr as [_ Hr].
    + by eapply ListPeers_rel in Hr as [_ Hr].
    + by eapply Heartbeat_rel in Hr as [_ Hr].
    + by eapply CleanupStale_only.
  - intros [ctx req ? ? r Hr|ctx req ? ? r Hr|ctx req ? ? r Hr] node;
      apply on_config_inv in Hr as (st & Hr & ->); apply spares_leases.
    + by eapply GetConfig_rel in Hr as (_ & _ & Hr).
    + by eapply RequestIP_rel in Hr as (_ & _ & Hr).
    + by eapply ReleaseIP_rel in Hr as (_ & _ & Hr).
Qed.

(** Whatever calls, failures, reloads, clean-ups and waits the services have seen since they were set up, no two nodes
    hold the same address unless it was spoilt, every address held lies in the network and is not the gateway, and nodes
    and public keys correspond one to one. *)
Theorem backend_invariant spoilt n ones (b b' : Backend R) :
  cidr_net ones n → (1 ≤ ones)%nat → set_up n b → rtc (λ b b', ∃ l, step svc dh spoilt l b b') b b' →
  (∀ n1 n2 ip, leased b' n1 ip → leased b' n2 ip → n1 = n2 ∨ ip ∈ spoilt) ∧
  (∀ node ip, leased b' node ip →
     ip ≠ Allocator.Gateway (Allocator.allocator_of n) ∧ ∃ x, ip = IP_String (ip4 x) ∧ Contains n (ip4 x) = true) ∧
  (∀ n1 k1 n2 k2, registered b' n1 k1 → registered b' n2 k2 → n1 = n2 ↔ k1 = k2).
Proof.
  intros Hn Hones Hb Hr. apply (set_up_good spoilt n ones) in Hb.
  assert (good spoilt n ones b') as Hg.
  { induction Hr as [|b1 b2 b3 (l & Hs) _ IH]; [done|]. apply IH. by eapply step_effect. }
  by apply (good_says spoilt n ones).
Qed.
End sharing.
