(* ===== verification/Bridge.v ===== *)
(** services/agent/internal/p2p/bridge.go: packets between WireGuard and libp2p streams.

    Each peer has a relay: a local UDP port WireGuard sends to, and a stream to the peer. [b.mu]
    protects the table of relays; a relay is shared with the goroutines that serve it, so relays
    live in a store and the table holds references. Every section that holds the lock is one definition
    (a step); what other goroutines do in between is explicit. *)

From S2P Require Import Prelude GoInt.

(** ** Frames *)

Definition bytes : Type := list Z.

(** The two bytes of [binary.BigEndian.PutUint16], of [uint16(len(data))] *)
Definition header (n : Z) : bytes := [n / 256 mod 256; n mod 256].

(** [w.Write] is the argument [write]. *)
Definition writePacket {W} (write : bytes → M W unit) (data : bytes) : M W unit :=
  let! _ := write (header (Z.of_nat (length data))) in write data.

Definition EOF : error := LibErr "EOF".
Definition UnexpectedEOF : error := LibErr "unexpected EOF".

(** [io.ReadFull] of [n] bytes from what is left of a stream *)
Definition ReadFull (n : nat) : M bytes bytes := λ s,
  if (n <=? length s)%nat then (drop n s, Ok (take n s))
  else ([], Err (if Nat.eqb (length s) 0 then EOF else UnexpectedEOF)).

Definition readPacket : M bytes bytes :=
  let! h := ReadFull 2 in
  match h with
  | [hi; lo] => ReadFull (Z.to_nat (hi * 256 + lo))
  | _ => throw UnexpectedEOF
  end.

(** [streamToUDP]'s loop: the packets it delivers until the stream ends, with the
    error that ended it. A packet takes at least two bytes: the length bounds the rounds. *)
Fixpoint read_packets (fuel : nat) (s : bytes) : list bytes * error :=
  match fuel with
  | O => ([], LibErr "out of fuel")
  | S fuel' =>
      match readPacket s with
      | (s', Ok pkt) => let '(pkts, e) := read_packets fuel' s' in (pkt :: pkts, e)
      | (_, Err e) => ([], e)
      end
  end.
Definition streamToUDP (s : bytes) : list bytes * error := read_packets (S (length s)) s.

(** A stream that takes every byte. *)
Definition pipe_write (data : bytes) : M bytes unit := λ s, (s ++ data, Ok tt).

(** What [udpToStream] sends for the packets it reads; its buffer has 65535 bytes. *)
Fixpoint udpToStream (pkts : list bytes) : M bytes unit :=
  match pkts with
  | [] => ret tt
  | p :: ps => let! _ := writePacket pipe_write p in udpToStream ps
  end.

Definition frame (data : bytes) : bytes := header (Z.of_nat (length data)) ++ data.
Definition max_packet : nat := Z.to_nat 65535.

Lemma writePacket_pipe data s : writePacket pipe_write data s = (s ++ frame data, Ok tt).
Proof. unfold writePacket, bind, pipe_write, frame. by rewrite app_assoc. Qed.

Lemma udpToStream_frames pkts s : udpToStream pkts s = (s ++ concat (map frame pkts), Ok tt).
Proof.
  revert s. induction pkts as [|p ps IH]; intros s; cbn [udpToStream map concat].
  - by rewrite app_nil_r.
  - rewrite (bind_ok _ _ _ _ _ (writePacket_pipe p s)), IH. by rewrite app_assoc.
Qed.

Lemma header_value n : 0 ≤ n ≤ 65535 → n / 256 mod 256 * 256 + n mod 256 = n.
Proof.
  intros Hn. rewrite (Z.mod_small (n / 256)); [|split; [apply Z.div_pos|apply Z.div_lt_upper_bound]; lia].
  rewrite (Z.div_mod n 256) at 3 by lia. lia.
Qed.

(** *** Reading a frame back, whole or cut short *)

Lemma readPacket_frame data rest :
  (length data ≤ max_packet)%nat → readPacket (frame data ++ rest) = (rest, Ok data).
Proof.
  intros Hl. unfold max_packet in Hl. unfold frame, header. set (n := Z.of_nat (length data)).
  unfold readPacket, ReadFull, bind. simpl.
  rewrite header_value by lia. unfold n. rewrite Nat2Z.id. rewrite drop_0.
  destruct (Nat.leb_spec (length data) (length (data ++ rest))) as [_|H]; [|rewrite length_app in H; lia].
  by rewrite drop_app_length, take_app_length.
Qed.

Lemma readPacket_cut data k :
  (length data ≤ max_packet)%nat → (k < length (frame data))%nat →
  ∃ s e, readPacket (take k (frame data)) = (s, Err e).
Proof.
  intros Hl Hk. unfold max_packet in Hl. unfold frame, header in *. simpl in Hk.
  set (n := Z.of_nat (length data)) in *.
  destruct k as [|[|k]]; [by eexists _, _..|].
  unfold readPacket, ReadFull, bind. simpl. rewrite header_value by lia. unfold n. rewrite Nat2Z.id. rewrite drop_0.
  rewrite length_take_le by lia.
  destruct (Nat.leb_spec (length data) k) as [H|_]; [lia|]. by eexists _, _.
Qed.

Lemma length_frame data : length (frame data) = (2 + length data)%nat.
Proof. done. Qed.

Lemma read_packets_cut fuel pkts k :
  Forall (λ p, (length p ≤ max_packet)%nat) pkts → (k < fuel)%nat →
  ∃ n e, read_packets fuel (take k (concat (map frame pkts))) = (take n pkts, e) ∧
    ((length (concat (map frame pkts)) ≤ k)%nat → n = length pkts ∧ e = EOF).
Proof.
  intros Hp. revert fuel k. induction Hp as [|p ps Hp _ IH]; intros fuel k Hk; cbn [map concat].
  { exists 0%nat, EOF. rewrite take_nil. destruct fuel as [|fuel]; [lia|]. done. }
  destruct fuel as [|fuel]; [lia|]. cbn [read_packets].
  destruct (decide (length (frame p) ≤ k)%nat) as [Hle|Hlt].
  - rewrite take_app_ge, readPacket_frame by done. rewrite length_frame in *.
    destruct (IH fuel (k - (2 + length p))%nat ltac:(lia)) as (n & e & -> & Hfull).
    exists (S n), e. split; [done|]. rewrite length_app, length_frame. intros Hall.
    destruct Hfull as [-> ->]; [lia|done].
  - rewrite take_app_le by lia. destruct (readPacket_cut p k Hp ltac:(lia)) as (s & e & ->).
    exists 0%nat, e. split; [done|]. rewrite length_app, length_frame in *. lia.
Qed.

(** ** Relays *)

(** A peer.ID and a stream, by name *)
Definition PeerID : Type := string.
Definition Stream : Type := nat.

Record peerRelay : Type := {
  proxyPort : Z;
  stream : option Stream;
  closed : bool;           (* cancel() and proxyConn.Close() have run *)
}.

(** [relays] is the store; [peers] maps an id to its relay's place in it. [reset] are the
    streams that were reset or closed. *)
Record Bridge : Type := {
  wgPort : Z;
  nextPort : Z;
  relays : list peerRelay;
  peers : gmap PeerID nat;
  reset : list Stream;
}.

Definition NewBridge (wgPort baseProxyPort : Z) : Bridge :=
  {| wgPort := wgPort; nextPort := baseProxyPort; relays := []; peers := ∅; reset := [] |}.

Definition set_stream (s : option Stream) (r : peerRelay) : peerRelay :=
  {| proxyPort := proxyPort r; stream := s; closed := closed r |}.
Definition close_relay (r : peerRelay) : peerRelay :=
  {| proxyPort := proxyPort r; stream := stream r; closed := true |}.

Definition relay_of (b : Bridge) (p : PeerID) : option peerRelay :=
  match peers b !! p with Some ref => relays b !! ref | None => None end.

(** [relay.stream.Reset(); relay.stream = s] for the relay at [ref] *)
Definition attach (ref : nat) (s : Stream) (b : Bridge) : Bridge :=
  {| wgPort := wgPort b; nextPort := nextPort b;
     relays := alter (set_stream (Some s)) ref (relays b); peers := peers b;
     reset := match relays b !! ref with
              | Some r => match stream r with Some old => old :: reset b | None => reset b end
              | None => reset b
              end |}.

Definition listen_error : error := Errorf "bridge: failed to listen on UDP".

(** A new relay for [p] on the next port, where [listens] says whether net.ListenUDP succeeds. The
    port is used up in either case. *)
Definition new_relay (p : PeerID) (s : option Stream) (listens : bool) : M Bridge Z := λ b,
  let port := nextPort b in
  if listens then
    ({| wgPort := wgPort b; nextPort := port + 1;
        relays := relays b ++ [{| proxyPort := port; stream := s; closed := false |}];
        peers := <[p := length (relays b)]> (peers b); reset := reset b |}, Ok port)
  else
    ({| wgPort := wgPort b; nextPort := port + 1; relays := relays b; peers := peers b; reset := reset b |},
     Err listen_error).

(** One critical section *)
Definition allocateRelayNoStream (p : PeerID) (listens : bool) : M Bridge Z := new_relay p None listens.

(** One critical section *)
Definition allocateRelay (p : PeerID) (s : Stream) (listens : bool) : M Bridge Z := λ b,
  match peers b !! p with
  | Some ref =>
      (attach ref s b, Ok (match relays b !! ref with Some r => proxyPort r | None => 0 end))
  | None => new_relay p (Some s) listens b
  end.

(** [RegisterIncoming]'s handler: the first critical section; [true] when it is done with the stream. *)
Definition incoming_first (p : PeerID) (s : Stream) (b : Bridge) : Bridge * bool :=
  match peers b !! p with
  | Some ref =>
      match relays b !! ref with
      | Some r => if stream r then (attach ref s b, true) else (b, false)
      | None => (b, false)
      end
  | None => (b, false)
  end.

(** A failed allocateRelay resets the stream. *)
Definition reset_stream (s : Stream) (b : Bridge) : Bridge :=
  {| wgPort := wgPort b; nextPort := nextPort b; relays := relays b; peers := peers b; reset := s :: reset b |}.

Definition incoming (p : PeerID) (s : Stream) (listens : bool) (b : Bridge) : Bridge :=
  match incoming_first p s b with
  | (b', true) => b'
  | (b', false) =>
      match allocateRelay p s listens b' with
      | (b'', Ok _) => b''
      | (b'', Err _) => reset_stream s b''
      end
  end.

(** [host.ID() < peerID]: the side that waits for the other's stream *)
Definition waits (self p : PeerID) : bool :=
  match String.compare self p with Lt => true | _ => false end.

(** [AddPeer] on the waiting side: the first critical section looks the relay up. *)
Definition AddPeer_lookup (p : PeerID) (b : Bridge) : option Z := proxyPort <$> relay_of b p.

(** [AddPeer], with nothing in between its sections. [NewStream] is the outcome of opening a stream. *)
Definition AddPeer (self p : PeerID) (NewStream : res Stream) (listens : bool) : M Bridge Z := λ b,
  if waits self p then
    match AddPeer_lookup p b with
    | Some port => (b, Ok port)
    | None => allocateRelayNoStream p listens b
    end
  else
    match NewStream with
    | Err e => (b, Err (Wrapf "bridge: stream failed" e))
    | Ok s =>
        match allocateRelay p s listens b with
        | (b', Ok port) => (b', Ok port)
        | (b', Err e) => (reset_stream s b', Err e)
        end
    end.

Definition RemovePeer (p : PeerID) (b : Bridge) : Bridge :=
  match peers b !! p with
  | None => b
  | Some ref =>
      {| wgPort := wgPort b; nextPort := nextPort b; relays := alter close_relay ref (relays b);
         peers := delete p (peers b);
         reset := match relays b !! ref with
                  | Some r => match stream r with Some s => s :: reset b | None => reset b end
                  | None => reset b
                  end |}
  end.

Definition GetProxyPort (p : PeerID) (b : Bridge) : option Z := proxyPort <$> relay_of b p.

Definition Close (b : Bridge) : Bridge :=
  let refs := (map_to_list (peers b)).*2 in
  {| wgPort := wgPort b; nextPort := nextPort b;
     relays := foldr (alter close_relay) (relays b) refs; peers := ∅;
     reset := omap (λ ref, relays b !! ref ≫= stream) refs ++ reset b |}.

(** A packet WireGuard sends to a relay's port: the stream it goes to, if the relay has one. *)
Definition udp_packet (ref : nat) (data : bytes) (b : Bridge) : option (Stream * bytes) :=
  match relays b !! ref with
  | Some r => if closed r then None else (λ s, (s, frame data)) <$> stream r
  | None => None
  end.

(** ** Any interleaving *)

(** The goroutines' critical sections, in any order. *)
Inductive bridge_step : Bridge → Bridge → Prop :=
| step_incoming_first b p s : bridge_step b (incoming_first p s b).1
| step_allocate b p s ok : bridge_step b (allocateRelay p s ok b).1
| step_allocate_no_stream b p ok : bridge_step b (allocateRelayNoStream p ok b).1
| step_reset b s : bridge_step b (reset_stream s b)
| step_remove b p : bridge_step b (RemovePeer p b)
| step_close b : bridge_step b (Close b).

(** Ports are given out once, in order; the table points at relays, one each. *)
Record bridge_ok (base : Z) (b : Bridge) : Prop := {
  ok_base : base ≤ nextPort b;
  ok_sorted i j r r' : relays b !! i = Some r → relays b !! j = Some r' → (i < j)%nat →
    proxyPort r < proxyPort r';
  ok_range i r : relays b !! i = Some r → base ≤ proxyPort r < nextPort b;
  ok_refs p ref : peers b !! p = Some ref → is_Some (relays b !! ref);
  ok_inj p q ref : peers b !! p = Some ref → peers b !! q = Some ref → p = q;
}.

Lemma NewBridge_ok wg base : bridge_ok base (NewBridge wg base).
Proof. split; simpl; try done; intros *; rewrite ?lookup_nil, ?lookup_empty; done. Qed.

(** Changing relays without their ports keeps the invariant. *)
Definition same_ports (l l' : list peerRelay) : Prop := map proxyPort l = map proxyPort l'.

Lemma same_ports_alter f ref l : (∀ r, proxyPort (f r) = proxyPort r) → same_ports l (alter f ref l).
Proof.
  intros Hf. unfold same_ports. revert ref.
  induction l as [|r l IH]; intros [|ref]; simpl; [done..| |]; [by rewrite Hf|]. f_equal. apply IH.
Qed.

Lemma same_ports_lookup l l' i r' :
  same_ports l l' → l' !! i = Some r' → ∃ r, l !! i = Some r ∧ proxyPort r = proxyPort r'.
Proof.
  intros E Hi. assert (map proxyPort l !! i = Some (proxyPort r')) as Hm.
  { rewrite E, list_lookup_fmap, Hi. done. }
  rewrite list_lookup_fmap in Hm. destruct (l !! i) as [r|]; simpl in Hm; [|done]. exists r. naive_solver.
Qed.

Lemma ok_change base b b' :
  bridge_ok base b → nextPort b' = nextPort b → same_ports (relays b) (relays b') →
  peers b' ⊆ peers b → bridge_ok base b'.
Proof.
  intros [B S R F I] En Es Ep. rewrite map_subseteq_spec in Ep. split.
  - by rewrite En.
  - intros i j r r' Hi Hj Hij.
    destruct (same_ports_lookup _ _ _ _ Es Hi) as (u & Hu & <-).
    destruct (same_ports_lookup _ _ _ _ Es Hj) as (v & Hv & <-). by eapply S.
  - intros i r Hi. destruct (same_ports_lookup _ _ _ _ Es Hi) as (u & Hu & <-). rewrite En. by eapply R.
  - intros p ref Hp. apply Ep, F in Hp. apply lookup_lt_is_Some in Hp. apply lookup_lt_is_Some.
    rewrite <- (length_fmap proxyPort (relays b')). unfold same_ports in Es.
    change (proxyPort <$> relays b') with (map proxyPort (relays b')). rewrite <- Es. by rewrite length_map.
  - intros p q ref Hp%Ep Hq%Ep. by eapply I.
Qed.

Lemma new_relay_ok base p s ok b : bridge_ok base b → bridge_ok base (new_relay p s ok b).1.
Proof.
  intros [B S R F I]. unfold new_relay. destruct ok; simpl.
  - set (r0 := {| proxyPort := nextPort b; stream := s; closed := false |}).
    assert (∀ i r, (relays b ++ [r0]) !! i = Some r →
      (i < length (relays b))%nat ∧ relays b !! i = Some r ∨ i = length (relays b) ∧ r = r0) as Hl.
    { intros i r [Hi|[Hge Hi]]%lookup_app_Some.
      - left. split; [by eapply lookup_lt_Some|done].
      - right. destruct (i - length (relays b))%nat eqn:E; [|done]. simpl in Hi. split; [lia|congruence]. }
    split; simpl; [lia| | | |].
    + intros i j r r' Hi Hj Hij.
      apply Hl in Hi as [[Hi1 Hi]|[-> ->]]; apply Hl in Hj as [[Hj1 Hj]|[-> ->]]; try lia.
      * by eapply S.
      * apply R in Hi. simpl. lia.
    + intros i r [[_ Hi]|[-> ->]]%Hl; [apply R in Hi; lia|simpl; lia].
    + intros q ref [[<- <-]|[Hne Hq]]%lookup_insert_Some.
      * rewrite lookup_app_r by lia. by rewrite Nat.sub_diag.
      * apply F in Hq. apply lookup_lt_is_Some in Hq. apply lookup_lt_is_Some. rewrite length_app. simpl. lia.
    + intros q q' ref [[<- <-]|[Hne Hq]]%lookup_insert_Some [[Eq' Eref]|[Hne' Hq']]%lookup_insert_Some.
      * done.
      * apply F, lookup_lt_is_Some in Hq'. lia.
      * subst. apply F, lookup_lt_is_Some in Hq. lia.
      * by eapply I.
  - split; simpl; [lia|done| |done..]. intros i r Hi. apply R in Hi. lia.
Qed.

Lemma attach_ok base ref s b : bridge_ok base b → bridge_ok base (attach ref s b).
Proof.
  intros Hb. apply (ok_change base b); [done|done| |done]. by apply same_ports_alter.
Qed.

Lemma same_ports_foldr refs l : same_ports l (foldr (alter close_relay) l refs).
Proof.
  induction refs as [|ref refs IH]; simpl; [done|]. unfold same_ports in *. rewrite IH.
  by apply same_ports_alter.
Qed.

Lemma bridge_step_ok base b b' : bridge_step b b' → bridge_ok base b → bridge_ok base b'.
Proof.
  intros [c p s|c p s ok|c p ok|c s|c p|c] Hb.
  - unfold incoming_first. repeat case_match; simpl; try done. by apply attach_ok.
  - unfold allocateRelay. case_match; simpl; [by apply attach_ok|by apply new_relay_ok].
  - by apply new_relay_ok.
  - by apply (ok_change base c).
  - unfold RemovePeer. case_match; [|done]. apply (ok_change base c); [done|done| |apply delete_subseteq].
    by apply same_ports_alter.
  - apply (ok_change base c); [done|done|apply same_ports_foldr|apply map_empty_subseteq].
Qed.

Lemma bridge_rtc_ok base b b' : rtc bridge_step b b' → bridge_ok base b → bridge_ok base b'.
Proof. induction 1; eauto using bridge_step_ok. Qed.

(** Ports tell the relays of the table apart. *)
Lemma ports_inj base b p q x : bridge_ok base b → GetProxyPort p b = Some x → GetProxyPort q b = Some x →
  p = q ∧ base ≤ x < nextPort b.
Proof.
  intros [_ S R F I] Hp Hq. unfold GetProxyPort, relay_of in *.
  destruct (peers b !! p) as [i|] eqn:Ei; [|done]. destruct (peers b !! q) as [j|] eqn:Ej; [|done].
  destruct (relays b !! i) as [r|] eqn:Er; [|done]. destruct (relays b !! j) as [r'|] eqn:Er'; [|done].
  simpl in *. injection Hp as <-. injection Hq as Hx. split; [|by eapply R].
  assert (i = j) as ->; [|by eapply I].
  destruct (Nat.lt_trichotomy i j) as [Hij|[Hij|Hij]]; [|done|].
  - pose proof (S _ _ _ _ Er Er' Hij). lia.
  - pose proof (S _ _ _ _ Er' Er Hij). lia.
Qed.

(** ** Properties *)

(** The relays carry packets faithfully. Of the packets sent down a stream (each at most the 65535
    bytes of the buffer), the far end delivers exactly a prefix, whatever number [k] of bytes
    arrives before the stream ends: never a part of a packet, never two as one; and all of them, with a
    clean end of stream, when every byte arrives. *)
Theorem relay_stream_faithful pkts s k :
  Forall (λ p, (length p ≤ max_packet)%nat) pkts → udpToStream pkts [] = (s, Ok tt) →
  ∃ n e, streamToUDP (take k s) = (take n pkts, e) ∧
         ((length s ≤ k)%nat → n = length pkts ∧ e = EOF).
Proof.
  intros Hp Hs. rewrite udpToStream_frames in Hs. injection Hs as <-.
  set (s := concat (map frame pkts)). unfold streamToUDP.
  destruct (decide (k ≤ length s)%nat) as [Hk|Hk].
  - rewrite length_take_le by lia. apply (read_packets_cut (S k) pkts k Hp). lia.
  - rewrite take_ge by lia.
    destruct (read_packets_cut (S (length s)) pkts (length s) Hp ltac:(lia)) as (n & e & E & Hfull).
    exists n, e. fold s in E. rewrite take_ge in E by lia. split; [done|]. intros _. by apply Hfull.
Qed.

(** Whatever the goroutines do, in any order, no two peers share a proxy port, and every proxy port is one
    given out from the base port on, so none is WireGuard's own port below it. *)
Theorem proxy_ports_distinct wg base b p q x :
  rtc bridge_step (NewBridge wg base) b →
  GetProxyPort p b = Some x → GetProxyPort q b = Some x → p = q ∧ base ≤ x < nextPort b.
Proof.
  intros Hr. eapply ports_inj, bridge_rtc_ok, NewBridge_ok. exact Hr.
Qed.

(** A relay that WireGuard reaches at [port] and that carries the stream [s] *)
Definition bridged (port : Z) (s : Stream) : peerRelay := {| proxyPort := port; stream := Some s; closed := false |}.

Lemma bridged_packet b p port s data : relay_of b p = Some (bridged port s) →
  GetProxyPort p b = Some port ∧ ∃ ref, peers b !! p = Some ref ∧ udp_packet ref data b = Some (s, frame data).
Proof.
  unfold GetProxyPort, relay_of, udp_packet. destruct (peers b !! p) as [ref|]; [|by intros [=]]. intros E. rewrite E.
  split; [done|]. exists ref. by rewrite E.
Qed.

Lemma relay_of_new p r b :
  relay_of {| wgPort := wgPort b; nextPort := nextPort b + 1; relays := relays b ++ [r];
              peers := <[p := length (relays b)]> (peers b); reset := reset b |} p = Some r.
Proof. unfold relay_of. simpl. rewrite lookup_insert, decide_True by done. by apply list_lookup_middle. Qed.

(** The side that opens the stream has a relay for it. *)
Lemma initiating_side_relay self p s b b' port :
  waits self p = false → peers b !! p = None → AddPeer self p (Ok s) true b = (b', Ok port) →
  relay_of b' p = Some (bridged port s).
Proof.
  unfold AddPeer, allocateRelay. intros -> -> Ha. simpl in Ha. injection Ha as <- <-. apply relay_of_new.
Qed.

(** On the side that waits for it, AddPeer and the incoming stream make the same relay in either order. *)
Lemma waiting_side_relay base self p s b b1 b2 port :
  bridge_ok base b → waits self p = true → peers b !! p = None →
  (AddPeer self p (Err EOF) true b = (b1, Ok port) ∧ b2 = incoming p s true b1 ∨
   b1 = incoming p s true b ∧ AddPeer self p (Err EOF) true b1 = (b2, Ok port)) →
  relay_of b2 p = Some (bridged port s).
Proof.
  intros Hb Hw Hp Horder.
  assert (AddPeer_lookup p b = None) as Hlook by (unfold AddPeer_lookup, relay_of; by rewrite Hp).
  destruct Horder as [[Ha ->]|[-> Ha]]; unfold AddPeer in Ha; rewrite Hw in Ha.
  - rewrite Hlook in Ha. injection Ha as <- <-. unfold incoming, incoming_first, allocateRelay. simpl.
    rewrite lookup_insert, decide_True by done. rewrite list_lookup_middle by done. simpl.
    rewrite lookup_insert, decide_True by done. unfold relay_of. simpl. rewrite lookup_insert, decide_True by done.
    by rewrite list_lookup_alter_eq, list_lookup_middle.
  - unfold incoming, incoming_first in *. rewrite Hp in *. unfold allocateRelay in *. rewrite Hp in *.
    unfold AddPeer_lookup in Ha. simpl in Ha. rewrite relay_of_new in Ha. injection Ha as <- <-. apply relay_of_new.
Qed.

(** So the port AddPeer returns leads to the stream. *)
Theorem waiting_side_bridged base self p s b b1 b2 port data :
  bridge_ok base b → waits self p = true → peers b !! p = None →
  (AddPeer self p (Err EOF) true b = (b1, Ok port) ∧ b2 = incoming p s true b1 ∨
   b1 = incoming p s true b ∧ AddPeer self p (Err EOF) true b1 = (b2, Ok port)) →
  GetProxyPort p b2 = Some port ∧
  ∃ ref, peers b2 !! p = Some ref ∧ udp_packet ref data b2 = Some (s, frame data).
Proof. intros Hb Hw Hp Horder. by eapply bridged_packet, waiting_side_relay. Qed.

(** AddPeer unlocks between its look-up and its allocation. If the peer's stream arrives in between,
    the allocation overwrites the relay that has the stream: AddPeer returns the port of a relay without one,
    WireGuard's packets to that port are dropped, and the relay with the stream is in no table
    entry any more, so nothing closes it. *)
Theorem AddPeer_races_incoming base p s b b1 b2 port data :
  bridge_ok base b → AddPeer_lookup p b = None →
  b1 = incoming p s true b → allocateRelayNoStream p true b1 = (b2, Ok port) →
  GetProxyPort p b2 = Some port ∧
  (∃ ref, peers b2 !! p = Some ref ∧ udp_packet ref data b2 = None) ∧
  (∃ orphan r, relays b2 !! orphan = Some r ∧ stream r = Some s ∧ closed r = false ∧
     ∀ q, peers b2 !! q ≠ Some orphan).
Proof.
  intros Hb Hlook -> Ha.
  assert (peers b !! p = None) as Hp.
  { unfold AddPeer_lookup, relay_of in Hlook. destruct (peers b !! p) as [ref|] eqn:E; [|done].
    destruct (ok_refs _ _ Hb _ _ E) as [r Er]. by rewrite Er in Hlook. }
  unfold incoming, incoming_first, allocateRelay in Ha. rewrite Hp in Ha.
  simpl in Ha. rewrite Hp in Ha. simpl in Ha. injection Ha as <- <-.
  unfold GetProxyPort, relay_of. simpl. rewrite !lookup_insert, !decide_True by done.
  rewrite lookup_app_r by lia. rewrite Nat.sub_diag. simpl. split; [done|]. split.
  - eexists. split; [done|]. unfold udp_packet. simpl. rewrite lookup_app_r by lia. by rewrite Nat.sub_diag.
  - exists (length (relays b)). eexists. split; [|split; [|split]].
    + rewrite lookup_app_l by (rewrite length_app; simpl; lia).
      rewrite lookup_app_r by lia. by rewrite Nat.sub_diag.
    + done.
    + done.
    + intros q. rewrite !lookup_insert. case_decide; [rewrite length_app; simpl; intros [=]; lia|].
      intros Hq. apply (ok_refs _ _ Hb), lookup_lt_is_Some in Hq. lia.
Qed.

(** Of two hosts exactly one opens the stream. *)
Theorem one_side_initiates self p : self ≠ p → waits self p = negb (waits p self).
Proof.
  intros Hne. unfold waits. rewrite (String.compare_antisym p self).
  destruct (String.compare self p) eqn:E; [|done..].
  by apply String.compare_eq_iff in E.
Qed.

(** ** Witnesses *)

Definition pkt1 : bytes := [1; 2; 3].
Definition pkt2 : bytes := [4].

Lemma relay_stream_faithful_witness :
  ∃ n e, streamToUDP (take 6 [0; 3; 1; 2; 3; 0; 1; 4]) = (take n [pkt1; pkt2], e).
Proof.
  destruct (relay_stream_faithful [pkt1; pkt2] [0; 3; 1; 2; 3; 0; 1; 4] 6) as (n & e & E & _).
  - apply Forall_cons; split; [|apply Forall_cons; split; [|constructor]];
      unfold max_packet; cbn [length pkt1 pkt2]; lia.
  - vm_compute. reflexivity.
  - exists n, e. exact E.
Defined.

Definition bridge0 : Bridge := NewBridge 51820 51920.
Definition bridge1 : Bridge := (allocateRelay "x" 1%nat true bridge0).1.

Lemma proxy_ports_distinct_witness : GetProxyPort "x" bridge1 = Some 51920 ∧ 51920 ≤ 51920 < nextPort bridge1.
Proof.
  assert (GetProxyPort "x" bridge1 = Some 51920) as E by (vm_compute; reflexivity).
  split; [exact E|].
  apply (proxy_ports_distinct 51820 51920 bridge1 "x" "x" 51920); [|exact E|exact E].
  apply rtc_once. apply step_allocate.
Defined.

Lemma waiting_side_bridged_witness :
  GetProxyPort "x" (incoming "x" 7%nat true (AddPeer "a" "x" (Err EOF) true bridge0).1) = Some 51920.
Proof.
  refine (proj1 (waiting_side_bridged 51920 "a" "x" 7%nat bridge0 (AddPeer "a" "x" (Err EOF) true bridge0).1
    (incoming "x" 7%nat true (AddPeer "a" "x" (Err EOF) true bridge0).1) 51920 [] (NewBridge_ok _ _) _ _ _)).
  - vm_compute. reflexivity.
  - vm_compute. reflexivity.
  - left. split; [apply run_snd; vm_compute; reflexivity|reflexivity].
Defined.

Lemma AddPeer_races_incoming_witness :
  GetProxyPort "x" (allocateRelayNoStream "x" true (incoming "x" 7%nat true bridge0)).1 = Some 51921.
Proof.
  refine (proj1 (AddPeer_races_incoming 51920 "x" 7%nat bridge0 (incoming "x" 7%nat true bridge0) _ 51921 []
    (NewBridge_ok _ _) _ eq_refl _)).
  - vm_compute. reflexivity.
  - apply run_snd. vm_compute. reflexivity.
Defined.

Lemma one_side_initiates_witness : waits "a" "x" = negb (waits "x" "a").
Proof. apply (one_side_initiates "a" "x"). discriminate. Defined.
