(* ===== verification/WireGuard.v ===== *)
(** services/agent/internal/wireguard: keys, the interface's configuration file, and the wg commands.

    curve25519 is a function argument; the operating system's commands and files are the class
    [OS]. *)

From S2P Require Import Prelude GoInt GoStrings.
From Stdlib Require Import Ascii.
#[local] Open Scope Z_scope.

(** What the agent does to the machine it runs on: run a command, write and read files. *)
Class OS (W : Type) : Type := {
  run_command : string → list string → M W unit;
  write_file : string → string → M W unit;
  command_output : string → list string → M W string;
  read_file : string → M W string;
}.
#[export] Hint Mode OS + : typeclass_instances.

(** ** keygen.go *)

Definition set_byte (i : nat) (f : Z → Z) (key : list Z) : list Z := alter f i key.

(** WireGuard key clamping of the 32 bytes of a private key *)
Definition clamp (privateKey : list Z) : list Z :=
  set_byte 31 (λ b, Z.lor (Z.land b 127) 64) (set_byte 0 (λ b, Z.land b 248) privateKey).

(** base64.StdEncoding.EncodeToString *)
Definition base64_char (n : Z) : ascii :=
  ascii_of_nat (Z.to_nat
    (if n <? 26 then 65 + n
     else if n <? 52 then 97 + (n - 26)
     else if n <? 62 then 48 + (n - 52)
     else if n =? 62 then 43 else 47)).

Fixpoint EncodeToString (l : list Z) : string :=
  match l with
  | [] => EmptyString
  | [a] =>
      String (base64_char (a / 4)) (String (base64_char (a mod 4 * 16)) "==")
  | [a; b] =>
      String (base64_char (a / 4)) (String (base64_char (a mod 4 * 16 + b / 16))
        (String (base64_char (b mod 16 * 4)) "="))
  | a :: b :: c :: l' =>
      String (base64_char (a / 4)) (String (base64_char (a mod 4 * 16 + b / 16))
        (String (base64_char (b mod 16 * 4 + c / 64)) (String (base64_char (c mod 64)) (EncodeToString l'))))
  end.

Record KeyPair : Type := { PrivateKey : string; PublicKey : string }.

(** [random] is the outcome of rand.Read on 32 bytes. *)
Definition GenerateKeyPair (ScalarBaseMult : list Z → list Z) (random : res (list Z)) : res KeyPair :=
  match random with
  | Err e => Err (Wrapf "failed to generate private key" e)
  | Ok bytes =>
      let privateKey := clamp bytes in
      Ok {| PrivateKey := EncodeToString privateKey; PublicKey := EncodeToString (ScalarBaseMult privateKey) |}
  end.

(** ** wireguard.go *)

Record PeerConfig : Type := { pc_PublicKey : string; pc_Endpoint : string; pc_AllowedIPs : string }.

Record Config : Type := {
  cfg_PrivateKey : string;
  cfg_ListenPort : Z;
  cfg_Address : string;
  cfg_MTU : Z;
  cfg_DNS : string;
  cfg_Peers : list PeerConfig;
}.

Definition nl : string := String "010" EmptyString.

(** The template's range body for one peer *)
Definition render_peer (p : PeerConfig) : string :=
  "[Peer]" +:+ nl +:+
  "PublicKey = " +:+ pc_PublicKey p +:+ nl +:+
  "Endpoint = " +:+ pc_Endpoint p +:+ nl +:+
  "AllowedIPs = " +:+ pc_AllowedIPs p +:+ nl +:+
  "PersistentKeepalive = 25" +:+ nl +:+ nl.

(** [configTemplate] executed on a configuration *)
Definition render (cfg : Config) : string :=
  "[Interface]" +:+ nl +:+
  "PrivateKey = " +:+ cfg_PrivateKey cfg +:+ nl +:+
  "ListenPort = " +:+ Itoa (cfg_ListenPort cfg) +:+ nl +:+
  "Address = " +:+ cfg_Address cfg +:+ nl +:+
  "MTU = " +:+ Itoa (cfg_MTU cfg) +:+ nl +:+
  (if decide (cfg_DNS cfg = "") then "" else "DNS = " +:+ cfg_DNS cfg) +:+ nl +:+ nl +:+
  foldr (λ p rest, render_peer p +:+ rest) EmptyString (cfg_Peers cfg).

(** runtime.GOOS *)
Inductive Goos : Type := linux | darwin | windows | other_os (name : string).

Record Manager : Type := { iface : string; configDir : string; dryRun : bool; goos : Goos }.

(** [NewManager]: [userConfigDir] is the directory it could make under the user's configuration
    directory, if any. *)
Definition NewManager (os : Goos) (tempDir : string) (userConfigDir : option string) (dryRun : bool) : Manager :=
  {| iface := match os with windows => "gordion" | _ => "wg0" end;
     configDir := default tempDir userConfigDir; dryRun := dryRun; goos := os |}.

Definition configPath (m : Manager) : string := configDir m +:+ "/" +:+ iface m +:+ ".conf".

Section manager.
Context `{OS W} (m : Manager).

(** [fmt.Errorf("%s failed: %w\noutput: %s")] *)
Definition runCmd (name : string) (args : list string) : M W unit :=
  wrap_err (Wrapf (name +:+ " failed")) (run_command name args).

Definition runWG (args : list string) : M W unit := runCmd "wg" args.

Definition unsupported (os : string) : error := Errorf ("unsupported OS: " +:+ os).

Definition up (path : string) : M W unit :=
  match goos m with
  | linux | darwin => runCmd "wg-quick" ["up"; path]
  | windows => runCmd "wireguard" ["/installtunnelservice"; path]
  | other_os name => throw (unsupported name)
  end.

Definition Down : M W unit :=
  if dryRun m then ret tt
  else
    match goos m with
    | linux | darwin => runCmd "wg-quick" ["down"; configPath m]
    | windows => runCmd "wireguard" ["/uninstalltunnelservice"; iface m]
    | other_os name => throw (unsupported name)
    end.

Definition Configure (cfg : Config) : M W unit :=
  let! _ := wrap_err (Wrapf "config file create error") (write_file (configPath m) (render cfg)) in
  if dryRun m then ret tt else up (configPath m).

(** [s[:8]] in the arguments of a log call *)
Definition first8 (s : string) : M W string :=
  match slice_to s 8 with
  | Some t => ret t
  | None => throw (Panic "slice bounds out of range")
  end.

Definition AddPeer (peer : PeerConfig) : M W unit :=
  if dryRun m then let! _ := first8 (pc_PublicKey peer) in ret tt
  else
    runWG ["set"; iface m; "peer"; pc_PublicKey peer; "endpoint"; pc_Endpoint peer;
           "allowed-ips"; pc_AllowedIPs peer; "persistent-keepalive"; "25"].

Definition RemovePeer (publicKey : string) : M W unit :=
  if dryRun m then let! _ := first8 publicKey in ret tt
  else runWG ["set"; iface m; "peer"; publicKey; "remove"].
End manager.

(** ** Keys *)

(** A little-endian scalar *)
Fixpoint scalar (l : list Z) : Z :=
  match l with
  | [] => 0
  | b :: l' => b + 256 * scalar l'
  end.

Definition is_byte (b : Z) : Prop := 0 ≤ b < 256.

Lemma byte_cases (P : Z → bool) b :
  is_byte b → forallb (λ n, P (Z.of_nat n)) (seq 0 256) = true → P b = true.
Proof.
  intros Hb Hall. rewrite forallb_forall in Hall. unfold is_byte in Hb.
  specialize (Hall (Z.to_nat b)). rewrite Z2Nat.id in Hall by lia. apply Hall, in_seq. lia.
Qed.

Lemma clamp_low b : is_byte b → Z.land b 248 mod 8 = 0 ∧ 0 ≤ Z.land b 248 ≤ 248.
Proof.
  intros Hb. pose proof (byte_cases
    (λ b, (Z.land b 248 mod 8 =? 0) && (0 <=? Z.land b 248) && (Z.land b 248 <=? 248)) b Hb
    ltac:(vm_compute; reflexivity)) as H. cbv beta in H.
  rewrite !andb_true_iff, ?Z.eqb_eq, ?Z.leb_le in H. lia.
Qed.

Lemma clamp_high b : is_byte b →
  64 ≤ Z.lor (Z.land b 127) 64 ≤ 127 ∧ Z.lor (Z.land (Z.lor (Z.land b 127) 64) 127) 64 = Z.lor (Z.land b 127) 64.
Proof.
  intros Hb. pose proof (byte_cases
    (λ b, (64 <=? Z.lor (Z.land b 127) 64) && (Z.lor (Z.land b 127) 64 <=? 127) &&
          (Z.lor (Z.land (Z.lor (Z.land b 127) 64) 127) 64 =? Z.lor (Z.land b 127) 64)) b Hb
    ltac:(vm_compute; reflexivity)) as H. cbv beta in H.
  rewrite !andb_true_iff, ?Z.eqb_eq, ?Z.leb_le in H. lia.
Qed.

Lemma scalar_app l1 l2 : scalar (l1 ++ l2) = scalar l1 + 256 ^ Z.of_nat (length l1) * scalar l2.
Proof.
  induction l1 as [|b l1 IH]; simpl app; simpl scalar; simpl length; [lia|].
  rewrite IH, Nat2Z.inj_succ, Z.pow_succ_r by lia. lia.
Qed.

Lemma scalar_bound l : Forall is_byte l → 0 ≤ scalar l < 256 ^ Z.of_nat (length l).
Proof.
  induction 1 as [|b l Hb _ IH]; simpl scalar; simpl length; [simpl; lia|].
  rewrite Nat2Z.inj_succ, Z.pow_succ_r by lia. unfold is_byte in Hb. lia.
Qed.

(** The shape of a key of 32 bytes: the first, 30 in the middle, the last *)
Lemma key_shape (key : list Z) : length key = 32%nat → ∃ (a : Z) (mid : list Z) (z : Z), key = a :: mid ++ [z] ∧ length mid = 30%nat.
Proof.
  intros Hl. destruct key as [|a key]; [done|]. injection Hl as Hl.
  destruct (exists_last (l := key)) as (mid & z & ->); [by destruct key|].
  exists a, mid, z. split; [done|]. rewrite length_app in Hl. simpl in Hl. lia.
Qed.

Lemma clamp_shape a (mid : list Z) z : length mid = 30%nat →
  clamp (a :: mid ++ [z]) = Z.land a 248 :: mid ++ [Z.lor (Z.land z 127) 64].
Proof.
  intros Hl. unfold clamp, set_byte. change (alter ?f 0%nat (a :: mid ++ [z])) with (f a :: mid ++ [z]).
  change (alter ?f 31%nat (?x :: ?l)) with (x :: alter f 30%nat l). f_equal.
  rewrite alter_app_r_alt by lia. by rewrite Hl.
Qed.

(** The scalar of a clamped key *)
Lemma clamp_scalar key : length key = 32%nat → Forall is_byte key →
  scalar (clamp key) mod 8 = 0 ∧ 2 ^ 254 ≤ scalar (clamp key) < 2 ^ 255.
Proof.
  intros Hl Hb. destruct (key_shape key Hl) as (a & mid & z & -> & Hm).
  rewrite !clamp_shape by done. apply Forall_cons in Hb as [Ha Hb].
  apply Forall_app in Hb as [Hmid Hz]. apply Forall_cons in Hz as [Hz _].
  pose proof (clamp_low a Ha) as [H8 Hlow]. pose proof (clamp_high z Hz) as [Hhigh Hidem].
  pose proof (scalar_bound mid Hmid) as Hs. rewrite Hm in Hs.
  cbn [scalar]. rewrite scalar_app, Hm. cbn [scalar].
  set (A := Z.land a 248) in *. set (Zb := Z.lor (Z.land z 127) 64) in *. set (S := scalar mid) in *.
  change (256 ^ Z.of_nat 30) with (2 ^ 240) in *. split_and!.
  - rewrite <- Z.add_mod_idemp_l, H8 by lia. rewrite Z.add_0_l.
    replace (256 * (S + 2 ^ 240 * (Zb + 256 * 0))) with (32 * (S + 2 ^ 240 * Zb) * 8) by ring.
    apply Z.mod_mul. lia.
  - lia.
  - lia.
Qed.

(** A private key is a proper Curve25519 scalar whatever the random bytes are: a multiple of 8 between
    2^254 and 2^255; clamping twice changes nothing. *)
Theorem clamp_correct key :
  length key = 32%nat → Forall is_byte key →
  scalar (clamp key) mod 8 = 0 ∧ 2 ^ 254 ≤ scalar (clamp key) < 2 ^ 255 ∧ clamp (clamp key) = clamp key.
Proof.
  intros Hl Hb. destruct (clamp_scalar key Hl Hb) as [H8 Hr]. do 2 (split; [done|]).
  destruct (key_shape key Hl) as (a & mid & z & -> & Hm). rewrite !clamp_shape by done.
  apply Forall_cons in Hb as [Ha Hb]. apply Forall_app in Hb as [_ Hz]. apply Forall_cons in Hz as [Hz _].
  pose proof (clamp_high z Hz) as [_ Hidem]. f_equal; [|by rewrite Hidem]. by rewrite <- Z.land_assoc.
Qed.

Lemma length_Encode l : String.length (EncodeToString l) = (4 * ((length l + 2) / 3))%nat.
Proof.
  assert (∀ n l, (length l ≤ n)%nat → String.length (EncodeToString l) = (4 * ((length l + 2) / 3))%nat) as H.
  { induction n as [|n IH]; intros k Hk; [by destruct k; [|simpl in Hk; lia]|].
    destruct k as [|a [|b [|c k]]]; [done..|]. cbn [EncodeToString String.length length].
    rewrite IH by (simpl in Hk; lia).
    replace (S (S (S (length k))) + 2)%nat with (length k + 2 + 1 * 3)%nat by lia.
    rewrite Nat.div_add by lia. lia. }
  by apply (H (length l)).
Qed.

(** A generated public key is long enough to be cut to eight characters. *)
Lemma generated_key_long mult random kp :
  (∀ k, length (mult k) = 32%nat) → GenerateKeyPair mult random = Ok kp →
  String.length (PublicKey kp) = 44%nat.
Proof.
  intros Hmult. destruct random as [bytes|e]; [|done]. intros [= <-]. simpl. rewrite length_Encode, Hmult. done.
Qed.

Lemma clamp_correct_witness :
  scalar (clamp (replicate 32 255)) mod 8 = 0.
Proof.
  refine (proj1 (clamp_correct (replicate 32 255) eq_refl _)).
  apply Forall_replicate. unfold is_byte. lia.
Defined.
