(* ===== verification/WireGuardKeys.v ===== *)
(** What services/agent/internal/wireguard/keygen.go gives out, read back the way wg reads a key: base64 text of 32 bytes.

    [DecodeString] is the reference decoder; the code itself never decodes. *)

From S2P Require Import Prelude GoStrings WireGuard.
From Stdlib Require Import Ascii.
#[local] Open Scope Z_scope.

(** ** base64 *)

Definition base64_value (c : ascii) : option Z :=
  let n := Z.of_nat (nat_of_ascii c) in
  if (65 <=? n) && (n <=? 90) then Some (n - 65)
  else if (97 <=? n) && (n <=? 122) then Some (n - 97 + 26)
  else if (48 <=? n) && (n <=? 57) then Some (n - 48 + 52)
  else if n =? 43 then Some 62
  else if n =? 47 then Some 63
  else None.

(** Four characters, of which the last one or two may be the padding of the last group *)
Definition decode_group (c0 c1 c2 c3 : ascii) (last : bool) : option (list Z) :=
  match base64_value c0, base64_value c1 with
  | Some x, Some y =>
      match base64_value c2, base64_value c3 with
      | Some z, Some w => Some [x * 4 + y / 16; y mod 16 * 16 + z / 4; z mod 4 * 64 + w]
      | Some z, None => if last && bool_decide (c3 = "="%char) then Some [x * 4 + y / 16; y mod 16 * 16 + z / 4] else None
      | None, _ => if last && bool_decide (c2 = "="%char) && bool_decide (c3 = "="%char) then Some [x * 4 + y / 16] else None
      end
  | _, _ => None
  end.

Fixpoint DecodeString (s : string) : option (list Z) :=
  match s with
  | EmptyString => Some []
  | String c0 (String c1 (String c2 (String c3 s'))) =>
      match decode_group c0 c1 c2 c3 (bool_decide (s' = EmptyString)), DecodeString s' with
      | Some l, Some l' => Some (l ++ l')
      | _, _ => None
      end
  | _ => None
  end.

Lemma base64_value_char n : 0 ≤ n < 64 → base64_value (base64_char n) = Some n.
Proof.
  intros Hn. assert (n ∈ seqZ 0 64) as Hin by (apply elem_of_seqZ; lia).
  assert (forallb (λ n, bool_decide (base64_value (base64_char n) = Some n)) (seqZ 0 64) = true) as Hall
    by (vm_compute; reflexivity).
  apply (bool_decide_eq_true_1 (base64_value (base64_char n) = Some n)).
  by apply (proj1 (forallb_forall _ _) Hall), list_elem_of_In.
Qed.

Lemma decode_three a b c rest : is_byte a → is_byte b → is_byte c →
  decode_group (base64_char (a / 4)) (base64_char (a mod 4 * 16 + b / 16)) (base64_char (b mod 16 * 4 + c / 64))
    (base64_char (c mod 64)) rest = Some [a; b; c].
Proof.
  unfold is_byte. intros Ha Hb Hc. unfold decode_group.
  rewrite !base64_value_char by (Z.to_euclidean_division_equations; lia).
  f_equal. f_equal; [|f_equal; [|f_equal]]; Z.to_euclidean_division_equations; lia.
Qed.

Lemma decode_two a b : is_byte a → is_byte b →
  decode_group (base64_char (a / 4)) (base64_char (a mod 4 * 16 + b / 16)) (base64_char (b mod 16 * 4)) "=" true =
    Some [a; b].
Proof.
  unfold is_byte. intros Ha Hb. unfold decode_group.
  rewrite !base64_value_char by (Z.to_euclidean_division_equations; lia). simpl.
  f_equal. f_equal; [|f_equal]; Z.to_euclidean_division_equations; lia.
Qed.

Lemma decode_one a : is_byte a →
  decode_group (base64_char (a / 4)) (base64_char (a mod 4 * 16)) "=" "=" true = Some [a].
Proof.
  unfold is_byte. intros Ha. unfold decode_group.
  rewrite !base64_value_char by (Z.to_euclidean_division_equations; lia). simpl.
  f_equal. f_equal; Z.to_euclidean_division_equations; lia.
Qed.

(** What is encoded is read back. *)
Lemma Decode_Encode l : Forall is_byte l → DecodeString (EncodeToString l) = Some l.
Proof.
  assert (∀ n l, (length l ≤ n)%nat → Forall is_byte l → DecodeString (EncodeToString l) = Some l) as H; [|eauto].
  induction n as [|n IH]; intros [|a [|b [|c k]]] Hn Hb; simpl in Hn; try lia; [done..| | |];
    repeat match goal with H : Forall is_byte (_ :: _) |- _ => apply Forall_cons in H as [? H] end;
    cbn [EncodeToString DecodeString].
  - rewrite bool_decide_true by done. by rewrite decode_one.
  - rewrite bool_decide_true by done. by rewrite decode_two.
  - rewrite decode_three by done. by rewrite IH by (done || lia).
Qed.

(** ** Keys *)

(** A Curve25519 private key: a multiple of 8 between 2^254 and 2^255, in 32 bytes *)
Record private_key (k : list Z) : Prop := {
  pk_length : length k = 32%nat;
  pk_bytes : Forall is_byte k;
  pk_cofactor : scalar k mod 8 = 0;
  pk_range : 2 ^ 254 ≤ scalar k < 2 ^ 255;
}.

Lemma clamp_private key : length key = 32%nat → Forall is_byte key → private_key (clamp key).
Proof.
  intros Hl Hb. destruct (clamp_scalar key Hl Hb) as [H8 Hr]. destruct (key_shape key Hl) as (a & mid & z & -> & Hm).
  split; [| |done..]; rewrite clamp_shape by done.
  - simpl. rewrite length_app, Hm. done.
  - apply Forall_cons in Hb as [Ha Hb]. apply Forall_app in Hb as [Hmid Hz]. apply Forall_cons in Hz as [Hz _].
    pose proof (clamp_low a Ha). pose proof (clamp_high z Hz).
    apply Forall_cons; split; [unfold is_byte; lia|]. apply Forall_app; split; [done|].
    apply Forall_cons; split; [unfold is_byte; lia|done].
Qed.

Definition key_char (c : ascii) : bool := bool_decide (is_Some (base64_value c)) || bool_decide (c = "="%char).

Lemma key_char_base64 n : 0 ≤ n < 64 → key_char (base64_char n) = true.
Proof. intros Hn. unfold key_char. rewrite base64_value_char by done. by rewrite bool_decide_true. Qed.

Lemma Encode_chars l : Forall is_byte l → str_forall key_char (EncodeToString l) = true.
Proof.
  assert (∀ n l, (length l ≤ n)%nat → Forall is_byte l → str_forall key_char (EncodeToString l) = true) as H; [|eauto].
  induction n as [|n IH]; intros [|a [|b [|c k]]] Hn Hb; simpl in Hn; try lia; [done..| | |];
    repeat match goal with H : Forall is_byte (_ :: _) |- _ => apply Forall_cons in H as [? H] end;
    unfold is_byte in *; cbn [EncodeToString str_forall];
    rewrite !key_char_base64 by (Z.to_euclidean_division_equations; lia); simpl; [done..|].
  by rewrite IH by (done || lia).
Qed.

(** C26: Every key pair the agent generates is one that wg takes: the private key is the text of 32 bytes that are a proper
    Curve25519 scalar, whatever the random bytes were, the public key is the text of its point, both are 44 characters of
    base64, which no quoting or line structure of the configuration file can break, and reading them back gives
    the bytes. *)
Theorem generated_keys_well_formed mult bytes kp :
  (∀ k, length (mult k) = 32%nat ∧ Forall is_byte (mult k)) →
  length bytes = 32%nat → Forall is_byte bytes → GenerateKeyPair mult (Ok bytes) = Ok kp →
  ∃ k, private_key k ∧ DecodeString (PrivateKey kp) = Some k ∧ DecodeString (PublicKey kp) = Some (mult k) ∧
    String.length (PrivateKey kp) = 44%nat ∧ String.length (PublicKey kp) = 44%nat ∧
    str_forall key_char (PrivateKey kp) = true ∧ str_forall key_char (PublicKey kp) = true.
Proof.
  intros Hm Hl Hb [= <-]. destruct (Hm (clamp bytes)) as [Hml Hmb].
  pose proof (clamp_private bytes Hl Hb) as Hk. exists (clamp bytes). simpl.
  rewrite !Decode_Encode, !length_Encode, Hml, (pk_length _ Hk), !Encode_chars by (done || apply Hk). done.
Qed.

Lemma generated_keys_well_formed_witness : ∃ k, private_key k ∧
  DecodeString (EncodeToString (clamp (replicate 32 255))) = Some k.
Proof.
  destruct (generated_keys_well_formed (λ _, replicate 32 9) (replicate 32 255)
    {| PrivateKey := EncodeToString (clamp (replicate 32 255)); PublicKey := EncodeToString (replicate 32 9) |})
    as (k & Hk & Hd & _).
  - intros k. split; [reflexivity|]. apply Forall_replicate. unfold is_byte. lia.
  - reflexivity.
  - apply Forall_replicate. unfold is_byte. lia.
  - reflexivity.
  - exists k. split; [exact Hk|exact Hd].
Defined.
