(* ===== verification/Configs.v ===== *)
(** The configuration loaders: services/{agent,config,discovery,identity}/internal/config and
    cli/internal/cliconfig.

    A loader gets the outcome of reading the file, the outcome of decoding it (gopkg.in/yaml.v3 is an
    argument), and the environment; a variable that is not set reads as the empty text. *)

From S2P Require Import Prelude GoInt GoStrings.

Definition Environ : Type := string → string.

(** [if x == "" { x = d }], [if x == 0 { x = d }] *)
Definition or_str (x d : string) : string := if decide (x = "") then d else x.
Definition or_int (x d : Z) : Z := if x =? 0 then d else x.
(** [if v := os.Getenv(k); v != "" { x = v }] *)
Definition env_str (v x : string) : string := if decide (v = "") then x else v.
(** ... with [strconv.Atoi(v)], ignored when it is not a number *)
Definition env_int (v : string) (x : Z) : Z :=
  if decide (v = "") then x else match Atoi v with Some port => port | None => x end.
(** [if v := os.Getenv(k); v == "true" { x = true }] *)
Definition env_true (v : string) (x : bool) : bool := if decide (v = "true") then true else x.

(** [os.ReadFile] then [yaml.Unmarshal] *)
Definition read_yaml {C} (data : res string) (parse : string → res C) (read_msg parse_msg : string) : res C :=
  match data with
  | Err e => Err (Wrapf read_msg e)
  | Ok text =>
      match parse text with
      | Err e => Err (Wrapf parse_msg e)
      | Ok c => Ok c
      end
  end.

Definition map_res {A B} (f : A → B) (r : res A) : res B :=
  match r with Ok a => Ok (f a) | Err e => Err e end.

Module AgentConfig.

Record Config : Type := {
  IdentityAddr : string;
  DiscoveryAddr : string;
  ConfigAddr : string;
  LogLevel : string;
  Heartbeat : Z;
  PeerSyncInterval : Z;
  DryRun : option bool;
  WireGuardPort : Z;
  P2PPort : Z;
  TLSCACert : string;
  NetworkSecret : string;
  IsExitNode : bool;
  UseExitNode : bool;
  ExitNodeID : string;
  ExitNodeDNS : string;
}.

Definition setDefaults (c : Config) : Config := {|
  IdentityAddr := or_str (IdentityAddr c) "localhost:8001";
  DiscoveryAddr := or_str (DiscoveryAddr c) "localhost:8002";
  ConfigAddr := or_str (ConfigAddr c) "localhost:8003";
  LogLevel := or_str (LogLevel c) "debug";
  Heartbeat := or_int (Heartbeat c) 25;
  PeerSyncInterval := or_int (PeerSyncInterval c) 60;
  DryRun := match DryRun c with None => Some true | Some b => Some b end;
  WireGuardPort := or_int (WireGuardPort c) 51820;
  P2PPort := or_int (P2PPort c) 4001;
  TLSCACert := TLSCACert c;
  NetworkSecret := NetworkSecret c;
  IsExitNode := IsExitNode c;
  UseExitNode := UseExitNode c;
  ExitNodeID := ExitNodeID c;
  ExitNodeDNS := or_str (ExitNodeDNS c) "1.1.1.1, 1.0.0.1";
|}.

Definition overrideFromEnv (env : Environ) (c : Config) : Config := {|
  IdentityAddr := env_str (env "IDENTITY_ADDR") (IdentityAddr c);
  DiscoveryAddr := env_str (env "DISCOVERY_ADDR") (DiscoveryAddr c);
  ConfigAddr := env_str (env "CONFIG_ADDR") (ConfigAddr c);
  LogLevel := LogLevel c;
  Heartbeat := Heartbeat c;
  PeerSyncInterval := PeerSyncInterval c;
  DryRun := DryRun c;
  WireGuardPort := env_int (env "WIREGUARD_PORT") (WireGuardPort c);
  P2PPort := env_int (env "P2P_PORT") (P2PPort c);
  TLSCACert := env_str (env "TLS_CA_CERT") (TLSCACert c);
  NetworkSecret := env_str (env "NETWORK_SECRET") (NetworkSecret c);
  IsExitNode := env_true (env "IS_EXIT_NODE") (IsExitNode c);
  UseExitNode := env_true (env "USE_EXIT_NODE") (UseExitNode c);
  ExitNodeID := env_str (env "EXIT_NODE_ID") (ExitNodeID c);
  ExitNodeDNS := env_str (env "EXIT_NODE_DNS") (ExitNodeDNS c);
|}.

Definition Load (data : res string) (parse : string → res Config) (env : Environ) : res Config :=
  map_res (λ c, overrideFromEnv env (setDefaults c))
    (read_yaml data parse "config read error" "config parse error").

(** What the agent needs of a configuration: addresses to dial, tickers that fire, and a definite
    [DryRun] to dereference. *)
Record usable (c : Config) : Prop := {
  usable_identity : IdentityAddr c ≠ "";
  usable_discovery : DiscoveryAddr c ≠ "";
  usable_config : ConfigAddr c ≠ "";
  usable_dry_run : is_Some (DryRun c);
  usable_dns : ExitNodeDNS c ≠ "";
  usable_heartbeat : Heartbeat c ≠ 0;
  usable_sync : PeerSyncInterval c ≠ 0;
}.

End AgentConfig.

Module ConfigConfig.

Record Config : Type := {
  GRPCPort : Z;
  NetworkCIDR : string;
  MTU : Z;
  DNSServers : list string;
  RedisURL : string;
  LogLevel : string;
}.

Definition setDefaults (c : Config) : Config := {|
  GRPCPort := or_int (GRPCPort c) 8003;
  NetworkCIDR := or_str (NetworkCIDR c) "10.8.0.0/16";
  MTU := or_int (MTU c) 1420;
  DNSServers := match DNSServers c with [] => ["1.1.1.1"; "8.8.8.8"] | l => l end;
  RedisURL := or_str (RedisURL c) "localhost:6379";
  LogLevel := or_str (LogLevel c) "debug";
|}.

Definition set_RedisURL (v : string) (c : Config) : Config := {|
  GRPCPort := GRPCPort c; NetworkCIDR := NetworkCIDR c; MTU := MTU c; DNSServers := DNSServers c;
  RedisURL := v; LogLevel := LogLevel c;
|}.

Definition Load (data : res string) (parse : string → res Config) (env : Environ) : res Config :=
  map_res (λ c, let c := setDefaults c in set_RedisURL (env_str (env "REDIS_URL") (RedisURL c)) c)
    (read_yaml data parse "config read error" "config parse error").

End ConfigConfig.

Module DiscoveryConfig.

Record Config : Type := {
  GRPCPort : Z;
  RedisURL : string;
  LogLevel : string;
  HeartbeatTTL : Z;
}.

Definition setDefaults (c : Config) : Config := {|
  GRPCPort := or_int (GRPCPort c) 8002;
  RedisURL := or_str (RedisURL c) "localhost:6379";
  LogLevel := or_str (LogLevel c) "debug";
  HeartbeatTTL := or_int (HeartbeatTTL c) 30;
|}.

Definition set_RedisURL (v : string) (c : Config) : Config := {|
  GRPCPort := GRPCPort c; RedisURL := v; LogLevel := LogLevel c; HeartbeatTTL := HeartbeatTTL c;
|}.

Definition Load (data : res string) (parse : string → res Config) (env : Environ) : res Config :=
  map_res (λ c, let c := setDefaults c in set_RedisURL (env_str (env "REDIS_URL") (RedisURL c)) c)
    (read_yaml data parse "config read error" "config parse error").

End DiscoveryConfig.

Module IdentityConfig.

Record Config : Type := {
  GRPCPort : Z;
  DatabaseURL : string;
  LogLevel : string;
  JWTSecret : string;
  TokenDuration : Z;
  NetworkSecret : string;
}.

(** [Validate] also fills in the token's duration. *)
Definition Validate (c : Config) : res Config :=
  if GRPCPort c =? 0 then Err (Errorf "grpc_port is required")
  else if decide (DatabaseURL c = "") then Err (Errorf "database_url is required")
  else if decide (JWTSecret c = "") then Err (Errorf "jwt_secret is required")
  else Ok {| GRPCPort := GRPCPort c; DatabaseURL := DatabaseURL c; LogLevel := LogLevel c;
             JWTSecret := JWTSecret c; TokenDuration := or_int (TokenDuration c) 24;
             NetworkSecret := NetworkSecret c |}.

Definition Load (data : res string) (parse : string → res Config) : res Config :=
  match read_yaml data parse "failed to read config file" "failed to parse config" with
  | Err e => Err e
  | Ok cfg => match Validate cfg with Err e => Err (Wrapf "invalid config" e) | Ok cfg => Ok cfg end
  end.

Definition LoadFromEnv (data : res string) (parse : string → res Config) (env : Environ) : res Config :=
  map_res (λ c, {| GRPCPort := GRPCPort c; DatabaseURL := env_str (env "DATABASE_URL") (DatabaseURL c);
                   LogLevel := LogLevel c; JWTSecret := env_str (env "JWT_SECRET") (JWTSecret c);
                   TokenDuration := TokenDuration c;
                   NetworkSecret := env_str (env "NETWORK_SECRET") (NetworkSecret c) |})
    (Load data parse).

End IdentityConfig.

(** ** Facts *)

Lemma or_str_ne x d : d ≠ "" → or_str x d ≠ "".
Proof. unfold or_str. by case_decide. Qed.
Lemma or_int_ne x d : d ≠ 0 → or_int x d ≠ 0.
Proof. unfold or_int. by case_bool. Qed.
Lemma env_str_ne v x : x ≠ "" → env_str v x ≠ "".
Proof. unfold env_str. by case_decide. Qed.
#[export] Hint Resolve or_str_ne or_int_ne env_str_ne : configs.

Lemma map_res_ok {A B} (f : A → B) r b : map_res f r = Ok b → ∃ a, r = Ok a ∧ b = f a.
Proof. destruct r as [a|e]; [|done]. intros [= <-]. by exists a. Qed.

(** Every configuration the agent loads is usable, whatever the file and the environment say. *)
Lemma agent_config_usable data parse env c :
  AgentConfig.Load data parse env = Ok c → AgentConfig.usable c.
Proof.
  intros (a & _ & ->)%map_res_ok. split; simpl; auto with configs.
  by destruct (AgentConfig.DryRun a).
Qed.

(** Whatever the environment, an identity service never starts without a signing secret. *)
Lemma identity_config_secret data parse env c :
  IdentityConfig.LoadFromEnv data parse env = Ok c →
  IdentityConfig.JWTSecret c ≠ "" ∧ IdentityConfig.TokenDuration c ≠ 0.
Proof.
  intros (a & Ha & ->)%map_res_ok. unfold IdentityConfig.Load in Ha.
  destruct (read_yaml _ _ _ _) as [b|]; [|done].
  destruct (IdentityConfig.Validate b) as [v|] eqn:Ev; [|done]. injection Ha as ->.
  unfold IdentityConfig.Validate in Ev. repeat (case_bool; [done|]).
  injection Ev as <-. simpl. split; [by apply env_str_ne|]. apply or_int_ne. lia.
Qed.
