(* ===== verification/Client.v ===== *)
(** services/agent/internal/client: the agent's calls to the three services, each through its circuit
    breaker.

    The services are the class [Services]: the generated gRPC stubs, with the message types of
    ConfigService.v, Discovery.v and Identity.v. *)

From S2P Require Import Prelude GoInt Grpc CircuitBreaker.
From S2P Require ConfigService Discovery Identity.

Record RegisterPeerCall : Type := {
  call_request : Discovery.RegisterPeerRequest;
  call_Region : string;
  call_Bandwidth : Z;
}.

Class Services (W : Type) : Type := {
  rpc_RegisterNode : Context → Identity.RegisterNodeRequest → M W Identity.RegisterNodeResponse;
  rpc_GetPublicKey : Context → string → M W string;
  rpc_GetConfig : Context → ConfigService.GetConfigRequest → M W ConfigService.GetConfigResponse;
  rpc_RequestIP : Context → ConfigService.RequestIPRequest → M W ConfigService.RequestIPResponse;
  rpc_ReleaseIP : Context → ConfigService.ReleaseIPRequest → M W ConfigService.ReleaseIPResponse;
  rpc_RegisterPeer : Context → RegisterPeerCall → M W Discovery.RegisterPeerResponse;
  rpc_ListPeers : Context → Discovery.ListPeersRequest → M W Discovery.ListPeersResponse;
  rpc_Heartbeat : Context → Discovery.HeartbeatRequest → M W Discovery.HeartbeatResponse;
}.
#[export] Hint Mode Services + : typeclass_instances.

(** grpc.NewClient and tlsutil.ClientCredentials; a connection is known by a number. *)
Class Dialer (W : Type) : Type := {
  ClientCredentials : string → M W unit;
  grpc_NewClient : string → M W nat;
  conn_Close : nat → M W unit;
}.
#[export] Hint Mode Dialer + : typeclass_instances.

(** The connections, the breakers, what their transitions print, and the world the calls are made in *)
Record Client (W : Type) : Type := {
  identityConn : nat;
  discoveryConn : nat;
  configConn : nat;
  cbIdentity : CircuitBreaker;
  cbDiscovery : CircuitBreaker;
  cbConfig : CircuitBreaker;
  printed : list string;
  world : W;
}.
Arguments identityConn {W}.
Arguments discoveryConn {W}.
Arguments configConn {W}.
Arguments cbIdentity {W}.
Arguments cbDiscovery {W}.
Arguments cbConfig {W}.
Arguments printed {W}.
Arguments world {W}.

Definition newCBConfig (name : string) : Config :=
  {| MaxFailures := 5; OpenTimeout := 30 * Second; HalfOpenMax := 1;
     OnStateChange := Some (λ n from to,
       "[circuit-breaker] [" +:+ n +:+ "] " +:+ State_String from +:+ " → " +:+ State_String to) |}.

Definition new_client {W} (ic dc cc : nat) (w : W) : Client W :=
  {| identityConn := ic; discoveryConn := dc; configConn := cc;
     cbIdentity := CircuitBreaker.New "identity" (newCBConfig "identity");
     cbDiscovery := CircuitBreaker.New "discovery" (newCBConfig "discovery");
     cbConfig := CircuitBreaker.New "config" (newCBConfig "config");
     printed := []; world := w |}.

(** A connection that was opened before a later one fails is closed; Close's own error is ignored. *)
Definition New `{Dialer W} (identityAddr discoveryAddr configAddr caFile : string) : M W (Client W) :=
  let! _ := (if decide (caFile = "") then ret tt
             else wrap_err (Wrapf "failed to load TLS CA cert") (ClientCredentials caFile)) in
  let! ic := wrap_err (Wrapf "identity connection failed") (grpc_NewClient identityAddr) in
  let? dc := grpc_NewClient discoveryAddr in
  match dc with
  | Err e => let? _ := conn_Close ic in throw (Wrapf "discovery connection failed" e)
  | Ok dc =>
      let? cc := grpc_NewClient configAddr in
      match cc with
      | Err e =>
          let? _ := conn_Close ic in let? _ := conn_Close dc in throw (Wrapf "config connection failed" e)
      | Ok cc => λ w, (w, Ok (new_client ic dc cc w))
      end
  end.

Inductive service : Type := identity | discovery | config.

Definition breaker {W} (s : service) (c : Client W) : CircuitBreaker :=
  match s with identity => cbIdentity c | discovery => cbDiscovery c | config => cbConfig c end.

Definition put_breaker {W} (s : service) (cb : CircuitBreaker) (out : list string) (w : W) (c : Client W) :
    Client W :=
  {| identityConn := identityConn c; discoveryConn := discoveryConn c; configConn := configConn c;
     cbIdentity := match s with identity => cb | _ => cbIdentity c end;
     cbDiscovery := match s with discovery => cb | _ => cbDiscovery c end;
     cbConfig := match s with config => cb | _ => cbConfig c end;
     printed := out; world := w |}.

Definition set_world {W} (w : W) (c : Client W) : Client W :=
  {| identityConn := identityConn c; discoveryConn := discoveryConn c; configConn := configConn c;
     cbIdentity := cbIdentity c; cbDiscovery := cbDiscovery c; cbConfig := cbConfig c;
     printed := printed c; world := w |}.

Definition on_world {W A} (m : M W A) : M (Client W) A := zoom world set_world m.

Definition Close `{Dialer W} : M (Client W) unit := λ c,
  (let? _ := on_world (conn_Close (identityConn c)) in
   let? _ := on_world (conn_Close (discoveryConn c)) in
   let? _ := on_world (conn_Close (configConn c)) in ret tt) c.

Section client.
Context `{StatusLib} `{Services W} `{Clock W}.

(** [c.cbX.Execute(fn)] *)
Definition through {A} (s : service) (fn : M W A) : M (Client W) A := λ c,
  match Execute fn {| g_cb := breaker s c; g_out := printed c; g_world := world c |} with
  | (g, r) => (put_breaker s (g_cb g) (g_out g) (g_world g) c, r)
  end.

Definition Register (ctx : Context) (publicKey peerID networkSecret : string) :
    M (Client W) (string * string * Z) :=
  let! resp := wrap_err (Wrapf "register failed") (through identity (rpc_RegisterNode ctx
    {| Identity.rn_PublicKey := publicKey; Identity.rn_Version := "1.0.0"; Identity.rn_PeerId := peerID;
       Identity.rn_NetworkSecret := networkSecret |})) in
  ret (Identity.rn_NodeId resp, Identity.rn_Token resp, Identity.rn_ExpiresAt resp).

Definition GetPeerPublicKey (ctx : Context) (nodeID : string) : M (Client W) string :=
  wrap_err (Wrapf "get public key failed") (through identity (rpc_GetPublicKey ctx nodeID)).

Definition GetNetworkConfig (ctx : Context) (token : string) : M (Client W) ConfigService.GetConfigResponse :=
  wrap_err (Wrapf "get config failed") (through config (rpc_GetConfig ctx
    {| ConfigService.gc_Token := token; ConfigService.gc_ConfigVersion := 0 |})).

Definition RequestIP (ctx : Context) (token nodeID : string) : M (Client W) (string * string * string) :=
  let! resp := wrap_err (Wrapf "request IP failed") (through config (rpc_RequestIP ctx
    {| ConfigService.rq_Token := token; ConfigService.rq_NodeId := nodeID |})) in
  ret (ConfigService.rp_IpAddress resp, ConfigService.rp_SubnetMask resp, ConfigService.rp_Gateway resp).

Definition ReleaseIP (ctx : Context) (token nodeID ip : string) : M (Client W) unit :=
  let! _ := through config (rpc_ReleaseIP ctx
    {| ConfigService.rl_Token := token; ConfigService.rl_NodeId := nodeID; ConfigService.rl_IpAddress := ip |}) in
  ret tt.

Definition RegisterPeer (ctx : Context) (token ip : string) (port : Z) (peerID : string)
    (p2pAddrs : list string) (isExitNode : bool) : M (Client W) unit :=
  let! _ := through discovery (rpc_RegisterPeer ctx
    {| call_request := {| Discovery.rg_Token := token; Discovery.rg_IpAddress := ip; Discovery.rg_Port := port;
                          Discovery.rg_PeerId := peerID; Discovery.rg_P2PAddrs := p2pAddrs;
                          Discovery.rg_IsExitNode := isExitNode |};
       call_Region := "global"; call_Bandwidth := 1000000 |}) in
  ret tt.

Definition DiscoverPeers (ctx : Context) (token : string) (limit : Z) : M (Client W) (list Discovery.PeerInfo) :=
  let ctx := AppendToOutgoingContext ctx "authorization" token in
  let! resp := wrap_err (Wrapf "discover peers failed") (through discovery (rpc_ListPeers ctx
    {| Discovery.lp_Region := ""; Discovery.lp_Limit := limit |})) in
  ret (Discovery.lp_Peers resp).

Definition Heartbeat (ctx : Context) (token : string) : M (Client W) unit :=
  let! _ := through discovery (rpc_Heartbeat ctx
    {| Discovery.hb_Token := token; Discovery.hb_Bandwidth := 0 |}) in
  ret tt.
End client.

(** ** One service's outage does not touch the others *)

Lemma through_frame `{StatusLib} `{Clock W} {A} (s s' : service) (fn : M W A) (c c' : Client W) r :
  through s fn c = (c', r) → s' ≠ s → breaker s' c' = breaker s' c.
Proof.
  unfold through. destruct (Execute _ _) as [g x]. intros [= <- <-] Hne.
  by destruct s, s'.
Qed.

(** The new client keeps the world in which it was made. *)
Lemma New_world `{Dialer W} i d c ca (w w' : W) cl : New i d c ca w = (w', Ok cl) → world cl = w'.
Proof.
  unfold New. intros (w1 & u & _ & (w2 & ic & _ & Hr)%bind_inv_ok)%bind_inv_ok.
  apply handle_inv in Hr as (w3 & dc & _ & Hr). destruct dc as [dc|e].
  - apply handle_inv in Hr as (w4 & cc & _ & Hr). destruct cc as [cc|e]; [by injection Hr as <- <-|].
    apply handle_inv in Hr as (w5 & x & _ & Hr). by apply handle_inv in Hr as (w6 & y & _ & [=]).
  - by apply handle_inv in Hr as (w4 & x & _ & [=]).
Qed.

(** A call through a breaker is refused, and the world is as it was, or it is made. *)
Lemma through_run `{StatusLib} `{Clock W} {A} s (fn : M W A) (c c' : Client W) r :
  through s fn c = (c', r) → (world c' = world c ∧ ∃ e, r = Err e) ∨ fn (world c) = (world c', r).
Proof.
  intros Hr. unfold through, Execute in Hr. simpl in Hr. destruct (CircuitBreaker.Allow _ _) as [[cb out] allowed]. destruct allowed; simpl in Hr.
  - destruct (fn (world c)) as [w x] eqn:Ef. right.
    destruct x as [a|e]; [|destruct (counts_as_failure e)]; by injection Hr as <- <-.
  - injection Hr as <- <-. left. simpl. eauto.
Qed.

(** ** Calls through a closed breaker *)

Lemma RecordFailure_closed now cb :
  wf cb → state cb = StateClosed →
  let cb' := (RecordFailure now cb).1 in
  cfg cb' = cfg cb ∧
  if failures cb + 1 <? MaxFailures (cfg cb)
  then state cb' = StateClosed ∧ failures cb' = failures cb + 1
  else state cb' = StateOpen.
Proof.
  intros [Hc Hs] Est. rewrite Est in Hs. unfold cfg_ok in Hc. unfold RecordFailure; simpl. rewrite Est.
  rewrite wrap64_id by (unfold min_int64; lia).
  repeat (case_bool || rewrite ?transition_fst; simpl in *); auto; lia.
Qed.

Lemma RecordFailure_last now cb : lastFailure (RecordFailure now cb).1 = now.
Proof. unfold RecordFailure. destruct (state _); repeat (case_bool || rewrite ?transition_fst; simpl); done. Qed.

(** Through an open one, before its timeout: no call is made. *)
Lemma through_open `{StatusLib} `{Clock W} {A} (s : service) (fn : M W A) (c : Client W) :
  state (breaker s c) = StateOpen →
  time_sub (Now (world c)) (lastFailure (breaker s c)) < OpenTimeout (cfg (breaker s c)) →
  through s fn c = (c, Err (open_error (breaker s c))).
Proof.
  intros Hst Ht. unfold through. rewrite Execute_rejected.
  - by destruct s, c.
  - cbn [g_world g_cb]. unfold Allow. rewrite Hst. case_bool; [lia|done].
  - cbn [g_world g_cb]. unfold Allow. rewrite Hst. case_bool; [lia|done].
Qed.

Lemma through_closed `{StatusLib} `{Clock W} {A} (s : service) (fn : M W A) (c : Client W) :
  wf (breaker s c) → state (breaker s c) = StateClosed →
  ∃ c', through s fn c = (c', (fn (world c)).2) ∧ world c' = (fn (world c)).1 ∧ wf (breaker s c') ∧
    breaker s c' = after_call (fn (world c)) (breaker s c).
Proof.
  intros Hwf Hst. unfold through.
  set (g := {| g_cb := breaker s c; g_out := printed c; g_world := world c |}).
  destruct (Execute_allowed fn g (breaker s c) []) as (Hcb & Hw & Hr).
  { unfold Allow. simpl. by rewrite Hst. }
  pose proof (Execute_wf fn g Hwf) as Hwf'.
  destruct (Execute fn g) as [g' r]. simpl in *. subst r.
  eexists. split; [reflexivity|]. split; [done|]. split; destruct s; simpl; try done.
Qed.
