(* ===== verification/Gateway.v ===== *)
(** services/agent/internal/gateway: forwarding and address translation on an exit node.

    The three files linux.go, darwin.go and windows.go are one method each per platform: a build has
    one of them. Commands are those of WireGuard.[OS]. *)

From S2P Require Import Prelude GoStrings WireGuard.
From Stdlib Require Import Ascii.
#[local] Open Scope Z_scope.

Inductive Platform : Type := Linux | Darwin | Windows.

Module Gateway.

Record Manager : Type := { iface : string; outIface : string; enabled : bool }.

Definition defaultIface (p : Platform) : string :=
  match p with Windows => "gordion" | _ => "wg0" end.

Definition New (p : Platform) (wgIface : string) : Manager :=
  {| iface := if decide (wgIface = "") then defaultIface p else wgIface; outIface := ""; enabled := false |}.

(** A manager, and the machine its commands run on *)
Record State (W : Type) : Type := { manager : Manager; machine : W }.
Arguments manager {W}.
Arguments machine {W}.
Arguments Build_State {W}.

Definition on_machine {W A} (m : M W A) : M (State W) A :=
  zoom machine (λ w s, Build_State (manager s) w) m.
Definition get_manager {W} : M (State W) Manager := λ s, (s, Ok (manager s)).
Definition set_manager {W} (g : Manager) : M (State W) unit := λ s, (Build_State g (machine s), Ok tt).

Definition set_enabled (b : bool) (g : Manager) : Manager :=
  {| iface := iface g; outIface := outIface g; enabled := b |}.
Definition set_outIface (o : string) (g : Manager) : Manager :=
  {| iface := iface g; outIface := o; enabled := enabled g |}.

(** The interface after the first [dev] of [ip route get]'s fields *)
Fixpoint field_after_dev (fields : list string) : option string :=
  match fields with
  | f :: ((next :: _) as rest) => if decide (f = "dev") then Some next else field_after_dev rest
  | _ => None
  end.

Section platform.
Context `{OS W}.

(** The commands' output, which the source appends to the error's text, is left out. *)
Definition runCmd (p : Platform) (name : string) (args : list string) : M W unit :=
  wrap_err (Wrapf (match p with Darwin => name +:+ " failed" | _ => name end)) (run_command name args).

(** [_ = runCmd(...)] *)
Definition runCmd_ (p : Platform) (name : string) (args : list string) : M W unit :=
  let? _ := runCmd p name args in ret tt.

Definition linux_defaultOutboundIface : M W string :=
  let! out := wrap_err (Wrapf "ip route get") (command_output "ip" ["route"; "get"; "8.8.8.8"]) in
  match field_after_dev (Fields out) with
  | Some f => ret f
  | None => throw (Errorf ("no dev field in: " +:+ TrimSpace out))
  end.

(** The rules of linux.go: the translation table's option, the chain and the rest of the rule *)
Record rule : Type := { r_nat : bool; r_chain : string; r_spec : list string }.

Definition iptables_args (op : string) (r : rule) : list string :=
  (if r_nat r then ["-t"; "nat"] else []) ++ op :: r_chain r :: r_spec r.

Definition masquerade (out : string) : rule :=
  {| r_nat := true; r_chain := "POSTROUTING"; r_spec := ["-o"; out; "-j"; "MASQUERADE"] |}.
Definition forward_in (wg : string) : rule :=
  {| r_nat := false; r_chain := "FORWARD"; r_spec := ["-i"; wg; "-j"; "ACCEPT"] |}.
Definition forward_out (wg : string) : rule :=
  {| r_nat := false; r_chain := "FORWARD";
     r_spec := ["-o"; wg; "-m"; "state"; "--state"; "RELATED,ESTABLISHED"; "-j"; "ACCEPT"] |}.

Definition linux_enableForwarding : M (State W) unit :=
  let! out := wrap_err (Wrapf "detect outbound iface") (on_machine linux_defaultOutboundIface) in
  let! g := get_manager in
  let! _ := on_machine (runCmd Linux "sysctl" ["-w"; "net.ipv4.ip_forward=1"]) in
  let! _ := on_machine (runCmd Linux "iptables" (iptables_args "-A" (masquerade out))) in
  let! _ := on_machine (runCmd Linux "iptables" (iptables_args "-A" (forward_in (iface g)))) in
  let! _ := on_machine (runCmd Linux "iptables" (iptables_args "-A" (forward_out (iface g)))) in
  set_manager (set_outIface out g).

Definition linux_disableForwarding : M (State W) unit :=
  let! g := get_manager in
  let! out := (if decide (outIface g = "")
               then let? o := on_machine linux_defaultOutboundIface in
                    ret (match o with Ok o => o | Err _ => "" end)
               else ret (outIface g)) in
  let! _ := on_machine (runCmd_ Linux "iptables" (iptables_args "-D" (masquerade out))) in
  let! _ := on_machine (runCmd_ Linux "iptables" (iptables_args "-D" (forward_in (iface g)))) in
  let! _ := on_machine (runCmd_ Linux "iptables" (iptables_args "-D" (forward_out (iface g)))) in
  on_machine (runCmd_ Linux "sysctl" ["-w"; "net.ipv4.ip_forward=0"]).

Definition darwin_enableForwarding : M (State W) unit :=
  let! g := get_manager in
  let! _ := wrap_err (Wrapf "sysctl forwarding failed")
    (on_machine (runCmd Darwin "sysctl" ["-w"; "net.inet.ip.forwarding=1"])) in
  let pfRule := "nat on en0 from " +:+ iface g +:+ ":network to any -> (en0)" +:+ nl in
  wrap_err (Wrapf "pfctl NAT failed")
    (on_machine (runCmd Darwin "sh" ["-c"; "echo '" +:+ pfRule +:+ "' | pfctl -f - && pfctl -e"])).

Definition darwin_disableForwarding : M (State W) unit :=
  let! _ := on_machine (runCmd_ Darwin "pfctl" ["-d"]) in
  on_machine (runCmd_ Darwin "sysctl" ["-w"; "net.inet.ip.forwarding=0"]).

Definition natName : string := "GordionNAT".
Definition tab : string := String "009"%char EmptyString.

Definition powershell (script : string) : M (State W) unit :=
  on_machine (runCmd Windows "powershell" ["-NoProfile"; "-Command"; script]).

Definition forwarding_script (state wg : string) : string :=
  "Set-NetIPInterface -InterfaceAlias '" +:+ wg +:+ "' -Forwarding " +:+ state +:+ " -ErrorAction SilentlyContinue".

(** What PowerShell is asked for the interface of the default route; only Linux uses the answer of its own. *)
Definition windows_defaultOutboundIface : M W string :=
  let! out := wrap_err (Wrapf "Get-NetRoute") (command_output "powershell" ["-NoProfile"; "-Command";
    "(Get-NetRoute -DestinationPrefix '0.0.0.0/0' | Sort-Object RouteMetric | Select-Object -First 1).InterfaceAlias"]) in
  let iface := TrimSpace out in
  if decide (iface = "") then throw (Errorf "no default route found") else ret iface.

Definition windows_enableForwarding : M (State W) unit :=
  let! g := get_manager in
  let? _ := powershell (forwarding_script "Enabled" (iface g)) in
  let natPS := nl +:+ tab +:+ tab +:+ "if (-not (Get-NetNat -Name '" +:+ natName +:+
    "' -ErrorAction SilentlyContinue)) {" +:+ nl +:+ tab +:+ tab +:+ tab +:+ "New-NetNat -Name '" +:+ natName +:+
    "' -InternalIPInterfaceAddressPrefix '10.8.0.0/16'" +:+ nl +:+ tab +:+ tab +:+ "}" in
  wrap_err (Wrapf "New-NetNat (run as Administrator)") (powershell natPS).

Definition windows_disableForwarding : M (State W) unit :=
  let! g := get_manager in
  let? _ := powershell ("Remove-NetNat -Name '" +:+ natName +:+ "' -Confirm:$false -ErrorAction SilentlyContinue") in
  let? _ := powershell (forwarding_script "Disabled" (iface g)) in
  ret tt.

Definition enableForwarding (p : Platform) : M (State W) unit :=
  match p with
  | Linux => linux_enableForwarding
  | Darwin => darwin_enableForwarding
  | Windows => windows_enableForwarding
  end.

Definition disableForwarding (p : Platform) : M (State W) unit :=
  match p with
  | Linux => linux_disableForwarding
  | Darwin => darwin_disableForwarding
  | Windows => windows_disableForwarding
  end.

Definition Enable (p : Platform) : M (State W) unit :=
  let! g := get_manager in
  if enabled g then ret tt
  else
    let! _ := wrap_err (Wrapf "gateway enable failed") (enableForwarding p) in
    let! g := get_manager in
    set_manager (set_enabled true g).

Definition Disable (p : Platform) : M (State W) unit :=
  let! g := get_manager in
  if enabled g then
    let! _ := wrap_err (Wrapf "gateway disable failed") (disableForwarding p) in
    let! g := get_manager in
    set_manager (set_enabled false g)
  else ret tt.
End platform.

(** ** The rules a machine ends up with *)

(** What iptables does, for the commands of this file: [rules] lists what was added, and [-D] removes the first rule
    that matches. The other commands leave the rules alone. *)
Class Firewall (W : Type) `{OS W} : Type := {
  rules : W → list rule;
  firewall_add r w w' x : run_command "iptables" (iptables_args "-A" r) w = (w', x) →
    rules w' = match x with Ok _ => rules w ++ [r] | Err _ => rules w end;
  firewall_del r w w' x : run_command "iptables" (iptables_args "-D" r) w = (w', x) →
    rules w' ≡ₚ rules w ∨ r :: rules w' ≡ₚ rules w;
  firewall_sysctl args w w' x : run_command "sysctl" args w = (w', x) → rules w' = rules w;
  firewall_route w w' x :
    command_output "ip" ["route"; "get"; "8.8.8.8"] w = (w', x) → rules w' = rules w;
}.
#[export] Hint Mode Firewall + - : typeclass_instances.

(** Removing a rule that is there succeeds. *)
Class FirewallUp (W : Type) `{Firewall W} : Prop :=
  firewall_del_up (r : rule) (w w' : W) x : r ∈ rules w →
    run_command "iptables" (iptables_args "-D" r) w = (w', x) → r :: rules w' ≡ₚ rules w.
#[export] Hint Mode FirewallUp + - - : typeclass_instances.

Lemma field_after_dev_in fields f : field_after_dev fields = Some f → f ∈ fields.
Proof.
  induction fields as [|x [|y rest] IH]; [done..|]. cbn [field_after_dev].
  case_decide; [intros [= ->]; set_solver|]. intros Hf%IH. set_solver.
Qed.

Section rules.
Context `{Firewall W}.

Lemma on_machine_inv {A} (m : M W A) (s s' : State W) r :
  on_machine m s = (s', r) → m (machine s) = (machine s', r) ∧ manager s' = manager s.
Proof.
  unfold on_machine, zoom. destruct (m (machine s)) as [w x]. by intros [= <- <-].
Qed.

(** One command of the enabling sequence, by what it leaves of the rules *)
Lemma add_inv (r : rule) (s s' : State W) x :
  on_machine (runCmd Linux "iptables" (iptables_args "-A" r)) s = (s', x) →
  manager s' = manager s ∧
  rules (machine s') = rules (machine s) ++ match x with Ok _ => [r] | Err _ => [] end.
Proof.
  intros (Hm & Hg)%on_machine_inv. split; [done|].
  apply wrap_err_inv in Hm as [([] & Hm & ->)|(e & Hm & ->)]; apply firewall_add in Hm; [done|].
  by rewrite app_nil_r.
Qed.

Lemma sysctl_inv args (s s' : State W) x :
  on_machine (runCmd Linux "sysctl" args) s = (s', x) →
  manager s' = manager s ∧ rules (machine s') = rules (machine s).
Proof.
  intros (Hm & Hg)%on_machine_inv. split; [done|].
  apply wrap_err_inv in Hm as [([] & Hm & _)|(e & Hm & _)]; by apply firewall_sysctl in Hm.
Qed.

Lemma route_inv (s s' : State W) x :
  on_machine linux_defaultOutboundIface s = (s', x) →
  manager s' = manager s ∧ rules (machine s') = rules (machine s) ∧
  ∀ o, x = Ok o → o ≠ "".
Proof.
  intros (Hm & Hg)%on_machine_inv. split; [done|]. unfold linux_defaultOutboundIface in Hm.
  apply bind_inv in Hm as [(e & Hm & ->)|(w1 & out & Hm & Hk)].
  - apply wrap_err_inv in Hm as [(o & Hm & [=])|(e' & Hm & [= ->])].
    apply firewall_route in Hm. done.
  - apply wrap_err_inv in Hm as [(o & Hm & [= ->])|(e' & Hm & [=])].
    apply firewall_route in Hm. rewrite <- Hm.
    destruct (field_after_dev (Fields o)) as [f|] eqn:Ef.
    + injection Hk as -> <-. split; [done|]. intros ? [= <-].
      by eapply Fields_nonempty, field_after_dev_in.
    + by injection Hk as -> <-.
Qed.

(** What a run of the enabling sequence leaves: nothing to undo unless a rule was added, and everything when it succeeds *)
Lemma enableForwarding_inv (s s' : State W) x :
  linux_enableForwarding s = (s', x) →
  ∃ out n, rules (machine s') = rules (machine s) ++
      take n [masquerade out; forward_in (iface (manager s)); forward_out (iface (manager s))] ∧
    match x with
    | Ok _ => n = 3%nat ∧ out ≠ "" ∧ manager s' = set_outIface out (manager s)
    | Err _ => (n < 3)%nat ∧ manager s' = manager s
    end.
Proof.
  unfold linux_enableForwarding. intros [(e & Hm & ->)|(s1 & out & Hm & Hk)]%bind_inv.
  { apply wrap_err_inv in Hm as [(o & Hm & [=])|(e' & Hm & _)]. apply route_inv in Hm as (Hg & Hr & _).
    exists "", 0%nat. rewrite Hr, app_nil_r. split; [done|]. split; [lia|done]. }
  apply wrap_err_inv in Hm as [(o & Hm & [= ->])|(e' & Hm & [=])].
  apply route_inv in Hm as (Hg1 & Hr1 & Hne). specialize (Hne o eq_refl). exists o.
  cbn [get_manager bind] in Hk. rewrite Hg1 in Hk.
  apply bind_inv in Hk as [(e & Hm & ->)|(s2 & [] & Hm & Hk)]; apply sysctl_inv in Hm as [Hg2 Hr2].
  { exists 0%nat. rewrite Hr2, Hr1, app_nil_r, Hg2. split; [done|]. split; [lia|done]. }
  apply bind_inv in Hk as [(e & Hm & ->)|(s3 & [] & Hm & Hk)]; apply add_inv in Hm as [Hg3 Hr3].
  { exists 0%nat. rewrite Hr3, Hr2, Hr1, !app_nil_r, Hg3, Hg2. split; [done|]. split; [lia|done]. }
  apply bind_inv in Hk as [(e & Hm & ->)|(s4 & [] & Hm & Hk)]; apply add_inv in Hm as [Hg4 Hr4].
  { exists 1%nat. rewrite Hr4, Hr3, Hr2, Hr1, app_nil_r, Hg4, Hg3, Hg2. split; [done|]. split; [lia|done]. }
  apply bind_inv in Hk as [(e & Hm & ->)|(s5 & [] & Hm & Hk)]; apply add_inv in Hm as [Hg5 Hr5].
  { exists 2%nat. rewrite Hr5, Hr4, Hr3, Hr2, Hr1, app_nil_r, <- app_assoc, Hg5, Hg4, Hg3, Hg2.
    split; [done|]. split; [lia|done]. }
  injection Hk as <- <-. exists 3%nat. cbn [machine manager].
  by rewrite Hr5, Hr4, Hr3, Hr2, Hr1, <- !app_assoc.
Qed.

Lemma del_inv `{!FirewallUp W} (r : rule) (l : list rule) (s s' : State W) x :
  on_machine (runCmd_ Linux "iptables" (iptables_args "-D" r)) s = (s', x) →
  rules (machine s) ≡ₚ r :: l →
  x = Ok tt ∧ manager s' = manager s ∧ rules (machine s') ≡ₚ l.
Proof.
  intros (Hm & Hg)%on_machine_inv Hl. unfold runCmd_ in Hm.
  apply handle_inv in Hm as (w1 & y & Hm & [= -> <-]). split; [done|]. split; [done|].
  apply (Permutation_cons_inv (a := r)). rewrite <- Hl.
  assert (r ∈ rules (machine s)) by (rewrite Hl; set_solver).
  apply wrap_err_inv in Hm as [(u & Hm & _)|(e & Hm & _)]; by eapply firewall_del_up.
Qed.

(** Disabling removes the three rules of the manager, in a table that has them. *)
Lemma disableForwarding_inv `{!FirewallUp W} (s s' : State W) x (others : list rule) :
  outIface (manager s) ≠ "" →
  rules (machine s) ≡ₚ [masquerade (outIface (manager s)); forward_in (iface (manager s));
    forward_out (iface (manager s))] ++ others →
  linux_disableForwarding s = (s', x) →
  x = Ok tt ∧ manager s' = manager s ∧ rules (machine s') ≡ₚ others.
Proof.
  intros Hout Hr Hk. unfold linux_disableForwarding in Hk. unfold bind at 1, get_manager in Hk.
  rewrite decide_False in Hk by done. unfold bind at 1, ret at 1 in Hk.
  apply bind_inv in Hk as [(e & Hm & ->)|(s2 & [] & Hm & Hk)];
    destruct (del_inv _ _ _ _ _ Hm Hr) as (Hx & Hg2 & Hr0); clear Hr; rename Hr0 into Hr; [done|]; clear Hx.
  apply bind_inv in Hk as [(e & Hm' & ->)|(s3 & [] & Hm' & Hk)];
    destruct (del_inv _ _ _ _ _ Hm' Hr) as (Hx & Hg3 & Hr0); clear Hr; rename Hr0 into Hr; [done|]; clear Hx.
  apply bind_inv in Hk as [(e & Hm'' & ->)|(s4 & [] & Hm'' & Hk)];
    destruct (del_inv _ _ _ _ _ Hm'' Hr) as (Hx & Hg4 & Hr0); clear Hr; rename Hr0 into Hr; [done|]; clear Hx.
  apply on_machine_inv in Hk as [Hk Hg5]. unfold runCmd_ in Hk.
  apply handle_inv in Hk as (w & y & Hk & [= -> <-]). split; [done|]. split; [congruence|].
  rewrite <- Hr.
  apply wrap_err_inv in Hk as [(u & Hk & _)|(e & Hk & _)]; apply firewall_sysctl in Hk; by rewrite Hk.
Qed.

(** C37: Disabling undoes exactly what enabling did: whatever rules others add or remove in between, and wherever the
    default route points by then, the three rules of the gateway are gone afterwards and nothing else is. *)
Theorem Disable_undoes_Enable `{!FirewallUp W} (s s1 : State W) :
  enabled (manager s) = false → Enable Linux s = (s1, Ok tt) →
  ∃ added, length added = 3%nat ∧ rules (machine s1) = rules (machine s) ++ added ∧
    ∀ (s2 s3 : State W) x others, manager s2 = manager s1 → rules (machine s2) ≡ₚ added ++ others →
      Disable Linux s2 = (s3, x) →
      x = Ok tt ∧ rules (machine s3) ≡ₚ others ∧ enabled (manager s3) = false.
Proof.
  intros Hoff He. unfold Enable in He. unfold bind at 1, get_manager at 1 in He. rewrite Hoff in He.
  apply bind_inv in He as [(e & _ & [=])|(s' & [] & He & [= <-])].
  apply wrap_err_inv in He as [([] & He & _)|(e & _ & [=])].
  apply enableForwarding_inv in He as (out & n & Hr & -> & Hout & Hg). cbn [machine manager].
  eexists. split; [|split; [exact Hr|]]; [done|]. intros s2 s3 x others Hg2 Hr2 Hd.
  rewrite Hg in Hg2. unfold Disable in Hd. unfold bind at 1, get_manager at 1 in Hd. rewrite Hg2 in Hd. cbn [enabled set_enabled] in Hd.
  apply bind_inv in Hd as [(e & Hd & ->)|(s4 & [] & Hd & Hk)];
    apply wrap_err_inv in Hd as [(u & Hd & Hu)|(e' & Hd & Hu)]; try done;
    apply (disableForwarding_inv _ _ _ others) in Hd as (Hx & Hg4 & Hr4); rewrite ?Hg2; try done.
  injection Hk as <- <-. done.
Qed.

(** Enabling is not undone when it fails half way: the rules added before the failing command stay, and no later
    Disable removes them. *)
Theorem failed_Enable_leaves_rules (s s1 : State W) e :
  enabled (manager s) = false → Enable Linux s = (s1, Err e) →
  ∃ out n, (n < 3)%nat ∧
    rules (machine s1) = rules (machine s) ++
      take n [masquerade out; forward_in (iface (manager s)); forward_out (iface (manager s))] ∧
    Disable Linux s1 = (s1, Ok tt).
Proof.
  intros Hoff He. unfold Enable in He. unfold bind at 1, get_manager at 1 in He. rewrite Hoff in He.
  apply bind_inv in He as [(e' & He & [= <-])|(s' & [] & _ & [=])].
  apply wrap_err_inv in He as [(u & _ & [=])|(e2 & He & _)].
  apply enableForwarding_inv in He as (out & n & Hr & Hn & Hg). exists out, n. split_and!; [done..|].
  unfold Disable, bind, get_manager. by rewrite Hg, Hoff.
Qed.
End rules.

(** ** A Linux machine: its rules, and which of the next [iptables -A] fail *)

Record Box : Type := { box_rules : list rule; box_fails : list bool }.

Definition decode (args : list string) : option (string * rule) :=
  match args with
  | "-t" :: "nat" :: op :: chain :: spec => Some (op, {| r_nat := true; r_chain := chain; r_spec := spec |})
  | op :: chain :: spec => Some (op, {| r_nat := false; r_chain := chain; r_spec := spec |})
  | _ => None
  end.

#[export] Instance rule_eq_dec : EqDecision rule.
Proof. solve_decision. Defined.

Fixpoint remove_first (r : rule) (l : list rule) : list rule :=
  match l with
  | [] => []
  | r' :: l' => if decide (r' = r) then l' else r' :: remove_first r l'
  end.

Definition exit_status : error := LibErr "exit status 1".

Definition box_iptables (op : string) (r : rule) : M Box unit := λ b,
  if decide (op = "-A") then
    match box_fails b with
    | true :: l => ({| box_rules := box_rules b; box_fails := l |}, Err exit_status)
    | _ => ({| box_rules := box_rules b ++ [r]; box_fails := tail (box_fails b) |}, Ok tt)
    end
  else if decide (r ∈ box_rules b) then
    ({| box_rules := remove_first r (box_rules b); box_fails := box_fails b |}, Ok tt)
  else (b, Err exit_status).

#[export] Instance box_os : OS Box := {|
  run_command name args := λ b,
    if decide (name = "iptables") then
      match decode args with
      | Some (op, r) => box_iptables op r b
      | None => (b, Err exit_status)
      end
    else (b, Ok tt);
  write_file _ _ := ret tt;
  command_output _ _ := ret "8.8.8.8 via 192.0.2.1 dev eth0 src 192.0.2.7";
  read_file _ := throw exit_status;
|}.

Lemma remove_first_in r l : r ∈ l → r :: remove_first r l ≡ₚ l.
Proof.
  induction l as [|r' l IH]; intros Hin; [set_solver|]. cbn [remove_first]. case_decide as E; [by subst|].
  apply elem_of_cons in Hin as [->|Hin]; [done|]. rewrite <- (IH Hin) at 2. by constructor.
Qed.

Lemma box_add r b : run_command "iptables" (iptables_args "-A" r) b = box_iptables "-A" r b.
Proof. by destruct r as [[] chain spec]. Qed.
Lemma box_del r b : run_command "iptables" (iptables_args "-D" r) b = box_iptables "-D" r b.
Proof. by destruct r as [[] chain spec]. Qed.

#[export, refine] Instance box_firewall : Firewall Box := {| rules := box_rules |}.
Proof.
  - intros r w w' x. rewrite box_add. unfold box_iptables. rewrite decide_True by done.
    by destruct (box_fails w) as [|[] l]; intros [= <- <-].
  - intros r w w' x. rewrite box_del. unfold box_iptables. rewrite decide_False by done.
    case_decide; intros [= <- <-]; [right; by apply remove_first_in|by left].
  - by intros args w w' x [= <- <-].
  - by intros w w' x [= <- <-].
Defined.

#[export] Instance box_up : FirewallUp Box.
Proof.
  intros r w w' x Hin. rewrite box_del. unfold box_iptables. rewrite decide_False by done.
  rewrite decide_True by done. intros [= <- <-]. by apply remove_first_in.
Qed.

Definition exit_box (fails : list bool) : State Box :=
  Build_State (New Linux "") {| box_rules := []; box_fails := fails |}.

Lemma Disable_undoes_Enable_witness :
  ∃ added : list rule, length added = 3%nat ∧ ∀ x s3, Disable Linux (Enable Linux (exit_box [])).1 = (s3, x) →
    x = Ok tt ∧ rules (machine s3) ≡ₚ [].
Proof.
  destruct (Disable_undoes_Enable (exit_box []) (Enable Linux (exit_box [])).1 eq_refl
    ltac:(apply run_snd; vm_compute; reflexivity)) as (added & Hl & Hr & Hd).
  exists added. split; [exact Hl|]. intros x s3 Hk.
  destruct (Hd _ s3 x [] eq_refl ltac:(rewrite Hr, app_nil_r; reflexivity) Hk) as (Hx & H3 & _).
  split; [exact Hx|exact H3].
Defined.

(** The second rule fails: the first one stays behind. *)
Lemma failed_Enable_leaves_rules_witness :
  let s1 := (Enable Linux (exit_box [false; true])).1 in
  rules (machine s1) = [masquerade "eth0"] ∧ Disable Linux s1 = (s1, Ok tt).
Proof.
  split; [vm_compute; reflexivity|].
  destruct (failed_Enable_leaves_rules (exit_box [false; true]) (Enable Linux (exit_box [false; true])).1
    (Wrapf "gateway enable failed" (Wrapf "iptables" exit_status)) eq_refl
    ltac:(apply run_snd; vm_compute; reflexivity)) as (out & n & _ & _ & Hd).
  exact Hd.
Defined.

End Gateway.
