(* ===== verification/CliState.v ===== *)
(** The state file that the command line tool and the agent share: cli/internal/state/state.go and
    services/agent/internal/agent/clistate.go.

    Files are those of WireGuard.[OS]; what else the command line tool asks of the machine is the class
    [Host]. Encoding/json on the file's struct is the class [StateJSON]: encoding a state and
    decoding it gives the state back. *)

From S2P Require Import Prelude GoInt GoStrings CircuitBreaker.
From S2P Require Import WireGuard.

(** [State] and the agent's [cliState]: the same fields with the same json names *)
Record State : Type := {
  PID : Z;
  VPNAddr : string;
  Token : string;
  LogFile : string;
  StartedAt : Z;
  ConfigFile : string;
  IsExitNode : bool;
  UseExitNode : bool;
  ExitNodeID : string;
}.

Definition zero_State : State :=
  {| PID := 0; VPNAddr := ""; Token := ""; LogFile := ""; StartedAt := zero_time; ConfigFile := "";
     IsExitNode := false; UseExitNode := false; ExitNodeID := "" |}.

(** [json.Unmarshal(data, &s)] gives what it leaves in a zero [s], and its error. *)
Class StateJSON : Type := {
  Marshal : State → string;
  Unmarshal : string → State * option error;
  Unmarshal_Marshal s : Unmarshal (Marshal s) = (s, None);
}.

(** [err == fs.ErrNotExist] for the error of a missing file *)
Definition ErrNotExist : error := LibErr "file does not exist".
Definition IsNotExist (e : error) : bool := bool_decide (e = ErrNotExist).

(** What else the command line tool does to the machine. A process is known by its pid. *)
Class Host (W : Type) : Type := {
  MkdirAll : string → M W unit;
  Remove : string → M W unit;
  Stat : string → W → bool;
  processExists : Z → W → bool;             (* FindProcess and signal 0 *)
  sendInterrupt : Z → M W unit;
  Kill : Z → M W unit;
  LookPath : string → W → option string;
  OpenLog : string → M W unit;
  StartProcess : string → list string → M W Z;
  Sleep : Z → M W unit;
  TempDir : string;                         (* os.TempDir() and os.UserHomeDir() of the user *)
  HomeDir : string;
  Executable_dir : W → option string;       (* filepath.Dir of os.Executable() *)
  Abs : string → W → string;
}.
#[export] Hint Mode Host + : typeclass_instances.

Definition join (dir file : string) : string := dir +:+ "/" +:+ file.

Section state.
Context `{StateJSON} `{OS W} `{Host W}.

Definition gordion_dir : string := join (TempDir (W:=W)) "gordion".
Definition Path : string := join gordion_dir "state.json".
Definition DefaultLogPath : string := join gordion_dir "agent.log".

Definition Write (s : State) : M W unit :=
  let! _ := wrap_err (Wrapf "create state dir") (MkdirAll gordion_dir) in
  write_file Path (Marshal s).

(** [nil, nil] when there is no file *)
Definition Read : M W (option State) :=
  let? data := read_file Path in
  match data with
  | Err e => if IsNotExist e then ret None else throw e
  | Ok data =>
      match Unmarshal data with
      | (_, Some e) => throw (Wrapf "parse state file" e)
      | (s, None) => ret (Some s)
      end
  end.

Definition Delete : M W unit :=
  let? r := Remove Path in
  match r with
  | Err e => if IsNotExist e then ret tt else throw e
  | Ok _ => ret tt
  end.

Definition IsRunning (s : option State) (w : W) : bool :=
  match s with
  | None => false
  | Some s => if PID s =? 0 then false else processExists (PID s) w
  end.

(** What the agent puts into a state, keeping the rest *)
Definition merge (isExit useExit : bool) (exitID vpnAddr token : string) (s : State) : State :=
  {| PID := PID s; VPNAddr := vpnAddr; Token := token; LogFile := LogFile s; StartedAt := StartedAt s;
     ConfigFile := ConfigFile s; IsExitNode := isExit; UseExitNode := useExit; ExitNodeID := exitID |}.

(** The agent's [updateCLIState], with its configuration's three exit node fields *)
Definition updateCLIState (isExit useExit : bool) (exitID vpnAddr token : string) : M W unit :=
  let? data := read_file Path in
  let s := match data with Ok data => (Unmarshal data).1 | Err _ => zero_State end in
  let? _ := write_file Path (Marshal (merge isExit useExit exitID vpnAddr token s)) in
  ret tt.
End state.

(** ** A codec, to show that the interface can be implemented *)

Definition state_tuple (s : State) : Z * string * string * string * Z * string * bool * bool * string :=
  (PID s, VPNAddr s, Token s, LogFile s, StartedAt s, ConfigFile s, IsExitNode s, UseExitNode s, ExitNodeID s).
Definition tuple_state (t : Z * string * string * string * Z * string * bool * bool * string) : State :=
  let '(a, b, c, d, e, f, g, h, i) := t in
  {| PID := a; VPNAddr := b; Token := c; LogFile := d; StartedAt := e; ConfigFile := f; IsExitNode := g;
     UseExitNode := h; ExitNodeID := i |}.

Definition bits_state_json : StateJSON.
Proof.
  refine {| Marshal s := bits_of (encode (state_tuple s));
            Unmarshal text := match decode (of_bits text) with
                              | Some t => (tuple_state t, None)
                              | None => (zero_State, Some (LibErr "invalid character"))
                              end |}.
  intros s. rewrite of_bits_of, decode_encode. by destruct s.
Defined.
