(* ===== verification/Agent.v ===== *)
(** services/agent/internal/agent: the agent's start, its loops and its stop.

    libp2p (host.go and the relays of Bridge.v behind it) is the class [P2P], the machine the class
    WireGuard.[OS], timers the class [Timer], randomness and curve25519 the class [Keys]; contexts other
    than the call's metadata are the answers of [wait]. Go's map iteration order is an argument. A
    loop's body is an operation; a goroutine that only touches the bridge is handed to [spawn]. *)

From S2P Require Import Prelude GoInt GoStrings GoNet Grpc CircuitBreaker Configs Client Gateway CliState.
From S2P Require WireGuard Discovery ConfigService Allocator Identity Bridge.
Import AgentConfig.

(** libp2p's peer.AddrInfo; a peer.ID is its bytes. *)
Record AddrInfo : Type := { ai_ID : string; ai_Addrs : list string }.

(** p2p.Manager and p2p.Bridge as the agent calls them; P2PHost.v has what is behind them. *)
Class P2P (W : Type) : Type := {
  p2p_New : Z → M W unit;
  p2p_PeerID : W → string;
  p2p_Multiaddrs : W → list string;
  p2p_GetPeerInfo : string → res AddrInfo;
  p2p_ConnectAndPing : AddrInfo → M W unit;
  p2p_Close : M W unit;
  p2p_NewBridge : Z → Z → M W unit;
  bridge_RegisterIncoming : M W unit;
  bridge_AddPeer : string → M W Z;
  bridge_GetProxyPort : string → W → option Z;
  bridge_Close : M W unit;
  spawn : M W unit → M W unit;                        (* go f() *)
}.
#[export] Hint Mode P2P + : typeclass_instances.

(** [select { case <-ctx.Done(): ...; case <-time.After(d): ... }]: [true] when the context ended first;
    and [time.Sleep] *)
Class Timer (W : Type) : Type := {
  wait : Z → W → W * bool;
  sleep : Z → W → W;
}.
#[export] Hint Mode Timer + : typeclass_instances.

Class Keys (W : Type) : Type := {
  rand_Read : W → W * res (list Z);                   (* 32 bytes *)
  ScalarBaseMult : list Z → list Z;
}.
#[export] Hint Mode Keys + : typeclass_instances.

(** [p2p_mgr] and [bridge] tell whether the pointers are set. *)
Record Agent : Type := {
  cfg : Config;
  wg_mgr : WireGuard.Manager;
  gateway : Gateway.Manager;
  p2p_mgr : bool;
  bridge : bool;
  nodeID : string;
  vpnIP : string;
  publicKey : string;
  token : string;
  expiresAt : Z;
  activePeers : gmap string string;
}.

Definition set_activePeers (m : gmap string string) (a : Agent) : Agent :=
  {| cfg := cfg a; wg_mgr := wg_mgr a; gateway := gateway a; p2p_mgr := p2p_mgr a; bridge := bridge a;
     nodeID := nodeID a; vpnIP := vpnIP a; publicKey := publicKey a;
     token := token a; expiresAt := expiresAt a; activePeers := m |}.
Definition setToken (t : string) (e : Z) (a : Agent) : Agent :=
  {| cfg := cfg a; wg_mgr := wg_mgr a; gateway := gateway a; p2p_mgr := p2p_mgr a; bridge := bridge a;
     nodeID := nodeID a; vpnIP := vpnIP a; publicKey := publicKey a;
     token := t; expiresAt := e; activePeers := activePeers a |}.
Definition set_nodeID (id : string) (a : Agent) : Agent :=
  {| cfg := cfg a; wg_mgr := wg_mgr a; gateway := gateway a; p2p_mgr := p2p_mgr a; bridge := bridge a;
     nodeID := id; vpnIP := vpnIP a; publicKey := publicKey a;
     token := token a; expiresAt := expiresAt a; activePeers := activePeers a |}.
Definition set_vpnIP (ip : string) (a : Agent) : Agent :=
  {| cfg := cfg a; wg_mgr := wg_mgr a; gateway := gateway a; p2p_mgr := p2p_mgr a; bridge := bridge a;
     nodeID := nodeID a; vpnIP := ip; publicKey := publicKey a;
     token := token a; expiresAt := expiresAt a; activePeers := activePeers a |}.
Definition set_publicKey (k : string) (a : Agent) : Agent :=
  {| cfg := cfg a; wg_mgr := wg_mgr a; gateway := gateway a; p2p_mgr := p2p_mgr a; bridge := bridge a;
     nodeID := nodeID a; vpnIP := vpnIP a; publicKey := k;
     token := token a; expiresAt := expiresAt a; activePeers := activePeers a |}.
Definition set_gateway (g : Gateway.Manager) (a : Agent) : Agent :=
  {| cfg := cfg a; wg_mgr := wg_mgr a; gateway := g; p2p_mgr := p2p_mgr a; bridge := bridge a;
     nodeID := nodeID a; vpnIP := vpnIP a; publicKey := publicKey a;
     token := token a; expiresAt := expiresAt a; activePeers := activePeers a |}.
Definition set_p2p (p2p_set bridge_set : bool) (a : Agent) : Agent :=
  {| cfg := cfg a; wg_mgr := wg_mgr a; gateway := gateway a; p2p_mgr := p2p_set; bridge := bridge_set;
     nodeID := nodeID a; vpnIP := vpnIP a; publicKey := publicKey a;
     token := token a; expiresAt := expiresAt a; activePeers := activePeers a |}.

(** The agent, its client, and the world *)
Record Sys (W : Type) : Type := { agent : Agent; client : Client W }.
Arguments agent {W}.
Arguments client {W}.
Arguments Build_Sys {W}.

Definition on_client {W A} (m : M (Client W) A) : M (Sys W) A :=
  zoom client (λ c s, Build_Sys (agent s) c) m.
Definition on_world {W A} (m : M W A) : M (Sys W) A := on_client (Client.on_world m).
Definition get_agent {W} : M (Sys W) Agent := λ s, (s, Ok (agent s)).
Definition get_world {W} : M (Sys W) W := λ s, (s, Ok (world (client s))).
Definition update {W} (f : Agent → Agent) : M (Sys W) unit := λ s,
  (Build_Sys (f (agent s)) (client s), Ok tt).
Definition on_gateway {W A} (m : M (Gateway.State W) A) : M (Sys W) A :=
  zoom (λ s, Gateway.Build_State (gateway (agent s)) (world (client s)))
    (λ g s, Build_Sys (set_gateway (Gateway.manager g) (agent s)) (set_world (Gateway.machine g) (client s))) m.

(** ** maskToCIDR *)

Definition maskToCIDR `{Net6} (mask : string) : Z :=
  match ParseIP mask with
  | None => 24
  | Some ip => match To4 ip with Some m => Size m | None => 0 end
  end.

(** ** Registration with retries *)

Definition maxRetries : nat := 5.

Definition backoff (i : nat) : Z := 2 ^ Z.of_nat i * Second.

Definition context_error : error := LibErr "context canceled".

Section agent.
Context `{StatusLib} `{Net6} `{StateJSON} `{Services W} `{Dialer W} `{Clock W} `{P2P W} `{WireGuard.OS W}
  `{Host W} `{Timer W} `{Keys W}.

(** The attempts from the [i]-th on, [left] of them *)
Fixpoint attempts (ctx : Context) (publicKey : string) (i left : nat) : M (Sys W) (string * string * Z) :=
  match left with
  | O => throw (Errorf "unreachable")
  | S left' =>
      let! w := get_world in
      let! a := get_agent in
      let? r := on_client (Register ctx publicKey (p2p_PeerID w) (NetworkSecret (cfg a))) in
      match r with
      | Ok (id, t, e) => ret (id, t, e)
      | Err e =>
          if Nat.eqb i (maxRetries - 1) then
            throw (Wrapf ("registration failed after " +:+ Itoa (Z.of_nat maxRetries) +:+ " attempts") e)
          else
            let! cancelled := on_world (λ w, let '(w', d) := wait (backoff i) w in (w', Ok d)) in
            if cancelled then throw context_error else attempts ctx publicKey (S i) left'
      end
  end.

Definition retryRegister (ctx : Context) (publicKey : string) : M (Sys W) (string * string * Z) :=
  attempts ctx publicKey 0 maxRetries.

(** ** Peer synchronisation *)

(** The loop that picks the exit node; [chosen] is [exitNodeID] so far. *)
Fixpoint choose_exit (want self : string) (peers : list Discovery.PeerInfo) (chosen : string) : string :=
  match peers with
  | [] => chosen
  | p :: rest =>
      if negb (Discovery.pi_IsExitNode p) || bool_decide (Discovery.pi_NodeId p = self)
      then choose_exit want self rest chosen
      else if bool_decide (want ≠ "") && bool_decide (Discovery.pi_NodeId p = want)
      then Discovery.pi_NodeId p
      else if bool_decide (want = "") && bool_decide (chosen = "")
      then choose_exit want self rest (Discovery.pi_NodeId p)
      else choose_exit want self rest chosen
  end.

Definition exit_node (a : Agent) (peers : list Discovery.PeerInfo) : string :=
  if UseExitNode (cfg a) then choose_exit (ExitNodeID (cfg a)) (nodeID a) peers "" else "".

(** The online peers but this one, with their public keys *)
Fixpoint online_peers (ctx : Context) (self : string) (peers : list Discovery.PeerInfo)
    (online : gmap string string) : M (Sys W) (gmap string string) :=
  match peers with
  | [] => ret online
  | p :: rest =>
      if decide (Discovery.pi_NodeId p = self) then online_peers ctx self rest online
      else
        let? key := on_client (GetPeerPublicKey ctx (Discovery.pi_NodeId p)) in
        match key with
        | Err _ => online_peers ctx self rest online
        | Ok key => online_peers ctx self rest (<[Discovery.pi_NodeId p := key]> online)
        end
  end.

(** The first peer of the list with this id *)
Definition find_peer (id : string) (peers : list Discovery.PeerInfo) : option Discovery.PeerInfo :=
  find (λ p, bool_decide (Discovery.pi_NodeId p = id)) peers.

(** The relay's port for a peer with these addresses, 0 if there is none *)
Definition proxy_port (addrs : list string) : M (Sys W) Z :=
  match addrs with
  | [] => ret 0
  | addr :: _ =>
      match p2p_GetPeerInfo (W:=W) addr with
      | Err _ => ret 0
      | Ok pInfo =>
          let? ping := on_world (p2p_ConnectAndPing pInfo) in
          match ping with
          | Err _ => ret 0
          | Ok _ => let? port := on_world (bridge_AddPeer (ai_ID pInfo)) in
                    ret (match port with Ok n => n | Err _ => 0 end)
          end
      end
  end.

Definition allowed_ips (exitNodeID networkCIDR id vpn : string) : string :=
  if decide (id = exitNodeID) then "0.0.0.0/0, ::/0"
  else if decide (vpn = "") then networkCIDR else vpn +:+ "/32".

(** The body of the loop that adds a peer *)
Definition add_peer (peers : list Discovery.PeerInfo) (exitNodeID networkCIDR : string) (id pubKey : string) :
    M (Sys W) unit :=
  let! a := get_agent in
  match activePeers a !! id with
  | Some _ => ret tt
  | None =>
      let addrs := match find_peer id peers with Some p => Discovery.pi_P2PAddrs p | None => [] end in
      let vpn := match find_peer id peers with Some p => Discovery.pi_IpAddress p | None => "" end in
      let! proxyPort := proxy_port addrs in
      if proxyPort =? 0 then ret tt
      else
        try! r := on_world (WireGuard.AddPeer (wg_mgr a)
          {| WireGuard.pc_PublicKey := pubKey; WireGuard.pc_Endpoint := "127.0.0.1:" +:+ Itoa proxyPort;
             WireGuard.pc_AllowedIPs := allowed_ips exitNodeID networkCIDR id vpn |}) in
        match r with
        | Err _ => ret tt
        | Ok _ => update (λ a, set_activePeers (<[id := pubKey]> (activePeers a)) a)
        end
  end.

Fixpoint add_peers (peers : list Discovery.PeerInfo) (exitNodeID networkCIDR : string)
    (todo : list (string * string)) : M (Sys W) unit :=
  match todo with
  | [] => ret tt
  | (id, pubKey) :: rest =>
      let! _ := add_peer peers exitNodeID networkCIDR id pubKey in
      add_peers peers exitNodeID networkCIDR rest
  end.

(** The loop that removes the peers that are no longer online *)
Fixpoint remove_peers (online : gmap string string) (todo : list (string * string)) : M (Sys W) unit :=
  match todo with
  | [] => ret tt
  | (id, pubKey) :: rest =>
      match online !! id with
      | Some _ => remove_peers online rest
      | None =>
          let! a := get_agent in
          try! r := on_world (WireGuard.RemovePeer (wg_mgr a) pubKey) in
          match r with
          | Err _ => remove_peers online rest
          | Ok _ =>
              let! _ := update (λ a, set_activePeers (delete id (activePeers a)) a) in
              remove_peers online rest
          end
      end
  end.

(** [range] gives the order of a map's iteration. *)
Definition syncPeers (range : gmap string string → list (string * string)) (ctx : Context)
    (networkCIDR : string) : M (Sys W) unit :=
  let! a := get_agent in
  let? peers := on_client (DiscoverPeers ctx (token a) 50) in
  match peers with
  | Err _ => ret tt
  | Ok peers =>
      let exitNodeID := exit_node a peers in
      let! online := online_peers ctx (nodeID a) peers ∅ in
      let! _ := add_peers peers exitNodeID networkCIDR (range online) in
      let! a := get_agent in
      remove_peers online (range (activePeers a))
  end.

(** ** The loops' bodies *)

(** [time.Duration(math.Min(float64(failCount*failCount), 60)) * time.Second] *)
Definition heartbeat_backoff (failCount : Z) : Z := Z.min (failCount * failCount) 60 * Second.

(** One tick of [heartbeatLoop], with its count of failures *)
Definition heartbeat_tick (ctx : Context) (failCount : Z) : M (Sys W) Z :=
  let! a := get_agent in
  let? r := on_client (Client.Heartbeat ctx (token a)) in
  match r with
  | Err _ =>
      let failCount := failCount + 1 in
      let! _ := on_world (λ w, (sleep (heartbeat_backoff failCount) w, Ok tt)) in
      ret failCount
  | Ok _ => ret 0
  end.

(** When [tokenRefreshLoop] refreshes: after 0.8 of the remaining time ([scaled], a float64 product in
    the source), but not within 30 seconds *)
Definition refresh_in (scaled : Z) : Z := if scaled <? 30 * Second then 30 * Second else scaled.

(** A round of [tokenRefreshLoop] once its timer has fired *)
Definition token_refresh (ctx : Context) : M (Sys W) unit :=
  let! a := get_agent in
  let? r := retryRegister ctx (publicKey a) in
  match r with
  | Err _ => ret tt
  | Ok (_, t, e) => update (setToken t e)
  end.

(** ** Start *)

Definition generate_keys : M W WireGuard.KeyPair := λ w,
  let '(w', random) := rand_Read w in
  (w', WireGuard.GenerateKeyPair (ScalarBaseMult (W:=W)) random).

(** [s[:16]] in the arguments of a log call *)
Definition first16 (s : string) : M (Sys W) string :=
  match slice_to s 16 with
  | Some t => ret t
  | None => throw (Panic "slice bounds out of range")
  end.

(** The goroutine that bridges a peer *)
Definition bridge_peer (addr : string) : M W unit :=
  match p2p_GetPeerInfo (W:=W) addr with
  | Err _ => ret tt
  | Ok pInfo =>
      let? ping := p2p_ConnectAndPing pInfo in
      match ping with
      | Err _ => ret tt
      | Ok _ => let? _ := bridge_AddPeer (ai_ID pInfo) in ret tt
      end
  end.

Fixpoint bridge_peers (self : string) (peers : list Discovery.PeerInfo) : M (Sys W) unit :=
  match peers with
  | [] => ret tt
  | p :: rest =>
      if decide (Discovery.pi_NodeId p = self) then bridge_peers self rest
      else
        match Discovery.pi_P2PAddrs p with
        | [] => bridge_peers self rest
        | addr :: _ => let! _ := on_world (spawn (bridge_peer addr)) in bridge_peers self rest
        end
  end.

(** The loop over the discovered peers that fills [wgCfg.Peers] *)
Fixpoint initial_peers (ctx : Context) (self : string) (peers : list Discovery.PeerInfo)
    (acc : list WireGuard.PeerConfig) : M (Sys W) (list WireGuard.PeerConfig) :=
  match peers with
  | [] => ret acc
  | p :: rest =>
      if decide (Discovery.pi_NodeId p = self) then initial_peers ctx self rest acc
      else
        let? key := on_client (GetPeerPublicKey ctx (Discovery.pi_NodeId p)) in
        match key with
        | Err _ => initial_peers ctx self rest acc
        | Ok peerKey =>
            match Discovery.pi_P2PAddrs p with
            | [] => throw (Panic "index out of range")
            | addr :: _ =>
                let! w := get_world in
                match (match p2p_GetPeerInfo (W:=W) addr with
                       | Ok pInfo => bridge_GetProxyPort (ai_ID pInfo) w
                       | Err _ => None
                       end) with
                | None => initial_peers ctx self rest acc
                | Some port =>
                    let! _ := update (λ a, set_activePeers
                      (<[Discovery.pi_NodeId p := peerKey]> (activePeers a)) a) in
                    initial_peers ctx self rest (acc ++
                      [{| WireGuard.pc_PublicKey := peerKey;
                          WireGuard.pc_Endpoint := "127.0.0.1:" +:+ Itoa port;
                          WireGuard.pc_AllowedIPs := Discovery.pi_IpAddress p +:+ "/32" |}])
                end
            end
        end
  end.

Definition choose_dns (c : Config) (servers : list string) : string :=
  if UseExitNode c then ExitNodeDNS c
  else match servers with [] => "" | _ => Join ", " servers end.

(** Returns the network that [peerSyncLoop] is started with. *)
Definition Start (p : Platform) (ctx : Context) : M (Sys W) string :=
  let! a := get_agent in
  let c := cfg a in
  let! _ := wrap_err (Wrapf "failed to start p2p host") (on_world (p2p_New (P2PPort c))) in
  let! _ := update (set_p2p true (bridge a)) in
  let! _ := wrap_err (Wrapf "failed to create bridge")
    (on_world (p2p_NewBridge (WireGuardPort c) (wrap64 (WireGuardPort c + 100)))) in
  let! _ := update (set_p2p true true) in
  let! _ := on_world bridge_RegisterIncoming in
  let! keyPair := on_world generate_keys in
  let! _ := update (set_publicKey (WireGuard.PublicKey keyPair)) in
  let! _ := first16 (WireGuard.PublicKey keyPair) in
  let! '(node, tok, exp) := retryRegister ctx (WireGuard.PublicKey keyPair) in
  let! _ := update (set_nodeID node) in
  let! _ := update (setToken tok exp) in
  let! netCfg := on_client (GetNetworkConfig ctx tok) in
  let! '(ip, subnet, _) := on_client (RequestIP ctx tok node) in
  let! _ := update (set_vpnIP ip) in
  let! _ := on_world (updateCLIState (IsExitNode c) (UseExitNode c) (ExitNodeID c) ip tok) in
  let! w := get_world in
  let! _ := on_client (RegisterPeer ctx tok ip (wrap32 (WireGuardPort c)) (p2p_PeerID w) (p2p_Multiaddrs w)
    (IsExitNode c)) in
  let! _ := (if IsExitNode c then let? _ := on_gateway (Gateway.Enable p) in ret tt else ret tt) in
  let? found := on_client (DiscoverPeers ctx tok 10) in
  let! peers := (match found with
                 | Err _ => ret []
                 | Ok peers => let! _ := bridge_peers node peers in ret peers
                 end) in
  let! wgPeers := initial_peers ctx node peers [] in
  let? _ := on_world (WireGuard.Configure (wg_mgr a)
    {| WireGuard.cfg_PrivateKey := WireGuard.PrivateKey keyPair; WireGuard.cfg_ListenPort := WireGuardPort c;
       WireGuard.cfg_Address := ip +:+ "/" +:+ Itoa (maskToCIDR subnet);
       WireGuard.cfg_MTU := ConfigService.Mtu netCfg; WireGuard.cfg_DNS := choose_dns c (ConfigService.DnsServers netCfg);
       WireGuard.cfg_Peers := wgPeers |}) in
  ret (ConfigService.NetworkCidr netCfg).

(** [Stop], from where the three loops have ended *)
Definition Stop (p : Platform) : M (Sys W) unit :=
  let! a := get_agent in
  let! _ := (if decide (vpnIP a ≠ "" ∧ token a ≠ "")
             then let? _ := on_client (ReleaseIP Background (token a) (nodeID a) (vpnIP a)) in ret tt
             else ret tt) in
  let? _ := on_world (WireGuard.Down (wg_mgr a)) in
  let! _ := (if bridge a then let? _ := on_world bridge_Close in ret tt else ret tt) in
  let! _ := (if p2p_mgr a then let? _ := on_world p2p_Close in ret tt else ret tt) in
  let! _ := (if IsExitNode (cfg a) then let? _ := on_gateway (Gateway.Disable p) in ret tt else ret tt) in
  on_client Client.Close.

Definition New (os : WireGuard.Goos) (p : Platform) (tempDir : string) (userConfigDir : option string) (c : Config) :
    M W (Sys W) :=
  let! cl := Client.New (IdentityAddr c) (DiscoveryAddr c) (ConfigAddr c) (TLSCACert c) in
  match DryRun c with
  | None => throw (Panic "invalid memory address or nil pointer dereference")
  | Some dryRun =>
      ret {| agent := {| cfg := c; wg_mgr := WireGuard.NewManager os tempDir userConfigDir dryRun;
                         gateway := Gateway.New p ""; p2p_mgr := false; bridge := false; nodeID := "";
                         vpnIP := ""; publicKey := ""; token := ""; expiresAt := 0; activePeers := ∅ |};
             client := cl |}
  end.
End agent.
