(* ===== verification/AgentLab.v ===== *)
(** A concrete world to run the agent in: the three services, libp2p, wg and the files of one machine, with a log of
    what is done to it. It is an instance of every interface the agent uses. *)

From S2P Require Import Prelude GoInt GoStrings GoNet Grpc CircuitBreaker Configs Client Gateway CliState Agent.
From S2P Require WireGuard Discovery ConfigService Allocator Identity.

(** [l_left] is the number of registrations that will fail; [l_waited] is the time spent in timers; [l_beats] are the heartbeats
    received, each with its time and token. *)
Record Lab : Type := {
  l_now : Z;
  l_waited : Z;
  l_left : nat;
  l_peers : list Discovery.PeerInfo;
  l_bridged : gmap string Z;
  l_files : gmap string string;
  l_log : list (string * list string);
  l_beats : list (Z * string);
}.

Definition set_clock (now waited : Z) (l : Lab) : Lab :=
  {| l_now := now; l_waited := waited; l_left := l_left l; l_peers := l_peers l; l_bridged := l_bridged l;
     l_files := l_files l; l_log := l_log l; l_beats := l_beats l |}.
Definition set_left (n : nat) (l : Lab) : Lab :=
  {| l_now := l_now l; l_waited := l_waited l; l_left := n; l_peers := l_peers l; l_bridged := l_bridged l;
     l_files := l_files l; l_log := l_log l; l_beats := l_beats l |}.
Definition set_bridged (m : gmap string Z) (l : Lab) : Lab :=
  {| l_now := l_now l; l_waited := l_waited l; l_left := l_left l; l_peers := l_peers l; l_bridged := m;
     l_files := l_files l; l_log := l_log l; l_beats := l_beats l |}.
Definition put_file (path text : string) (l : Lab) : Lab :=
  {| l_now := l_now l; l_waited := l_waited l; l_left := l_left l; l_peers := l_peers l; l_bridged := l_bridged l;
     l_files := <[path := text]> (l_files l); l_log := l_log l; l_beats := l_beats l |}.
Definition log_command (name : string) (args : list string) (l : Lab) : Lab :=
  {| l_now := l_now l; l_waited := l_waited l; l_left := l_left l; l_peers := l_peers l; l_bridged := l_bridged l;
     l_files := l_files l; l_log := l_log l ++ [(name, args)];
     l_beats := l_beats l |}.
Definition beat (token : string) (l : Lab) : Lab :=
  {| l_now := l_now l; l_waited := l_waited l; l_left := l_left l; l_peers := l_peers l; l_bridged := l_bridged l;
     l_files := l_files l; l_log := l_log l; l_beats := l_beats l ++ [(l_now l, token)] |}.

Definition act (f : Lab → Lab) : M Lab unit := λ l, (f l, Ok tt).

#[export] Instance lab_clock : Clock Lab := l_now.

Definition registration : Identity.RegisterNodeResponse :=
  {| Identity.rn_NodeId := "me"; Identity.rn_Token := "token"; Identity.rn_ExpiresAt := 86400 |}.
Definition out_of_service : error := StatusErr Unavailable "connection refused".
Definition key_of (id : string) : string := "key-of-" +:+ id.

#[export] Instance lab_services : Services Lab := {|
  rpc_RegisterNode _ _ := λ l,
    match l_left l with O => (l, Ok registration) | S n => (set_left n l, Err out_of_service) end;
  rpc_GetPublicKey _ id := ret (key_of id);
  rpc_GetConfig _ _ := ret {| ConfigService.NetworkCidr := "10.8.0.0/16"; ConfigService.Mtu := 1420;
    ConfigService.DnsServers := ["1.1.1.1"]; ConfigService.ConfigVersion := 1; ConfigService.UpToDate := false |};
  rpc_RequestIP _ _ := ret {| ConfigService.rp_IpAddress := "10.8.0.2"; ConfigService.rp_SubnetMask := "255.255.0.0";
    ConfigService.rp_Gateway := "10.8.0.1" |};
  rpc_ReleaseIP _ _ := ret {| ConfigService.Success := true; ConfigService.Message := "" |};
  rpc_RegisterPeer _ _ := ret {| Discovery.rg_Success := true; Discovery.rg_Message := "" |};
  rpc_ListPeers _ _ := λ l, (l, Ok {| Discovery.lp_Peers := l_peers l |});
  rpc_Heartbeat _ req := λ l, (beat (Discovery.hb_Token req) l, Ok {| Discovery.hb_Success := true; Discovery.hb_Ttl := 30 |});
|}.

#[export] Instance lab_dialer : Dialer Lab :=
  {| ClientCredentials _ := ret tt; grpc_NewClient _ := ret 0%nat; conn_Close _ := ret tt |}.

(** A spawned goroutine runs at once. *)
#[export] Instance lab_p2p : P2P Lab := {|
  p2p_New _ := ret tt;
  p2p_PeerID _ := "peer-me";
  p2p_Multiaddrs _ := ["/ip4/192.0.2.7/tcp/4001/p2p/peer-me"];
  p2p_GetPeerInfo addr := Ok {| ai_ID := addr; ai_Addrs := [] |};
  p2p_ConnectAndPing _ := ret tt;
  p2p_Close := ret tt;
  p2p_NewBridge _ _ := ret tt;
  bridge_RegisterIncoming := ret tt;
  bridge_AddPeer pid := λ l,
    match l_bridged l !! pid with
    | Some port => (l, Ok port)
    | None => let port := 51920 + Z.of_nat (size (l_bridged l)) in (set_bridged (<[pid := port]> (l_bridged l)) l, Ok port)
    end;
  bridge_GetProxyPort pid l := l_bridged l !! pid;
  bridge_Close := ret tt;
  spawn m := let? _ := m in ret tt;
|}.

#[export] Instance lab_os : WireGuard.OS Lab := {|
  WireGuard.run_command name args := act (log_command name args);
  WireGuard.write_file path text := act (put_file path text);
  WireGuard.command_output _ _ := ret "";
  WireGuard.read_file path := λ l,
    match l_files l !! path with Some text => (l, Ok text) | None => (l, Err ErrNotExist) end;
|}.

#[export] Instance lab_host : Host Lab := {|
  MkdirAll _ := ret tt;
  Remove _ := ret tt;
  Stat path l := bool_decide (is_Some (l_files l !! path));
  processExists _ _ := true;
  sendInterrupt _ := ret tt;
  Kill _ := ret tt;
  LookPath _ _ := None;
  OpenLog _ := ret tt;
  StartProcess _ _ := ret 1;
  Sleep _ := ret tt;
  TempDir := "/tmp";
  HomeDir := "/root";
  Executable_dir _ := None;
  Abs path _ := path;
|}.

#[export] Instance lab_timer : Timer Lab := {|
  wait d l := (set_clock (l_now l + Z.max 0 d) (l_waited l + d) l, false);
  sleep d l := set_clock (l_now l + Z.max 0 d) (l_waited l + d) l;
|}.

(** The public key is the private key here. *)
#[export] Instance lab_keys : Keys Lab :=
  {| rand_Read l := (l, Ok (replicate 32 7)); ScalarBaseMult k := k |}.

(** ** An agent on it *)

Definition lab_peer (id ip : string) (addrs : list string) (exitNode : bool) : Discovery.PeerInfo :=
  {| Discovery.pi_NodeId := id; Discovery.pi_IpAddress := ip; Discovery.pi_Port := 51820; Discovery.pi_Region := "";
     Discovery.pi_PeerId := "peer-" +:+ id; Discovery.pi_P2PAddrs := addrs; Discovery.pi_IsExitNode := exitNode;
     Discovery.pi_LastSeen := 0 |}.

Definition myself : Discovery.PeerInfo := lab_peer "me" "10.8.0.2" ["/p2p/peer-me"] false.
Definition gate : Discovery.PeerInfo := lab_peer "gate" "10.8.0.3" ["/p2p/peer-gate"] true.
Definition friend : Discovery.PeerInfo := lab_peer "friend" "10.8.0.4" ["/p2p/peer-friend"] false.
Definition hermit : Discovery.PeerInfo := lab_peer "hermit" "10.8.0.5" [] false.

Definition lab (left : nat) (peers : list Discovery.PeerInfo) : Lab :=
  {| l_now := 0; l_waited := 0; l_left := left; l_peers := peers; l_bridged := ∅; l_files := ∅; l_log := [];
     l_beats := [] |}.

(** A configuration that routes through an exit node, with commands really run *)
Definition lab_config : AgentConfig.Config := AgentConfig.setDefaults
  {| AgentConfig.IdentityAddr := ""; AgentConfig.DiscoveryAddr := ""; AgentConfig.ConfigAddr := "";
     AgentConfig.LogLevel := ""; AgentConfig.Heartbeat := 0; AgentConfig.PeerSyncInterval := 0;
     AgentConfig.DryRun := Some false; AgentConfig.WireGuardPort := 0; AgentConfig.P2PPort := 0;
     AgentConfig.TLSCACert := ""; AgentConfig.NetworkSecret := "s"; AgentConfig.IsExitNode := false;
     AgentConfig.UseExitNode := true; AgentConfig.ExitNodeID := ""; AgentConfig.ExitNodeDNS := "" |}.

Definition lab_agent (active : gmap string string) : Agent :=
  {| cfg := lab_config; wg_mgr := WireGuard.NewManager WireGuard.linux "/tmp" None false;
     gateway := Gateway.New Linux ""; p2p_mgr := true; bridge := true; nodeID := "me"; vpnIP := "10.8.0.2";
     publicKey := "my-key"; token := "token"; expiresAt := 86400; activePeers := active |}.

Definition lab_sys (active : gmap string string) (left : nat) (peers : list Discovery.PeerInfo) : Sys Lab :=
  Build_Sys (lab_agent active) (new_client 0 0 0 (lab left peers)).

#[export] Existing Instance bits_state_json.
#[export] Existing Instance no_ip6.

(** The system after [New] and [Start] *)
Definition started (peers : list Discovery.PeerInfo) : res (Sys Lab * res string) :=
  match New WireGuard.linux Linux "/tmp" None lab_config (lab 0 peers) with
  | (_, Ok s) => Ok (Start Linux Background s)
  | (_, Err e) => Err e
  end.
