(* ===== verification/AgentSpec.v ===== *)
(** What the agent of Agent.v guarantees: its registration in an outage, the exit node it chooses, its tunnel address,
    and what a round of peer synchronisation makes of the active peers; with runs on the machine of
    AgentLab.v. *)

From S2P Require Import Prelude GoInt GoStrings GoNet Grpc CircuitBreaker Configs Client Gateway CliState Agent AgentLab.
From S2P Require WireGuard Discovery ConfigService Allocator Identity.
Import AgentConfig.

(** ** The tunnel address *)

(** The prefix length the agent reads out of the subnet mask it is given is the network's. *)
Theorem maskToCIDR_SubnetMask `{Net6} n ones :
  cidr_net ones n → maskToCIDR (Allocator.SubnetMask (Allocator.allocator_of n)) = Z.of_nat ones.
Proof.
  intros [Ho _ Hm _]. unfold maskToCIDR, Allocator.SubnetMask. cbn [Allocator.network Allocator.allocator_of].
  rewrite Hm. assert (is_ip4 (CIDRMask ones 4)) as Hi by (split; [apply CIDRMask_length|apply CIDRMask_bytes]).
  rewrite take_ge by (rewrite CIDRMask_length; lia).
  rewrite <- is_ip4_String, ParseIP_String, To4_ip4 by done. by apply Size_CIDRMask.
Qed.

(** ** The exit node *)

Definition exit_candidate (a : Agent) (p : Discovery.PeerInfo) : bool :=
  Discovery.pi_IsExitNode p && negb (bool_decide (Discovery.pi_NodeId p = nodeID a)) &&
  (bool_decide (ExitNodeID (cfg a) = "") || bool_decide (Discovery.pi_NodeId p = ExitNodeID (cfg a))).

Lemma choose_exit_chosen self peers chosen : chosen ≠ "" → choose_exit "" self peers chosen = chosen.
Proof.
  intros Hc. induction peers as [|p rest IH]; [done|]. cbn [choose_exit]. rewrite IH.
  rewrite (bool_decide_false (chosen = "")) by done. rewrite andb_false_r.
  rewrite (bool_decide_false (("" : string) ≠ "")) by auto. simpl. by destruct (_ || _).
Qed.

Lemma choose_exit_find a peers :
  Forall (λ p, Discovery.pi_NodeId p ≠ "") peers →
  choose_exit (ExitNodeID (cfg a)) (nodeID a) peers "" =
    default "" (Discovery.pi_NodeId <$> List.find (exit_candidate a) peers).
Proof.
  induction 1 as [|p rest Hp _ IH]; [done|]. cbn [choose_exit List.find]. unfold exit_candidate at 1.
  destruct (Discovery.pi_IsExitNode p); simpl; [|done].
  destruct (decide (Discovery.pi_NodeId p = nodeID a)) as [E|E]; [by rewrite (bool_decide_true _ E)|].
  rewrite (bool_decide_false _ E). simpl.
  destruct (decide (ExitNodeID (cfg a) = "")) as [Ew|Ew].
  - rewrite Ew in *. rewrite (bool_decide_false (("" : string) ≠ "")) by auto. simpl. by apply choose_exit_chosen.
  - rewrite (bool_decide_false _ Ew), (bool_decide_true (ExitNodeID (cfg a) ≠ "")) by done. simpl.
    by case_bool_decide.
Qed.

(** The exit node is the first online peer that offers to be one, is not the agent itself and is the one asked
    for, if one is; there is none unless exit nodes are to be used. *)
Theorem exit_node_correct a peers :
  Forall (λ p, Discovery.pi_NodeId p ≠ "") peers →
  exit_node a peers =
    if UseExitNode (cfg a) then default "" (Discovery.pi_NodeId <$> List.find (exit_candidate a) peers) else "".
Proof. intros Hp. unfold exit_node. case_match; [|done]. by apply choose_exit_find. Qed.

(** ** Registration *)

(** An identity service that fails the next [left] registrations, with errors that count, and then answers with
    [resp]; [waited] is the time spent in timers, none of which is cut short or late. *)
Record outage `{StatusLib} `{Services W} `{Clock W} `{Timer W} (left : W → nat) (waited : W → Z)
    (resp : Identity.RegisterNodeResponse) : Prop := {
  outage_rpc ctx req w : ∃ w' r, rpc_RegisterNode ctx req w = (w', r) ∧ waited w' = waited w ∧
    match left w with
    | O => r = Ok resp ∧ left w' = O
    | S k => ∃ e, r = Err e ∧ counts_as_failure e = true ∧ left w' = k
    end;
  outage_wait d w : 0 ≤ d →
    ∃ w', wait d w = (w', false) ∧ left w' = left w ∧ waited w' = waited w + d ∧ Now w' = Now w + d;
}.

(** The identity breaker, which registrations share with the look-ups of peers' keys, lets [k] failing calls through and
    refuses what comes after them within [rest]: it is closed with [5 - k] failures counted, or open, with [k = 0] and longer
    to go than [rest]. *)
Definition admits (k : nat) (rest now : Z) (cb : CircuitBreaker) : Prop :=
  CircuitBreaker.cfg cb = newCBConfig "identity" ∧ wf cb ∧
  match state cb with
  | StateClosed => Z.of_nat k = 5 - failures cb
  | StateOpen => k = O ∧ now + rest - lastFailure cb < 30 * Second
  | StateHalfOpen => False
  end.

Section registration.
Context `{StatusLib} `{Net6} `{StateJSON} `{Services W} `{Dialer W} `{Clock W} `{P2P W} `{WireGuard.OS W}
  `{Host W} `{Timer W} `{Keys W}.
Context (left : W → nat) (waited : W → Z) (resp : Identity.RegisterNodeResponse) (Hout : outage left waited resp).

Notation admitting k rest s := (admits k rest (Now (world (client s))) (cbIdentity (client s))).
Notation left_of s := (left (world (client s))).
Notation waited_of s := (waited (world (client s))).
Notation registered := (Identity.rn_NodeId resp, Identity.rn_Token resp, Identity.rn_ExpiresAt resp).

(** One attempt *)
Lemma Register_once ctx key pid secret (s : Sys W) k rest :
  admitting k rest s → 0 ≤ rest < 30 * Second →
  ∃ s' r, on_client (Register ctx key pid secret) s = (s', r) ∧ agent s' = agent s ∧ waited_of s' = waited_of s ∧
    match k, left_of s with
    | O, _ => (∃ e, r = Err e) ∧ s' = s
    | S _, O => r = Ok registered ∧ state (cbIdentity (client s')) = StateClosed ∧ left_of s' = O
    | S k, S l => (∃ e, r = Err e) ∧ left_of s' = l ∧ admitting k rest s'
    end.
Proof.
  intros (Hcfg & Hwf & Hst) Hrest. unfold on_client, zoom, Register, bind, wrap_err.
  set (req := {| Identity.rn_PublicKey := key; Identity.rn_Version := "1.0.0"; Identity.rn_PeerId := pid;
    Identity.rn_NetworkSecret := secret |}).
  destruct (state (cbIdentity (client s))) eqn:Est; [| |done].
  - destruct (through_closed identity (rpc_RegisterNode ctx req) (client s) Hwf Est) as (c' & -> & Hw & Hwf' & Hcb).
    destruct (outage_rpc _ _ _ Hout ctx req (world (client s))) as (w' & r & Hr & Hwt & Hcase).
    destruct k as [|k]; [pose proof (proj2 Hwf) as Hf; rewrite Est, Hcfg in Hf; simpl in Hf; lia|].
    rewrite Hr in *. simpl in *. subst w'. destruct (left_of s) as [|l].
    + destruct Hcase as [-> Hl]. simpl in *. eexists _, _. split; [reflexivity|]. simpl. split_and!; try done.
      rewrite Hcb. unfold RecordSuccess. simpl. by rewrite Est.
    + destruct Hcase as (e & -> & He & Hl). simpl in *. rewrite He in Hcb. eexists _, _. split; [reflexivity|].
      simpl. split; [done|]. split; [done|]. split; [eauto|]. split; [done|].
      destruct (RecordFailure_closed (Now (world c')) (cbIdentity (client s)) Hwf Est) as [Hc' Hn].
      pose proof (RecordFailure_last (Now (world c')) (cbIdentity (client s))) as Hlast.
      rewrite <- Hcb in Hc', Hn, Hlast. rewrite Hcfg in Hn. simpl MaxFailures in Hn.
      split; [by rewrite Hc'|]. split; [done|]. case_bool.
      * destruct Hn as [-> ->]. lia.
      * rewrite Hn, Hlast. split; lia.
  - destruct Hst as [-> Ht]. rewrite (through_open identity (rpc_RegisterNode ctx req) (client s)); [|done|].
    + eexists _, _. split; [reflexivity|]. destruct s. simpl. split_and!; eauto.
    + simpl. rewrite Hcfg. simpl. apply Z.nle_gt. intros Hge%time_sub_ge; [lia|].
      unfold Second, min_int64, max_int64. lia.
Qed.

(** One attempt, by what is left to do after it *)
Lemma Register_next ctx key pid secret (s : Sys W) k rest :
  admitting k rest s → 0 ≤ rest < 30 * Second →
  ∃ s' r, on_client (Register ctx key pid secret) s = (s', r) ∧ agent s' = agent s ∧ waited_of s' = waited_of s ∧
    ((r = Ok registered ∧ (0 < k)%nat ∧ left_of s = O ∧ state (cbIdentity (client s')) = StateClosed ∧ left_of s' = O) ∨
     ∃ e, r = Err e ∧ (left_of s <? k)%nat = (left_of s' <? pred k)%nat ∧ (left_of s' - pred k = left_of s - k)%nat ∧
       (left_of s' < pred k → left_of s = S (left_of s'))%nat ∧ admitting (pred k) rest s').
Proof.
  intros Hadm Hrest. destruct (Register_once ctx key pid secret s k rest Hadm Hrest) as (s1 & r & E & Ha & Hw & Hcase).
  exists s1, r. split; [done|]. split; [done|]. split; [done|].
  destruct k as [|k]; [right|destruct (left_of s) as [|l]; [left|right]].
  - destruct Hcase as [[e ->] ->]. exists e. split_and!; try done; simpl; lia.
  - destruct Hcase as (-> & Hst & Hl). split_and!; try done. lia.
  - destruct Hcase as ([e ->] & -> & Hadm'). exists e. by split_and!.
Qed.

Lemma wait_once d (s : Sys W) : 0 ≤ d →
  ∃ s', on_world (λ w, let '(w', c) := wait d w in (w', Ok c)) s = (s', Ok false) ∧ agent s' = agent s ∧
    left_of s' = left_of s ∧ waited_of s' = waited_of s + d ∧ cbIdentity (client s') = cbIdentity (client s) ∧
    Now (world (client s')) = Now (world (client s)) + d.
Proof.
  intros Hd. destruct (outage_wait _ _ _ Hout d (world (client s)) Hd) as (w' & E & Hl & Hw & Hn).
  unfold on_world, on_client, Client.on_world, zoom. rewrite E. eexists. split; [reflexivity|]. done.
Qed.

(** The back-off that is left from the [i]-th attempt on *)
Definition backoffs (i : nat) : Z := (2 ^ Z.of_nat (maxRetries - 1) - 2 ^ Z.of_nat i) * Second.

Lemma backoffs_step i : (i < maxRetries - 1)%nat → 0 ≤ backoffs i < 30 * Second ∧ backoffs i = backoff i + backoffs (S i).
Proof.
  intros Hi. unfold backoffs, backoff, maxRetries, Second in *.
  assert (2 ^ Z.of_nat (S i) = 2 * 2 ^ Z.of_nat i) as -> by (rewrite Nat2Z.inj_succ, Z.pow_succ_r; lia).
  assert (0 < 2 ^ Z.of_nat i ≤ 2 ^ 3) by (split; [lia|apply Z.pow_le_mono_r; lia]).
  change (2 ^ Z.of_nat (5 - 1)) with 16. lia.
Qed.

Lemma admits_later k d rest now cb : admits k (d + rest) now cb → admits k rest (now + d) cb.
Proof. intros (? & ? & Hst). split; [done|]. split; [done|]. destruct (state cb); [done| |done]. split; [tauto|lia]. Qed.

Lemma attempts_outage ctx key n : ∀ i k (s : Sys W), (i + n = maxRetries)%nat → (0 < n)%nat → (k ≤ n)%nat →
  admitting k (backoffs i) s →
  ∃ s' r, attempts ctx key i n s = (s', r) ∧ agent s' = agent s ∧ left_of s' = (left_of s - k)%nat ∧
    if (left_of s <? k)%nat
    then r = Ok registered ∧ state (cbIdentity (client s')) = StateClosed ∧
         waited_of s' = waited_of s + (2 ^ Z.of_nat (i + left_of s) - 2 ^ Z.of_nat i) * Second
    else (∃ e, r = Err (Wrapf "registration failed after 5 attempts" e)) ∧
         state (cbIdentity (client s')) = StateOpen ∧ waited_of s' = waited_of s + backoffs i.
Proof.
  induction n as [|n IH]; intros i k s Hi Hn Hk Hadm; [lia|]. cbn [attempts]. unfold bind at 1, get_world.
  unfold bind at 1, get_agent.
  assert (0 ≤ backoffs i < 30 * Second) as Hb.
  { destruct (decide (i = maxRetries - 1)%nat) as [->|]; [done|]. apply backoffs_step. unfold maxRetries in *. lia. }
  destruct (Register_next ctx key (p2p_PeerID (world (client s))) (NetworkSecret (cfg (agent s))) s k _ Hadm Hb)
    as (s1 & r & E & Ha & Hw & Hnext).
  rewrite (handle_eq _ _ _ _ _ E).
  destruct Hnext as [(-> & Hk0 & Hl0 & Hst & Hl)|(e & -> & Hlt & Hl & Hs & Hadm1)].
  - eexists _, _. split; [reflexivity|]. split; [done|]. split; [lia|].
    destruct (Nat.ltb_spec (left_of s) k); [|lia]. split; [done|]. split; [done|]. rewrite Hl0, Nat.add_0_r. lia.
  - destruct (Nat.eqb_spec i (maxRetries - 1)) as [->|Hne].
    + eexists _, _. split; [reflexivity|]. split; [done|]. assert (pred k = 0)%nat as Hk0 by (unfold maxRetries in *; lia).
      rewrite Hk0 in *. rewrite Hlt. split; [lia|]. simpl. split; [by eexists|].
      split; [|change (backoffs 4) with 0; lia]. destruct Hadm1 as (Hcfg & Hwf & Hst).
      destruct (state (cbIdentity (client s1))) eqn:Es; [exfalso|done|done].
      destruct Hwf as [_ Hf]. rewrite Es, Hcfg in Hf. simpl in Hf. lia.
    + destruct (backoffs_step i) as [_ Hbs]; [unfold maxRetries in *; lia|].
      destruct (wait_once (backoff i) s1) as (s2 & E2 & Ha2 & Hl2 & Hw2 & Hcb2 & Hn2).
      { unfold backoff, Second. lia. }
      rewrite (bind_ok _ _ _ _ _ E2). rewrite Hbs in Hadm1.
      destruct (IH (S i) (pred k) s2) as (s3 & r & E3 & Ha3 & Hl3 & Hcase3); [lia..| |].
      { rewrite Hcb2, Hn2. by apply admits_later. }
      exists s3, r. split; [done|]. split; [congruence|]. rewrite Hlt. rewrite Hl2 in *. split; [lia|].
      rewrite Hw2, Hw in Hcase3. destruct (Nat.ltb_spec (left_of s1) (pred k)) as [Hlt1|_]; destruct Hcase3 as (Hr & Hst & ->).
      * split; [exact Hr|]. split; [exact Hst|]. rewrite (Hs Hlt1). replace (i + S (left_of s1))%nat with (S i + left_of s1)%nat by lia.
        unfold backoff. assert (2 ^ Z.of_nat (S i) = 2 * 2 ^ Z.of_nat i) as -> by (rewrite Nat2Z.inj_succ, Z.pow_succ_r; lia). lia.
      * split; [exact Hr|]. split; [exact Hst|]. rewrite Hbs. lia.
Qed.

(** C35: How a registration, at the start or when the token is renewed, goes in an outage of the identity service, in which
    requests fail with errors that count. Its breaker is shared with the look-ups of peers' keys. If it is closed it lets [k]
    failing requests through: 5, less those that have failed in a row before. If it is open, with more than 15 seconds to go,
    [k] is 0. The agent gets over an outage of fewer than [k] failures, after waiting 1, 2, 4 and 8 seconds in turn. Else the
    service sees exactly [k] requests, the breaker opens and refuses the other attempts, and the agent gives up after 15
    seconds of waiting all the same. *)
Theorem retryRegister_outage ctx key (s : Sys W) k :
  admitting k (15 * Second) s →
  ∃ s' r, retryRegister ctx key s = (s', r) ∧ agent s' = agent s ∧ left_of s' = (left_of s - k)%nat ∧
    if (left_of s <? k)%nat
    then r = Ok registered ∧ state (cbIdentity (client s')) = StateClosed ∧
         waited_of s' = waited_of s + (2 ^ Z.of_nat (left_of s) - 1) * Second
    else (∃ e, r = Err (Wrapf "registration failed after 5 attempts" e)) ∧
         state (cbIdentity (client s')) = StateOpen ∧ waited_of s' = waited_of s + 15 * Second.
Proof.
  intros Hadm. apply (attempts_outage ctx key maxRetries 0 k s); [done|unfold maxRetries; lia| |done].
  destruct Hadm as (Hcfg & [_ Hf] & Hst). destruct (state (cbIdentity (client s))) eqn:Es; rewrite ?Hcfg in Hf; simpl in Hf;
    unfold maxRetries; try lia; done.
Qed.
End registration.

(** ** Peer synchronisation *)

(** [range] lists a map's entries in some order. *)
Definition enumerates (range : gmap string string → list (string * string)) : Prop :=
  ∀ m, range m ≡ₚ map_to_list m.

Section sync.
Context `{StatusLib} `{Net6} `{StateJSON} `{Services W} `{Dialer W} `{Clock W} `{P2P W} `{WireGuard.OS W}
  `{Host W} `{Timer W} `{Keys W}.
Context (range : gmap string string → list (string * string)) (Hrange : enumerates range).

Notation peers_of s := (activePeers (agent s)).
Definition listed (a : Agent) (peers : list Discovery.PeerInfo) (id : string) : Prop :=
  id ≠ nodeID a ∧ id ∈ Discovery.pi_NodeId <$> peers.

(** The agents before and after a step of the loop differ in the active peers only. *)
Definition same_but_peers (a a' : Agent) : Prop := a' = set_activePeers (activePeers a') a.

Lemma same_but_peers_refl a : same_but_peers a a.
Proof. by destruct a. Qed.
Lemma same_but_peers_trans a a' a'' : same_but_peers a a' → same_but_peers a' a'' → same_but_peers a a''.
Proof. unfold same_but_peers. intros -> ->. done. Qed.
Lemma same_but_peers_set a m : same_but_peers a (set_activePeers m a).
Proof. done. Qed.

Lemma on_client_agent {A} (m : M (Client W) A) (s s' : Sys W) r :
  on_client m s = (s', r) → agent s' = agent s.
Proof. unfold on_client, zoom. destruct (m (client s)) as [c x]. by intros [= <- <-]. Qed.

Lemma proxy_port_agent addrs (s s' : Sys W) r :
  proxy_port addrs s = (s', r) → agent s' = agent s ∧ ∃ n, r = Ok n.
Proof.
  unfold proxy_port. destruct addrs as [|addr addrs]; [intros [= <- <-]; eauto|].
  destruct (p2p_GetPeerInfo addr) as [pid|]; [|intros [= <- <-]; eauto].
  intros (s1 & x & E1%on_client_agent & Hk)%handle_inv.
  destruct x as [u|]; [|injection Hk as <- <-; eauto].
  apply handle_inv in Hk as (s2 & y & E2%on_client_agent & Hk). injection Hk as <- <-.
  split; [congruence|eauto].
Qed.

Lemma online_peers_inv ctx self peers on (s s' : Sys W) r :
  online_peers ctx self peers on s = (s', r) →
  agent s' = agent s ∧ ∃ on', r = Ok on' ∧
    ∀ id, is_Some (on' !! id) → is_Some (on !! id) ∨ (id ≠ self ∧ id ∈ Discovery.pi_NodeId <$> peers).
Proof.
  revert on s. induction peers as [|p rest IH]; intros on s; cbn [online_peers].
  { intros [= <- <-]. eauto. }
  case_decide as Ep.
  { intros Hr. apply IH in Hr as (Ha & on' & -> & Hon). split; [done|]. exists on'. split; [done|].
    intros id Hid. destruct (Hon id Hid) as [|[]]; [by left|right]. split; [done|].
    rewrite fmap_cons. by apply list_elem_of_further. }
  intros (s1 & x & E1%on_client_agent & Hk)%handle_inv.
  destruct x as [key|e]; apply IH in Hk as (Ha & on' & -> & Hon); (split; [congruence|]);
    exists on'; (split; [done|]); intros id Hid; rewrite fmap_cons;
    (destruct (Hon id Hid) as [Hs|[]]; [|right; split; [done|by apply list_elem_of_further]]).
  - destruct (decide (id = Discovery.pi_NodeId p)) as [->|Hne]; [right; split; [done|apply list_elem_of_here]|].
    rewrite lookup_insert_ne in Hs by done. by left.
  - by left.
Qed.

(** Adding a peer adds that peer or nothing. *)
Lemma add_peer_inv peers ex cidr id key (s s' : Sys W) r :
  add_peer peers ex cidr id key s = (s', r) →
  agent s' = agent s ∨
  (peers_of s !! id = None ∧ agent s' = set_activePeers (<[id := key]> (peers_of s)) (agent s)).
Proof.
  unfold add_peer, bind at 1, get_agent. destruct (peers_of s !! id) as [k|] eqn:Eid.
  { intros [= <- <-]. by left. }
  intros [(e & Hm%proxy_port_agent & ->)|(s1 & port & Hm%proxy_port_agent & Hk)]%bind_inv;
    [by left; destruct Hm|].
  destruct Hm as [Ha1 _]. case_bool; [injection Hk as <- <-; by left|].
  unfold attempt in Hk. destruct (on_world _ s1) as [s2 x] eqn:E2. apply on_client_agent in E2.
  destruct x as [[]|[]]; injection Hk as <- <-; try (left; congruence).
  right. split; [done|]. simpl. by rewrite E2, Ha1.
Qed.

Lemma add_peers_inv peers ex cidr todo (s s' : Sys W) r :
  add_peers peers ex cidr todo s = (s', r) →
  same_but_peers (agent s) (agent s') ∧
  (∀ id k, peers_of s !! id = Some k → peers_of s' !! id = Some k) ∧
  (∀ id k, peers_of s' !! id = Some k → peers_of s !! id = Some k ∨ (peers_of s !! id = None ∧ (id, k) ∈ todo)).
Proof.
  revert s. induction todo as [|[id key] todo IH]; intros s; cbn [add_peers].
  { intros [= <- <-]. split; [apply same_but_peers_refl|]. auto. }
  assert (∀ s1 x, add_peer peers ex cidr id key s = (s1, x) →
    same_but_peers (agent s) (agent s1) ∧
    (∀ i k, peers_of s !! i = Some k → peers_of s1 !! i = Some k) ∧
    (∀ i k, peers_of s1 !! i = Some k →
      peers_of s !! i = Some k ∨ (peers_of s !! i = None ∧ (i, k) = (id, key)))) as Hstep.
  { intros s1 x [->|[Hnone ->]]%add_peer_inv; [split; [apply same_but_peers_refl|]; auto|].
    split; [done|]. simpl. split; intros i k; destruct (decide (i = id)) as [->|Hne];
      rewrite ?lookup_insert_eq, ?lookup_insert_ne by done; [congruence|auto| |auto].
    intros [= <-]. by right. }
  intros [(e & Hm & ->)|(s1 & u & Hm & Hk)]%bind_inv; apply Hstep in Hm as (Hs & Hkeep & Hnew).
  - split; [done|]. split; [done|]. intros i k Hi. destruct (Hnew i k Hi) as [|[? ->]]; [by left|right; split; [done|apply list_elem_of_here]].
  - apply IH in Hk as (Hs2 & Hkeep2 & Hnew2). split; [by eapply same_but_peers_trans|]. split; [auto|].
    intros i k Hi. destruct (Hnew2 i k Hi) as [Hi1|[Hn Hi1]].
    { destruct (Hnew i k Hi1) as [|[? ->]]; [by left|right; split; [done|apply list_elem_of_here]]. }
    destruct (peers_of s !! i) as [k'|] eqn:Ei; [apply Hkeep in Ei; congruence|].
    right. split; [done|by apply list_elem_of_further].
Qed.

(** Removing drops entries of the list that are not online. *)
Lemma remove_peers_inv online todo (s s' : Sys W) r :
  remove_peers online todo s = (s', r) →
  same_but_peers (agent s) (agent s') ∧
  (∀ id k, peers_of s' !! id = Some k → peers_of s !! id = Some k) ∧
  (∀ id, is_Some (online !! id) → peers_of s' !! id = peers_of s !! id).
Proof.
  revert s. induction todo as [|[id key] todo IH]; intros s; cbn [remove_peers].
  { intros [= <- <-]. split; [apply same_but_peers_refl|]. auto. }
  destruct (online !! id) as [k0|] eqn:Eid; [apply IH|].
  unfold bind at 1, get_agent. unfold attempt. destruct (on_world _ s) as [s1 x] eqn:E1.
  apply on_client_agent in E1. rewrite <- E1.
  assert (remove_peers online todo (Build_Sys
      (set_activePeers (delete id (peers_of s1)) (agent s1)) (client s1)) = (s', r) →
    same_but_peers (agent s1) (agent s') ∧
    (∀ i k, peers_of s' !! i = Some k → peers_of s1 !! i = Some k) ∧
    (∀ i, is_Some (online !! i) → peers_of s' !! i = peers_of s1 !! i)) as Hdel.
  { intros (Hs & Hsub & Hkeep)%IH. simpl in *. split; [exact Hs|]. split.
    - intros i k Hi%Hsub. by apply lookup_delete_Some in Hi as [_ Hi].
    - intros i Hi. rewrite Hkeep by done. rewrite lookup_delete_ne; [done|]. intros <-.
      rewrite Eid in Hi. by destruct Hi. }
  destruct x as [[]|[]]; try (by intros Hk%IH); [intros Hk; by apply Hdel|].
  intros [= <- <-]. split; [apply same_but_peers_refl|]. auto.
Qed.

Lemma enumerates_in m id k : (id, k) ∈ range m ↔ m !! id = Some k.
Proof. by rewrite (Hrange m), elem_of_map_to_list. Qed.

(** Whatever fails on the way, a round of peer synchronisation makes active only peers that the discovery service
    listed in this round, never the agent itself, keeps the key of a peer that stays active, and changes nothing
    else of the agent. *)
Theorem syncPeers_sound ctx cidr (s s' : Sys W) r :
  syncPeers range ctx cidr s = (s', r) →
  same_but_peers (agent s) (agent s') ∧
  ∀ id k, peers_of s' !! id = Some k →
    peers_of s !! id = Some k ∨
    (peers_of s !! id = None ∧ ∃ s1 peers, on_client (DiscoverPeers ctx (token (agent s)) 50) s = (s1, Ok peers) ∧
      listed (agent s) peers id).
Proof.
  unfold syncPeers, bind at 1, get_agent. intros (s1 & found & E1 & Hk)%handle_inv.
  pose proof (on_client_agent _ _ _ _ E1) as Ha1.
  destruct found as [peers|e]; [|injection Hk as <- <-; rewrite Ha1; split; [apply same_but_peers_refl|auto]].
  apply bind_inv in Hk as [(e & Hm & ->)|(s2 & online & Hm & Hk)];
    apply online_peers_inv in Hm as (Ha2 & on' & Hr & Hon); [done|]. injection Hr as <-.
  assert (∀ id k, (id, k) ∈ range online → listed (agent s) peers id) as Hlisted.
  { intros id k Hin%enumerates_in. destruct (Hon id) as [Hs|]; [by exists k| |done].
    rewrite lookup_empty in Hs. by destruct Hs. }
  assert (∀ s3 x, add_peers peers (exit_node (agent s) peers) cidr (range online) s2 = (s3, x) →
    same_but_peers (agent s) (agent s3) ∧ ∀ id k, peers_of s3 !! id = Some k →
      peers_of s !! id = Some k ∨ (peers_of s !! id = None ∧ listed (agent s) peers id)) as Hadd.
  { intros s3 x (Hs & _ & Hnew)%add_peers_inv. rewrite Ha2, Ha1 in *. split; [done|].
    intros id k [|[Hn Hin]]%Hnew; [by left|]. right. split; [done|]. by eapply Hlisted. }
  apply bind_inv in Hk as [(e & Hm & ->)|(s3 & u & Hm & Hk)]; apply Hadd in Hm as [Hs3 Hp3].
  { split; [done|]. intros id k [|[]]%Hp3; [by left|right; eauto]. }
  unfold bind, get_agent in Hk. apply remove_peers_inv in Hk as (Hs' & Hsub & _).
  split; [by eapply same_but_peers_trans|]. intros id k Hid%Hsub. destruct (Hp3 id k Hid) as [|[]]; [by left|right; eauto].
Qed.

(** *** When everything works *)

(** The identity service knows the listed peers' keys, they can be bridged, and wg does what it is told; [good] holds
    of the client throughout. *)
Record network_up (good : Client W → Prop) (ctx : Context) (m : WireGuard.Manager)
    (peers : list Discovery.PeerInfo) (key : string → string) : Prop := {
  up_key p (s : Sys W) : p ∈ peers → good (client s) → ∃ s',
    on_client (GetPeerPublicKey ctx (Discovery.pi_NodeId p)) s = (s', Ok (key (Discovery.pi_NodeId p))) ∧
    good (client s');
  up_bridge p (s : Sys W) : p ∈ peers → good (client s) → ∃ s' n,
    proxy_port (Discovery.pi_P2PAddrs p) s = (s', Ok n) ∧ n ≠ 0 ∧ good (client s');
  up_add pc (s : Sys W) : good (client s) → ∃ s',
    on_world (WireGuard.AddPeer m pc) s = (s', Ok tt) ∧ good (client s');
  up_remove k (s : Sys W) : good (client s) → ∃ s',
    on_world (WireGuard.RemovePeer m k) s = (s', Ok tt) ∧ good (client s');
}.

(** Where wg removes what it is told to *)
Lemma remove_peers_up (good : Client W → Prop) m online todo (s : Sys W) :
  (∀ k (s : Sys W), good (client s) → ∃ s', on_world (WireGuard.RemovePeer m k) s = (s', Ok tt) ∧ good (client s')) →
  wg_mgr (agent s) = m → good (client s) →
  ∃ s', remove_peers online todo s = (s', Ok tt) ∧ good (client s') ∧
    ∀ id, id ∈ todo.*1 → online !! id = None → peers_of s' !! id = None.
Proof.
  intros Hremove. revert s. induction todo as [|[id key0] todo IH]; intros s Hm Hg; cbn [remove_peers].
  { eexists. split; [reflexivity|]. split; [done|]. set_solver. }
  destruct (online !! id) as [k|] eqn:Eid.
  { destruct (IH s Hm Hg) as (s' & E & Hg' & Hn). exists s'. split_and!; [done..|].
    intros i. rewrite fmap_cons, elem_of_cons. intros [->|Hi] Ho; [simpl in Ho; congruence|by apply Hn]. }
  unfold bind at 1, get_agent, attempt. rewrite Hm.
  destruct (Hremove key0 s Hg) as (s1 & E1 & Hg1). rewrite E1.
  apply on_client_agent in E1. unfold bind, update.
  destruct (IH {| agent := set_activePeers (delete id (peers_of s1)) (agent s1); client := client s1 |})
    as (s' & E & Hg' & Hn); [simpl; by rewrite E1|done|].
  exists s'. split_and!; [done..|]. apply remove_peers_inv in E as (_ & Hsub & _).
  intros i. rewrite fmap_cons, elem_of_cons. intros [->|Hi] Ho; [|by apply Hn].
  destruct (peers_of s' !! _) as [k|] eqn:Ek; [|done]. apply Hsub in Ek. simpl in Ek.
  by rewrite lookup_delete_eq in Ek.
Qed.
Section up.
Context (good : Client W → Prop) (ctx : Context) (m : WireGuard.Manager) (peers : list Discovery.PeerInfo)
  (key : string → string) (Hup : network_up good ctx m peers key).

Lemma online_peers_up self l on (s : Sys W) :
  l ⊆ peers → good (client s) →
  ∃ s' on', online_peers ctx self l on s = (s', Ok on') ∧ agent s' = agent s ∧ good (client s') ∧
    ∀ id, (id ≠ self ∧ id ∈ Discovery.pi_NodeId <$> l → on' !! id = Some (key id)) ∧
          (¬ (id ≠ self ∧ id ∈ Discovery.pi_NodeId <$> l) → on' !! id = on !! id).
Proof.
  revert on s. induction l as [|p rest IH]; intros on s Hl Hg; cbn [online_peers].
  { eexists _, _. split; [reflexivity|]. split; [done|]. split; [done|]. intros id. split; [|done]. set_solver. }
  assert (p ∈ peers) as Hp by (apply Hl, list_elem_of_here).
  assert (rest ⊆ peers) as Hl' by (intros x Hx; by apply Hl, list_elem_of_further). clear Hl. rename Hl' into Hl.
  destruct (decide (Discovery.pi_NodeId p = self)) as [Ep|Ep].
  { destruct (IH on s Hl Hg) as (s' & on' & E & Ha & Hg' & Hon). exists s', on'. split_and!; [done..|].
    intros id. destruct (Hon id) as [H1' H2']. rewrite fmap_cons, elem_of_cons. split; [naive_solver|].
    intros Hn. apply H2'. naive_solver. }
  destruct (up_key _ _ _ _ _ Hup p s Hp Hg) as (s1 & E1 & Hg1).
  rewrite (handle_eq _ _ _ _ _ E1). apply on_client_agent in E1.
  destruct (IH (<[Discovery.pi_NodeId p := key (Discovery.pi_NodeId p)]> on) s1 Hl Hg1) as (s' & on' & E & Ha & Hg' & Hon).
  exists s', on'. split; [done|]. split; [congruence|]. split; [done|].
  intros id. destruct (Hon id) as [H1' H2']. rewrite fmap_cons, elem_of_cons.
  destruct (decide (id ≠ self ∧ id ∈ Discovery.pi_NodeId <$> rest)) as [Hin|Hnin].
  - split; [auto|]. naive_solver.
  - rewrite (H2' Hnin). split.
    + intros [Hid [->|Hin]]; [by rewrite lookup_insert_eq|]. by destruct Hnin.
    + intros Hn. rewrite lookup_insert_ne; [done|]. intros <-. apply Hn. auto.
Qed.

Lemma find_peer_in id l : id ∈ Discovery.pi_NodeId <$> l → ∃ p, find_peer id l = Some p ∧ p ∈ l.
Proof.
  intros (p & -> & Hp)%list_elem_of_fmap. unfold find_peer.
  destruct (List.find _ l) as [q|] eqn:E.
  - exists q. split; [done|]. apply find_some in E as [Hq _]. by apply list_elem_of_In.
  - apply find_none with (x := p) in E; [|by apply list_elem_of_In]. by rewrite bool_decide_eq_false in E.
Qed.

Lemma add_peer_up ex cidr id k (s : Sys W) :
  wg_mgr (agent s) = m → id ∈ Discovery.pi_NodeId <$> peers → good (client s) →
  ∃ s', add_peer peers ex cidr id k s = (s', Ok tt) ∧ good (client s') ∧ wg_mgr (agent s') = m ∧
    peers_of s' = peers_of s ∪ {[ id := k ]}.
Proof.
  intros Hm (p & Hf & Hp)%find_peer_in Hg. unfold add_peer, bind at 1, get_agent.
  destruct (peers_of s !! id) as [k0|] eqn:Ek.
  { exists s. split_and!; [done..|]. apply map_eq. intros i. symmetry.
    destruct (decide (i = id)) as [->|Hne]; [by rewrite Ek; apply lookup_union_Some_l|].
    rewrite lookup_union_l; [done|]. by apply lookup_singleton_None. }
  rewrite Hf. destruct (up_bridge _ _ _ _ _ Hup p s Hp Hg) as (s1 & n & E1 & Hn & Hg1).
  rewrite (bind_ok _ _ _ _ _ E1). apply proxy_port_agent in E1 as [Ha1 _].
  case_bool; [done|]. unfold attempt. rewrite Hm.
  match goal with |- context [on_world (WireGuard.AddPeer m ?pc) s1] =>
    destruct (up_add _ _ _ _ _ Hup pc s1 Hg1) as (s2 & E2 & Hg2) end.
  rewrite E2. apply on_client_agent in E2. eexists. split; [reflexivity|]. split; [done|].
  simpl. rewrite E2, Ha1. split; [done|]. rewrite insert_union_singleton_r; done.
Qed.

Lemma add_peers_up ex cidr todo (s : Sys W) :
  wg_mgr (agent s) = m → Forall (λ x, x.1 ∈ Discovery.pi_NodeId <$> peers) todo → good (client s) →
  ∃ s', add_peers peers ex cidr todo s = (s', Ok tt) ∧ good (client s') ∧ wg_mgr (agent s') = m ∧
    peers_of s' = peers_of s ∪ list_to_map todo.
Proof.
  revert s. induction todo as [|[id k] todo IH]; intros s Hm Htodo Hg; cbn [add_peers].
  { eexists. split; [reflexivity|]. simpl. by rewrite (right_id_L ∅ (∪)). }
  apply Forall_cons in Htodo as [Hid Htodo].
  destruct (add_peer_up ex cidr id k s Hm Hid Hg) as (s1 & E1 & Hg1 & Hm1 & Hp1).
  rewrite (bind_ok _ _ _ _ _ E1). destruct (IH s1 Hm1 Htodo Hg1) as (s' & E & Hg' & Hm' & Hp).
  exists s'. split_and!; [done..|]. rewrite Hp, Hp1, <- (assoc_L (∪)). f_equal. simpl.
  by rewrite insert_union_singleton_l.
Qed.

End up.

(** C4: When every peer's key is known and every peer can be reached, one round of synchronisation makes exactly the
    listed peers other than the agent itself active: those that were keep the key they had, the others have the
    key the identity service gave; it does not fail. *)
Theorem syncPeers_converges good ctx cidr peers key (s s1 : Sys W) :
  network_up good ctx (wg_mgr (agent s)) peers key →
  on_client (DiscoverPeers ctx (token (agent s)) 50) s = (s1, Ok peers) → good (client s1) →
  ∃ s', syncPeers range ctx cidr s = (s', Ok tt) ∧
    ∀ id, (listed (agent s) peers id → peers_of s' !! id = Some (default (key id) (peers_of s !! id))) ∧
          (¬ listed (agent s) peers id → peers_of s' !! id = None).
Proof.
  intros Hup E1 Hg1. unfold syncPeers, bind at 1, get_agent. rewrite (handle_eq _ _ _ _ _ E1).
  pose proof (on_client_agent _ _ _ _ E1) as Ha1.
  destruct (online_peers_up good ctx _ peers key Hup (nodeID (agent s)) peers ∅ s1)
    as (s2 & online & E2 & Ha2 & Hg2 & Hon); [done..|].
  rewrite (bind_ok _ _ _ _ _ E2). fold (listed (agent s) peers) in Hon.
  assert (∀ id, is_Some (online !! id) → listed (agent s) peers id) as Hlisted.
  { intros id Hid. apply dec_stable. intros Hn. rewrite (proj2 (Hon id) Hn), lookup_empty in Hid. by destruct Hid. }
  destruct (add_peers_up good ctx _ peers key Hup (exit_node (agent s) peers) cidr (range online) s2)
    as (s3 & E3 & Hg3 & Hm3 & Hp3); [congruence| |done|].
  { apply Forall_forall. intros [id k] Hin%enumerates_in. by apply (Hlisted id). }
  rewrite (bind_ok _ _ _ _ _ E3). unfold bind at 1.
  destruct (remove_peers_up good _ online (range (peers_of s3)) s3 (up_remove _ _ _ _ _ Hup)) as (s4 & E4 & _ & Hn); [done..|].
  exists s4. split; [done|]. apply remove_peers_inv in E4 as (_ & Hsub & Hkeep).
  intros id. split; intros Hid.
  - destruct (Hon id) as [Ho _]. specialize (Ho Hid). rewrite Hkeep by eauto. rewrite Hp3, Ha2, Ha1.
    assert ((list_to_map (range online) : gmap string string) = online) as ->.
    { rewrite (list_to_map_proper _ (map_to_list online)); [apply list_to_map_to_list| |apply Hrange].
      rewrite (Hrange online). apply NoDup_fst_map_to_list. }
    rewrite lookup_union, Ho. by destruct (peers_of s !! id).
  - destruct (Hon id) as [_ Ho]. specialize (Ho Hid). rewrite lookup_empty in Ho.
    destruct (peers_of s4 !! id) as [k|] eqn:Ek; [|done]. exfalso.
    rewrite (Hn id) in Ek; [done| |done]. apply Hsub in Ek. rewrite list_elem_of_fmap. exists (id, k).
    split; [done|]. by apply enumerates_in.
Qed.
End sync.

(** ** Runs on a concrete machine *)

Lemma maskToCIDR_SubnetMask_witness :
  maskToCIDR (Allocator.SubnetMask (Allocator.allocator_of Allocator.default_net)) = 16.
Proof. apply (maskToCIDR_SubnetMask Allocator.default_net 16), Allocator.default_net_cidr. Defined.

Lemma exit_node_correct_witness :
  exit_node (lab_agent ∅) [myself; friend; gate; hermit] = "gate".
Proof.
  rewrite (exit_node_correct (lab_agent ∅) [myself; friend; gate; hermit]); [vm_compute; reflexivity|].
  repeat constructor; discriminate.
Defined.

Lemma lab_outage : outage l_left l_waited registration.
Proof.
  split.
  - intros ctx req w. unfold rpc_RegisterNode, lab_services. destruct (l_left w) as [|k] eqn:E.
    + by exists w, (Ok registration).
    + exists (set_left k w), (Err out_of_service). split_and!; [done..|]. by exists out_of_service.
  - intros d w Hd. eexists. split; [reflexivity|]. unfold Now, lab_clock. simpl. split_and!; try done; lia.
Qed.

(** A machine whose look-ups of keys have failed three times, and one whose breaker has just opened *)
Definition counted (n : Z) (left : nat) : Sys Lab :=
  let c := client (lab_sys ∅ left []) in
  Build_Sys (lab_agent ∅) (put_breaker identity (set_failures n (cbIdentity c)) [] (world c) c).
Definition opened (left : nat) : Sys Lab :=
  let c := client (lab_sys ∅ left []) in
  Build_Sys (lab_agent ∅) (put_breaker identity
    (set_state StateOpen (set_lastFailure 0 (set_failures 5 (cbIdentity c)))) [] (world c) c).

Ltac lab_admits := vm_compute; repeat split; discriminate.

(** Three failures and then success after seven seconds; six failures; the same three after three look-ups have failed, when
    one of them is left for later; an open breaker, when the service is not asked *)
Lemma retryRegister_outage_witness :
  (retryRegister Background "key" (lab_sys ∅ 3 [])).2 = Ok ("me", "token", 86400) ∧
  is_ok (retryRegister Background "key" (lab_sys ∅ 6 [])).2 = false ∧
  is_ok (retryRegister Background "key" (counted 3 3)).2 = false ∧
  l_left (world (client (retryRegister Background "key" (counted 3 3)).1)) = 1%nat ∧
  is_ok (retryRegister Background "key" (opened 0)).2 = false.
Proof.
  destruct (retryRegister_outage l_left l_waited registration lab_outage Background "key" (lab_sys ∅ 3 []) 5)
    as (s1 & r1 & E1 & _ & _ & Hr1 & _); [lab_admits|].
  destruct (retryRegister_outage l_left l_waited registration lab_outage Background "key" (lab_sys ∅ 6 []) 5)
    as (s2 & r2 & E2 & _ & _ & (e2 & Hr2) & _); [lab_admits|].
  destruct (retryRegister_outage l_left l_waited registration lab_outage Background "key" (counted 3 3) 2)
    as (s3 & r3 & E3 & _ & Hl3 & (e3 & Hr3) & _); [lab_admits|].
  destruct (retryRegister_outage l_left l_waited registration lab_outage Background "key" (opened 0) 0)
    as (s4 & r4 & E4 & _ & _ & (e4 & Hr4) & _); [lab_admits|].
  rewrite E1, E2, E3, E4. simpl. split; [exact Hr1|]. split; [by rewrite Hr2|]. split; [by rewrite Hr3|].
  split; [exact Hl3|]. by rewrite Hr4.
Defined.

Definition lab_good (c : Client Lab) : Prop :=
  wf (cbIdentity c) ∧ state (cbIdentity c) = StateClosed ∧ map_Forall (λ _ n, n ≠ 0) (l_bridged (world c)).

Lemma lab_key id (s : Sys Lab) : lab_good (client s) → ∃ s',
  on_client (GetPeerPublicKey Background id) s = (s', Ok (key_of id)) ∧ lab_good (client s').
Proof.
  intros (Hwf & Hst & Hb). unfold on_client, zoom, GetPeerPublicKey, wrap_err.
  destruct (through_closed identity (rpc_GetPublicKey Background id) (client s) Hwf Hst) as (c' & -> & Hw & Hwf' & Hcb).
  simpl in *. eexists. split; [reflexivity|]. unfold lab_good. simpl. rewrite Hw. split; [done|]. split; [|done].
  rewrite Hcb. unfold RecordSuccess. simpl. by rewrite Hst.
Qed.

Lemma lab_proxy addr rest (s : Sys Lab) : lab_good (client s) →
  ∃ s' n, proxy_port (addr :: rest) s = (s', Ok n) ∧ n ≠ 0 ∧ lab_good (client s').
Proof.
  intros (Hwf & Hst & Hb). unfold proxy_port. cbn [p2p_GetPeerInfo lab_p2p].
  unfold handle, on_world, on_client, Client.on_world, zoom. simpl.
  destruct (l_bridged _ !! addr) as [port|] eqn:E; simpl.
  - eexists _, port. split; [reflexivity|]. split; [by eapply Hb|done].
  - eexists _, _. split; [reflexivity|]. split; [lia|]. split; [done|]. split; [done|].
    simpl. apply map_Forall_insert_2; [lia|done].
Qed.

Lemma lab_up peers : Forall (λ p, Discovery.pi_P2PAddrs p ≠ []) peers →
  network_up lab_good Background (wg_mgr (lab_agent ∅)) peers key_of.
Proof.
  intros Hp. rewrite Forall_forall in Hp. split.
  - intros p s _. apply lab_key.
  - intros p s Hin. specialize (Hp p Hin). destruct (Discovery.pi_P2PAddrs p) as [|addr rest]; [done|]. apply lab_proxy.
  - intros pc s Hg. by eexists.
  - intros k s Hg. by eexists.
Qed.

Definition lab_sync (active : gmap string string) (peers : list Discovery.PeerInfo) : Sys Lab * res unit :=
  syncPeers map_to_list Background "10.8.0.0/16" (lab_sys active 0 peers).

Lemma syncPeers_sound_witness :
  activePeers (agent (lab_sync {[ "gone" := "old" ]} [myself; gate; friend]).1) !! "me" = None.
Proof.
  destruct (lab_sync {[ "gone" := "old" ]} [myself; gate; friend]) as [s' r] eqn:E.
  destruct (syncPeers_sound map_to_list (λ m, reflexivity _) Background "10.8.0.0/16" _ s' r E) as [_ Hs]. simpl.
  destruct (activePeers (agent s') !! "me") as [k|] eqn:Ek; [|reflexivity].
  destruct (Hs "me" k Ek) as [Hold|(_ & s1 & peers & _ & Hne & _)]; [discriminate Hold|]. destruct (Hne eq_refl).
Defined.

Lemma syncPeers_converges_witness : ∃ s',
  lab_sync {[ "gone" := "old"; "gate" := "key" ]} [myself; gate; friend] = (s', Ok tt) ∧
  activePeers (agent s') !! "gone" = None ∧ activePeers (agent s') !! "me" = None ∧
  activePeers (agent s') !! "gate" = Some "key" ∧ activePeers (agent s') !! "friend" = Some (key_of "friend").
Proof.
  destruct (syncPeers_converges map_to_list (λ m, reflexivity _) lab_good Background "10.8.0.0/16"
    [myself; gate; friend] key_of (lab_sys {[ "gone" := "old"; "gate" := "key" ]} 0 [myself; gate; friend])
    (on_client (DiscoverPeers Background "token" 50)
      (lab_sys {[ "gone" := "old"; "gate" := "key" ]} 0 [myself; gate; friend])).1) as (s' & E & Hs).
  - apply lab_up. repeat constructor; discriminate.
  - apply run_snd. vm_compute. reflexivity.
  - split; [|split; [reflexivity|apply map_Forall_empty]].
    apply (New_wf "identity"); vm_compute; discriminate.
  - exists s'. unfold lab_sync. rewrite E. split; [reflexivity|]. split; [|split; [|split]].
    + apply (Hs "gone"). unfold listed. intros [_ Hin%list_elem_of_In]. simpl in Hin.
      destruct Hin as [Hin|[Hin|[Hin|[]]]]; discriminate Hin.
    + apply (Hs "me"). unfold listed. intros [Hne _]. exact (Hne eq_refl).
    + apply (Hs "gate"). split; [discriminate|]. apply list_elem_of_further, list_elem_of_here.
    + apply (Hs "friend"). split; [discriminate|]. apply list_elem_of_further, list_elem_of_further, list_elem_of_here.
Defined.

(** *** What the code does not do *)

Definition run_started (peers : list Discovery.PeerInfo) : Sys Lab * res string :=
  match started peers with Ok x => x | Err e => (lab_sys ∅ 0 [], Err e) end.

(** An exit node that the agent bridges at its start is never routed through: [Start] gives it a host route and counts
    it as active, so that the next round of synchronisation chooses it as the exit node and then skips it. No command
    or configuration file ever contains the default route. *)
Theorem initial_exit_node_never_routed :
  let '(s, r) := run_started [myself; gate; friend] in
  let '(s', r') := syncPeers map_to_list Background "10.8.0.0/16" s in
  r = Ok "10.8.0.0/16" ∧ r' = Ok tt ∧ UseExitNode (cfg (agent s)) = true ∧
  exit_node (agent s) (l_peers (world (client s))) = "gate" ∧
  activePeers (agent s') !! "gate" = Some (key_of "gate") ∧
  l_log (world (client s')) = [("wg-quick", ["up"; "/tmp/wg0.conf"])] ∧
  match l_files (world (client s')) !! "/tmp/wg0.conf" with
  | Some text => Contains_str text "AllowedIPs = 10.8.0.3/32" = true ∧ Contains_str text "0.0.0.0/0" = false
  | None => False
  end.
Proof. vm_compute. repeat split. Qed.

(** One peer that registered without libp2p addresses, which the discovery service accepts, makes every agent that
    starts panic; an agent that is already running skips it. *)
Theorem peer_without_addresses_stops_start :
  (run_started [myself; hermit; friend]).2 = Err (Panic "index out of range") ∧
  (lab_sync ∅ [myself; hermit; friend]).2 = Ok tt ∧
  activePeers (agent (lab_sync ∅ [myself; hermit; friend]).1) = {[ "friend" := key_of "friend" ]}.
Proof. split_and!; vm_compute; reflexivity. Qed.
