(* ===== verification/AgentLoops.v ===== *)
(** services/agent: the three loops of the agent over time, and its main function.

    A loop runs for a number of rounds, which is its fuel: every theorem is for any number. A round waits for the loop's
    timer or for the end of the context, whichever [wait] says comes first, and runs the body of Agent.v. *)

From S2P Require Import Prelude GoInt GoFloat GoStrings GoNet Grpc CircuitBreaker Configs Client Gateway CliState Agent.
From S2P Require WireGuard Discovery ConfigService Allocator Identity.
Import AgentConfig.

(** ** time.Ticker

    A ticker fires every [tk_period] from its creation on into a channel that holds one tick; a tick that finds the channel
    full is dropped. [tk_taken] is when the channel was last emptied. *)

Record Ticker : Type := { tk_start : Z; tk_period : Z; tk_taken : Z }.

Definition NewTicker {S} (d now : Z) : M S Ticker :=
  if d <=? 0 then throw (Panic "non-positive interval for NewTicker")
  else ret {| tk_start := now; tk_period := d; tk_taken := now |}.

(** How often it has fired by [now] *)
Definition ticks (t : Ticker) (now : Z) : Z := (now - tk_start t) / tk_period t.

(** How long a receive at [now] takes: nothing if a tick is in the channel *)
Definition receive_in (t : Ticker) (now : Z) : Z :=
  if ticks t (tk_taken t) <? ticks t now then 0 else tk_start t + (ticks t now + 1) * tk_period t - now.

Definition take_tick (now : Z) (t : Ticker) : Ticker :=
  {| tk_start := tk_start t; tk_period := tk_period t; tk_taken := now |}.

(** [time.Duration(seconds) * time.Second] *)
Definition seconds (n : Z) : Z := wrap64 (n * Second).

Section loops.
Context `{StatusLib} `{Net6} `{StateJSON} `{Services W} `{Dialer W} `{Clock W} `{P2P W} `{WireGuard.OS W}
  `{Host W} `{Timer W} `{Keys W}.

Definition now : M (Sys W) Z := λ s, (s, Ok (Now (world (client s)))).

(** [select { case <-ctx.Done(): return; case <-...: }], with [d] to go *)
Definition select_in (d : Z) : M (Sys W) bool :=
  on_world (λ w, let '(w', cancelled) := wait d w in (w', Ok cancelled)).

(** The next tick, or [None] when the context ends first *)
Definition receive (t : Ticker) : M (Sys W) (option Ticker) :=
  let! start := now in
  let! cancelled := select_in (receive_in t start) in
  if cancelled then ret None
  else let! at_ := now in ret (Some (take_tick at_ t)).

(** Each loop returns whether it has ended. *)
Fixpoint heartbeat_rounds (rounds : nat) (ctx : Context) (t : Ticker) (failCount : Z) : M (Sys W) bool :=
  match rounds with
  | O => ret false
  | S rounds =>
      let! tick := receive t in
      match tick with
      | None => ret true
      | Some t =>
          let! failCount := heartbeat_tick ctx failCount in
          heartbeat_rounds rounds ctx t failCount
      end
  end.

Definition heartbeatLoop (rounds : nat) (ctx : Context) : M (Sys W) bool :=
  let! a := get_agent in
  let! start := now in
  let! t := NewTicker (seconds (Heartbeat (cfg a))) start in
  heartbeat_rounds rounds ctx t 0.

Fixpoint sync_rounds (rounds : nat) (range : gmap string string → list (string * string)) (ctx : Context)
    (networkCIDR : string) (t : Ticker) : M (Sys W) bool :=
  match rounds with
  | O => ret false
  | S rounds =>
      let! tick := receive t in
      match tick with
      | None => ret true
      | Some t =>
          let! _ := syncPeers range ctx networkCIDR in
          sync_rounds rounds range ctx networkCIDR t
      end
  end.

Definition peerSyncLoop (rounds : nat) (range : gmap string string → list (string * string)) (ctx : Context)
    (networkCIDR : string) : M (Sys W) bool :=
  let! a := get_agent in
  let! start := now in
  let! t := NewTicker (seconds (PeerSyncInterval (cfg a))) start in
  sync_rounds rounds range ctx networkCIDR t.

(** [time.Until(time.Unix(e, 0))] *)
Definition time_until (e now : Z) : Z := time_sub (time_of_unix e) now.

Fixpoint tokenRefreshLoop (rounds : nat) (ctx : Context) : M (Sys W) bool :=
  match rounds with
  | O => ret false
  | S rounds =>
      let! a := get_agent in
      let! start := now in
      let! cancelled := select_in (refresh_in (times_08 (time_until (expiresAt a) start))) in
      if cancelled then ret true
      else let! _ := token_refresh ctx in tokenRefreshLoop rounds ctx
  end.
End loops.

(** ** How the process ends *)

(** [main], from the file it loads: the process runs until a signal comes and then stops, or exits with status 1; an exit
    runs none of the agent's clean-up. *)
Inductive exit : Type := running (cidr : string) | exited (status : Z) (message : string).

Section main.
Context `{StatusLib} `{Net6} `{StateJSON} `{Services W} `{Dialer W} `{Clock W} `{P2P W} `{WireGuard.OS W}
  `{Host W} `{Timer W} `{Keys W}.

Definition main_start (os : WireGuard.Goos) (p : Platform) (tempDir : string) (userConfigDir : option string)
    (load : res Config) (w : W) : (W + Sys W) * res exit :=
  match load with
  | Err e => (inl w, Ok (exited 1 "Failed to load config"))
  | Ok c =>
      match Agent.New os p tempDir userConfigDir c w with
      | (w', Err (Panic m)) => (inl w', Err (Panic m))
      | (w', Err e) => (inl w', Ok (exited 1 "Failed to create agent"))
      | (_, Ok s) =>
          match Start p Background s with
          | (s', Err (Panic m)) => (inr s', Err (Panic m))
          | (s', Err e) => (inr s', Ok (exited 1 "Agent start failed"))
          | (s', Ok cidr) => (inr s', Ok (running cidr))
          end
      end
  end.
End main.

(** ** Heartbeats *)

Section heartbeats.
Context `{StatusLib} `{Net6} `{StateJSON} `{Services W} `{Dialer W} `{Clock W} `{P2P W} `{WireGuard.OS W}
  `{Host W} `{Timer W} `{Keys W}.
Implicit Types s : Sys W.

Notation clock s := (Now (world (client s))).

Lemma ticks_between t m x :
  0 < tk_period t → tk_start t + m * tk_period t ≤ x < tk_start t + (m + 1) * tk_period t → ticks t x = m.
Proof. intros Hp Hx. unfold ticks. symmetry. apply (Z.div_unique_pos _ _ _ (x - tk_start t - m * tk_period t)); lia. Qed.

Lemma ticks_spec t x :
  0 < tk_period t → tk_start t + ticks t x * tk_period t ≤ x < tk_start t + (ticks t x + 1) * tk_period t.
Proof.
  intros Hp. unfold ticks. pose proof (Z.div_mod (x - tk_start t) (tk_period t) ltac:(lia)).
  pose proof (Z.mod_pos_bound (x - tk_start t) (tk_period t) Hp). lia.
Qed.

Lemma ticks_mono t a b : 0 < tk_period t → a ≤ b → ticks t a ≤ ticks t b.
Proof. intros Hp Hab. unfold ticks. apply Z.div_le_mono; lia. Qed.

(** A receive that starts at [a], with a timer that does not fire early, ends in a later period than the last one. *)
Lemma receive_later t a b :
  0 < tk_period t → tk_taken t ≤ a → a + receive_in t a ≤ b → ticks t (tk_taken t) < ticks t b.
Proof.
  intros Hp Ht Hb. pose proof (ticks_mono t _ _ Hp Ht). unfold receive_in in Hb. case_bool.
  - pose proof (ticks_mono t a b Hp ltac:(lia)). lia.
  - pose proof (ticks_spec t b Hp). nia.
Qed.

(** One that finds no tick, with a timer on time, ends when the next tick comes. *)
Lemma receive_next t a :
  ticks t (tk_taken t) = ticks t a → a + receive_in t a = tk_start t + (ticks t a + 1) * tk_period t.
Proof. intros Heq. unfold receive_in. rewrite Heq, Z.ltb_irrefl. lia. Qed.

Lemma receive_run t s s1 cancelled :
  select_in (receive_in t (clock s)) s = (s1, Ok cancelled) →
  receive t s = (s1, Ok (if cancelled then None else Some (take_tick (clock s1) t))).
Proof. intros E. unfold receive, now. unfold bind at 1. rewrite (bind_ok _ _ _ _ _ E). by destruct cancelled. Qed.

Lemma heartbeat_tick_ok ctx n s s1 :
  on_client (Client.Heartbeat ctx (token (agent s))) s = (s1, Ok tt) → heartbeat_tick ctx n s = (s1, Ok 0).
Proof. intros E. unfold heartbeat_tick, get_agent. unfold bind at 1. by rewrite (handle_eq _ _ _ _ _ E). Qed.

(** From a state of the world in [ok] timers are on time and a heartbeat request is answered within [call]; [sent] is the
    list of the requests that the discovery service has received, each with the time at which it was sent and its token. *)
Record steady (ctx : Context) (ok : W → Prop) (sent : W → list (Z * string)) (call : Z) : Prop := {
  steady_wait d w : ok w → 0 ≤ d →
    ∃ w', wait d w = (w', false) ∧ Now w' = Now w + d ∧ ok w' ∧ sent w' = sent w;
  steady_call w tok : ok w → ∃ w' resp,
    rpc_Heartbeat ctx {| Discovery.hb_Token := tok; Discovery.hb_Bandwidth := 0 |} w = (w', Ok resp) ∧
    Now w ≤ Now w' < Now w + call ∧ ok w' ∧ sent w' = sent w ++ [(Now w, tok)];
}.

(** The breaker of the discovery service lets calls through. *)
Definition closed s : Prop := wf (cbDiscovery (client s)) ∧ state (cbDiscovery (client s)) = StateClosed.

Lemma select_steady ctx ok sent call d s : steady ctx ok sent call → ok (world (client s)) → closed s → 0 ≤ d →
  ∃ s', select_in d s = (s', Ok false) ∧ clock s' = clock s + d ∧ ok (world (client s')) ∧ closed s' ∧
    agent s' = agent s ∧ sent (world (client s')) = sent (world (client s)).
Proof.
  intros [Hwait _] Hok Hcl Hd. destruct (Hwait d _ Hok Hd) as (w' & E & Hc & Hok' & Hs).
  unfold select_in, on_world, on_client, Client.on_world, zoom. rewrite E. eexists. split; [reflexivity|]. by split_and!.
Qed.

Lemma tick_steady ctx ok sent call n s : steady ctx ok sent call → ok (world (client s)) → closed s →
  ∃ s', heartbeat_tick ctx n s = (s', Ok 0) ∧ clock s ≤ clock s' < clock s + call ∧ ok (world (client s')) ∧ closed s' ∧
    agent s' = agent s ∧ sent (world (client s')) = sent (world (client s)) ++ [(clock s, token (agent s))].
Proof.
  intros [_ Hcall] Hok [Hwf Hst]. destruct (Hcall _ (token (agent s)) Hok) as (w' & resp & E & Hc & Hok' & Hs).
  destruct (through_closed discovery (rpc_Heartbeat ctx {| Discovery.hb_Token := token (agent s);
    Discovery.hb_Bandwidth := 0 |}) (client s) Hwf Hst) as (c' & Et & Hw & Hwf' & Hcb).
  rewrite E in Et, Hw, Hcb. cbn [fst snd] in Et, Hw. exists (Build_Sys (agent s) c').
  assert (on_client (Client.Heartbeat ctx (token (agent s))) s = (Build_Sys (agent s) c', Ok tt)) as Eb.
  { unfold on_client, zoom, Client.Heartbeat. by rewrite (bind_ok _ _ _ _ _ Et). }
  split; [by apply heartbeat_tick_ok|]. simpl. rewrite Hw. split_and!; try done || lia.
  split; [done|]. simpl in Hcb. simpl. rewrite Hcb. unfold RecordSuccess. simpl. by rewrite Hst.
Qed.

(** C18: While the discovery service answers each heartbeat in less than an interval, timers are on time and the breaker is
    closed at the start, the loop goes on, and the requests that the service has received after any number of rounds are
    exactly one for each tick of the ticker, sent at that very tick with the agent's token: however long the calls take, the
    heartbeats do not drift. *)
Theorem heartbeats_on_time ctx ok sent call t rounds n s :
  steady ctx ok sent call → call ≤ tk_period t → 0 < tk_period t →
  ok (world (client s)) → closed s → ticks t (tk_taken t) = ticks t (clock s) →
  ∃ s', heartbeat_rounds rounds ctx t n s = (s', Ok false) ∧
    sent (world (client s')) = sent (world (client s)) ++
      map (λ k, (tk_start t + k * tk_period t, token (agent s))) (seqZ (ticks t (clock s) + 1) (Z.of_nat rounds)) ∧
    ticks t (clock s') = ticks t (clock s) + Z.of_nat rounds.
Proof.
  intros Hst Hle Hp. revert t n s Hle Hp. induction rounds as [|rounds IH]; intros t n s Hle Hp Hok Hcl Ht.
  { exists s. split; [done|]. rewrite app_nil_r. split; [done|lia]. }
  pose proof (receive_next t (clock s) Ht) as Hnext. pose proof (ticks_spec t (clock s) Hp) as Hin.
  destruct (select_steady _ _ _ _ (receive_in t (clock s)) s Hst Hok Hcl) as (s1 & E1 & Hc1 & Hok1 & Hcl1 & Ha1 & Hs1); [lia|].
  destruct (tick_steady _ _ _ _ n s1 Hst Hok1 Hcl1) as (s2 & E2 & Hc2 & Hok2 & Hcl2 & Ha2 & Hs2).
  cbn [heartbeat_rounds]. rewrite (bind_ok _ _ _ _ _ (receive_run t s s1 false E1)). rewrite (bind_ok _ _ _ _ _ E2).
  assert (ticks t (clock s1) = ticks t (clock s) + 1) as Ht1 by (apply ticks_between; lia).
  assert (ticks t (clock s2) = ticks t (clock s) + 1) as Ht2 by (apply ticks_between; lia).
  destruct (IH (take_tick (clock s1) t) 0 s2 Hle Hp Hok2 Hcl2) as (s3 & E3 & Hs3 & Hc3).
  { change (ticks t (clock s1) = ticks t (clock s2)). congruence. }
  exists s3. split; [exact E3|]. change (ticks (take_tick ?x t) ?y) with (ticks t y) in Hs3, Hc3.
  split; [|rewrite Hc3, Ht2; lia]. rewrite Hs3, Hs2, Hs1, Ha2, Ha1, Ht2, <- app_assoc. f_equal.
  rewrite (seqZ_cons (ticks t (clock s) + 1) (Z.of_nat (S rounds))) by lia. simpl. f_equal.
  - f_equal. lia.
  - f_equal. f_equal; lia.
Qed.

(** *** At most one in a period *)

(** Nothing goes back in time, and timers do not fire early. *)
Record forward (ctx : Context) : Prop := {
  forward_wait d (w w' : W) b : wait d w = (w', b) → Now w ≤ Now w' ∧ (b = false → Now w + d ≤ Now w');
  forward_sleep d (w : W) : 0 ≤ d → Now w + d ≤ Now (sleep d w);
  forward_call s s' r : on_client (Client.Heartbeat ctx (token (agent s))) s = (s', r) → clock s ≤ clock s';
}.

Lemma select_forward ctx d s s' b : forward ctx → select_in d s = (s', Ok b) →
  clock s ≤ clock s' ∧ (b = false → clock s + d ≤ clock s').
Proof.
  intros [Hw _ _]. unfold select_in, on_world, on_client, Client.on_world, zoom.
  destruct (wait d (world (client s))) as [w c] eqn:E. intros [= <- <-]. apply Hw in E. exact E.
Qed.

Lemma heartbeat_backoff_nonneg k : 0 ≤ heartbeat_backoff k.
Proof. unfold heartbeat_backoff, Second. nia. Qed.

Lemma heartbeat_tick_forward ctx n s s' k : forward ctx → heartbeat_tick ctx n s = (s', Ok k) →
  clock s ≤ clock s' ∧ (k = 0 ∨ k = n + 1 ∧ clock s + heartbeat_backoff k ≤ clock s').
Proof.
  intros [_ Hs Hc]. unfold heartbeat_tick, get_agent. unfold bind at 1. intros (s1 & r & E1 & Hr)%handle_inv.
  apply Hc in E1. destruct r as [u|e]; [injection Hr as <- <-; auto|].
  apply bind_inv_ok in Hr as (s2 & u & E2 & [= <- <-]).
  unfold on_world, on_client, Client.on_world, zoom in E2. injection E2 as <- _. simpl.
  pose proof (heartbeat_backoff_nonneg (n + 1)) as Hk. pose proof (Hs _ (world (client s1)) Hk). split; [lia|right]. lia.
Qed.

(** Timers that do not fire early give at most one heartbeat an interval, however long calls and back-offs take. *)
Theorem heartbeats_rate ctx rounds t n s s' :
  forward ctx → 0 < tk_period t → tk_taken t ≤ clock s →
  heartbeat_rounds rounds ctx t n s = (s', Ok false) →
  ticks t (tk_taken t) + Z.of_nat rounds ≤ ticks t (clock s').
Proof.
  intros Hf Hp. revert t n s Hp. induction rounds as [|rounds IH]; intros t n s Hp Ht Hr; cbn [heartbeat_rounds] in Hr.
  - injection Hr as <-. rewrite Z.add_0_r. by apply ticks_mono.
  - apply bind_inv_ok in Hr as (s1 & tick & E1 & Hr). unfold receive, now in E1. unfold bind at 1 in E1.
    apply bind_inv_ok in E1 as (s0 & b & E0 & E1). apply (select_forward ctx) in E0 as [_ Hb0]; [|done].
    destruct b; injection E1 as <- <-; [done|]. specialize (Hb0 eq_refl).
    pose proof (receive_later t (clock s) (clock s0) Hp Ht Hb0) as Hlater.
    apply bind_inv_ok in Hr as (s2 & k & E2 & Hr). apply (heartbeat_tick_forward ctx) in E2 as [Hc2 _]; [|done].
    apply IH in Hr; [|done|done]. change (ticks t (clock s0) + Z.of_nat rounds ≤ ticks t (clock s')) in Hr. lia.
Qed.

(** A failed heartbeat, the [k]-th in a row, keeps its loop from looking at the context for [k * k] seconds, up to 60:
    from the fourth on more than the 10 seconds that down waits before it kills the agent. *)
Theorem failed_heartbeat_blocks ctx n s s' k :
  forward ctx → 0 ≤ n → heartbeat_tick ctx n s = (s', Ok k) → k ≠ 0 →
  k = n + 1 ∧ clock s + Z.min (k * k) 60 * Second ≤ clock s' ∧ (4 ≤ k → clock s + 16 * Second ≤ clock s').
Proof.
  intros Hf Hn Hr Hk. apply (heartbeat_tick_forward ctx) in Hr as [_ [?|[-> Hb]]]; [done| |done].
  unfold heartbeat_backoff in Hb. split; [done|]. split; [done|]. intros Hk4. unfold Second in *. assert (16 ≤ (n + 1) * (n + 1)) by nia. lia.
Qed.
End heartbeats.

(** ** The token *)

(** When the next refresh comes, by the time that remains: a fifth of it before the token expires, to the
    nanosecond, but not within 30 seconds, so that a token with less to go expires first. *)
Theorem token_refresh_schedule remaining :
  - 2 ^ 53 < remaining < 2 ^ 53 →
  let d := refresh_in (times_08 remaining) in
  30 * Second ≤ d ∧
  (remaining < 30 * Second → remaining < d ∧ d = 30 * Second) ∧
  (38 * Second ≤ remaining → remaining - 4 ≤ 5 * (remaining - d) ≤ remaining + 7).
Proof.
  intros Hr. cbv zeta. unfold refresh_in. destruct (Z.lt_ge_cases remaining 0) as [Hn|Hn].
  - pose proof (times_08_neg remaining Hn ltac:(lia)). unfold Second in *. case_bool; lia.
  - pose proof (times_08_near remaining ltac:(lia)). unfold Second in *. case_bool; lia.
Qed.

Section token.
Context `{StatusLib} `{Net6} `{StateJSON} `{Services W} `{Dialer W} `{Clock W} `{P2P W} `{WireGuard.OS W}
  `{Host W} `{Timer W} `{Keys W}.
Implicit Types s : Sys W.

Notation clock s := (Now (world (client s))).
Notation expiry s := (time_of_unix (expiresAt (agent s))).

(** From a state in [ok] timers are on time, and a registration succeeds within [budget], its retries included, with a token
    that lasts for [lifetime]. *)
Record renewing (ctx : Context) (ok : Sys W → Prop) (lifetime budget : Z) : Prop := {
  renewing_wait d s : ok s → 0 ≤ d →
    ∃ s', select_in d s = (s', Ok false) ∧ clock s' = clock s + d ∧ agent s' = agent s ∧ ok s';
  renewing_register s : ok s → ∃ s' id t e,
    retryRegister ctx (publicKey (agent s)) s = (s', Ok (id, t, e)) ∧ agent s' = agent s ∧
    clock s ≤ clock s' ≤ clock s + budget ∧ lifetime ≤ time_of_unix e - clock s' < 2 ^ 53 ∧
    ok (Build_Sys (setToken t e (agent s')) (client s'));
}.

Definition fresh (lifetime : Z) s : Prop := lifetime ≤ expiry s - clock s < 2 ^ 53.

Lemma refresh_round ctx ok lifetime budget s :
  renewing ctx ok lifetime budget → 38 * Second ≤ lifetime → 5 * budget + 5 ≤ lifetime → 0 ≤ budget →
  ok s → fresh lifetime s →
  ∃ s', tokenRefreshLoop 1 ctx s = (s', Ok false) ∧ ok s' ∧ fresh lifetime s' ∧ clock s' < expiry s.
Proof.
  intros [Hwait Hreg] Hl Hb Hb0 Hok Hf. unfold fresh in *. cbn [tokenRefreshLoop]. unfold get_agent, now.
  unfold bind at 1. unfold bind at 1.
  assert (time_until (expiresAt (agent s)) (clock s) = expiry s - clock s) as Hu.
  { unfold time_until. apply time_sub_small. unfold min_int64, max_int64, Second in *. lia. }
  rewrite Hu. set (left_ := expiry s - clock s) in *.
  destruct (token_refresh_schedule left_ ltac:(unfold Second in *; lia)) as (Hd & _ & Hslack).
  specialize (Hslack ltac:(lia)). set (d := refresh_in (times_08 left_)) in *.
  destruct (Hwait d s Hok ltac:(unfold Second in *; lia)) as (s1 & E1 & Hc1 & Ha1 & Hok1).
  rewrite (bind_ok _ _ _ _ _ E1). cbv iota.
  destruct (Hreg s1 Hok1) as (s2 & id & t & e & E2 & Ha2 & Hc2 & Hlife & Hok2).
  assert (token_refresh ctx s1 = (Build_Sys (setToken t e (agent s2)) (client s2), Ok tt)) as Et.
  { unfold token_refresh, get_agent. unfold bind at 1. by rewrite (handle_eq _ _ _ _ _ E2). }
  rewrite (bind_ok _ _ _ _ _ Et). eexists. split; [reflexivity|]. split; [exact Hok2|].
  cbn [agent client expiresAt setToken]. split; [exact Hlife|]. unfold left_ in *. lia.
Qed.

Lemma refresh_last rounds ctx s s1 :
  tokenRefreshLoop rounds ctx s = (s1, Ok false) → tokenRefreshLoop (S rounds) ctx s = tokenRefreshLoop 1 ctx s1.
Proof.
  revert s. induction rounds as [|rounds IH]; intros s Hr; [by injection Hr as <-|].
  cbn [tokenRefreshLoop] in Hr. unfold get_agent, now in Hr. unfold bind at 1 in Hr. unfold bind at 1 in Hr.
  apply bind_inv_ok in Hr as (s2 & b & E2 & Hr). destruct b; [done|].
  apply bind_inv_ok in Hr as (s3 & u & E3 & Hr). apply IH in Hr. rewrite <- Hr.
  change (tokenRefreshLoop (S (S rounds)) ctx s) with ((
      let! cancelled := select_in (refresh_in (times_08 (time_until (expiresAt (agent s)) (clock s)))) in
      if cancelled then ret true
      else let! _ := token_refresh ctx in tokenRefreshLoop (S rounds) ctx) s).
  rewrite (bind_ok _ _ _ _ _ E2). by rewrite (bind_ok _ _ _ _ _ E3).
Qed.

(** C17: As long as registrations succeed within a fifth of the tokens' lifetime, the refresh loop goes on for any number of
    rounds, and in every round the new token is there before the one it replaces expires. *)
Theorem token_never_lapses ctx ok lifetime budget rounds s :
  renewing ctx ok lifetime budget → 38 * Second ≤ lifetime → 5 * budget + 5 ≤ lifetime → 0 ≤ budget →
  ok s → fresh lifetime s →
  ∃ s1 s2, tokenRefreshLoop rounds ctx s = (s1, Ok false) ∧ tokenRefreshLoop (S rounds) ctx s = (s2, Ok false) ∧
    fresh lifetime s1 ∧ clock s2 < expiry s1.
Proof.
  intros Hren Hl Hb Hb0 Hok Hf.
  assert (∃ s1, tokenRefreshLoop rounds ctx s = (s1, Ok false) ∧ ok s1 ∧ fresh lifetime s1) as (s1 & E1 & Hok1 & Hf1).
  { induction rounds as [|rounds (s1 & E1 & Hok1 & Hf1)]; [by exists s|].
    destruct (refresh_round _ _ _ _ s1 Hren Hl Hb Hb0 Hok1 Hf1) as (s2 & E2 & Hok2 & Hf2 & _).
    exists s2. by rewrite (refresh_last _ _ _ _ E1). }
  destruct (refresh_round _ _ _ _ s1 Hren Hl Hb Hb0 Hok1 Hf1) as (s2 & E2 & _ & _ & Hlt).
  exists s1, s2. by rewrite (refresh_last _ _ _ _ E1).
Qed.
End token.
