(* ===== verification/Deployment.v ===== *)
(** An agent against the three services.

    [deployed] says how the agent's calls reach the services of Backend.v: a call is lost, or the
    handler runs with the metadata the caller sent and its answer arrives or is lost, and the others go on before and
    after it. [local_machine] says that what the agent does on its own machine leaves the services alone. From this and
    the agent's code: for as long as an agent runs, whatever fails and whatever the other nodes do that is not in its node's
    name, the address it gave its interface is leased to its own node, and to no other unless it was spoilt, and its node is
    the one of its key. *)

From S2P Require Import Prelude GoInt GoStrings GoNet Redis Grpc CircuitBreaker Configs Backend Client Gateway CliState Agent AgentLoops.
From S2P Require Allocator IdentityStore Identity ConfigService Registry Discovery WireGuard.

(** ** Calls over the network *)

(** What the caller attached to the call is what the handler finds. *)
Definition carries (ctx ctx' : Context) : Prop :=
  ∃ md, ctx_incoming ctx' = Some md ∧
    md_Get md "authorization" = map snd (filter (λ kv, kv.1 = "authorization") (ctx_outgoing ctx)).

(** A call that [h] answers, in an environment that does [E] *)
Definition served {B A} (E : relation B) (h : Context → M B A) (ctx : Context) (b b' : B) (r : res A) : Prop :=
  ∃ b1 b2, E b b1 ∧ E b2 b' ∧
    ((b2 = b1 ∧ ∃ e, r = Err e) ∨
     ∃ ctx' x, carries ctx ctx' ∧ h ctx' b1 = (b2, x) ∧ (r = x ∨ ∃ e, r = Err e)).

Section network.
Context `{Identity.JWT} (svc : Identity.IdentityService) (dh : Discovery.DiscoveryHandler).
Context `{Registry.PeerJSON} `{Net6} `{Redis R} `{Clock R}.
#[local] Instance network_tokens : Auth.TokenService Identity.World := tokens svc.

Record deployed `{Services W} (backend : W → Backend R) (E : relation (Backend R)) : Prop := {
  dep_RegisterNode ctx req w w' r : rpc_RegisterNode ctx req w = (w', r) →
    served E (λ _, on_identity (Identity.RegisterNode_handler svc req)) ctx (backend w) (backend w') r;
  dep_GetPublicKey ctx id w w' r : rpc_GetPublicKey ctx id w = (w', r) →
    served E (λ _, on_identity (Identity.GetPublicKey_handler svc id)) ctx (backend w) (backend w') r;
  dep_GetConfig ctx req w w' r : rpc_GetConfig ctx req w = (w', r) →
    served E (λ ctx, on_config (ConfigService.GetConfig ctx req)) ctx (backend w) (backend w') r;
  dep_RequestIP ctx req w w' r : rpc_RequestIP ctx req w = (w', r) →
    served E (λ ctx, on_config (ConfigService.RequestIP ctx req)) ctx (backend w) (backend w') r;
  dep_ReleaseIP ctx req w w' r : rpc_ReleaseIP ctx req w = (w', r) →
    served E (λ ctx, on_config (ConfigService.ReleaseIP ctx req)) ctx (backend w) (backend w') r;
  dep_RegisterPeer ctx req w w' r : rpc_RegisterPeer ctx req w = (w', r) →
    served E (λ ctx, on_discovery (Discovery.RegisterPeer dh ctx (call_request req))) ctx (backend w) (backend w') r;
  dep_ListPeers ctx req w w' r : rpc_ListPeers ctx req w = (w', r) →
    served E (λ ctx, on_discovery (Discovery.ListPeers dh ctx req)) ctx (backend w) (backend w') r;
  dep_Heartbeat ctx req w w' r : rpc_Heartbeat ctx req w = (w', r) →
    served E (λ ctx, on_discovery (Discovery.Heartbeat dh ctx req)) ctx (backend w) (backend w') r;
}.
End network.

(** ** The agent's machine *)

(** Nothing that an agent does on its machine reaches the services: meanwhile the environment does [E]. *)
Record local_machine `{P2P W} `{WireGuard.OS W} `{Timer W} `{Keys W} `{Host W} `{Dialer W} {B} (backend : W → B)
    (E : relation B) : Prop := {
  loc_New port : runs (over backend E) (p2p_New port);
  loc_ConnectAndPing id : runs (over backend E) (p2p_ConnectAndPing id);
  loc_p2p_Close : runs (over backend E) p2p_Close;
  loc_NewBridge a b : runs (over backend E) (p2p_NewBridge a b);
  loc_RegisterIncoming : runs (over backend E) bridge_RegisterIncoming;
  loc_AddPeer id : runs (over backend E) (bridge_AddPeer id);
  loc_bridge_Close : runs (over backend E) bridge_Close;
  loc_spawn m : runs (over backend E) m → runs (over backend E) (spawn m);
  loc_run_command name args : runs (over backend E) (WireGuard.run_command name args);
  loc_write_file path text : runs (over backend E) (WireGuard.write_file path text);
  loc_command_output name args : runs (over backend E) (WireGuard.command_output name args);
  loc_read_file path : runs (over backend E) (WireGuard.read_file path);
  loc_ClientCredentials ca : runs (over backend E) (ClientCredentials ca);
  loc_grpc_NewClient addr : runs (over backend E) (grpc_NewClient addr);
  loc_conn_Close h : runs (over backend E) (conn_Close h);
  loc_wait d w : E (backend w) (backend (wait d w).1);
  loc_sleep d w : E (backend w) (backend (sleep d w));
  loc_rand w : E (backend w) (backend (rand_Read w).1);
}.

(** ** What each of the agent's calls does to the services *)

Section agent.
Context `{StatusLib} `{Identity.JWT} (svc : Identity.IdentityService) (dh : Discovery.DiscoveryHandler).
Context `{Registry.PeerJSON} `{Net6} `{RedisLaws R} `{Clock R}.
Context `{StateJSON} `{Services W} `{Dialer W} `{Clock W} `{P2P W} `{WireGuard.OS W} `{Host W} `{Timer W} `{Keys W}.
#[local] Existing Instance IdentityStore.keeps_preorder.
Context (backend : W → Backend R) (E : relation (Backend R)) `{!PreOrder E}.
Context (Hnet : deployed svc dh backend E) (Hloc : local_machine backend E).
#[local] Instance agent_tokens : Auth.TokenService Identity.World := tokens svc.

(** [G] is what the agent is allowed to do to the services besides asking for and releasing addresses: at least what the
    environment may do, and steps that change no lease. *)
Context (spoilt : gset string) (G : relation (Backend R)) `{!PreOrder G} (HEG : ∀ b b', E b b' → G b b')
  (HNG : ∀ b b', step svc dh spoilt None b b' → G b b').

Notation world_rel := (over backend G).

Lemma served_runs {A} (h : Context → M (Backend R) A) ctx b b' r :
  (∀ ctx', runs G (h ctx')) → served E h ctx b b' r → G b b'.
Proof.
  intros Hh (b1 & b2 & Hb1%HEG & Hb2%HEG & [[-> _]|(ctx' & x & _ & Hr & _)]); [by trans b1|].
  apply Hh in Hr. by trans b1; [|trans b2].
Qed.

Lemma identity_runs {A} (m : M Identity.World A) : runs (rtc (Identity.ops_step svc)) m → runs G (on_identity m).
Proof.
  apply runs_zoom. intros b w Hw. remember (b_identity b) as w1 eqn:E0. revert b E0.
  induction Hw as [w1|w1 w2 w3 Hs _ IH]; intros b E0; subst w1.
  - destruct b. reflexivity.
  - etrans; [apply HNG, step_identity; exact Hs|]. apply (IH (set_identity w2 b) eq_refl).
Qed.

Lemma RegisterNode_ops req : runs (rtc (Identity.ops_step svc)) (Identity.RegisterNode_handler svc req).
Proof.
  unfold Identity.RegisterNode_handler. runs.
  intros w w' r Hr. eapply rtc_once, Identity.step_register, Hr.
Qed.

Lemma GetPublicKey_ops id : runs (rtc (Identity.ops_step svc)) (Identity.GetPublicKey_handler svc id).
Proof.
  unfold Identity.GetPublicKey_handler. runs.
  intros w w' r Hr. eapply rtc_once, Identity.step_key, Hr.
Qed.
Lemma rpc_RegisterNode_runs ctx req : runs world_rel (rpc_RegisterNode ctx req).
Proof.
  intros w w' r Hr. apply (dep_RegisterNode _ _ _ _ Hnet) in Hr. eapply served_runs; [|exact Hr].
  intros ctx'. apply identity_runs, RegisterNode_ops.
Qed.

Lemma rpc_GetPublicKey_runs ctx id : runs world_rel (rpc_GetPublicKey ctx id).
Proof.
  intros w w' r Hr. apply (dep_GetPublicKey _ _ _ _ Hnet) in Hr. eapply served_runs; [|exact Hr].
  intros ctx'. apply identity_runs, GetPublicKey_ops.
Qed.

Lemma rpc_GetConfig_runs ctx req : runs world_rel (rpc_GetConfig ctx req).
Proof.
  intros w w' r Hr. apply (dep_GetConfig _ _ _ _ Hnet) in Hr. eapply served_runs; [|exact Hr].
  intros ctx' b b' x Hb. eapply HNG, step_get_config, Hb.
Qed.

Lemma rpc_RegisterPeer_runs ctx req : runs world_rel (rpc_RegisterPeer ctx req).
Proof.
  intros w w' r Hr. apply (dep_RegisterPeer _ _ _ _ Hnet) in Hr. eapply served_runs; [|exact Hr].
  intros ctx' b b' x Hb. eapply HNG, step_register, Hb.
Qed.

Lemma rpc_ListPeers_runs ctx req : runs world_rel (rpc_ListPeers ctx req).
Proof.
  intros w w' r Hr. apply (dep_ListPeers _ _ _ _ Hnet) in Hr. eapply served_runs; [|exact Hr].
  intros ctx' b b' x Hb. eapply HNG, step_list, Hb.
Qed.

Lemma rpc_Heartbeat_runs ctx req : runs world_rel (rpc_Heartbeat ctx req).
Proof.
  intros w w' r Hr. apply (dep_Heartbeat _ _ _ _ Hnet) in Hr. eapply served_runs; [|exact Hr].
  intros ctx' b b' x Hb. eapply HNG, step_heartbeat, Hb.
Qed.

(** *** The machine *)

Lemma local_runs {A} (m : M W A) : runs (over backend E) m → runs world_rel m.
Proof. apply runs_weaken. intros w w'. apply HEG. Qed.

#[local] Hint Resolve rpc_RegisterNode_runs rpc_GetPublicKey_runs rpc_GetConfig_runs rpc_RegisterPeer_runs
  rpc_ListPeers_runs rpc_Heartbeat_runs : runs.
#[local] Hint Extern 1 (runs _ (p2p_New _)) => (apply local_runs, (loc_New _ _ Hloc)) : runs.
#[local] Hint Extern 1 (runs _ (p2p_ConnectAndPing _)) => (apply local_runs, (loc_ConnectAndPing _ _ Hloc)) : runs.
#[local] Hint Extern 1 (runs _ p2p_Close) => (apply local_runs, (loc_p2p_Close _ _ Hloc)) : runs.
#[local] Hint Extern 1 (runs _ (p2p_NewBridge _ _)) => (apply local_runs, (loc_NewBridge _ _ Hloc)) : runs.
#[local] Hint Extern 1 (runs _ bridge_RegisterIncoming) => (apply local_runs, (loc_RegisterIncoming _ _ Hloc)) : runs.
#[local] Hint Extern 1 (runs _ (bridge_AddPeer _)) => (apply local_runs, (loc_AddPeer _ _ Hloc)) : runs.
#[local] Hint Extern 1 (runs _ bridge_Close) => (apply local_runs, (loc_bridge_Close _ _ Hloc)) : runs.
#[local] Hint Extern 1 (runs _ (WireGuard.run_command _ _)) => (apply local_runs, (loc_run_command _ _ Hloc)) : runs.
#[local] Hint Extern 1 (runs _ (WireGuard.write_file _ _)) => (apply local_runs, (loc_write_file _ _ Hloc)) : runs.
#[local] Hint Extern 1 (runs _ (WireGuard.command_output _ _)) => (apply local_runs, (loc_command_output _ _ Hloc)) : runs.
#[local] Hint Extern 1 (runs _ (conn_Close _)) => (apply local_runs, (loc_conn_Close _ _ Hloc)) : runs.
#[local] Hint Extern 1 (runs _ (WireGuard.read_file _)) => (apply local_runs, (loc_read_file _ _ Hloc)) : runs.

Lemma updateCLIState_runs a b c d e : runs world_rel (updateCLIState a b c d e).
Proof. unfold updateCLIState. runs. Qed.

Lemma AddPeer_runs m pc : runs world_rel (WireGuard.AddPeer m pc).
Proof. unfold WireGuard.AddPeer, WireGuard.runWG, WireGuard.runCmd, WireGuard.first8. runs. Qed.

Lemma RemovePeer_runs m k : runs world_rel (WireGuard.RemovePeer m k).
Proof. unfold WireGuard.RemovePeer, WireGuard.runWG, WireGuard.runCmd, WireGuard.first8. runs. Qed.

Lemma Configure_runs m c : runs world_rel (WireGuard.Configure m c).
Proof. unfold WireGuard.Configure, WireGuard.up, WireGuard.runCmd. runs. Qed.

Lemma Down_runs m : runs world_rel (WireGuard.Down m).
Proof. unfold WireGuard.Down, WireGuard.runCmd. runs. Qed.
#[local] Hint Resolve updateCLIState_runs AddPeer_runs RemovePeer_runs Configure_runs Down_runs : runs.

(** *** The gateway *)

Notation gateway_rel := (over (λ s, backend (Gateway.machine s)) G).

Lemma on_machine_runs {A} (m : M W A) : runs world_rel m → runs gateway_rel (Gateway.on_machine m).
Proof. by apply runs_zoom. Qed.

Lemma gateway_cmd p name args : runs world_rel (Gateway.runCmd p name args).
Proof. unfold Gateway.runCmd. runs. Qed.

Lemma gateway_cmd_ p name args : runs world_rel (Gateway.runCmd_ p name args).
Proof. unfold Gateway.runCmd_. runs. apply gateway_cmd. Qed.

Lemma outbound_runs : runs world_rel Gateway.linux_defaultOutboundIface.
Proof. unfold Gateway.linux_defaultOutboundIface. runs. Qed.

Lemma get_manager_runs : runs gateway_rel (Gateway.get_manager (W := W)).
Proof. exact (runs_read _ Gateway.manager). Qed.

Lemma set_manager_runs g : runs gateway_rel (Gateway.set_manager (W := W) g).
Proof. intros s s' r [= <- <-]. unfold over. simpl. reflexivity. Qed.

Ltac gateway_runs := repeat first
  [apply get_manager_runs|apply set_manager_runs|progress runs
  |apply on_machine_runs; first [apply gateway_cmd|apply gateway_cmd_|apply outbound_runs]].

Lemma Enable_runs p : runs gateway_rel (Gateway.Enable p).
Proof.
  unfold Gateway.Enable, Gateway.enableForwarding, Gateway.linux_enableForwarding,
    Gateway.darwin_enableForwarding, Gateway.windows_enableForwarding, Gateway.powershell.
  gateway_runs.
Qed.

Lemma Disable_runs p : runs gateway_rel (Gateway.Disable p).
Proof.
  unfold Gateway.Disable, Gateway.disableForwarding, Gateway.linux_disableForwarding,
    Gateway.darwin_disableForwarding, Gateway.windows_disableForwarding, Gateway.powershell.
  gateway_runs.
Qed.

(** *** The client *)

#[local] Hint Extern 1 (runs _ (ClientCredentials _)) => (apply local_runs, (loc_ClientCredentials _ _ Hloc)) : runs.
#[local] Hint Extern 1 (runs _ (grpc_NewClient _)) => (apply local_runs, (loc_grpc_NewClient _ _ Hloc)) : runs.

Lemma New_runs i d c ca : runs world_rel (Client.New i d c ca).
Proof. unfold Client.New. runs. exact (runs_read _ _). Qed.

Notation client_rel := (over (λ c : Client W, backend (world c)) G).

Lemma through_runs {A} s (fn : M W A) : runs world_rel fn → runs client_rel (through s fn).
Proof.
  intros Hfn c c' r [[Hw _]|Hr]%through_run; unfold over; [by rewrite Hw|]. by apply Hfn in Hr.
Qed.

Lemma client_world_runs {A} (m : M W A) : runs world_rel m → runs client_rel (Client.on_world m).
Proof. by apply runs_zoom. Qed.

#[local] Hint Resolve through_runs client_world_runs : runs.

Lemma Register_runs ctx k p x : runs client_rel (Register ctx k p x).
Proof. unfold Register. runs. Qed.
Lemma GetPeerPublicKey_runs ctx id : runs client_rel (GetPeerPublicKey ctx id).
Proof. unfold GetPeerPublicKey. runs. Qed.
Lemma GetNetworkConfig_runs ctx t : runs client_rel (GetNetworkConfig ctx t).
Proof. unfold GetNetworkConfig. runs. Qed.
Lemma RegisterPeer_runs ctx t ip port p l b : runs client_rel (RegisterPeer ctx t ip port p l b).
Proof. unfold RegisterPeer. runs. Qed.
Lemma DiscoverPeers_runs ctx t n : runs client_rel (DiscoverPeers ctx t n).
Proof. unfold DiscoverPeers. runs. Qed.
Lemma Heartbeat_runs ctx t : runs client_rel (Client.Heartbeat ctx t).
Proof. unfold Client.Heartbeat. runs. Qed.

Lemma RequestIP_runs ctx tok node :
  (∀ c req b b' r, ConfigService.rq_NodeId req = node → on_config (ConfigService.RequestIP c req) b = (b', r) → G b b') →
  runs client_rel (RequestIP ctx tok node).
Proof.
  intros HR. unfold RequestIP. runs. apply through_runs. intros w w' r Hr. apply (dep_RequestIP _ _ _ _ Hnet) in Hr.
  eapply served_runs; [|exact Hr]. intros ctx' b b' x Hb. by eapply HR; [|exact Hb].
Qed.
#[local] Hint Resolve Register_runs GetPeerPublicKey_runs GetNetworkConfig_runs RegisterPeer_runs DiscoverPeers_runs
  Heartbeat_runs : runs.

Lemma client_Close_runs : runs client_rel Client.Close.
Proof.
  intros c c' r Hr. unfold Client.Close in Hr. revert Hr. generalize (identityConn c) (discoveryConn c) (configConn c).
  intros i d f Hr. assert (runs client_rel (let? _ := Client.on_world (conn_Close (W := W) i) in
    let? _ := Client.on_world (conn_Close d) in let? _ := Client.on_world (conn_Close f) in ret tt)) as Hc by runs.
  by apply Hc in Hr.
Qed.
#[local] Hint Resolve client_Close_runs : runs.

(** *** The agent *)

Definition bk (s : Sys W) : Backend R := backend (world (client s)).

Definition same_node (a a' : Agent) : Prop :=
  nodeID a' = nodeID a ∧ vpnIP a' = vpnIP a ∧ publicKey a' = publicKey a.

(** The agent goes on as the node it is, and the services do [G]. *)
Definition agent_rel (s s' : Sys W) : Prop := same_node (agent s) (agent s') ∧ G (bk s) (bk s').

#[local] Instance agent_rel_preorder : PreOrder agent_rel.
Proof.
  split; [by intros s|]. intros s1 s2 s3 [(? & ? & ?) ?] [(? & ? & ?) ?].
  split; [by split_and!; congruence|by trans (bk s2)].
Qed.

(** What such a relation admits: calls to the services, a change of the gateway's state, a new token *)
Class Admits (Rel : relation (Sys W)) : Prop := {
  admits_preorder :: PreOrder Rel;
  admits_call s c : G (bk s) (backend (world c)) → Rel s (Build_Sys (agent s) c);
  admits_gateway s g w : G (bk s) (backend w) → Rel s (Build_Sys (set_gateway g (agent s)) (set_world w (client s)));
  admits_token s t e : Rel s (Build_Sys (setToken t e (agent s)) (client s));
}.

#[local] Instance agent_rel_admits : Admits agent_rel.
Proof. split; [exact _|done..|]. intros s t e. split; [done|]. unfold bk. simpl. reflexivity. Qed.

Section admitted.
Context (Rel : relation (Sys W)) `{!Admits Rel}.

Lemma on_client_runs {A} (m : M (Client W) A) : runs client_rel m → runs Rel (on_client m).
Proof. apply runs_zoom. by intros s c Hc; apply admits_call. Qed.

Lemma on_world_runs {A} (m : M W A) : runs world_rel m → runs Rel (on_world m).
Proof. intros Hm. by apply on_client_runs, client_world_runs. Qed.

Lemma on_gateway_runs {A} (m : M (Gateway.State W) A) : runs gateway_rel m → runs Rel (on_gateway m).
Proof. apply runs_zoom. by intros s g Hg; apply admits_gateway. Qed.

Lemma setToken_runs t e : runs Rel (update (setToken t e)).
Proof. intros s s' r [= <- <-]. apply admits_token. Qed.

Lemma get_agent_runs : runs Rel get_agent.
Proof. exact (runs_read _ agent). Qed.
Lemma get_world_runs : runs Rel get_world.
Proof. exact (runs_read _ (λ s, world (client s))). Qed.
#[local] Hint Resolve on_client_runs on_world_runs on_gateway_runs get_agent_runs get_world_runs setToken_runs : runs.

Lemma wait_runs d : runs Rel (on_world (λ w, let '(w', b) := wait d w in (w', Ok b))).
Proof.
  apply on_world_runs. intros w w' r E0. destruct (wait d w) as [w1 b] eqn:Ew. injection E0 as <- <-.
  apply HEG. pose proof (loc_wait _ _ Hloc d w) as Hw. by rewrite Ew in Hw.
Qed.

Lemma sleep_runs d : runs Rel (on_world (λ w, (sleep d w, Ok tt))).
Proof. apply on_world_runs. intros w w' r [= <- <-]. apply HEG, (loc_sleep _ _ Hloc). Qed.
#[local] Hint Resolve wait_runs sleep_runs : runs.

Lemma attempts_runs ctx k i left : runs Rel (attempts ctx k i left).
Proof. revert i. induction left as [|left IH]; intros i; cbn [attempts]; runs. Qed.

Lemma retryRegister_runs ctx k : runs Rel (retryRegister ctx k).
Proof. apply attempts_runs. Qed.
#[local] Hint Resolve retryRegister_runs : runs.

Lemma heartbeat_tick_runs ctx n : runs Rel (heartbeat_tick ctx n).
Proof. unfold heartbeat_tick. runs. Qed.

Lemma token_refresh_runs ctx : runs Rel (token_refresh ctx).
Proof. unfold token_refresh. runs. Qed.

Lemma first16_runs (x : string) : runs Rel (first16 x).
Proof. unfold first16. runs. Qed.

Lemma bridge_peers_runs self peers : runs Rel (bridge_peers self peers).
Proof.
  assert (∀ addr, runs world_rel (spawn (bridge_peer addr))) as Hb.
  { intros addr. apply local_runs, (loc_spawn _ _ Hloc). unfold bridge_peer. runs;
      [apply (loc_ConnectAndPing _ _ Hloc)|apply (loc_AddPeer _ _ Hloc)]. }
  induction peers as [|p rest IH]; cbn [bridge_peers]; runs.
Qed.

Lemma proxy_port_runs addrs : runs Rel (proxy_port addrs).
Proof. unfold proxy_port. runs. Qed.
End admitted.
#[local] Hint Resolve on_client_runs on_world_runs on_gateway_runs get_agent_runs get_world_runs setToken_runs
  Enable_runs Disable_runs wait_runs sleep_runs retryRegister_runs heartbeat_tick_runs token_refresh_runs
  first16_runs bridge_peers_runs proxy_port_runs : runs.

Lemma update_runs f : (∀ a, same_node a (f a)) → runs agent_rel (update f).
Proof. intros Hf s s' r [= <- <-]. split; [apply Hf|]. unfold bk. simpl. reflexivity. Qed.
#[local] Hint Extern 2 (runs agent_rel (update _)) => (apply update_runs; done) : runs.

Lemma syncPeers_runs range ctx cidr : runs agent_rel (syncPeers range ctx cidr).
Proof.
  assert (∀ self peers online, runs agent_rel (online_peers ctx self peers online)) as Ho.
  { intros self. induction peers as [|p rest IH]; intros online; cbn [online_peers]; runs. }
  assert (∀ peers ex todo, runs agent_rel (add_peers peers ex cidr todo)) as Ha.
  { intros peers ex. induction todo as [|[id k] todo IH]; cbn [add_peers]; runs.
    unfold add_peer. runs. }
  assert (∀ online todo, runs agent_rel (remove_peers online todo)) as Hr.
  { intros online. induction todo as [|[id k] todo IH]; cbn [remove_peers]; runs. }
  unfold syncPeers. runs.
Qed.
#[local] Hint Resolve syncPeers_runs : runs.

Lemma generate_keys_runs : runs world_rel generate_keys.
Proof.
  intros w w' r. unfold generate_keys. pose proof (loc_rand _ _ Hloc w) as Hw.
  destruct (rand_Read w) as [w1 k]. intros [= <- <-]. by apply HEG.
Qed.

Lemma initial_peers_runs ctx self peers acc : runs agent_rel (initial_peers ctx self peers acc).
Proof. revert acc. induction peers as [|p rest IH]; intros acc; cbn [initial_peers]; runs. Qed.
#[local] Hint Resolve generate_keys_runs initial_peers_runs : runs.

(** A release answered by the services, as the agent sees it: when it is told that it succeeded, the handler said so. *)
Lemma release_call ctx tok node ip (s s' : Sys W) r :
  on_client (ReleaseIP ctx tok node ip) s = (s', r) →
  agent s' = agent s ∧
  (bk s' = bk s ∧ (∃ e, r = Err e) ∨ ∃ b1 b2, E (bk s) b1 ∧ E b2 (bk s') ∧ (b2 = b1 ∧ (∃ e, r = Err e) ∨ ∃ ctx' x,
     on_config (ConfigService.ReleaseIP ctx' {| ConfigService.rl_Token := tok; ConfigService.rl_NodeId := node;
       ConfigService.rl_IpAddress := ip |}) b1 = (b2, x) ∧ (r = Ok tt → ∃ resp, x = Ok resp))).
Proof.
  unfold on_client, zoom. destruct (ReleaseIP _ _ _ _ (client s)) as [c x] eqn:Er. intros [= <- ->].
  unfold bk. cbn [agent client]. split; [done|]. unfold ReleaseIP in Er.
  assert (∃ y, through config (rpc_ReleaseIP ctx {| ConfigService.rl_Token := tok; ConfigService.rl_NodeId := node;
      ConfigService.rl_IpAddress := ip |}) (client s) = (c, y) ∧ match y with Ok _ => True | Err _ => ∃ e, r = Err e end)
    as (y & Ey & Hy).
  { apply bind_inv in Er as [(e & Er & ->)|(c1 & resp & Er & [= -> <-])]; (eexists; split; [exact Er|]); simpl; eauto. }
  clear Er. apply through_run in Ey as [[Hw [e ->]]|Ey]; [rewrite Hw; by left|]. right.
  apply (dep_ReleaseIP _ _ _ _ Hnet) in Ey as (b1 & b2 & Hb1 & Hb2 & Hcase). exists b1, b2. split; [done|].
  split; [done|]. destruct Hcase as [[-> [e ->]]|(ctx' & z & _ & Hh & Hz)]; [by left|right]. exists ctx', z.
  split; [done|]. intros ->. destruct y as [resp|]; [|by destruct Hy]. destruct Hz as [<-|[? [=]]]. eauto.
Qed.

(** What [Stop] does is what its release does, and more that [G] allows. *)
Lemma Stop_so_far p s s' r :
  (∀ s1 x, vpnIP (agent s) ≠ "" →
     on_client (ReleaseIP Background (token (agent s)) (nodeID (agent s)) (vpnIP (agent s))) s = (s1, x) →
     agent_rel s s1) →
  Stop p s = (s', r) → agent_rel s s'.
Proof.
  intros Hrel Hr. unfold Stop in Hr. unfold bind at 1, get_agent in Hr.
  apply bind_inv in Hr as [(e & E1 & ->)|(s1 & [] & E1 & Hr)].
  - case_decide; [|done]. by apply handle_inv in E1 as (s2 & x & _ & [=]).
  - trans s1.
    + destruct (decide _) as [Hc|] in E1; [|by injection E1 as <-]. apply handle_inv in E1 as (s2 & x & E1 & [= <-]).
      eapply Hrel; [apply Hc|exact E1].
    + eapply runs_apply; [|exact Hr]. runs.
Qed.

(** What an agent does once it exists: it starts, once, and then runs the bodies of its loops in any order, while
    the environment goes on. *)
Inductive act (range : gmap string string → list (string * string)) (p : Platform) : relation (Sys W) :=
| act_start s ctx s' r : nodeID (agent s) = "" → vpnIP (agent s) = "" → Start p ctx s = (s', r) → act range p s s'
| act_sync s ctx cidr s' r : syncPeers range ctx cidr s = (s', r) → act range p s s'
| act_heartbeat s ctx k s' r : heartbeat_tick ctx k s = (s', r) → act range p s s'
| act_refresh s ctx s' r : token_refresh ctx s = (s', r) → act range p s s'
| act_env s w : E (bk s) (backend w) → act range p s (Build_Sys (agent s) (set_world w (client s))).

(** *** What the start does, for a node whose requests are among what [G] allows *)

Section start.
Context (allowed : string → Prop)
  (HGR : ∀ ctx req b b' r, allowed (ConfigService.rq_NodeId req) →
     on_config (ConfigService.RequestIP ctx req) b = (b', r) → G b b').

(** Since [b] the agent has done to the services what [G] allows; and so it has if its node is [node]. *)
Definition so_far (b : Backend R) (s : Sys W) : Prop := G b (bk s).
Definition as_node (node : string) (b : Backend R) (s : Sys W) : Prop :=
  nodeID (agent s) = node ∧ (allowed node → so_far b s).

Lemma so_far_runs {A} b (m : M (Sys W) A) : runs agent_rel m → runs (stable (so_far b)) m.
Proof. apply runs_weaken. intros s s' [_ HG] Hs. unfold so_far in *. by trans (bk s). Qed.

Lemma as_node_runs {A} node b (m : M (Sys W) A) : runs agent_rel m → runs (stable (as_node node b)) m.
Proof.
  apply runs_weaken. intros s s' [(Hid & _) HG] [Hs Hb]. split; [congruence|].
  intros Ha%Hb. unfold so_far in *. by trans (bk s).
Qed.

Lemma as_node_request node b ctx tok : runs (stable (as_node node b)) (on_client (RequestIP ctx tok node)).
Proof.
  intros s s' r Hr [Hid Hb]. unfold on_client, zoom in Hr. destruct (RequestIP ctx tok node (client s)) as [c x] eqn:Er.
  injection Hr as <- <-. split; [done|]. intros Ha. specialize (Hb Ha). unfold so_far, bk in *. simpl.
  etrans; [exact Hb|]. eapply (RequestIP_runs ctx tok node); [|exact Er]. intros c' req b1 b2 y <-. by apply HGR.
Qed.

Lemma as_node_end node b s : as_node node b s → allowed (nodeID (agent s)) → so_far b s.
Proof. by intros [-> Hb]. Qed.

Lemma update_seq (P Q : Sys W → Prop) {A} f (k : unit → M (Sys W) A) Post :
  (∀ s, P s → Q (Build_Sys (f (agent s)) (client s))) → (∀ u, triple Q (k u) Post) → triple P (bind (update f) k) Post.
Proof. intros Hf Hk. eapply triple_bind; [|exact Hk]. by intros s s' r Hs [= <- <-]; apply Hf. Qed.

Lemma Start_so_far p ctx b : triple (so_far b) (Start p ctx) (λ _ s, allowed (nodeID (agent s)) → so_far b s).
Proof.
  assert (∀ {A} (m : M (Sys W) A) k Q, runs agent_rel m → (∀ e s, so_far b s → Q (Err e) s) →
    (∀ a, triple (so_far b) (k a) Q) → triple (so_far b) (bind m k) (Q : res string → _)) as Hseq.
  { intros A m k Q Hm. by apply triple_seq, so_far_runs. }
  unfold Start. do 7 (apply Hseq; [runs|done|intros ?]).
  apply (update_seq _ (so_far b)); [done|intros ?]. apply Hseq; [runs|done|intros ?].
  apply Hseq; [runs|done|intros [[node tok] exp]].
  apply (update_seq _ (as_node node b)); [done|intros ?].
  do 2 (apply (triple_seq (as_node node b)); [apply as_node_runs; runs|intros ??; apply as_node_end|intros ?]).
  apply (triple_seq (as_node node b)); [apply as_node_request|intros ??; apply as_node_end|intros [[ip subnet] gw]].
  apply (update_seq _ (as_node node b)); [done|intros ?].
  intros s s' r Hs Hr. eapply as_node_end, (as_node_runs node b); [|exact Hr|exact Hs]. runs.
Qed.
Lemma act_so_far range p s s' :
  act range p s s' → allowed (nodeID (agent s')) → G (bk s) (bk s').
Proof.
  intros Ha Hall. destruct Ha as [s ctx s' r _ _ Hr|s ctx cidr s' r Hr|s ctx k s' r Hr|s ctx s' r Hr|s w HE].
  - eapply Start_so_far; [|exact Hr|exact Hall]. unfold so_far. reflexivity.
  - by apply (syncPeers_runs range ctx cidr) in Hr as [_ HG].
  - by apply (heartbeat_tick_runs agent_rel ctx k) in Hr as [_ HG].
  - by apply (token_refresh_runs agent_rel ctx) in Hr as [_ HG].
  - by apply HEG.
Qed.
End start.

(** ** The agent's node and its address *)

Context (n : IPNet) (ones : nat) (Hn : cidr_net ones n) (Hones : (1 ≤ ones)%nat).
Context (me : string) (Hme : me ≠ "") (HGme : ∀ b b', G b b' → others svc dh spoilt me b b').

Lemma G_effect b b' : good spoilt n ones b → G b b' →
  good spoilt n ones b' ∧ IdentityStore.keeps (Identity.db (b_identity b)) (Identity.db (b_identity b')) ∧
  ∀ ip, leased b me ip ↔ leased b' me ip.
Proof. intros Hg HG. by eapply (others_effect svc dh); [..|apply HGme]. Qed.

(** While it is [me], the agent has [me]'s key, and the address it uses is leased to [me]. *)
Definition mine (s : Sys W) : Prop :=
  good spoilt n ones (bk s) ∧
  (nodeID (agent s) = me → registered (bk s) me (publicKey (agent s)) ∧
     (vpnIP (agent s) ≠ "" → leased (bk s) me (vpnIP (agent s)))).

Lemma mine_stable s s' : agent_rel s s' → stable mine s s'.
Proof.
  intros [(Hid & Hip & Hk) HG] [Hg Hm]. destruct (G_effect _ _ Hg HG) as (Hg' & Hrows & Hl). split; [done|].
  rewrite Hid, Hip, Hk. intros [Hr Hleased]%Hm. split; [by eapply registered_keeps|]. intros Hv%Hleased. by apply Hl.
Qed.

Lemma mine_runs {A} (m : M (Sys W) A) : runs agent_rel m → runs (stable mine) m.
Proof. apply runs_weaken. apply mine_stable. Qed.

(** A registration that is answered leaves the node's row behind. *)
Lemma Register_registered ctx k p x (s s' : Sys W) node t e :
  on_client (Register ctx k p x) s = (s', Ok (node, t, e)) → good spoilt n ones (bk s) → registered (bk s') node k.
Proof.
  unfold on_client, zoom. destruct (Register ctx k p x (client s)) as [c r] eqn:Er. intros [= <- ->] Hg. simpl.
  unfold Register in Er. apply bind_inv_ok in Er as (c1 & resp & Er & [= -> <- <- <-]).
  apply wrap_err_inv in Er as [(? & Er & [= <-])|(? & _ & [=])].
  apply through_run in Er as [[_ [? [=]]]|Er]. apply (dep_RegisterNode _ _ _ _ Hnet) in Er.
  destruct Er as (b1 & b2 & Hb1 & Hb2 & [[_ [? [=]]]|(ctx' & y & _ & Hh & Hy)]).
  destruct Hy as [<-|[? [=]]]. unfold bk. simpl.
  destruct (G_effect _ _ Hg (HEG _ _ Hb1)) as (Hg1 & _ & _).
  pose proof (identity_runs _ (RegisterNode_ops _) _ _ _ Hh) as HG2.
  destruct (G_effect _ _ Hg1 HG2) as (Hg2 & _ & _).
  destruct (G_effect _ _ Hg2 (HEG _ _ Hb2)) as (_ & Hrows & _).
  apply (registered_keeps _ _ _ _ Hrows). unfold on_identity, zoom in Hh.
  destruct (Identity.RegisterNode_handler svc _ (b_identity b1)) as [w y] eqn:Ew. injection Hh as <- ->.
  unfold Identity.RegisterNode_handler in Ew. do 2 (case_decide; [done|]).
  apply bind_inv_ok in Ew as (w1 & [[id tok] exp] & Ew & [= <- <-]).
  apply wrap_err_inv in Ew as [(? & Ew & [= <-])|(? & _ & [=])].
  apply Identity.registered_row in Ew as (row & Hr & Hp & Hi). by exists row.
Qed.

Lemma attempts_registered ctx k i left (s s' : Sys W) node t e :
  attempts ctx k i left s = (s', Ok (node, t, e)) → good spoilt n ones (bk s) → registered (bk s') node k.
Proof.
  revert i s. induction left as [|left IH]; intros i s Er Hg; cbn [attempts] in Er; [done|].
  unfold bind at 1, get_world in Er. unfold bind at 1, get_agent in Er.
  apply handle_inv in Er as (s1 & r & E1 & Er).
  pose proof (on_client_runs agent_rel _ (Register_runs _ _ _ _) _ _ _ E1) as [_ HG1].
  destruct r as [[[id tok] exp]|err].
  - injection Er as <- <- <- <-. by eapply Register_registered.
  - case_match; [done|]. apply bind_inv_ok in Er as (s2 & b & E2 & Er). destruct b; [done|].
    pose proof (wait_runs agent_rel _ _ _ _ E2) as [_ HG2]. eapply IH; [exact Er|].
    destruct (G_effect _ _ Hg HG1) as (Hg1 & _). by destruct (G_effect _ _ Hg1 HG2).
Qed.
(** The call for an address: the answer is leased to the node the call names. *)
Lemma RequestIP_leased ctx tok node (s s' : Sys W) r :
  on_client (RequestIP ctx tok node) s = (s', r) → good spoilt n ones (bk s) →
  agent s' = agent s ∧ good spoilt n ones (bk s') ∧
  IdentityStore.keeps (Identity.db (b_identity (bk s))) (Identity.db (b_identity (bk s'))) ∧
  ∀ ip subnet gw, r = Ok (ip, subnet, gw) → node = me → leased (bk s') me ip.
Proof.
  unfold on_client, zoom. destruct (RequestIP ctx tok node (client s)) as [c x] eqn:Er. intros [= <- ->] Hg.
  unfold bk. cbn [agent client]. split; [done|]. unfold RequestIP in Er.
  assert (∃ y, through config (rpc_RequestIP ctx {| ConfigService.rq_Token := tok; ConfigService.rq_NodeId := node |})
      (client s) = (c, y) ∧
    ∀ ip subnet gw, r = Ok (ip, subnet, gw) → ∃ resp, y = Ok resp ∧ ConfigService.rp_IpAddress resp = ip) as (y & Ey & Hy).
  { apply bind_inv in Er as [(e & Er & ->)|(c1 & resp & Er & [= -> <-])];
      apply wrap_err_inv in Er as [(y & Er & [= <-])|(y & Er & [=])]; (eexists; split; [exact Er|]); [done|].
    intros ip subnet gw [= <- _ _]. eauto. }
  clear Er. apply through_run in Ey as [[Hw [e ->]]|Ey].
  { rewrite Hw. split; [done|]. split; [reflexivity|]. intros ? ? ? Hr. apply Hy in Hr as (? & [=] & _). }
  apply (dep_RequestIP _ _ _ _ Hnet) in Ey as (b1 & b2 & Hb1 & Hb2 & Hcase).
  destruct (G_effect _ _ Hg (HEG _ _ Hb1)) as (Hg1 & Hrows1 & _).
  destruct Hcase as [[-> [e ->]]|(ctx' & z & _ & Hh & Hz)].
  - destruct (G_effect _ _ Hg1 (HEG _ _ Hb2)) as (Hg2 & Hrows2 & _). split; [done|].
    split; [etrans; eassumption|]. intros ? ? ? Hr. apply Hy in Hr as (? & [=] & _).
  - destruct (request_effect svc spoilt n ones Hn Hones _ _ _ _ _ Hg1 Hh) as [[Hg2 Hrows2 _] Hl].
    destruct (G_effect _ _ Hg2 (HEG _ _ Hb2)) as (Hg3 & Hrows3 & Hme3). split; [done|].
    split; [etrans; [exact Hrows1|etrans; eassumption]|].
    intros ip subnet gw Hr ->. apply Hy in Hr as (resp & -> & <-). destruct Hz as [<-|[? [=]]].
    apply Hme3, (Hl resp eq_refl).
Qed.

(** *** The start *)

(** A new agent: it has neither node nor address. *)
Definition born (s : Sys W) : Prop := good spoilt n ones (bk s) ∧ nodeID (agent s) = "" ∧ vpnIP (agent s) = "".

Definition keyed (k : string) (s : Sys W) : Prop := born s ∧ publicKey (agent s) = k.

(** It has been given [node] for its key. *)
Definition identified (node : string) (s : Sys W) : Prop :=
  good spoilt n ones (bk s) ∧ nodeID (agent s) = node ∧ vpnIP (agent s) = "" ∧ registered (bk s) node (publicKey (agent s)).

Lemma born_mine s : born s → mine s.
Proof. intros (Hg & Hid & _). split; [done|]. rewrite Hid. by intros <-. Qed.

Lemma keyed_mine k s : keyed k s → mine s.
Proof. intros [Hb _]. by apply born_mine. Qed.

Lemma identified_mine node s : identified node s → mine s.
Proof. intros (Hg & Hid & Hip & Hr). split; [done|]. rewrite Hip, Hid. by intros ->. Qed.

Lemma keyed_runs {A} k (m : M (Sys W) A) : runs agent_rel m → runs (stable (keyed k)) m.
Proof.
  apply runs_weaken. intros s s' [(Hid & Hip & Hk) HG] [(Hg & ? & ?) ?]. destruct (G_effect _ _ Hg HG) as (Hg' & _).
  split; [split; [done|split; congruence]|congruence].
Qed.

Lemma born_runs {A} (m : M (Sys W) A) : runs agent_rel m → runs (stable born) m.
Proof.
  apply runs_weaken. intros s s' [(Hid & Hip & Hk) HG] (Hg & ? & ?). destruct (G_effect _ _ Hg HG) as (Hg' & _).
  split; [done|split; congruence].
Qed.

Lemma identified_runs {A} node (m : M (Sys W) A) : runs agent_rel m → runs (stable (identified node)) m.
Proof.
  apply runs_weaken. intros s s' [(Hid & Hip & Hk) HG] (Hg & ? & ? & Hr).
  destruct (G_effect _ _ Hg HG) as (Hg' & Hrows & _).
  split; [done|]. split; [congruence|]. split; [congruence|]. rewrite Hk. by eapply registered_keeps.
Qed.

(** What follows once the agent has its address, or has failed to get one, keeps it. *)
Lemma mine_triple {A} (m : M (Sys W) A) : runs agent_rel m → triple mine m (λ _, mine).
Proof. intros Hm. apply triple_runs; [done|]. by apply mine_runs. Qed.

(** Goes past the first step of a sequence, which keeps [I]. *)
Ltac past I :=
  apply (triple_seq I);
    [first [apply born_runs|apply keyed_runs|apply identified_runs]; solve [runs]
    |intros ? ?; first [apply born_mine|eapply keyed_mine|eapply identified_mine]|intros ?].

Lemma update_triple (P : Sys W → Prop) f (Q : res unit → Sys W → Prop) :
  (∀ s, P s → Q (Ok tt) (Build_Sys (f (agent s)) (client s))) → triple P (update f) Q.
Proof. by intros H' s s' r HP [= <- <-]; apply H'. Qed.

(** From its key on: registration *)
Lemma register_triple ctx k :
  triple (keyed k) (retryRegister ctx k) (λ r s,
    match r with Ok (node, _, _) => keyed k s ∧ registered (bk s) node k | Err _ => mine s end).
Proof.
  intros s s' r Hs E1. pose proof (keyed_runs k _ (retryRegister_runs agent_rel ctx k) _ _ _ E1 Hs) as Hs'.
  destruct r as [[[node t] e]|e]; [|by apply born_mine, Hs']. split; [done|].
  eapply attempts_registered; [exact E1|]. apply Hs.
Qed.

Lemma RequestIP_triple ctx tok node :
  triple (identified node) (on_client (RequestIP ctx tok node)) (λ r s,
    match r with
    | Ok (ip, _, _) => identified node s ∧ (node = me → leased (bk s) me ip)
    | Err _ => mine s
    end).
Proof.
  intros s s' r (Hg & Hid & Hip & Hr) E1.
  destruct (RequestIP_leased _ _ _ _ _ _ E1 Hg) as (Ha & Hg' & Hrows & Hl).
  assert (identified node s') as Hs'.
  { unfold identified. rewrite Ha. split; [done|]. split; [done|]. split; [done|]. by eapply registered_keeps. }
  destruct r as [[[ip subnet] gw]|e]; [|by eapply identified_mine]. split; [done|]. by apply (Hl _ _ _ eq_refl).
Qed.

Lemma Start_mine p ctx : triple born (Start p ctx) (λ _, mine).
Proof.
  unfold Start. do 7 past born. set (k := WireGuard.PublicKey _).
  eapply (triple_bind _ _ _ (λ _, keyed k)); [by apply update_triple|intros ?]. past (keyed k).
  eapply (triple_bind _ _ _ (λ '(node, _, _) s, keyed k s ∧ registered (bk s) node k)); [|intros [[node tok] exp]].
  { intros s s' [[[node t] e]|e] Hs E1; exact (register_triple _ _ _ _ _ Hs E1). }
  eapply (triple_bind _ _ _ (λ _, identified node)); [|intros ?].
  { apply update_triple. intros s [[(Hg & _ & Hip) Hk] Hr]. rewrite <- Hk in Hr. done. }
  do 2 past (identified node).
  eapply (triple_bind _ _ _ (λ '(ip, _, _) s, identified node s ∧ (node = me → leased (bk s) me ip)));
    [|intros [[ip subnet] gw]].
  { intros s s' [[[ip subnet] gw]|e] Hs E1; exact (RequestIP_triple _ _ _ _ _ _ Hs E1). }
  eapply (triple_bind _ _ _ (λ _, mine)); [|intros ?; apply mine_triple; runs].
  apply update_triple. intros s [(Hg & Hid & _ & Hr) Hl]. split; [done|]. simpl. rewrite Hid.
  intros ->. split; [done|]. intros _. by apply Hl.
Qed.
(** *** The life of an agent *)

Definition life range p (s : Sys W) : Prop := 
  ∃ s0, born s0 ∧ activePeers (agent s0) = ∅ ∧ rtc (act range p) s0 s.

Lemma act_mine range p s s' : act range p s s' → mine s → mine s'.
Proof.
  intros Ha Hm. destruct Ha as [s ctx s' r Hid Hip Hr|s ctx cidr s' r Hr|s ctx k s' r Hr|s ctx s' r Hr|s w HE].
  - eapply Start_mine; [|exact Hr]. split; [apply Hm|done].
  - by eapply (mine_runs _ (syncPeers_runs range ctx cidr)).
  - by eapply (mine_runs _ (heartbeat_tick_runs agent_rel ctx k)).
  - by eapply (mine_runs _ (token_refresh_runs agent_rel ctx)).
  - eapply mine_stable; [|exact Hm]. split; [done|]. by apply HEG.
Qed.

Lemma life_mine range p s : life range p s → mine s.
Proof.
  intros (s0 & Hb & _ & Hr). apply born_mine in Hb. induction Hr as [|s1 s2 s3 Ha _ IH]; [done|].
  by apply IH, (act_mine _ _ _ _ Ha).
Qed.

(** *** The keys of the active peers *)

Definition keys_ok (b : Backend R) (m : gmap string string) : Prop := ∀ id key, m !! id = Some key → registered b id key.

(** Every active peer is configured with the key of its own node; and so is every entry of [m]. *)
Definition authentic (m : gmap string string) (s : Sys W) : Prop :=
  good spoilt n ones (bk s) ∧ keys_ok (bk s) (activePeers (agent s)) ∧ keys_ok (bk s) m.

Lemma authentic_stable m s s' :
  activePeers (agent s') = activePeers (agent s) → G (bk s) (bk s') → stable (authentic m) s s'.
Proof.
  intros Ha HG (Hg & Hp & Hm). destruct (G_effect _ _ Hg HG) as (Hg' & Hrows & _). split; [done|].
  rewrite Ha. split; intros id key Hl; (eapply registered_keeps; [exact Hrows|]); [by apply Hp|by apply Hm].
Qed.

#[local] Instance authentic_admits m : Admits (stable (authentic m)).
Proof.
  split; [exact _|..]; intros; apply authentic_stable; try done.
Qed.

Lemma keep_peers_runs m f : (∀ a, activePeers (f a) = activePeers a) → runs (stable (authentic m)) (update f).
Proof. intros Hf s s' r [= <- <-]. apply authentic_stable; [apply Hf|]. unfold bk. simpl. reflexivity. Qed.
#[local] Hint Extern 2 (runs (stable (authentic _)) (update _)) => (apply keep_peers_runs; done) : runs.

(** The identity service answers with the key of the node that it is asked for. *)
Lemma GetPeerPublicKey_registered ctx id (s s' : Sys W) key :
  on_client (GetPeerPublicKey ctx id) s = (s', Ok key) → good spoilt n ones (bk s) → registered (bk s') id key.
Proof.
  unfold on_client, zoom. destruct (GetPeerPublicKey ctx id (client s)) as [c r] eqn:Er. intros [= <- ->] Hg.
  unfold GetPeerPublicKey in Er. apply wrap_err_inv in Er as [(? & Er & [= <-])|(? & _ & [=])].
  apply through_run in Er as [[_ [? [=]]]|Er]. apply (dep_GetPublicKey _ _ _ _ Hnet) in Er.
  destruct Er as (b1 & b2 & Hb1 & Hb2 & [[_ [? [=]]]|(ctx' & y & _ & Hh & Hy)]).
  destruct Hy as [<-|[? [=]]]. unfold bk. simpl.
  destruct (G_effect _ _ Hg (HEG _ _ Hb1)) as (Hg1 & _ & _).
  pose proof (identity_runs _ (GetPublicKey_ops _) _ _ _ Hh) as HG2.
  destruct (G_effect _ _ Hg1 HG2) as (Hg2 & _ & _).
  destruct (G_effect _ _ Hg2 (HEG _ _ Hb2)) as (_ & Hrows & _).
  apply (registered_keeps _ _ _ _ Hrows). unfold on_identity, zoom in Hh.
  destruct (Identity.GetPublicKey_handler svc _ (b_identity b1)) as [w y] eqn:Ew. injection Hh as <- ->.
  unfold Identity.GetPublicKey_handler in Ew. case_decide; [done|].
  apply wrap_err_inv in Ew as [(? & Ew & [= <-])|(? & _ & [=])]. by apply Identity.public_key_row in Ew.
Qed.

Lemma fetch_triple m ctx id :
  triple (authentic m) (on_client (GetPeerPublicKey ctx id)) (λ r s,
    authentic m s ∧ ∀ key, r = Ok key → registered (bk s) id key).
Proof.
  intros s s' r Hs Hr. split.
  - assert (runs (stable (authentic m)) (on_client (GetPeerPublicKey ctx id))) as Hk by runs. exact (Hk _ _ _ Hr Hs).
  - intros key ->. eapply GetPeerPublicKey_registered; [exact Hr|apply Hs].
Qed.

Lemma keys_ok_insert b m id key : keys_ok b m → registered b id key → keys_ok b (<[id := key]> m).
Proof. intros Hm Hk id' key' [[<- <-]|[_ Hl]]%lookup_insert_Some; [done|by apply Hm]. Qed.

Lemma online_peers_authentic ctx self peers online :
  triple (authentic online) (online_peers ctx self peers online) (λ r s,
    authentic ∅ s ∧ ∀ m, r = Ok m → authentic m s).
Proof.
  revert online. induction peers as [|p rest IH]; intros online; cbn [online_peers].
  - intros s s' r (Hg & Hp & Hm) [= <- <-]. split; [done|]. by intros m [= <-].
  - case_decide; [apply IH|]. intros s s' r Hs (s1 & x & E1 & Hr)%handle_inv.
    destruct (fetch_triple _ _ _ _ _ _ Hs E1) as [(Hg & Hp & Hm) Hx]. destruct x as [key|e].
    + eapply IH; [|exact Hr]. split; [done|]. split; [done|]. apply keys_ok_insert; [done|]. by apply Hx.
    + by eapply IH; [|exact Hr].
Qed.

Lemma authentic_empty m s : authentic m s → authentic ∅ s.
Proof. intros (Hg & Hp & _). split; [done|]. split; [done|]. intros id key Hl. by rewrite lookup_empty in Hl. Qed.

Lemma activate_runs m id key :
  m !! id = Some key → runs (stable (authentic m)) (update (λ a, set_activePeers (<[id := key]> (activePeers a)) a)).
Proof.
  intros Hl s s' r [= <- <-] (Hg & Hp & Hm). split; [done|]. split; [|done]. apply keys_ok_insert; [done|]. by apply Hm.
Qed.

Lemma deactivate_runs m id :
  runs (stable (authentic m)) (update (λ a, set_activePeers (delete id (activePeers a)) a)).
Proof.
  intros s s' r [= <- <-] (Hg & Hp & Hm). split; [done|]. split; [|done].
  intros id' key Hl. cbn [activePeers agent set_activePeers] in Hl. apply lookup_delete_Some in Hl as [_ Hl]. by apply Hp.
Qed.
#[local] Hint Resolve activate_runs deactivate_runs : runs.

Lemma add_peers_authentic m peers ex cidr todo :
  (∀ id key, (id, key) ∈ todo → m !! id = Some key) → runs (stable (authentic m)) (add_peers peers ex cidr todo).
Proof.
  induction todo as [|[id key] todo IH]; intros Hin; cbn [add_peers]; [runs|].
  assert (m !! id = Some key) as Hl by (apply Hin; by left).
  assert (runs (stable (authentic m)) (add_peers peers ex cidr todo)) by (apply IH; intros; apply Hin; by right).
  unfold add_peer. runs.
Qed.

Lemma remove_peers_authentic m online todo : runs (stable (authentic m)) (remove_peers online todo).
Proof. induction todo as [|[id key] todo IH]; cbn [remove_peers]; runs. Qed.

Lemma syncPeers_authentic range ctx cidr :
  (∀ m id key, (id, key) ∈ range m → m !! id = Some key) →
  runs (stable (authentic ∅)) (syncPeers range ctx cidr).
Proof.
  intros Hrange. unfold syncPeers. refine (runs_bind _ _ _ _ _); [runs|intros a].
  refine (runs_handle _ _ _ _ _); [runs|intros [peers|e]; [|runs]]. cbv zeta.
  assert (triple (authentic ∅) (let! online := online_peers ctx (nodeID a) peers ∅ in
    let! _ := add_peers peers (exit_node a peers) cidr (range online) in
    let! a := get_agent in remove_peers online (range (activePeers a))) (λ _, authentic ∅)) as Ht;
    [|by intros s s' r Hr Hs; eapply Ht].
  eapply (triple_bind _ _ _ (λ m, authentic m)); [|intros online].
  { intros s s' r Hs Hr. destruct (online_peers_authentic _ _ _ _ _ _ _ Hs Hr) as [He Hok]. destruct r; auto. }
  intros s s' r Hs Hr. apply (authentic_empty online). revert Hs. revert Hr. revert s s' r.
  change (runs (stable (authentic online)) (let! _ := add_peers peers (exit_node a peers) cidr (range online) in
    let! a := get_agent in remove_peers online (range (activePeers a)))).
  runs; [apply add_peers_authentic, Hrange|apply remove_peers_authentic].
Qed.

Lemma initial_peers_authentic ctx self peers acc : runs (stable (authentic ∅)) (initial_peers ctx self peers acc).
Proof.
  revert acc. induction peers as [|p rest IH]; intros acc; cbn [initial_peers]; [runs|]. case_decide; [apply IH|].
  intros s s' r (s1 & x & E1 & Hr)%handle_inv Hs. destruct (fetch_triple _ _ _ _ _ _ Hs E1) as [Hs1 Hx].
  destruct x as [key|e]; [|by eapply IH]. specialize (Hx _ eq_refl).
  destruct (Discovery.pi_P2PAddrs p) as [|addr addrs]; [by injection Hr as <- <-|].
  unfold bind at 1, get_world in Hr. case_match; [|by eapply IH].
  unfold bind, update in Hr. eapply IH; [exact Hr|]. destruct Hs1 as (Hg & Hp & Hm).
  split; [done|]. split; [|done]. by apply keys_ok_insert.
Qed.

Lemma RequestIP_authentic ctx tok node : runs (stable (authentic ∅)) (on_client (RequestIP ctx tok node)).
Proof.
  intros s s' r Hr (Hg & Hp & Hm). destruct (RequestIP_leased _ _ _ _ _ _ Hr Hg) as (Ha & Hg' & Hrows & _).
  split; [done|]. rewrite Ha. split; intros id key Hl; (eapply registered_keeps; [exact Hrows|]); [by apply Hp|by apply Hm].
Qed.
#[local] Hint Resolve initial_peers_authentic RequestIP_authentic : runs.

Lemma Start_authentic p ctx : runs (stable (authentic ∅)) (Start p ctx).
Proof. unfold Start. runs. Qed.

Lemma act_authentic range p s s' :
  (∀ m id key, (id, key) ∈ range m → m !! id = Some key) → act range p s s' → authentic ∅ s → authentic ∅ s'.
Proof.
  intros Hrange Ha. destruct Ha as [s ctx s' r _ _ Hr|s ctx cidr s' r Hr|s ctx k s' r Hr|s ctx s' r Hr|s w HE].
  - exact (Start_authentic p ctx _ _ _ Hr).
  - exact (syncPeers_authentic range ctx cidr Hrange _ _ _ Hr).
  - exact (heartbeat_tick_runs (stable (authentic ∅)) ctx k _ _ _ Hr).
  - exact (token_refresh_runs (stable (authentic ∅)) ctx _ _ _ Hr).
  - apply authentic_stable; [done|]. by apply HEG.
Qed.

Lemma life_authentic range p s :
  (∀ m id key, (id, key) ∈ range m → m !! id = Some key) → life range p s → authentic ∅ s.
Proof.
  intros Hrange (s0 & (Hg & _) & Hp & Hr).
  assert (authentic ∅ s0) as Hs0.
  { split; [done|]. rewrite Hp. by split; intros id key Hl; rewrite lookup_empty in Hl. }
  clear Hp Hg. induction Hr as [|s1 s2 s3 Ha _ IH]; [done|]. by apply IH, (act_authentic _ _ _ _ Hrange Ha).
Qed.

(** *** The end *)

(** Against a Redis server that answers, a call that releases [me]'s own address is one of the steps that others reckon
    with. *)
Lemma release_step `{!RedisUp R} ctx req (b b' : Backend R) r :
  good spoilt n ones b → leased b (ConfigService.rl_NodeId req) (ConfigService.rl_IpAddress req) →
  on_config (ConfigService.ReleaseIP ctx req) b = (b', r) →
  match r with
  | Ok _ => step svc dh spoilt (Some (ConfigService.rl_NodeId req)) b b' ∧ ∀ ip, ¬ leased b' (ConfigService.rl_NodeId req) ip
  | Err _ => step svc dh spoilt None b b' ∧ b_redis b' = b_redis b
  end.
Proof.
  intros Hg Hl Hr. destruct r as [resp|e].
  - split; [|by intros ip; eapply release_gone].
    destruct (decide (ConfigService.rl_IpAddress req ∈ spoilt)); [by eapply step_spoil|].
    eapply step_release; [|exact Hr]. intros node Hnd. by eapply leased_once.
  - assert (b_redis b' = b_redis b) as Hsame; [|split; [eapply step_refused; [exact Hr|by rewrite Hsame; apply quiet_refl]|done]].
    pose proof Hr as (st & Hr' & ->)%on_config_inv. simpl.
    apply (ReleaseIP_world svc) in Hr' as [[Hw _]|(x & Ha & [e' ->])]; [by rewrite Hw|].
    destruct (good_leases _ _ _ _ Hg) as (t & Hs & _).
    destruct (Allocator.ReleaseIP_up (ConfigService.allocator (b_config b)) (ConfigService.rl_NodeId req)
      (ConfigService.rl_IpAddress req) (ConfigService.st_world (config_state b)) t Hs) as (w & Ew & _).
    simpl in Ha, Ew. congruence.
Qed.

Lemma release_own `{!RedisUp R} ctx req (b b' : Backend R) r :
  good spoilt n ones b → ConfigService.rl_NodeId req = me → leased b me (ConfigService.rl_IpAddress req) →
  on_config (ConfigService.ReleaseIP ctx req) b = (b', r) →
  good spoilt n ones b' ∧
  match r with Ok _ => ∀ ip, ¬ leased b' me ip | Err _ => leased b' me (ConfigService.rl_IpAddress req) end.
Proof.
  intros Hg Hid Hl Hr. rewrite <- Hid in Hl. pose proof (release_step _ _ _ _ _ Hg Hl Hr) as Hst.
  destruct r as [resp|e]; destruct Hst as [Hst Hx]; apply (step_effect svc dh spoilt n ones Hn Hones _ _ _ Hg) in Hst as [Hg' _ _].
  - split; [done|]. by rewrite <- Hid.
  - split; [done|]. rewrite <- Hid. unfold leased in *. by rewrite Hx.
Qed.

(** What a call to release [ip] that the agent is told [x] of leaves behind: no address if it succeeded; else [ip] or none. *)
Definition released (ip : string) (x : res unit) (s : Sys W) : Prop :=
  good spoilt n ones (bk s) ∧
  ((∀ ip', ¬ leased (bk s) me ip') ∨ (∃ e, x = Err e) ∧ leased (bk s) me ip).

Lemma released_stable ip x s s' : agent_rel s s' → stable (released ip x) s s'.
Proof.
  intros [_ HG] [Hg Hl]. destruct (G_effect _ _ Hg HG) as (Hg' & _ & Hsame). split; [done|].
  destruct Hl as [Hno|[He Hyes]]; [left; intros y Hy; by eapply Hno, Hsame|right; split; [done|by apply Hsame]].
Qed.

Lemma released_runs {A} ip x (m : M (Sys W) A) : runs agent_rel m → runs (stable (released ip x)) m.
Proof. apply runs_weaken, released_stable. Qed.

Lemma ReleaseIP_own `{!RedisUp R} tok (s s' : Sys W) r :
  mine s → nodeID (agent s) = me → vpnIP (agent s) ≠ "" →
  on_client (ReleaseIP Background tok me (vpnIP (agent s))) s = (s', r) →
  agent s' = agent s ∧ released (vpnIP (agent s)) r s'.
Proof.
  intros [Hg Hm] Hid Hip Hr. destruct (Hm Hid) as [_ Hl]. specialize (Hl Hip).
  apply release_call in Hr as [Ha [[Hb He]|(b1 & b2 & Hb1 & Hb2 & Hcase)]].
  { split; [done|]. unfold released. rewrite Hb. auto. }
  split; [done|]. destruct (G_effect _ _ Hg (HEG _ _ Hb1)) as (Hg1 & _ & Hl1). rewrite (Hl1 _) in Hl.
  assert (good spoilt n ones b2 ∧
    ((∀ ip, ¬ leased b2 me ip) ∨ (∃ e, r = Err e) ∧ leased b2 me (vpnIP (agent s)))) as [Hg2 Hl2].
  { destruct Hcase as [[-> He]|(ctx' & z & Hh & Hz)]; [auto|]. eapply release_own in Hh as [Hg2 Hx]; [|done..].
    split; [done|]. destruct z as [resp|e]; [by left|right]. split; [|done].
    destruct r as [[]|e']; [|eauto]. by destruct (Hz eq_refl). }
  unfold released. destruct (G_effect _ _ Hg2 (HEG _ _ Hb2)) as (Hg3 & _ & Hl3). split; [done|].
  destruct Hl2 as [Hno|[He Hyes]]; [left; intros ip Hx; by eapply Hno, Hl3|right; split; [done|by apply Hl3]].
Qed.

Lemma Stop_leaves `{!RedisUp R} p (s s' : Sys W) r :
  mine s → nodeID (agent s) = me → vpnIP (agent s) ≠ "" → token (agent s) ≠ "" → Stop p s = (s', r) →
  ∃ s1 x, on_client (ReleaseIP Background (token (agent s)) me (vpnIP (agent s))) s = (s1, x) ∧
    released (vpnIP (agent s)) x s'.
Proof.
  intros Hm Hid Hip Htok Hr. unfold Stop in Hr. unfold bind at 1, get_agent in Hr.
  apply bind_inv in Hr as [(e & E1 & ->)|(s1 & [] & E1 & Hr)].
  - case_decide; [|done]. by apply handle_inv in E1 as (s2 & x & _ & [=]).
  - destruct (decide _) as [|Hn'] in E1; [|by destruct Hn']. apply handle_inv in E1 as (s2 & x & E1 & [= <-]).
    rewrite Hid in E1. exists s2, x. split; [done|].
    eapply (released_runs (vpnIP (agent s)) x); [|exact Hr|by eapply ReleaseIP_own]. runs.
Qed.
End agent.

(** ** What an agent can rely on, and what the others can expect of it *)

Section properties.
Context `{StatusLib} `{Identity.JWT} (svc : Identity.IdentityService) (dh : Discovery.DiscoveryHandler).
Context `{Registry.PeerJSON} `{Net6} `{RedisLaws R} `{Clock R}.
Context `{StateJSON} `{Services W} `{Dialer W} `{Clock W} `{P2P W} `{WireGuard.OS W} `{Host W} `{Timer W} `{Keys W}.
#[local] Instance property_tokens : Auth.TokenService Identity.World := tokens svc.
Context (backend : W → Backend R) (E : relation (Backend R)) `{!PreOrder E}.
Context (Hnet : deployed svc dh backend E) (Hloc : local_machine backend E).
Context (n : IPNet) (ones : nat) (Hn : cidr_net ones n) (Hones : (1 ≤ ones)%nat).
Context (spoilt : gset string) (me : string) (Hme : me ≠ "") (HE : ∀ b b', E b b' → others svc dh spoilt me b b').
Notation bk := (bk backend).
Notation life := (life backend E spoilt n ones).
Notation act := (act backend E).

Lemma others_none node (b b' : Backend R) : step svc dh spoilt None b b' → others svc dh spoilt node b b'.
Proof. by apply others_step. Qed.

Lemma alive range p s : life range p s → mine backend spoilt n ones me s.
Proof. apply (life_mine svc dh backend E Hnet Hloc spoilt (others svc dh spoilt me) HE (others_none me) n ones Hn Hones me Hme). done. Qed.

(** C1: For as long as the agent runs, whatever calls and commands fail and whatever else the other nodes do, provided that
    nobody asks for or releases an address in the name of this node (the config service would let them): the node that the
    agent goes by has the public key that it goes by; the address of its interface is leased to that node, lies in the
    network and is not the gateway; and it is leased to no other node unless it was spoilt, that is, if it was
    never released by a node that it was not leased to nor by a release that failed. *)
Theorem agent_owns_address range p s :
  life range p s → nodeID (agent s) = me → vpnIP (agent s) ≠ "" →
  registered (bk s) me (publicKey (agent s)) ∧ leased (bk s) me (vpnIP (agent s)) ∧
  (vpnIP (agent s) ∉ spoilt → ∀ node, leased (bk s) node (vpnIP (agent s)) → node = me) ∧
  vpnIP (agent s) ≠ Allocator.Gateway (Allocator.allocator_of n) ∧
  ∃ x, vpnIP (agent s) = IP_String (ip4 x) ∧ Contains n (ip4 x) = true.
Proof.
  intros [Hg Hm]%alive Hid Hip. destruct (Hm Hid) as [Hr Hl]. specialize (Hl Hip). split_and!; [done..| | |].
  - intros Hs node Hnode. by eapply leased_once.
  - by eapply leased_address.
  - by eapply leased_address.
Qed.

(** C2: Every active peer of a running agent is configured with the public key that the identity service has for the
    peer's node: no other node has that key, and the node has no other key. *)
Theorem active_peers_authentic range p s id key :
  (∀ m i k, (i, k) ∈ range m → m !! i = Some k) →
  life range p s → activePeers (agent s) !! id = Some key →
  registered (bk s) id key ∧
  (∀ id', registered (bk s) id' key → id' = id) ∧ (∀ key', registered (bk s) id key' → key' = key).
Proof.
  intros Hrange Hlife Hl.
  destruct (life_authentic svc dh backend E Hnet Hloc spoilt (others svc dh spoilt me) HE (others_none me) n ones Hn Hones me
    (λ _ _ HG, HG) range p s Hrange Hlife) as (Hg & Hp & _).
  specialize (Hp _ _ Hl). split; [done|].
  split; intros x Hx; by apply (registered_once spoilt n ones _ _ _ _ _ Hg Hx Hp).
Qed.

(** [main] exits without [Stop] when [Start] fails: if that was after the address was given, the address stays leased. *)
Theorem failed_start_keeps_address os p tempDir dir load w s m :
  good spoilt n ones (backend w) →
  main_start os p tempDir dir load w = (inr s, Ok (exited 1 m)) → nodeID (agent s) = me → vpnIP (agent s) ≠ "" →
  leased (bk s) me (vpnIP (agent s)).
Proof.
  intros Hg Hmain Hid Hip. unfold main_start in Hmain. destruct load as [c|e]; [|done].
  destruct (Agent.New os p tempDir dir c w) as [w' [s0|e]] eqn:E0; [|by destruct e].
  assert (born backend spoilt n ones s0) as Hborn.
  { unfold Agent.New in E0. apply bind_inv_ok in E0 as (w1 & cl & E1 & E0).
    destruct (AgentConfig.DryRun c); [|done]. injection E0 as <- <-. split; [|done].
    unfold Deployment.bk. cbn [client]. rewrite (New_world _ _ _ _ _ _ _ E1).
    apply (New_runs backend E Hloc (others svc dh spoilt me) HE) in E1.
    by apply (others_effect svc dh spoilt n ones Hn Hones me _ _ Hg) in E1 as [Hg1 _]. }
  destruct (Start p Background s0) as [s1 [cidr|e]] eqn:E1; [done|].
  assert (s1 = s) as -> by (destruct e; congruence).
  apply (Start_mine svc dh backend E Hnet Hloc spoilt (others svc dh spoilt me) HE (others_none me) n ones Hn Hones me Hme
    (λ _ _ HG, HG)) in E1; [|done]. destruct E1 as [_ Hm]. by apply Hm.
Qed.

(** C22: [Stop] asks the config service to release the agent's address. If it is told that this was done then, against a
    Redis server that answers, the agent's node holds no address afterwards; if not, it holds none or still the same one.
    The invariant of the services holds. *)
Theorem Stop_releases_address `{!RedisUp R} range p s s' r :
  life range p s → nodeID (agent s) = me → vpnIP (agent s) ≠ "" → token (agent s) ≠ "" → Stop p s = (s', r) →
  good spoilt n ones (bk s') ∧
  ∃ s1 x, on_client (ReleaseIP Background (token (agent s)) me (vpnIP (agent s))) s = (s1, x) ∧
    match x with
    | Ok _ => ∀ ip, ¬ leased (bk s') me ip
    | Err _ => (∀ ip, ¬ leased (bk s') me ip) ∨ leased (bk s') me (vpnIP (agent s))
    end.
Proof.
  intros Hm%alive Hid Hip Htok Hr.
  destruct (Stop_leaves svc dh backend E Hnet Hloc spoilt (others svc dh spoilt me) HE n ones Hn Hones me
    (λ _ _ HG, HG) p s s' r Hm Hid Hip Htok Hr) as (s1 & x & E1 & Hg & Hl).
  split; [done|]. exists s1, x. split; [done|]. destruct x as [u|e]; [by destruct Hl as [Hl|[[? [=]] _]]|].
  destruct Hl as [Hl|[_ Hl]]; auto.
Qed.

#[local] Instance anything_po : PreOrder (λ _ _ : Backend R, True).
Proof. by split. Qed.

(** C7: For another node, what the agent does to the services, its stop included, is among what the environment may do: an
    agent relies on no more than the agents of other nodes give. *)
Theorem agent_among_others `{!RedisUp R} range p you s s' :
  (∀ b b', E b b' → others svc dh spoilt you b b') → life range p s → nodeID (agent s') = me → me ≠ you →
  (act range p s s' ∨ ∃ r, Stop p s = (s', r)) → others svc dh spoilt you (bk s) (bk s').
Proof.
  intros HE' Hl Hid Hyou Ha.
  assert (∀ b b' : Backend R, step svc dh spoilt None b b' → others svc dh spoilt you b b') as HN.
  { intros b b'. by apply others_step. }
  destruct Ha as [Ha|[r Hr]].
  - eapply (act_so_far svc dh backend E Hnet Hloc spoilt (others svc dh spoilt you) HE' HN (λ node, node = me)); [|exact Ha|exact Hid].
    intros ctx req b b' r <- Hr. eapply others_step; [|by eapply step_request]. congruence.
  - assert (nodeID (agent s) = me) as Hme'.
    { rewrite <- Hid. symmetry.
      eapply (Stop_so_far backend E Hloc (λ _ _, True) (λ _ _ _, I)); [|exact Hr].
      intros s1 x _ Hrel. apply (release_call svc dh backend E Hnet) in Hrel as [Ha _]. split; [by rewrite Ha|done]. }
    eapply (Stop_so_far backend E Hloc (others svc dh spoilt you) HE'); [|exact Hr].
    intros s1 x Hip Hrel. apply alive in Hl as [Hg Hm]. destruct (Hm Hme') as [_ Hleased]. specialize (Hleased Hip).
    apply (release_call svc dh backend E Hnet) in Hrel as [Ha Hcase]. split; [by rewrite Ha|].
    destruct Hcase as [[-> _]|(b1 & b2 & Hb1 & Hb2 & Hcase)]; [reflexivity|].
    destruct (others_effect svc dh spoilt n ones Hn Hones me _ _ Hg (HE _ _ Hb1)) as (Hg1 & _ & Hl1).
    etrans; [by apply HE'|]. etrans; [|by apply HE']. destruct Hcase as [[-> _]|(ctx' & y & Hrel & _)]; [reflexivity|].
    rewrite Hme' in Hrel. pose proof (λ H, release_step svc dh spoilt n ones _ _ _ _ _ Hg1 H Hrel) as Hst.
    specialize (Hst (proj1 (Hl1 _) Hleased)). destruct y; destruct Hst as [Hst _]; (eapply others_step; [|exact Hst]); simpl; congruence.
Qed.
End properties.
