(* ===== verification/DeploymentLab.v ===== *)
(** A concrete deployment: the backend of Backend.v on a Redis server that answers, and a machine on which an agent
    calls it. It is an instance of what Deployment.v asks of the network and of the machine. *)

From S2P Require Import Prelude GoInt GoStrings GoNet Redis Grpc CircuitBreaker Configs Backend Client Gateway CliState.
From S2P Require Import Agent AgentLab Deployment.
From S2P Require Allocator IdentityStore Identity ConfigService Registry Discovery WireGuard.

(** The services, the agent's machine, its name and the byte its key is made of *)
Record Site : Type := {
  t_backend : Backend Mem;
  t_lab : Lab;
  t_name : string;
  t_seed : Z;
}.

Definition set_site_backend (b : Backend Mem) (s : Site) : Site :=
  {| t_backend := b; t_lab := t_lab s; t_name := t_name s; t_seed := t_seed s |}.
Definition set_site_lab (l : Lab) (s : Site) : Site :=
  {| t_backend := t_backend s; t_lab := l; t_name := t_name s; t_seed := t_seed s |}.

Definition at_backend {A} (m : M (Backend Mem) A) : M Site A := zoom t_backend set_site_backend m.
Definition at_lab {A} (m : M Lab A) : M Site A := zoom t_lab set_site_lab m.

#[export] Existing Instance Registry.bits_json.
#[export] Existing Instance Identity.plain_jwt.

Definition site_svc : Identity.IdentityService := Identity.svc 0.
Definition site_dh : Discovery.DiscoveryHandler := Discovery.NewDiscoveryHandler Registry.reg30 true.
#[export] Instance site_tokens : Auth.TokenService Identity.World := tokens site_svc.

(** What a server finds of the context that a client called with *)
Definition delivered (ctx : Context) : Context :=
  {| ctx_incoming := Some {["authorization" := map snd (filter (λ kv, kv.1 = "authorization") (ctx_outgoing ctx))]};
     ctx_outgoing := []; ctx_values := []; ctx_peer := Some "192.0.2.7:40000" |}.

Lemma delivered_carries ctx : carries ctx (delivered ctx).
Proof. eexists. split; [reflexivity|]. unfold md_Get. by rewrite lookup_singleton_eq. Qed.

#[export] Instance site_services : Services Site := {|
  rpc_RegisterNode ctx req := at_backend (on_identity (Identity.RegisterNode_handler site_svc req));
  rpc_GetPublicKey ctx id := at_backend (on_identity (Identity.GetPublicKey_handler site_svc id));
  rpc_GetConfig ctx req := at_backend (on_config (ConfigService.GetConfig (delivered ctx) req));
  rpc_RequestIP ctx req := at_backend (on_config (ConfigService.RequestIP (delivered ctx) req));
  rpc_ReleaseIP ctx req := at_backend (on_config (ConfigService.ReleaseIP (delivered ctx) req));
  rpc_RegisterPeer ctx req := at_backend (on_discovery (Discovery.RegisterPeer site_dh (delivered ctx) (call_request req)));
  rpc_ListPeers ctx req := at_backend (on_discovery (Discovery.ListPeers site_dh (delivered ctx) req));
  rpc_Heartbeat ctx req := at_backend (on_discovery (Discovery.Heartbeat site_dh (delivered ctx) req));
|}.

#[export] Instance site_clock : Clock Site := λ s, l_now (t_lab s).
#[export] Instance site_dialer : Dialer Site :=
  {| ClientCredentials _ := ret tt; grpc_NewClient _ := ret 0%nat; conn_Close _ := ret tt |}.

Definition site_peer (name : string) : string := "peer-" +:+ name.

#[export] Instance site_p2p : P2P Site := {|
  p2p_New _ := ret tt;
  p2p_PeerID s := site_peer (t_name s);
  p2p_Multiaddrs s := [site_peer (t_name s)];
  p2p_GetPeerInfo addr := Ok {| ai_ID := addr; ai_Addrs := [] |};
  p2p_ConnectAndPing _ := ret tt;
  p2p_Close := ret tt;
  p2p_NewBridge _ _ := ret tt;
  bridge_RegisterIncoming := ret tt;
  bridge_AddPeer pid := at_lab (bridge_AddPeer pid);
  bridge_GetProxyPort pid s := bridge_GetProxyPort pid (t_lab s);
  bridge_Close := ret tt;
  spawn m := let? _ := m in ret tt;
|}.

#[export] Instance site_os : WireGuard.OS Site := {|
  WireGuard.run_command name args := at_lab (WireGuard.run_command name args);
  WireGuard.write_file path text := at_lab (WireGuard.write_file path text);
  WireGuard.command_output name args := at_lab (WireGuard.command_output name args);
  WireGuard.read_file path := at_lab (WireGuard.read_file path);
|}.

#[export] Instance site_host : Host Site := {|
  MkdirAll _ := ret tt;
  Remove _ := ret tt;
  Stat path s := Stat path (t_lab s);
  processExists _ _ := true;
  sendInterrupt _ := ret tt;
  Kill _ := ret tt;
  LookPath _ _ := None;
  OpenLog _ := ret tt;
  StartProcess _ _ := ret 1;
  Sleep _ := ret tt;
  TempDir := "/tmp";
  HomeDir := "/root";
  Executable_dir _ := None;
  Abs path _ := path;
|}.

#[export] Instance site_timer : Timer Site := {|
  wait d s := let '(l, b) := wait d (t_lab s) in (set_site_lab l s, b);
  sleep d s := set_site_lab (sleep d (t_lab s)) s;
|}.

(** The public key is the private key here. *)
#[export] Instance site_keys : Keys Site :=
  {| rand_Read s := (s, Ok (replicate 32 (t_seed s))); ScalarBaseMult k := k |}.

(** ** It is a deployment *)

Lemma at_backend_served {A} (h : Context → M (Backend Mem) A) ctx w w' r ctx' :
  carries ctx ctx' → at_backend (h ctx') w = (w', r) → served eq h ctx (t_backend w) (t_backend w') r.
Proof.
  intros Hc. unfold at_backend, zoom. destruct (h ctx' (t_backend w)) as [b x] eqn:Eh. intros [= <- <-].
  exists (t_backend w), b. split; [done|]. split; [done|]. right. exists ctx', x. by split_and!; [| |left].
Qed.

Lemma site_deployed : deployed site_svc site_dh t_backend eq.
Proof.
  split; intros ctx req w w' r.
  1, 2: apply (at_backend_served (λ _, on_identity _) ctx _ _ _ (delivered ctx)), delivered_carries.
  - by apply (at_backend_served (λ c, on_config (ConfigService.GetConfig c req))), delivered_carries.
  - by apply (at_backend_served (λ c, on_config (ConfigService.RequestIP c req))), delivered_carries.
  - by apply (at_backend_served (λ c, on_config (ConfigService.ReleaseIP c req))), delivered_carries.
  - by apply (at_backend_served (λ c, on_discovery (Discovery.RegisterPeer site_dh c (call_request req)))), delivered_carries.
  - by apply (at_backend_served (λ c, on_discovery (Discovery.ListPeers site_dh c req))), delivered_carries.
  - by apply (at_backend_served (λ c, on_discovery (Discovery.Heartbeat site_dh c req))), delivered_carries.
Qed.

Lemma at_lab_quiet {A} (m : M Lab A) : runs (over t_backend eq) (at_lab m).
Proof. intros s s' r. unfold at_lab, zoom. destruct (m (t_lab s)) as [l x]. by intros [= <- <-]. Qed.

Lemma site_local : local_machine t_backend eq.
Proof.
  assert (∀ A (a : A), runs (over t_backend eq) (ret a)) as Hret by (by intros A a s s' r [= <- <-]).
  split; try (intros; first [apply Hret|apply at_lab_quiet]).
  - intros m Hm. apply (runs_handle (over t_backend eq)); [done|intros; apply Hret].
  - done.
  - done.
  - done.
Qed.

(** ** Two agents *)

Definition site_backend : Backend Mem := {|
  b_identity := Identity.w0;
  b_config := ConfigService.NewConfigHandler Allocator.default_allocator true "10.8.0.0/16" 1420 ["1.1.1.1"];
  b_redis := empty_mem;
  b_allocated := 0;
  b_active := λ _, 0;
|}.

Definition site_config : AgentConfig.Config := AgentConfig.setDefaults
  {| AgentConfig.IdentityAddr := ""; AgentConfig.DiscoveryAddr := ""; AgentConfig.ConfigAddr := "";
     AgentConfig.LogLevel := ""; AgentConfig.Heartbeat := 0; AgentConfig.PeerSyncInterval := 0;
     AgentConfig.DryRun := Some false; AgentConfig.WireGuardPort := 0; AgentConfig.P2PPort := 0;
     AgentConfig.TLSCACert := ""; AgentConfig.NetworkSecret := "net-secret"; AgentConfig.IsExitNode := false;
     AgentConfig.UseExitNode := false; AgentConfig.ExitNodeID := ""; AgentConfig.ExitNodeDNS := "" |}.

Definition site (b : Backend Mem) (name : string) (seed : Z) : Site :=
  {| t_backend := b; t_lab := lab 0 []; t_name := name; t_seed := seed |}.

(** A new agent on a machine *)
Definition newcomer (w : Site) : Sys Site :=
  match New WireGuard.linux Linux "/tmp" None site_config w with
  | (_, Ok s) => s
  | (_, Err _) => Build_Sys (lab_agent ∅) (new_client 0 0 0 w)
  end.

Definition first_born : Sys Site := newcomer (site site_backend "one" 16).
Definition first_run : Sys Site * res string := Start Linux Background first_born.
Definition first : Sys Site := first_run.1.

Definition second_born : Sys Site := newcomer (site (t_backend (world (client first))) "two" 32).
Definition second_run : Sys Site * res string := Start Linux Background second_born.
Definition second : Sys Site := second_run.1.

(** The first agent once the second has come, and its next synchronisation *)
Definition first_later : Sys Site :=
  Build_Sys (agent first) (set_world (set_site_backend (t_backend (world (client second))) (world (client first)))
    (client first)).
Definition first_synced : Sys Site := (syncPeers map_to_list Background "10.8.0.0/16" first_later).1.

(** ** Witnesses *)

Notation site_born := (born t_backend ∅ Allocator.default_net 16).
Notation site_life := (life t_backend eq ∅ Allocator.default_net 16 map_to_list Linux).

Lemma site_quiet (b b' : Backend Mem) node : b = b' → others site_svc site_dh ∅ node b b'.
Proof. intros ->. reflexivity. Qed.

Lemma site_set_up : set_up Allocator.default_net site_backend.
Proof.
  split_and!; [done..|]. split; [|done]. intros node. reflexivity.
Qed.

Lemma first_starts : Start Linux Background first_born = (first, first_run.2).
Proof. unfold first, first_run. apply surjective_pairing. Qed.

Lemma first_life : site_life first.
Proof.
  exists first_born. split; [|split].
  - split; [|by vm_compute]. apply set_up_good. replace (bk t_backend first_born) with site_backend by (vm_compute; reflexivity).
    exact site_set_up.
  - vm_compute. reflexivity.
  - apply rtc_once. eapply (act_start _ _ _ _ _ Background _ first_run.2); [vm_compute; reflexivity..|].
    exact first_starts.
Qed.

Lemma first_node : nodeID (agent first) = "id-1" ∧ vpnIP (agent first) = "10.8.0.2".
Proof. split; vm_compute; reflexivity. Qed.

Lemma agent_owns_address_witness :
  leased (bk t_backend first) "id-1" "10.8.0.2" ∧ ∀ node, leased (bk t_backend first) node "10.8.0.2" → node = "id-1".
Proof.
  destruct first_node as [Hid Hip]. rewrite <- Hip.
  destruct (agent_owns_address site_svc site_dh t_backend eq site_deployed site_local Allocator.default_net 16
    Allocator.default_net_cidr ltac:(lia) ∅ "id-1" ltac:(discriminate) (λ b b', site_quiet b b' "id-1")
    map_to_list Linux first first_life Hid) as (_ & Hl & Hu & _); [by rewrite Hip|].
  split; [exact Hl|]. by apply Hu, not_elem_of_empty.
Defined.

Definition first_stopped : Sys Site * res unit := Stop Linux first.

Lemma first_stops : Stop Linux first = (first_stopped.1, first_stopped.2).
Proof. unfold first_stopped. apply surjective_pairing. Qed.

Lemma first_release : (on_client (ReleaseIP Background (token (agent first)) "id-1" (vpnIP (agent first))) first).2 = Ok tt.
Proof. vm_compute. reflexivity. Qed.

Lemma Stop_releases_address_witness :
  first_stopped.2 = Ok tt ∧ good ∅ Allocator.default_net 16 (bk t_backend first_stopped.1) ∧
  ∀ ip, ¬ leased (bk t_backend first_stopped.1) "id-1" ip.
Proof.
  split; [vm_compute; reflexivity|]. destruct first_node as [Hid Hip].
  destruct (Stop_releases_address site_svc site_dh t_backend eq site_deployed site_local Allocator.default_net 16
    Allocator.default_net_cidr ltac:(lia) ∅ "id-1" ltac:(discriminate) (λ b b', site_quiet b b' "id-1")
    map_to_list Linux first first_stopped.1 first_stopped.2 first_life Hid) as (Hg & s1 & x & E1 & Hx);
    [by rewrite Hip|vm_compute; discriminate|exact first_stops|].
  split; [exact Hg|]. apply (f_equal snd) in E1. rewrite first_release in E1. cbn [snd] in E1. rewrite <- E1 in Hx. exact Hx.
Defined.

Lemma second_starts : Start Linux Background second_born = (second, second_run.2).
Proof. unfold second, second_run. apply surjective_pairing. Qed.

Lemma newcomer_new b name seed :
  bk t_backend (newcomer (site b name seed)) = b ∧ nodeID (agent (newcomer (site b name seed))) = "" ∧
  vpnIP (agent (newcomer (site b name seed))) = "" ∧ activePeers (agent (newcomer (site b name seed))) = ∅.
Proof. split_and!; reflexivity. Qed.

(** What the first agent leaves is what the second finds. *)
Lemma second_found : bk t_backend second_born = bk t_backend first.
Proof. apply (newcomer_new (t_backend (world (client first)))). Qed.

Lemma second_site_born : site_born second_born ∧ activePeers (agent second_born) = ∅.
Proof.
  split; [|apply newcomer_new]. split; [|split; apply newcomer_new]. rewrite second_found.
  by apply (life_mine site_svc site_dh t_backend eq site_deployed site_local ∅ (others site_svc site_dh ∅ "id-1")
    (λ b b', site_quiet b b' "id-1") (λ b b', others_step site_svc site_dh ∅ "id-1" None b b' ltac:(done))
    Allocator.default_net 16 Allocator.default_net_cidr ltac:(lia) "id-1" ltac:(discriminate) (λ _ _ HG, HG)
    map_to_list Linux first first_life).
Qed.

Lemma second_act : act t_backend eq map_to_list Linux second_born second.
Proof. eapply (act_start _ _ _ _ _ Background _ second_run.2); [apply newcomer_new..|exact second_starts]. Qed.

Lemma second_life : site_life second.
Proof.
  exists second_born. split; [apply second_site_born|]. split; [apply second_site_born|apply rtc_once, second_act].
Qed.

Lemma active_peers_authentic_witness :
  activePeers (agent second) !! "id-1" = Some (publicKey (agent first)) ∧
  ∀ id', registered (bk t_backend second) id' (publicKey (agent first)) → id' = "id-1".
Proof.
  assert (activePeers (agent second) !! "id-1" = Some (publicKey (agent first))) as Hp by (vm_compute; reflexivity).
  split; [exact Hp|].
  destruct (active_peers_authentic site_svc site_dh t_backend eq site_deployed site_local Allocator.default_net 16
    Allocator.default_net_cidr ltac:(lia) ∅ "id-3" (λ b b', site_quiet b b' "id-3")
    map_to_list Linux second "id-1" (publicKey (agent first))) as (_ & Hu & _); [|exact second_life|exact Hp|exact Hu].
  intros m i k. apply elem_of_map_to_list.
Defined.

Lemma agent_among_others_witness :
  bk t_backend second_born ≠ bk t_backend second ∧
  others site_svc site_dh ∅ "id-1" (bk t_backend second_born) (bk t_backend second).
Proof.
  split.
  - intros Heq. apply (f_equal b_allocated) in Heq. vm_compute in Heq. discriminate Heq.
  - apply (agent_among_others site_svc site_dh t_backend eq site_deployed site_local Allocator.default_net 16
      Allocator.default_net_cidr ltac:(lia) ∅ "id-3" ltac:(discriminate) (λ b b', site_quiet b b' "id-3")
      map_to_list Linux "id-1" second_born second (λ b b', site_quiet b b' "id-1")).
    + exists second_born. split; [apply second_site_born|]. split; [apply second_site_born|apply rtc_refl].
    + vm_compute. reflexivity.
    + discriminate.
    + left. exact second_act.
Defined.

(** Calls made with the first agent's token *)
Definition first_context : Context :=
  delivered (AppendToOutgoingContext Background "authorization" ("Bearer " +:+ token (agent first))).
Definition beat : Backend Mem * res Discovery.HeartbeatResponse :=
  on_discovery (Discovery.Heartbeat site_dh first_context
    {| Discovery.hb_Token := token (agent first); Discovery.hb_Bandwidth := 0 |}) (bk t_backend first).
Definition asked : Backend Mem * res ConfigService.RequestIPResponse :=
  on_config (ConfigService.RequestIP first_context
    {| ConfigService.rq_Token := token (agent first); ConfigService.rq_NodeId := "id-2" |}) (bk t_backend first).

Lemma beat_run : on_discovery (Discovery.Heartbeat site_dh first_context
    {| Discovery.hb_Token := token (agent first); Discovery.hb_Bandwidth := 0 |}) (bk t_backend first) = (beat.1, beat.2).
Proof. unfold beat. apply surjective_pairing. Qed.

Lemma asked_run : on_config (ConfigService.RequestIP first_context
    {| ConfigService.rq_Token := token (agent first); ConfigService.rq_NodeId := "id-2" |}) (bk t_backend first) =
  (asked.1, asked.2).
Proof. unfold asked. apply surjective_pairing. Qed.

Lemma services_share_redis_witness :
  (beat.2 = Ok {| Discovery.hb_Success := true; Discovery.hb_Ttl := 30 |} ∧
   ∃ t, Allocator.sees (b_redis beat.1) t) ∧
  (asked.2 = Ok {| ConfigService.rp_IpAddress := "10.8.0.3"; ConfigService.rp_SubnetMask := "255.255.0.0";
                   ConfigService.rp_Gateway := "10.8.0.1" |} ∧
   Registry.spares "id-1" (b_redis (bk t_backend first)) (b_redis asked.1)).
Proof.
  split; (split; [vm_compute; reflexivity|]).
  - destruct (life_mine site_svc site_dh t_backend eq site_deployed site_local ∅ (others site_svc site_dh ∅ "id-1")
      (λ b b', site_quiet b b' "id-1") (λ b b', others_step site_svc site_dh ∅ "id-1" None b b' ltac:(done))
      Allocator.default_net 16 Allocator.default_net_cidr ltac:(lia) "id-1" ltac:(discriminate) (λ _ _ HG, HG)
      map_to_list Linux first first_life) as [[_ _ (t & Ht & _)] _].
    exists t. apply (proj1 (services_share_redis site_svc site_dh (bk t_backend first) beat.1)); [|exact Ht].
    eapply call_heartbeat. exact beat_run.
  - apply (proj2 (services_share_redis site_svc site_dh (bk t_backend first) asked.1)).
    eapply Backend.call_request. exact asked_run.
Defined.

(** What the first agent has done is a sequence of steps of the backend. *)
Lemma first_steps : rtc (λ b b', ∃ l, step site_svc site_dh ∅ l b b') site_backend (bk t_backend first).
Proof.
  assert (others site_svc site_dh ∅ "nobody" (bk t_backend first_born) (bk t_backend first)) as Ho.
  { eapply (Start_so_far site_svc site_dh t_backend eq site_deployed site_local ∅ (others site_svc site_dh ∅ "nobody")
      (λ b b', site_quiet b b' "nobody") (λ b b', others_step site_svc site_dh ∅ "nobody" None b b' ltac:(done))
      (λ node, node = "id-1")); [|apply rtc_refl|exact first_starts|apply first_node].
    intros ctx req b b' r Hn Hr. eapply others_step; [|by eapply step_request]. congruence. }
  eapply (rtc_subrel _ _ _ _ _ Ho). Unshelve. intros b b' (l & _ & Hs). by exists l.
Qed.

Lemma backend_invariant_witness :
  leased (bk t_backend first) "id-1" "10.8.0.2" ∧
  ∀ node, leased (bk t_backend first) node "10.8.0.2" → node = "id-1".
Proof.
  assert (leased (bk t_backend first) "id-1" "10.8.0.2") as Hl by (eexists; vm_compute; reflexivity).
  split; [exact Hl|]. intros node Hnode.
  destruct (backend_invariant site_svc site_dh ∅ Allocator.default_net 16 site_backend (bk t_backend first)
    Allocator.default_net_cidr ltac:(lia) site_set_up first_steps) as (Hu & _).
  destruct (Hu _ _ _ Hnode Hl) as [Heq|Hx]; [exact Heq|by apply not_elem_of_empty in Hx].
Defined.
