(* ===== verification/LoopsLab.v ===== *)
(** The agent's loops on concrete machines: witnesses for the theorems of AgentLoops.v, and what a single lost heartbeat does
    to an agent of DeploymentLab.v. *)

From S2P Require Import Prelude GoInt GoFloat GoStrings GoNet Redis Grpc CircuitBreaker Configs Backend Client Gateway.
From S2P Require Import CliState Agent AgentLab AgentLoops Deployment DeploymentLab.
From S2P Require Allocator IdentityStore Identity ConfigService Registry Discovery WireGuard.

(** ** The machine of AgentLab.v *)

Lemma lab_select d (s : Sys Lab) : 0 ≤ d → ∃ s', select_in d s = (s', Ok false) ∧ Now (world (client s')) = Now (world (client s)) + d ∧
  agent s' = agent s ∧ cbDiscovery (client s') = cbDiscovery (client s) ∧ cbIdentity (client s') = cbIdentity (client s).
Proof.
  intros Hd. eexists. split; [reflexivity|]. unfold Now, lab_clock. simpl. by rewrite Z.max_r.
Qed.

Lemma lab_steady : steady Background (λ _ : Lab, True) l_beats 1.
Proof.
  split.
  - intros d w _ Hd. eexists. split; [reflexivity|]. unfold Now, lab_clock. simpl. by rewrite Z.max_r.
  - intros w tok _. eexists _, _. split; [reflexivity|]. unfold Now, lab_clock. simpl. split; [lia|done].
Qed.

Definition lab_ticker : Ticker := {| tk_start := 0; tk_period := 25 * Second; tk_taken := 0 |}.

Lemma heartbeats_on_time_witness : ∃ s',
  heartbeat_rounds 4 Background lab_ticker 0 (lab_sys ∅ 0 []) = (s', Ok false) ∧
  l_beats (world (client s')) = [(25 * Second, "token"); (50 * Second, "token"); (75 * Second, "token"); (100 * Second, "token")].
Proof.
  destruct (heartbeats_on_time Background (λ _, True) l_beats 1 lab_ticker 4 0 (lab_sys ∅ 0 []) lab_steady)
    as (s' & E & Hs & _).
  - vm_compute. discriminate.
  - vm_compute. reflexivity.
  - exact I.
  - split; [|reflexivity]. apply (New_wf "discovery"); vm_compute; discriminate.
  - reflexivity.
  - exists s'. split; [exact E|]. rewrite Hs. reflexivity.
Defined.

(** *** An identity service whose tokens last for a day from when they are given *)

Module Daily.
#[local] Instance day_services : Services Lab := {|
  rpc_RegisterNode _ _ := λ l, (l, Ok {| Identity.rn_NodeId := "me"; Identity.rn_Token := "token";
    Identity.rn_ExpiresAt := unix_of_time (l_now l) + 86400 |});
  rpc_GetPublicKey := rpc_GetPublicKey; rpc_GetConfig := rpc_GetConfig; rpc_RequestIP := rpc_RequestIP;
  rpc_ReleaseIP := rpc_ReleaseIP; rpc_RegisterPeer := rpc_RegisterPeer; rpc_ListPeers := rpc_ListPeers;
  rpc_Heartbeat := rpc_Heartbeat;
|}.

Definition day_ok (s : Sys Lab) : Prop :=
  wf (cbIdentity (client s)) ∧ state (cbIdentity (client s)) = StateClosed.

Lemma day_renewing : renewing Background day_ok (86399 * Second) 0.
Proof.
  split.
  - intros d s [Hwf Hst] Hd0. destruct (lab_select d s Hd0) as (s' & E & Hn & Ha & _ & Hi). exists s'.
    split; [done|]. split; [done|]. split; [done|]. unfold day_ok. by rewrite Hi.
  - intros s [Hwf Hst]. unfold retryRegister, maxRetries. cbn [attempts]. unfold get_world, get_agent.
    unfold bind at 1, bind at 1. unfold handle at 1, on_client, zoom, Register, bind, wrap_err.
    destruct (through_closed identity (rpc_RegisterNode Background {| Identity.rn_PublicKey := publicKey (agent s);
      Identity.rn_Version := "1.0.0"; Identity.rn_PeerId := p2p_PeerID (world (client s));
      Identity.rn_NetworkSecret := AgentConfig.NetworkSecret (cfg (agent s)) |}) (client s) Hwf Hst)
      as (c' & -> & Hw & Hwf' & Hcb). simpl in *.
    eexists _, _, _, _. split; [reflexivity|]. simpl. rewrite Hw. split; [done|]. split; [lia|]. split.
    + unfold time_of_unix, unix_of_time, Now, lab_clock. set (l := l_now (world (client s))).
      pose proof (Z.div_mod l Second ltac:(done)). pose proof (Z.mod_pos_bound l Second ltac:(done)).
      unfold Second in *. lia.
    + split; [done|]. simpl. rewrite Hcb. unfold RecordSuccess. simpl. by rewrite Hst.
Qed.

Lemma token_never_lapses_witness : ∃ s1 s2,
  tokenRefreshLoop 7 Background (lab_sys ∅ 0 []) = (s1, Ok false) ∧
  tokenRefreshLoop 8 Background (lab_sys ∅ 0 []) = (s2, Ok false) ∧
  Now (world (client s2)) < time_of_unix (expiresAt (agent s1)).
Proof.
  destruct (token_never_lapses Background day_ok (86399 * Second) 0 7 (lab_sys ∅ 0 []) day_renewing)
    as (s1 & s2 & E1 & E2 & _ & Hlt).
  - vm_compute. discriminate.
  - vm_compute. discriminate.
  - reflexivity.
  - split; [|reflexivity]. apply (New_wf "identity"); vm_compute; discriminate.
  - vm_compute. split; [discriminate|reflexivity].
  - exists s1, s2. split; [exact E1|]. split; [exact E2|exact Hlt].
Defined.
End Daily.

Lemma token_refresh_schedule_witness :
  30 * Second ≤ refresh_in (times_08 (86400 * Second)) ∧
  refresh_in (times_08 (86400 * Second)) = 69120 * Second.
Proof.
  split; [|vm_compute; reflexivity].
  destruct (token_refresh_schedule (86400 * Second)) as [Hd _]; [vm_compute; split; reflexivity|exact Hd].
Defined.

(** *** A discovery service that does not answer *)

Module Deaf.
#[local] Instance deaf_services : Services Lab := {|
  rpc_RegisterNode := rpc_RegisterNode; rpc_GetPublicKey := rpc_GetPublicKey; rpc_GetConfig := rpc_GetConfig;
  rpc_RequestIP := rpc_RequestIP; rpc_ReleaseIP := rpc_ReleaseIP; rpc_RegisterPeer := rpc_RegisterPeer;
  rpc_ListPeers := rpc_ListPeers; rpc_Heartbeat _ _ := throw out_of_service;
|}.

Lemma deaf_forward : forward (W := Lab) Background.
Proof.
  split.
  - intros d w w' b [= <- <-]. unfold Now, lab_clock. simpl. split; lia.
  - intros d w Hd. unfold Now, lab_clock. simpl. lia.
  - intros s s' r. unfold on_client, zoom. destruct (Client.Heartbeat _ _ (client s)) as [c x] eqn:E.
    intros [= <- <-]. simpl. unfold Client.Heartbeat in E.
    apply bind_inv in E as [(e & E & _)|(c1 & a & E & [= -> _])].
    all: apply through_run in E as [[Hw _]|Hw]; [|injection Hw as Hw _].
    all: unfold Now, lab_clock; rewrite <- Hw; lia.
Qed.

(** Four heartbeats that fail, from the first tick *)
Definition deaf_run : Sys Lab * res bool := heartbeat_rounds 4 Background lab_ticker 0 (lab_sys ∅ 0 []).

Lemma deaf_run_eq : heartbeat_rounds 4 Background lab_ticker 0 (lab_sys ∅ 0 []) = (deaf_run.1, deaf_run.2).
Proof. unfold deaf_run. apply surjective_pairing. Qed.

Lemma heartbeats_rate_witness : 4 ≤ ticks lab_ticker (Now (world (client deaf_run.1))).
Proof.
  assert (deaf_run.2 = Ok false) as Hr by (vm_compute; reflexivity).
  pose proof deaf_run_eq as E. rewrite Hr in E.
  apply (heartbeats_rate Background 4 lab_ticker 0 (lab_sys ∅ 0 []) deaf_run.1 deaf_forward); [reflexivity| |exact E].
  vm_compute. discriminate.
Defined.

Definition fourth : Sys Lab * res Z := heartbeat_tick Background 3 deaf_run.1.

Lemma failed_heartbeat_blocks_witness :
  fourth.2 = Ok 4 ∧ Now (world (client deaf_run.1)) + 16 * Second ≤ Now (world (client fourth.1)).
Proof.
  assert (fourth.2 = Ok 4) as Hr by (vm_compute; reflexivity). split; [exact Hr|].
  assert (heartbeat_tick Background 3 deaf_run.1 = (fourth.1, Ok 4)) as E.
  { rewrite <- Hr. unfold fourth. apply surjective_pairing. }
  apply (failed_heartbeat_blocks Background 3 deaf_run.1 fourth.1 4 deaf_forward); [lia|exact E|lia|lia].
Defined.
End Deaf.

(** ** One lost heartbeat

    The machines of DeploymentLab.v with time that also passes on the Redis server, and a network that loses the next
    [l_left] heartbeats. *)

Module Lossy.
Definition pass (d : Z) (s : Site) : Site :=
  let m := b_redis (t_backend s) in
  set_site_lab (set_clock (l_now (t_lab s) + Z.max 0 d) (l_waited (t_lab s) + d) (t_lab s))
    (set_site_backend (set_redis (mk_mem {| sim_strs := sim_strs (mem_sim m); sim_sets := sim_sets (mem_sim m);
       sim_time := sim_time (mem_sim m) + Z.max 0 d; sim_script := sim_script (mem_sim m) |}) (t_backend s)) s).

#[local] Instance lossy_services : Services Site := {|
  rpc_RegisterNode := rpc_RegisterNode; rpc_GetPublicKey := rpc_GetPublicKey; rpc_GetConfig := rpc_GetConfig;
  rpc_RequestIP := rpc_RequestIP; rpc_ReleaseIP := rpc_ReleaseIP; rpc_RegisterPeer := rpc_RegisterPeer;
  rpc_ListPeers := rpc_ListPeers;
  rpc_Heartbeat ctx req := λ s,
    match l_left (t_lab s) with
    | O => rpc_Heartbeat ctx req s
    | S n => (set_site_lab (set_left n (t_lab s)) s, Err out_of_service)
    end;
|}.
#[local] Instance passing_timer : Timer Site := {| wait d s := (pass d s, false); sleep d s := pass d s |}.

(** The first agent's heartbeats, once the second has come, with the next [lost] of them lost *)
Definition beating (lost : nat) : Sys Site :=
  (heartbeat_rounds 8 Background lab_ticker 0
    (Build_Sys (agent first_later) (set_world (set_site_lab (set_left lost (t_lab (world (client first_later))))
      (world (client first_later))) (client first_later)))).1.

(** What the second agent makes of it at its next synchronisation *)
Definition seen (lost : nat) : gmap string string :=
  activePeers (agent (syncPeers map_to_list Background "10.8.0.0/16" (Build_Sys (agent second)
    (set_world (set_site_backend (bk t_backend (beating lost)) (world (client second))) (client second)))).1).

(** With the default interval of 25 seconds and a record that lasts for 30, a single lost heartbeat takes a running
    agent off the list for good: the next one comes too late, that one and all others are refused, and the agent
    does not register again. Without the loss the other agent keeps it. *)
Theorem lost_heartbeat_unlists :
  AgentConfig.Heartbeat (cfg (agent first)) = 25 ∧ Registry.ttl (Discovery.registry site_dh) = 30 * Second ∧
  seen 0 = {["id-1" := publicKey (agent first)]} ∧ seen 1 = ∅ ∧
  (on_client (Client.Heartbeat Background (token (agent first))) (beating 1)).2 =
    Err (StatusErrf NotFound "heartbeat failed" (Errorf "peer not found: id-1")).
Proof. split_and!; vm_compute; reflexivity. Qed.
End Lossy.

(** ** A start that fails

    The discovery service cannot be reached. *)

Module Unlisted.
#[local] Instance unlisted_services : Services Site := {|
  rpc_RegisterNode := rpc_RegisterNode; rpc_GetPublicKey := rpc_GetPublicKey; rpc_GetConfig := rpc_GetConfig;
  rpc_RequestIP := rpc_RequestIP; rpc_ReleaseIP := rpc_ReleaseIP; rpc_Heartbeat := rpc_Heartbeat;
  rpc_ListPeers := rpc_ListPeers; rpc_RegisterPeer _ _ := throw out_of_service;
|}.

Lemma unlisted_deployed : deployed site_svc site_dh t_backend eq.
Proof.
  destruct site_deployed as [H1 H2 H3 H4 H5 H6 H7 H8]. split; try assumption.
  intros ctx req w w' r [= <- <-]. exists (t_backend w), (t_backend w). split; [done|]. split; [done|].
  left. split; [done|by eexists].
Qed.

Notation try_start w := (main_start WireGuard.linux Linux "/tmp" None (Ok site_config) w).

Definition failed : Sys Site :=
  match try_start (site site_backend "one" 16) with (inr s, _) => s | (inl w, _) => first_born end.

(** The next try of the same machine, with the key that it generates then *)
Definition failed_again : Sys Site :=
  match try_start (site (bk t_backend failed) "one" 32) with (inr s, _) => s | (inl w, _) => first_born end.

Lemma failed_start :
  main_start WireGuard.linux Linux "/tmp" None (Ok site_config) (site site_backend "one" 16) =
    (inr failed, Ok (exited 1 "Agent start failed")).
Proof.
  assert ((try_start (site site_backend "one" 16)).2 = Ok (exited 1 "Agent start failed")) as Hr
    by (vm_compute; reflexivity).
  unfold failed. destruct (try_start (site site_backend "one" 16)) as [[w|s] r] eqn:E; simpl in Hr; subst r; [|done].
  exfalso. apply (f_equal (λ x, match x.1 with inl _ => true | inr _ => false end)) in E. vm_compute in E. discriminate E.
Qed.

Lemma failed_start_keeps_address_witness :
  leased (bk t_backend failed) "id-1" "10.8.0.2" ∧
  leased (bk t_backend failed_again) "id-1" "10.8.0.2" ∧ vpnIP (agent failed_again) = "10.8.0.3".
Proof.
  split; [|split; [eexists|]; vm_compute; reflexivity].
  assert (vpnIP (agent failed) = "10.8.0.2") as Hip by (vm_compute; reflexivity). rewrite <- Hip.
  apply (failed_start_keeps_address site_svc site_dh t_backend eq unlisted_deployed site_local Allocator.default_net 16
    Allocator.default_net_cidr ltac:(lia) ∅ "id-1" ltac:(discriminate) (λ b b', site_quiet b b' "id-1")
    WireGuard.linux Linux "/tmp" None (Ok site_config) (site site_backend "one" 16) failed "Agent start failed").
  - apply set_up_good. exact site_set_up.
  - exact failed_start.
  - vm_compute. reflexivity.
  - rewrite Hip. discriminate.
Defined.
End Unlisted.
