(* ===== verification/Cli.v ===== *)
(** cli: the gordion command line tool.

    Each command's [RunE] is an operation. The terminal's styles (lipgloss) and YAML are arguments;
    printing is the class [Terminal], the services a command calls the class [Remote], and the rest of the machine
    is CliState.[Host] and WireGuard.[OS]. [goos_windows] is runtime.GOOS == "windows". *)

From S2P Require Import Prelude GoInt GoStrings Grpc CircuitBreaker CliState Configs.
From S2P Require Import WireGuard.
From S2P Require Discovery ConfigService Auth.
From Stdlib Require Import Ascii.
#[local] Open Scope Z_scope.

(** ** cli/internal/cliconfig *)

Module CliConfig.

Record Config : Type := {
  IdentityAddr : string;
  DiscoveryAddr : string;
  ConfigAddr : string;
  NetworkSecret : string;
  TLSCACert : string;
  LogLevel : string;
  DryRun : option bool;
  WireGuardPort : Z;
  P2PPort : Z;
  IsExitNode : bool;
  UseExitNode : bool;
  ExitNodeID : string;
  ExitNodeDNS : string;
}.

Definition DefaultPaths (home : string) : list string :=
  ["configs/agent.dev.yaml"; "../configs/agent.dev.yaml"; join (join home ".gordion") "config.yaml";
   "/etc/gordion/config.yaml"].

Definition applyDefaults (c : Config) : Config := {|
  IdentityAddr := or_str (IdentityAddr c) "localhost:8001";
  DiscoveryAddr := or_str (DiscoveryAddr c) "localhost:8002";
  ConfigAddr := or_str (ConfigAddr c) "localhost:8003";
  NetworkSecret := NetworkSecret c; TLSCACert := TLSCACert c; LogLevel := LogLevel c; DryRun := DryRun c;
  WireGuardPort := or_int (WireGuardPort c) 51820;
  P2PPort := or_int (P2PPort c) 4001;
  IsExitNode := IsExitNode c; UseExitNode := UseExitNode c; ExitNodeID := ExitNodeID c;
  ExitNodeDNS := or_str (ExitNodeDNS c) "1.1.1.1, 1.0.0.1";
|}.

Definition no_config : error := Errorf "no config file found".

Section load.
Context `{OS W} `{Host W} (parse : string → res Config).

(** The loop over the candidates *)
Fixpoint load_first (candidates : list string) : M W Config :=
  match candidates with
  | [] => throw no_config
  | path :: rest =>
      if decide (path = "") then load_first rest
      else
        let? data := read_file path in
        match data with
        | Err e => if IsNotExist e then load_first rest else throw (Wrapf ("read config " +:+ path) e)
        | Ok text =>
            match parse text with
            | Err e => throw (Wrapf ("parse config " +:+ path) e)
            | Ok c => ret (applyDefaults c)
            end
        end
  end.

Definition Load (cfgFile : string) : M W Config :=
  load_first (if decide (cfgFile = "") then DefaultPaths (HomeDir (W:=W)) else [cfgFile]).
End load.

End CliConfig.

(** ** Text *)

(** [containsAny]'s inner loop: [s[i:i+len(k)] == k] for the indexes from [i] on, [left] of them *)
Fixpoint contains_from (i left : nat) (s k : string) : bool :=
  match left with
  | O => false
  | S left' =>
      if decide (take_str (String.length k) (drop_str i s) = k) then true else contains_from (S i) left' s k
  end.

Definition containsAny (s : string) (keywords : list string) : bool :=
  existsb (λ k, (String.length k <=? String.length s)%nat &&
                contains_from 0 (S (String.length s - String.length k)) s k) keywords.

(** The styles of lipgloss, by what they are used for *)
Inductive style : Type :=
| Title | Success | Error_ | Warn | Dim | Bold | Color (code : string) | BoldColor (code : string)
| Key (width : Z).

Class Lipgloss : Type := Render : style → string → string.

(** Runes beyond ASCII, by their bytes in UTF-8 *)
Definition utf8 (l : list nat) : string := foldr (λ n s, String (ascii_of_nat n) s) EmptyString l.
Definition ellipsis : string := utf8 [226; 128; 166]%nat.
Definition check_mark : string := utf8 [226; 156; 147]%nat.
Definition warn_mark : string := utf8 [226; 154; 160]%nat.
Definition arrow : string := utf8 [226; 134; 146]%nat.
Definition dash : string := utf8 [226; 128; 148]%nat.
Definition full_dot : string := utf8 [226; 151; 143]%nat.
Definition empty_dot : string := utf8 [226; 151; 139]%nat.

(** A slice beyond the text does not happen for [n > 0]. *)
Definition truncate (s : string) (n : Z) : string :=
  if len s <=? n then s else take_str (Z.to_nat (n - 1)) s +:+ ellipsis.

(** Go's integer division truncates towards zero. *)
Definition formatDuration (d : Z) : string :=
  let h := d ÷ Hour in
  let m := Z.rem (d ÷ Minute) 60 in
  let s := Z.rem (d ÷ Second) 60 in
  if 0 <? h then Itoa h +:+ "h " +:+ Itoa m +:+ "m " +:+ Itoa s +:+ "s"
  else if 0 <? m then Itoa m +:+ "m " +:+ Itoa s +:+ "s"
  else Itoa s +:+ "s".

Section text.
Context `{Lipgloss}.

Definition orDash (s : string) : string :=
  if decide (TrimSpace s = "") then Render Dim dash else Render Bold s.

Definition onlineDot (lastSeen now : Z) : string * string :=
  let age := wrap64 (now - lastSeen) in
  if age <? 60 then (Render (Color "#10B981") full_dot, "#10B981")
  else if age <? 300 then (Render (Color "#F59E0B") full_dot, "#F59E0B")
  else (Render (Color "#6B7280") empty_dot, "#6B7280").

Definition formatLastSeen (lastSeen now : Z) : string :=
  let age := wrap64 (now - lastSeen) in
  if age <? 5 then Render Dim "just now"
  else if age <? 60 then Render Dim (Itoa age +:+ "s ago")
  else if age <? 3600 then Render Dim (Itoa (age ÷ 60) +:+ "m ago")
  else Render Dim (Itoa (age ÷ 3600) +:+ "h ago").

Definition formatLogLine (line : string) : string :=
  let line' := "  " +:+ line in
  if containsAny line ["ERROR"; "error"; "ERR"] then Render (Color "#EF4444") line'
  else if containsAny line ["WARN"; "warn"; "WRN"] then Render (Color "#F59E0B") line'
  else if containsAny line ["INFO"; "info"; "INF"] then Render (Color "#60A5FA") line'
  else if containsAny line ["DEBUG"; "debug"; "DBG"] then Render (Color "#6B7280") line'
  else line'.
End text.

(** ** Commands *)

(** Standard output, and [err.Error()] *)
Class Terminal (W : Type) : Type := {
  Println : string → M W unit;
  Printf : string → M W unit;
  Error_text : error → string;
}.
#[export] Hint Mode Terminal + : typeclass_instances.

(** grpc.NewClient and the calls the commands make, by address *)
Class Remote (W : Type) : Type := {
  Dial : string → M W unit;
  cli_ListPeers : string → Context → Discovery.ListPeersRequest → M W Discovery.ListPeersResponse;
  cli_ValidateToken : string → Context → string → M W Auth.ValidateTokenResponse;
  cli_GetConfig : string → Context → ConfigService.GetConfigRequest → M W ConfigService.GetConfigResponse;
}.
#[export] Hint Mode Remote + : typeclass_instances.

Definition ContextWithToken (ctx : Context) (token : string) : Context :=
  if decide (token = "") then ctx
  else {| ctx_incoming := ctx_incoming ctx; ctx_outgoing := [("authorization", token)];
          ctx_values := ctx_values ctx; ctx_peer := ctx_peer ctx |}.

Definition defaultTimeout : Z := 5 * Second.

(** The timeout of the context that grpcclient.WithTimeout makes *)
Definition WithTimeout (timeout : Z) : Z := if timeout =? 0 then defaultTimeout else timeout.

Section commands.
Context `{Lipgloss} `{StateJSON} `{OS W} `{Host W} `{Clock W} `{Terminal W} `{Remote W}.
Context (parse : string → res CliConfig.Config) (goos_windows : bool).

Definition world : M W W := λ w, (w, Ok w).

Definition printOK (msg : string) : M W unit := Println (Render Success check_mark +:+ " " +:+ msg).
Definition printWarn (msg : string) : M W unit := Println (Render Warn warn_mark +:+ " " +:+ msg).

Definition not_found_binary (name : string) : error := Errorf ("agent binary " +:+ name +:+ " not found in PATH").

Definition findAgentBinary : M W string := λ w,
  let name := if goos_windows then "gordion-agent.exe" else "gordion-agent" in
  match LookPath name w with
  | Some p => (w, Ok p)
  | None =>
      match Executable_dir w with
      | Some dir => if Stat (join dir name) w then (w, Ok (join dir name)) else (w, Err (not_found_binary name))
      | None => (w, Err (not_found_binary name))
      end
  end.

Definition resolvedConfigPath (cfgFile : string) (w : W) : string :=
  if decide (cfgFile = "") then
    match List.find (λ p, Stat p w) (CliConfig.DefaultPaths (HomeDir (W:=W))) with
    | Some p => Abs p w
    | None => ""
    end
  else Abs cfgFile w.

(** [s, err := state.Read(); err == nil && s != nil && s.IsRunning()] *)
Definition running (r : res (option State)) (w : W) : option State :=
  match r with
  | Ok (Some s) => if IsRunning (Some s) w then Some s else None
  | _ => None
  end.

(** The state that [up] writes *)
Definition up_state (pid now : Z) (logPath configFile : string) (cfg : CliConfig.Config) : State :=
  {| PID := pid; VPNAddr := ""; Token := ""; LogFile := logPath; StartedAt := now; ConfigFile := configFile;
     IsExitNode := CliConfig.IsExitNode cfg; UseExitNode := CliConfig.UseExitNode cfg;
     ExitNodeID := CliConfig.ExitNodeID cfg |}.

(** [up] once the agent has been started *)
Definition up_record (cfgFile logPath : string) (cfg : CliConfig.Config) (pid : Z) : M W unit :=
  let! w := world in
  let? r := Write (up_state pid (Now w) logPath (resolvedConfigPath cfgFile w) cfg) in
  let! _ := match r with
            | Err e => printWarn ("Could not write state file: " +:+ Error_text (W:=W) e)
            | Ok _ => ret tt
            end in
  let! _ := printOK ("Gordion VPN started (PID " +:+ Itoa pid +:+ ")") in
  let! _ := (if decide (logPath = "") then ret tt
             else Printf ("  " +:+ Render Dim ("logs " +:+ arrow) +:+ " " +:+ Render Dim logPath +:+ nl)) in
  let! _ := (if CliConfig.IsExitNode cfg then printOK ("This node is an " +:+ Render Bold "exit node") else ret tt) in
  let! _ := (if CliConfig.UseExitNode cfg
             then printOK ("Exit node: " +:+ Render Bold
               (if decide (CliConfig.ExitNodeID cfg = "") then "auto" else CliConfig.ExitNodeID cfg))
             else ret tt) in
  Printf (nl +:+ Render Dim "Run `gordion status` to check connection." +:+ nl).

Definition up (cfgFile : string) : M W unit :=
  let? r := Read in
  let! w := world in
  match running r w with
  | Some s => printWarn ("Gordion is already running (PID " +:+ Itoa (PID s) +:+ ", VPN: " +:+ VPNAddr s +:+ ")")
  | None =>
      let! cfg := wrap_err (Wrapf "load config") (CliConfig.Load parse cfgFile) in
      let! agentBin := findAgentBinary in
      let agentArgs := if decide (cfgFile = "") then [] else ["--config"; cfgFile] in
      let! _ := wrap_err (Wrapf "create log dir") (MkdirAll (gordion_dir (W:=W))) in
      let? log := OpenLog (DefaultLogPath (W:=W)) in
      let! logPath := match log with
                      | Ok _ => ret (DefaultLogPath (W:=W))
                      | Err e =>
                          let! _ := printWarn ("Could not open log file, agent will run without logs: " +:+
                            Error_text (W:=W) e) in
                          ret ""
                      end in
      let! _ := Printf (Render Dim arrow +:+ " Starting Gordion VPN..." +:+ nl) in
      let! pid := wrap_err (Wrapf "failed to start agent") (StartProcess agentBin agentArgs) in
      up_record cfgFile logPath cfg pid
  end.

(** The wait of [down], with the rounds left: a round sleeps 300 ms of 10 s *)
Fixpoint wait_exit (rounds : nat) (deadline : Z) (s : State) : M W unit := λ w,
  if Now w <? deadline then
    if IsRunning (Some s) w then
      match rounds with
      | O => (w, Err (LibErr "out of rounds"))
      | S rounds' => (let! _ := Sleep (300 * Millisecond) in wait_exit rounds' deadline s) w
      end
    else (w, Ok tt)
  else (w, Ok tt).

Definition down_rounds : nat := 34.

Definition down : M W unit :=
  let! s := wrap_err (Wrapf "read state") Read in
  match s with
  | None => printWarn "Gordion is not running (no state file found)"
  | Some s =>
      let! w := world in
      if IsRunning (Some s) w then
        let! _ := Printf (Render Dim arrow +:+ " Stopping Gordion VPN agent (PID " +:+ Itoa (PID s) +:+ ")..." +:+ nl) in
        let! _ := wrap_err (Wrapf "send stop signal") (sendInterrupt (PID s)) in
        let! w := world in
        let! _ := wait_exit down_rounds (Now w + 10 * Second) s in
        let! w := world in
        let! _ := (if IsRunning (Some s) w
                   then let? _ := Kill (PID s) in
                        printWarn ("Agent did not stop gracefully " +:+ dash +:+ " force killed")
                   else ret tt) in
        let? _ := Delete in
        printOK "Gordion VPN stopped"
      else
        let! _ := printWarn ("Gordion process (PID " +:+ Itoa (PID s) +:+ ") is not running " +:+ dash +:+
          " cleaning up state file") in
        let? _ := Delete in
        ret tt
  end.

Definition restart (cfgFile : string) : M W unit :=
  let? r := down in
  let! _ := match r with
            | Err e => printWarn ("Could not stop: " +:+ Error_text (W:=W) e)
            | Ok _ => ret tt
            end in
  up cfgFile.
End commands.
