(* ===== verification/CliQueries.v ===== *)
(** cli/cmd: the commands that read the state, the logs and the services: status, exit-node, peers, logs, doctor, and
    init, which writes keys and a configuration.

    Encoding/json on the structs that are printed is an argument of the commands that print it. *)

From S2P Require Import Prelude GoInt GoStrings Grpc CircuitBreaker CliState Configs Cli.
From S2P Require Import WireGuard.
From S2P Require Discovery ConfigService Auth.
From Stdlib Require Import Ascii.
#[local] Open Scope Z_scope.

Record StatusOutput : Type := {
  so_Connected : bool;
  so_PID : Z;
  so_VPNAddr : string;
  so_UptimeSec : Z;
  so_IsExitNode : bool;
  so_UseExitNode : bool;
  so_ExitNodeID : string;
  so_LogFile : string;
  so_ConfigFile : string;
}.

Record PeerJSON : Type := {
  pj_NodeID : string;
  pj_IPAddress : string;
  pj_Region : string;
  pj_LastSeen : Z;
  pj_IsExitNode : bool;
  pj_Online : bool;
}.

Record CheckResult : Type := { cr_Name : string; cr_OK : bool; cr_Message : string }.

(** [fmt]'s [%-*s]: spaces up to a width in runes, which are the bytes that do not continue one *)
Definition starts_rune (c : ascii) : bool :=
  let n := nat_of_ascii c in negb ((128 <=? n) && (n <? 192))%nat.
Fixpoint rune_count (s : string) : nat :=
  match s with
  | EmptyString => 0
  | String c s' => (if starts_rune c then 1 else 0) + rune_count s'
  end.
Fixpoint spaces (n : nat) : string :=
  match n with O => EmptyString | S n' => String " " (spaces n') end.
Definition pad (width : Z) (s : string) : string := s +:+ spaces (Z.to_nat width - rune_count s).
Fixpoint Repeat (s : string) (n : nat) : string :=
  match n with O => EmptyString | S n' => s +:+ Repeat s n' end.
Definition line_char : string := utf8 [226; 148; 128]%nat.
Definition left_arrow : string := utf8 [226; 134; 144]%nat.

(** [time.Duration.Round(time.Second)]: half away from zero *)
Definition round_second (d : Z) : Z :=
  let r := Z.rem d Second in
  if d <? 0 then
    let r := - r in if r + r <? Second then d + r else d - (Second - r)
  else if r + r <? Second then d - r else d + (Second - r).

Section queries.
Context `{Lipgloss} `{StateJSON} `{OS W} `{Host W} `{Clock W} `{Terminal W} `{Remote W}.
Context (parse : string → res CliConfig.Config) (outputJSON : bool).

(** ** status *)

Definition status_output (s : option State) (running : bool) (now : Z) : StatusOutput :=
  match s with
  | Some s =>
      if running then
        {| so_Connected := true; so_PID := PID s; so_VPNAddr := VPNAddr s;
           so_UptimeSec := time_sub now (StartedAt s) ÷ Second; so_IsExitNode := IsExitNode s;
           so_UseExitNode := UseExitNode s; so_ExitNodeID := ExitNodeID s; so_LogFile := LogFile s;
           so_ConfigFile := ConfigFile s |}
      else
        {| so_Connected := false; so_PID := 0; so_VPNAddr := ""; so_UptimeSec := 0; so_IsExitNode := false;
           so_UseExitNode := false; so_ExitNodeID := ""; so_LogFile := ""; so_ConfigFile := "" |}
  | None =>
      {| so_Connected := running; so_PID := 0; so_VPNAddr := ""; so_UptimeSec := 0; so_IsExitNode := false;
         so_UseExitNode := false; so_ExitNodeID := ""; so_LogFile := ""; so_ConfigFile := "" |}
  end.

Fixpoint max_key (rows : list (string * string)) (maxKey : Z) : Z :=
  match rows with
  | [] => maxKey
  | r :: rest => max_key rest (if maxKey <? len r.1 then len r.1 else maxKey)
  end.

Fixpoint print_rows (width : Z) (rows : list (string * string)) : M W unit :=
  match rows with
  | [] => ret tt
  | r :: rest =>
      let! _ := Printf ("  " +:+ Render (Key width) r.1 +:+ "  " +:+ r.2 +:+ nl) in print_rows width rest
  end.

Definition printTable (rows : list (string * string)) : M W unit := print_rows (max_key rows 0) rows.

Definition printStopped : M W unit :=
  let! _ := Printf (nl +:+ "  " +:+ Render (Color "#6B7280") full_dot +:+ "  " +:+
    Render (BoldColor "#6B7280") "Disconnected" +:+ nl +:+ nl) in
  Printf ("  " +:+ Render Dim "Run `gordion up` to connect." +:+ nl +:+ nl).

Definition connected_rows (s : State) (now : Z) : list (string * string) :=
  [("VPN Address", orDash (VPNAddr s));
   ("Uptime", formatDuration (round_second (time_sub now (StartedAt s))));
   ("PID", Itoa (PID s))] ++
  (if IsExitNode s
   then [("Role", Render Success "Exit Node" +:+ Render Dim " (routing internet traffic)")]
   else if UseExitNode s
   then [("Exit Node", Render Success (if decide (ExitNodeID s = "") then "auto" else ExitNodeID s))]
   else [("Mode", Render Dim "Mesh VPN (no exit node)")]) ++
  (if decide (ConfigFile s = "") then [] else [("Config", Render Dim (ConfigFile s))]) ++
  (if decide (LogFile s = "") then [] else [("Logs", Render Dim (LogFile s))]).

Definition printConnected (s : State) : M W unit :=
  let! w := world in
  let! _ := Printf (nl +:+ "  " +:+ Render (Color "#10B981") full_dot +:+ "  " +:+
    Render (BoldColor "#10B981") "Connected" +:+ nl) in
  let! _ := Println "" in
  let! _ := printTable (connected_rows s (Now w)) in
  Println "".

Definition status (json : StatusOutput → string) : M W unit :=
  let! s := wrap_err (Wrapf "read state") Read in
  let! w := world in
  let running := IsRunning s w in
  let! s := (match s with
             | Some s => if running then ret (Some s) else let? _ := Delete in ret None
             | None => ret None
             end) in
  if outputJSON then let! w := world in Println (json (status_output s running (Now w)))
  else
    match s with
    | Some s => if running then printConnected s else printStopped
    | None => printStopped
    end.

(** ** exit-node *)

Definition not_running : error := Errorf "Gordion is not running".

(** The common part of [exit-node set] and [exit-node off] *)
Definition write_exit_node (use : bool) (id : string) : M W State :=
  let! s := wrap_err (Wrapf "read state") Read in
  let! w := world in
  match running (Ok s) w with
  | None => throw not_running
  | Some s =>
      let s := {| PID := PID s; VPNAddr := VPNAddr s; Token := Token s; LogFile := LogFile s;
                  StartedAt := StartedAt s; ConfigFile := ConfigFile s; IsExitNode := IsExitNode s;
                  UseExitNode := use; ExitNodeID := id |} in
      let! _ := wrap_err (Wrapf "write state") (Write s) in
      ret s
  end.

Definition restart_hint : M W unit :=
  Printf (nl +:+ "  " +:+
    Render Dim "Restart the agent for changes to take effect: gordion down && gordion up" +:+ nl +:+ nl).

Definition exitNodeSet (args : list string) : M W unit :=
  let targetID := match args with [] => "" | a :: _ => a end in
  let! _ := write_exit_node true targetID in
  let! _ := printOK ("Exit node set to " +:+ Render Bold (if decide (targetID = "") then "auto-select" else targetID)) in
  restart_hint.

Definition exitNodeOff : M W unit :=
  let! _ := write_exit_node false "" in
  let! _ := printOK ("Exit node disabled " +:+ dash +:+ " back to mesh VPN mode") in
  restart_hint.

(** Which exit nodes are marked as active *)
Definition marked_active (s : option State) (id : string) : bool :=
  match s with
  | Some s => UseExitNode s && (bool_decide (ExitNodeID s = "") || bool_decide (ExitNodeID s = id))
  | None => false
  end.

Definition exit_row (s : option State) (now : Z) (p : Discovery.PeerInfo) : string :=
  "  " +:+ (onlineDot (Discovery.pi_LastSeen p) now).1 +:+ "   " +:+ pad 22 (truncate (Discovery.pi_NodeId p) 22) +:+
  "  " +:+ pad 14 (truncate (Discovery.pi_IpAddress p) 14) +:+ "  " +:+ formatLastSeen (Discovery.pi_LastSeen p) now +:+
  (if marked_active s (Discovery.pi_NodeId p)
   then "  " +:+ Render (BoldColor "#10B981") (left_arrow +:+ " active") else "") +:+ nl.

Fixpoint print_each {A} (row : A → string) (l : list A) : M W unit :=
  match l with [] => ret tt | x :: rest => let! _ := Printf (row x) in print_each row rest end.

Definition printExitNodes (exits : list Discovery.PeerInfo) (s : option State) : M W unit :=
  let col t := Render (Color "#6B7280") t in
  let! _ := Println "" in
  let! _ := Println (Render (BoldColor "#7C3AED")
    ("  " +:+ Itoa (Z.of_nat (length exits)) +:+ " exit node(s) available" +:+ nl)) in
  let! _ := Printf ("  " +:+ pad 2 "" +:+ "  " +:+ pad 22 (col "NODE ID") +:+ "  " +:+ pad 14 (col "VPN ADDRESS") +:+
    "  " +:+ col "LAST SEEN" +:+ nl) in
  let! _ := Printf ("  " +:+ Render Dim (Repeat line_char 56) +:+ nl) in
  let! w := world in
  let! _ := print_each (exit_row s (unix_of_time (Now w))) exits in
  let! _ := Println "" in
  Printf ("  " +:+ Render Dim "Use: gordion exit-node set <node-id>   or   gordion exit-node set  (auto)" +:+ nl +:+ nl).

(** [s, _ := state.Read()] and the token in it *)
Definition read_state : M W (option State) :=
  let? r := Read in ret (match r with Ok s => s | Err _ => None end).
Definition state_token (s : option State) : string := match s with Some s => Token s | None => "" end.

(** The listing that [peers] and [exit-node list] start with *)
Definition list_peers (cfgFile : string) (limit : Z) (ctx : Context) : M W (option State * list Discovery.PeerInfo) :=
  let! cfg := wrap_err (Wrapf "load config") (CliConfig.Load parse cfgFile) in
  let! s := read_state in
  let addr := CliConfig.DiscoveryAddr cfg in
  let! _ := wrap_err (Wrapf ("connect to Discovery (" +:+ addr +:+ ")")) (Dial addr) in
  let! resp := wrap_err (Wrapf "ListPeers") (cli_ListPeers addr (ContextWithToken ctx (state_token s))
    {| Discovery.lp_Region := ""; Discovery.lp_Limit := limit |}) in
  ret (s, Discovery.lp_Peers resp).

Definition exitNodeList (cfgFile : string) (ctx : Context) : M W unit :=
  let! '(s, peers) := list_peers cfgFile 100 ctx in
  match List.filter Discovery.pi_IsExitNode peers with
  | [] =>
      let! _ := Printf (nl +:+ "  " +:+ Render Dim "No exit nodes available in the network." +:+ nl +:+ nl) in
      Printf ("  " +:+ Render Dim "To create one: start an agent with  is_exit_node: true  on a VPS." +:+ nl +:+ nl)
  | exits => printExitNodes exits s
  end.

(** ** peers *)

Definition peer_json (now : Z) (p : Discovery.PeerInfo) : PeerJSON :=
  {| pj_NodeID := Discovery.pi_NodeId p; pj_IPAddress := Discovery.pi_IpAddress p; pj_Region := Discovery.pi_Region p;
     pj_LastSeen := Discovery.pi_LastSeen p; pj_IsExitNode := Discovery.pi_IsExitNode p;
     pj_Online := wrap64 (now - Discovery.pi_LastSeen p) <? 60 |}.

Definition printPeersJSON (json : list PeerJSON → string) (peers : list Discovery.PeerInfo) : M W unit :=
  let! w := world in Println (json (map (peer_json (unix_of_time (Now w))) peers)).

Definition peer_row (now : Z) (p : Discovery.PeerInfo) : string :=
  "  " +:+ (onlineDot (Discovery.pi_LastSeen p) now).1 +:+ "   " +:+ pad 20 (truncate (Discovery.pi_NodeId p) 20) +:+
  "  " +:+ pad 14 (truncate (Discovery.pi_IpAddress p) 14) +:+ "  " +:+ pad 10 (truncate (Discovery.pi_Region p) 10) +:+
  "  " +:+ formatLastSeen (Discovery.pi_LastSeen p) now +:+
  (if Discovery.pi_IsExitNode p then "  " +:+ Render (BoldColor "#7C3AED") "[EXIT NODE]" else "") +:+ nl.

Definition printPeers (peers : list Discovery.PeerInfo) : M W unit :=
  let col t := Render (Color "#6B7280") t in
  let! _ := Println "" in
  let! _ := Println (Render (BoldColor "#7C3AED")
    ("  " +:+ Itoa (Z.of_nat (length peers)) +:+ " peer(s) in network" +:+ nl)) in
  let! _ := Printf ("  " +:+ pad 2 "" +:+ "  " +:+ pad 20 (col "NODE ID") +:+ "  " +:+ pad 14 (col "VPN ADDRESS") +:+
    "  " +:+ pad 10 (col "REGION") +:+ "  " +:+ col "LAST SEEN" +:+ nl) in
  let! _ := Printf ("  " +:+ Render Dim (Repeat line_char 64) +:+ nl) in
  let! w := world in
  let! _ := print_each (peer_row (unix_of_time (Now w))) peers in
  Println "".

Definition peers (json : list PeerJSON → string) (cfgFile : string) (peersLimit : Z) (ctx : Context) : M W unit :=
  let! '(_, found) := list_peers cfgFile peersLimit ctx in
  match found with
  | [] =>
      if outputJSON then Println "[]"
      else Printf (nl +:+ "  " +:+ Render Dim "No peers found in the network." +:+ nl +:+ nl)
  | _ => if outputJSON then printPeersJSON json found else printPeers found
  end.

(** ** logs *)

(** [lines] are what the scanner gives, [scan_err] its error. [lines[start:]] panics when [start] is past the end. *)
Definition last_lines (n : Z) (lines : list string) : res (list string) :=
  let start := wrap64 (Z.of_nat (length lines) - n) in
  let start := if start <? 0 then 0 else start in
  if Z.of_nat (length lines) <? start then Err (Panic "slice bounds out of range")
  else Ok (drop (Z.to_nat start) lines).

Fixpoint println_each {A} (row : A → string) (l : list A) : M W unit :=
  match l with [] => ret tt | x :: rest => let! _ := Println (row x) in println_each row rest end.

Definition printLast (lines : list string) (scan_err : option error) (n : Z) : M W unit :=
  match scan_err with
  | Some e => throw e
  | None =>
      match lines with
      | [] => Println (Render Dim "  (log file is empty)")
      | _ =>
          match last_lines n lines with
          | Err e => let! _ := Println "" in throw e
          | Ok l =>
              let! _ := Println "" in
              let! _ := println_each formatLogLine l in
              Println ""
          end
      end
  end.

(** bufio.Scanner's lines of a text: at each line feed, without a trailing carriage return *)
Definition drop_cr (line : string) : string :=
  match rev (String.list_ascii_of_string line) with
  | c :: l => if decide (c = "013"%char) then String.string_of_list_ascii (rev l) else line
  | [] => line
  end.
Definition scan_lines (text : string) : list string :=
  let parts := Split "010" text in
  map drop_cr (if decide (default "" (last parts) = "") then removelast parts else parts).

(** Without [--follow]; a line longer than the scanner's buffer of 64 KiB is the error [scan_err]. *)
Definition logs (scan_err : string → option error) (logsLines : Z) : M W unit :=
  let! s := read_state in
  let logPath := match s with
                 | Some s => if decide (LogFile s = "") then DefaultLogPath (W:=W) else LogFile s
                 | None => DefaultLogPath (W:=W)
                 end in
  let? data := read_file logPath in
  match data with
  | Err e =>
      if IsNotExist e then
        let! _ := printWarn ("No log file found at: " +:+ logPath) in
        Printf ("  " +:+ Render Dim "Start the agent with `gordion up` to generate logs." +:+ nl +:+ nl)
      else throw (Wrapf "open log file" e)
  | Ok text => printLast (scan_lines text) (scan_err text) logsLines
  end.

(** ** doctor *)

Definition isGRPCAlive (err : option error) : bool :=
  match err with
  | None => true
  | Some e => existsb (Contains_str (Error_text (W:=W) e))
                ["Unauthenticated"; "InvalidArgument"; "PermissionDenied"; "NotFound"]
  end.

Definition alive_or (r : res unit) : option error :=
  match r with
  | Ok _ => None
  | Err e => if isGRPCAlive (Some e) then None else Some e
  end.

Definition grpcCheck (name addr : string) (fn : M W unit) : M W CheckResult :=
  let? conn := Dial addr in
  match conn with
  | Err e => ret {| cr_Name := name; cr_OK := false;
                    cr_Message := "cannot connect to " +:+ addr +:+ ": " +:+ Error_text (W:=W) e |}
  | Ok _ =>
      let? r := fn in
      match alive_or r with
      | Some e => ret {| cr_Name := name; cr_OK := false;
                         cr_Message := "unreachable (" +:+ addr +:+ "): " +:+ Error_text (W:=W) e |}
      | None => ret {| cr_Name := name; cr_OK := true; cr_Message := "OK (" +:+ addr +:+ ")" |}
      end
  end.

(** [Listen] is the outcome of binding a local port. *)
Definition runChecks (Listen : string → Z → W → option error) (goos_windows : bool) (ctx : Context)
    (cfg : CliConfig.Config) : M W (list CheckResult) :=
  let! s := read_state in
  let! w := world in
  let agent := match running (Ok s) w with
    | Some s => {| cr_Name := "Agent process"; cr_OK := true; cr_Message := "Running (PID " +:+ Itoa (PID s) +:+ ")" |}
    | None => {| cr_Name := "Agent process"; cr_OK := false;
                 cr_Message := "Not running " +:+ dash +:+ " start with `gordion up`" |}
    end in
  let! identity := grpcCheck "Identity Service" (CliConfig.IdentityAddr cfg)
    (let! _ := cli_ValidateToken (CliConfig.IdentityAddr cfg) ctx "probe" in ret tt) in
  let! discovery := grpcCheck "Discovery Service" (CliConfig.DiscoveryAddr cfg)
    (let! _ := cli_ListPeers (CliConfig.DiscoveryAddr cfg) ctx
       {| Discovery.lp_Region := ""; Discovery.lp_Limit := 1 |} in ret tt) in
  let! config := grpcCheck "Config Service" (CliConfig.ConfigAddr cfg)
    (let! _ := cli_GetConfig (CliConfig.ConfigAddr cfg) ctx
       {| ConfigService.gc_Token := "probe"; ConfigService.gc_ConfigVersion := 0 |} in ret tt) in
  let! w := world in
  let port := Itoa (CliConfig.WireGuardPort cfg) in
  let wireguard := match running (Ok s) w with
    | Some _ => {| cr_Name := "WireGuard port"; cr_OK := true;
                   cr_Message := "Port " +:+ port +:+ " in use by agent (expected)" |}
    | None =>
        match Listen "udp" (CliConfig.WireGuardPort cfg) w with
        | Some e => {| cr_Name := "WireGuard port"; cr_OK := false;
                       cr_Message := "Port " +:+ port +:+ " unavailable: " +:+ Error_text (W:=W) e |}
        | None => {| cr_Name := "WireGuard port"; cr_OK := true; cr_Message := "Port " +:+ port +:+ " is free" |}
        end
    end in
  let p2p_port := Itoa (CliConfig.P2PPort cfg) in
  let p2p := match Listen "tcp" (CliConfig.P2PPort cfg) w, s with
    | Some e, None => {| cr_Name := "P2P port"; cr_OK := false;
                         cr_Message := "Port " +:+ p2p_port +:+ " unavailable: " +:+ Error_text (W:=W) e |}
    | _, _ => {| cr_Name := "P2P port"; cr_OK := true; cr_Message := "Port " +:+ p2p_port +:+ " OK" |}
    end in
  let binary := match LookPath (if goos_windows then "wg.exe" else "wg") w with
    | None => {| cr_Name := "WireGuard binary"; cr_OK := false; cr_Message := "Not found in PATH" |}
    | Some _ => {| cr_Name := "WireGuard binary"; cr_OK := true; cr_Message := "Found in PATH" |}
    end in
  ret [agent; identity; discovery; config; wireguard; p2p; binary].
End queries.

(** ** init *)

Definition quote : string := String "034"%char EmptyString.
Definition quoted (s : string) : string := quote +:+ s +:+ quote.
Definition warning_sign : string := utf8 [226; 154; 160]%nat.

Definition config_lines (privKeyPath pubKey secret : string) : list string :=
  ["# Gordion VPN " +:+ dash +:+ " Agent Configuration";
   "# Generated by `gordion init`";
   "# ";
   "# " +:+ warning_sign +:+ " private_key_file contains your WireGuard private key.";
   "#   Do NOT commit it to version control.";
   "";
   "# Control plane addresses (change to your server IPs/hostnames)";
   "identity_addr:  " +:+ quoted "localhost:8001";
   "discovery_addr: " +:+ quoted "localhost:8002";
   "config_addr:    " +:+ quoted "localhost:8003";
   "";
   "# Network authorization password (matching Identity service NETWORK_SECRET)";
   "network_secret: " +:+ quoted secret;
   "";
   "log_level: " +:+ quoted "info";
   "heartbeat_interval: 25";
   "";
   "# WireGuard";
   "wireguard_port: 51820";
   "private_key_file: " +:+ quoted privKeyPath;
   "# public_key: " +:+ quoted pubKey;
   "dry_run: true   # set false for a real tunnel (requires WireGuard installed)";
   "";
   "# libp2p";
   "p2p_port: 4001";
   "";
   "# TLS (leave empty for insecure local dev)";
   "# tls_ca_cert: " +:+ quoted "certs/ca-cert.pem";
   "";
   "# Exit Node";
   "is_exit_node:  false";
   "use_exit_node: false";
   "exit_node_id:  " +:+ quoted "";
   "exit_node_dns: " +:+ quoted "1.1.1.1, 1.0.0.1"].

Definition buildDefaultConfig (privKeyPath pubKey secret : string) : string :=
  Join nl (config_lines privKeyPath pubKey secret) +:+ nl.

(** [X25519] is curve25519.X25519 at the base point, [random] the outcome of rand.Read. *)
Definition generateWireGuardKeys (X25519 : list Z → res (list Z)) (random : res (list Z)) : res (string * string) :=
  match random with
  | Err e => Err e
  | Ok bytes =>
      let priv := clamp bytes in
      match X25519 priv with
      | Err e => Err e
      | Ok pub => Ok (EncodeToString priv, EncodeToString pub)
      end
  end.

Section init.
Context `{Lipgloss} `{StateJSON} `{OS W} `{Host W} `{Clock W} `{Terminal W}.

(** [Dir] is filepath.Dir. *)
Definition init (X25519 : list Z → res (list Z)) (random : res (list Z)) (Dir : string → string) (cfgFile : string)
    (initForce : bool) (initSecret : string) : M W unit :=
  let! w := world in
  let keysDir := join (join (HomeDir (W:=W)) ".gordion") "keys" in
  let privKeyFile := join keysDir "private.key" in
  let pubKeyFile := join keysDir "public.key" in
  let outDir := if decide (cfgFile = "") then "configs" else Dir cfgFile in
  let outFile := if decide (cfgFile = "") then join "configs" "agent.yaml" else cfgFile in
  if Stat outFile w && negb initForce then
    let! _ := printWarn ("Config already exists: " +:+ outFile) in
    Printf ("  " +:+ Render Dim "Use --force to overwrite." +:+ nl +:+ nl)
  else
    let! _ := Println "" in
    let! _ := Printf ("  " +:+ Render Title "Gordion VPN" +:+ " " +:+ Render Dim (dash +:+ " initializing") +:+ nl +:+ nl) in
    match generateWireGuardKeys X25519 random with
    | Err e => throw (Wrapf "generate keypair" e)
    | Ok (privKey, pubKey) =>
        let! _ := wrap_err (Wrapf "create keys dir") (MkdirAll keysDir) in
        let! _ := wrap_err (Wrapf "write private key") (write_file privKeyFile (privKey +:+ nl)) in
        let! _ := wrap_err (Wrapf "write public key") (write_file pubKeyFile (pubKey +:+ nl)) in
        let! _ := printOK ("WireGuard keypair saved to " +:+ Render Bold keysDir) in
        let! _ := printOK ("Private key permissions: " +:+ Render Bold "0600" +:+ Render Dim " (not committed to git)") in
        let! _ := wrap_err (Wrapf "create config dir") (MkdirAll outDir) in
        let! _ := wrap_err (Wrapf "write config") (write_file outFile (buildDefaultConfig pubKeyFile pubKey initSecret)) in
        let! _ := printOK ("Config file created: " +:+ Render Bold outFile) in
        let! _ := Println "" in
        let! _ := Printf ("  " +:+ Render Bold "Public Key:" +:+ nl) in
        let! _ := Printf ("  " +:+ Render Dim pubKey +:+ nl +:+ nl) in
        let! _ := Printf ("  " +:+ Render Dim ("Private Key: " +:+ privKeyFile +:+ " (keep this secret)") +:+ nl) in
        let! _ := Println "" in
        let! _ := Printf ("  " +:+ Render Dim ("Edit " +:+ outFile +:+ " to set your service addresses, then run:") +:+ nl) in
        Printf ("  " +:+ Render Bold "  gordion up" +:+ nl +:+ nl)
    end.
End init.
