(* ===== verification/CliSpec.v ===== *)
(** What the command line tool does to the state file, to a running agent, and to the log it prints; with runs on a
    small machine. *)

From S2P Require Import Prelude GoInt GoStrings Grpc CircuitBreaker CliState Configs Cli CliQueries.
From S2P Require Import WireGuard.

(** ** Laws of the machine *)

(** What files hold, and what leaves them alone *)
Class FileLaws (W : Type) `{OS W} `{Host W} `{Terminal W} : Type := {
  contents : W → string → option string;
  read_contents p w w' r : read_file p w = (w', r) →
    contents w' = contents w ∧
    r = match contents w p with Some t => Ok t | None => Err ErrNotExist end;
  write_contents p t w w' : write_file p t w = (w', Ok tt) →
    ∀ q, contents w' q = if decide (q = p) then Some t else contents w q;
  mkdir_contents p w w' r : MkdirAll p w = (w', r) → contents w' = contents w;
  remove_contents p w w' r : Remove p w = (w', r) →
    match r with
    | Ok _ => ∀ q, contents w' q = if decide (q = p) then None else contents w q
    | Err e => contents w' = contents w ∧ (IsNotExist e → contents w p = None)
    end;
  print_contents m w w' r : Println m w = (w', r) ∨ Printf m w = (w', r) → contents w' = contents w;
}.
#[export] Hint Mode FileLaws + - - - : typeclass_instances.

(** Files can be written. *)
Class FilesUp (W : Type) `{OS W} `{Host W} : Prop := {
  write_up p t (w : W) : (write_file p t w).2 = Ok tt;
  mkdir_up p (w : W) : (MkdirAll p w).2 = Ok tt;
}.
#[export] Hint Mode FilesUp + - - : typeclass_instances.

Section files.
Context `{Lipgloss} `{StateJSON} `{FileLaws W} `{!FilesUp W} `{Clock W}.

Lemma Read_contents (w : W) :
  (Read w).2 = match contents w (Path (W:=W)) with
               | None => Ok None
               | Some t => match Unmarshal t with
                           | (_, Some e) => Err (Wrapf "parse state file" e)
                           | (s, None) => Ok (Some s)
                           end
               end.
Proof.
  unfold Read, handle. destruct (read_file _ w) as [w1 r] eqn:E. apply read_contents in E as [_ ->].
  destruct (contents w _) as [t|]; [by destruct (Unmarshal t) as [s [e|]]|].
  unfold IsNotExist. by rewrite bool_decide_true.
Qed.

Lemma write_done p t (w : W) : ∃ w', write_file p t w = (w', Ok tt) ∧ contents w' p = Some t.
Proof.
  pose proof (write_up p t w) as E. destruct (write_file p t w) as [w' r] eqn:Ew. simpl in E. subst r.
  exists w'. split; [done|]. rewrite (write_contents _ _ _ _ Ew). by rewrite decide_True.
Qed.

Lemma Write_contents s (w : W) : ∃ w', Write s w = (w', Ok tt) ∧ contents w' (Path (W:=W)) = Some (Marshal s).
Proof.
  unfold Write, bind, wrap_err. pose proof (mkdir_up (gordion_dir (W:=W)) w) as E.
  destruct (MkdirAll _ w) as [w1 r]. simpl in E. subst r. apply write_done.
Qed.

Definition parsed_state (t : option string) : State :=
  match t with Some t => (Unmarshal t).1 | None => zero_State end.

Lemma updateCLIState_contents ex use id vpn tok (w : W) :
  ∃ w', updateCLIState ex use id vpn tok w = (w', Ok tt) ∧
    contents w' (Path (W:=W)) =
      Some (Marshal (merge ex use id vpn tok (parsed_state (contents w (Path (W:=W)))))).
Proof.
  unfold updateCLIState, handle. destruct (read_file _ w) as [w1 r] eqn:E. apply read_contents in E as [_ ->].
  destruct (write_done (Path (W:=W)) (Marshal (merge ex use id vpn tok
    (parsed_state (contents w (Path (W:=W)))))) w1) as (w2 & E2 & Hc).
  exists w2. split; [|done]. unfold parsed_state in E2. by destruct (contents w _); rewrite E2.
Qed.

(** Printing changes no file. *)
Definition silent {A} (m : M W A) : Prop := ∀ w w' r, m w = (w', r) → contents w' = contents w.

Lemma silent_bind {A B} (m : M W A) (k : A → M W B) : silent m → (∀ a, silent (k a)) → silent (bind m k).
Proof.
  intros Hm Hk w w' r [(e & E & _)|(w1 & a & E & E2)]%bind_inv; [by eapply Hm|].
  rewrite (Hk _ _ _ _ E2). by eapply Hm.
Qed.
Lemma silent_ret {A} (a : A) : silent (ret a).
Proof. by intros w w' r [= <- _]. Qed.
Lemma silent_println msg : silent (Println msg).
Proof. intros w w' r E. eapply print_contents. by left. Qed.
Lemma silent_printf msg : silent (Printf msg).
Proof. intros w w' r E. eapply print_contents. by right. Qed.
#[local] Hint Resolve silent_bind silent_ret silent_println silent_printf : silent.

Lemma up_record_contents cfgFile logPath cfg pid (w : W) :
  contents (up_record cfgFile logPath cfg pid w).1 (Path (W:=W)) =
    Some (Marshal (up_state pid (Now w) logPath (resolvedConfigPath cfgFile w) cfg)).
Proof.
  unfold up_record. unfold bind at 1, world.
  destruct (Write_contents (up_state pid (Now w) logPath (resolvedConfigPath cfgFile w) cfg) w) as (w1 & E & <-).
  rewrite (handle_eq _ _ _ _ _ E).
  match goal with |- contents (?m w1).1 _ = _ => assert (silent m) as Hs end.
  { repeat (apply silent_bind; [unfold printOK, printWarn; repeat case_match; auto with silent|intros _]).
    auto with silent. }
  match goal with |- contents (?m w1).1 _ = _ => destruct (m w1) as [w2 r] eqn:E2 end. simpl. by rewrite (Hs _ _ _ E2).
Qed.

(** The agent's update of the state file and the record that [up] writes do not commute. If the agent is
    first, the record erases its address and its token; if it is second, everything is there. *)
Theorem state_file_race ex use id vpn tok cfgFile logPath cfg pid (w : W) :
  (∃ s, (Read (up_record cfgFile logPath cfg pid (updateCLIState ex use id vpn tok w).1).1).2 = Ok (Some s) ∧
     PID s = pid ∧ VPNAddr s = "" ∧ state_token (Some s) = "") ∧
  (∃ s, (Read (updateCLIState ex use id vpn tok (up_record cfgFile logPath cfg pid w).1).1).2 = Ok (Some s) ∧
     PID s = pid ∧ VPNAddr s = vpn ∧ state_token (Some s) = tok).
Proof.
  split; rewrite Read_contents.
  - rewrite up_record_contents, Unmarshal_Marshal. by eexists.
  - destruct (updateCLIState_contents ex use id vpn tok (up_record cfgFile logPath cfg pid w).1) as (w2 & E & Hc).
    rewrite E. cbn [fst]. rewrite Hc, Unmarshal_Marshal, up_record_contents. unfold parsed_state. rewrite Unmarshal_Marshal. by eexists.
Qed.
End files.

(** ** down *)

(** A clock that sleeping moves, printing whose result is not looked at, and [killed]: the processes to which the kill signal
    has been sent, or for which that was tried. That a process ends when it is killed is no law: it ends later, or not at all
    when the signal is refused. *)
Class ProcessLaws (W : Type) `{Host W} `{Clock W} `{Terminal W} : Type := {
  killed : W → list Z;
  sleep_moves d (w : W) : Now w + d ≤ Now (Sleep d w).1;
  sleep_ok d (w : W) : (Sleep d w).2 = Ok tt;
  kill_killed pid (w w' : W) r : Kill pid w = (w', r) → killed w' = killed w ++ [pid];
  sleep_killed d (w : W) : killed (Sleep d w).1 = killed w;
  remove_killed p (w w' : W) r : Remove p w = (w', r) → killed w' = killed w;
  print_killed m (w w' : W) r : Println m w = (w', r) ∨ Printf m w = (w', r) → r = Ok tt ∧ killed w' = killed w;
}.
#[export] Hint Mode ProcessLaws + - - - : typeclass_instances.

Section down.
Context `{Lipgloss} `{StateJSON} `{FileLaws W} `{Clock W} `{!ProcessLaws W}.

(** The wait ends within its rounds, each of which takes at least 300 ms, and it kills nothing: it ends at the deadline, or
    when the agent is found to have stopped. *)
Lemma wait_exit_ends rounds deadline s (w : W) :
  deadline - Now w ≤ Z.of_nat rounds * (300 * Millisecond) →
  ∃ w', wait_exit rounds deadline s w = (w', Ok tt) ∧ killed w' = killed w ∧
    (IsRunning (Some s) w' = true → deadline ≤ Now w').
Proof.
  revert w. induction rounds as [|rounds IH]; intros w Hd; cbn [wait_exit].
  - case_bool; [lia|]. exists w. by repeat split; try (intros; lia).
  - case_bool; [|exists w; by repeat split; try (intros; lia)].
    destruct (IsRunning _ w) eqn:Er; [|exists w; repeat split; congruence].
    unfold bind. pose proof (sleep_moves (300 * Millisecond) w) as Hm.
    pose proof (sleep_ok (300 * Millisecond) w) as Hok. pose proof (sleep_killed (300 * Millisecond) w) as Hk.
    destruct (Sleep _ w) as [w1 r]. simpl in *. subst r. rewrite <- Hk. apply IH. unfold Millisecond in *. lia.
Qed.

Lemma Delete_contents (w w' : W) r : Delete w = (w', r) →
  killed w' = killed w ∧ (r = Ok tt → contents w' (Path (W:=W)) = None).
Proof.
  unfold Delete, handle. destruct (Remove (Path (W:=W)) w) as [w1 x] eqn:E. pose proof (remove_killed _ _ _ _ E) as Hk.
  apply remove_contents in E. destruct x as [u|e].
  - intros [= <- <-]. split; [done|]. intros _. rewrite E. by rewrite decide_True.
  - destruct E as [Hc Hn]. destruct (IsNotExist e); intros [= <- <-]; (split; [done|]); [|done]. intros _. rewrite Hc. auto.
Qed.

Definition stopping (s : State) : string :=
  Render Dim arrow +:+ " Stopping Gordion VPN agent (PID " +:+ Itoa (PID s) +:+ ")..." +:+ nl.

(** [down] once it has sent the signal *)
Definition down_wait (s : State) : M W unit :=
  let! w := world in
  let! _ := wait_exit down_rounds (Now w + 10 * Second) s in
  let! w := world in
  let! _ := (if IsRunning (Some s) w
             then let? _ := Kill (PID s) in
                  printWarn ("Agent did not stop gracefully " +:+ dash +:+ " force killed")
             else ret tt) in
  let? _ := Delete in
  printOK "Gordion VPN stopped".

Lemma down_signals (w w1 w2 : W) s :
  Read w = (w1, Ok (Some s)) → IsRunning (Some s) w1 = true → Printf (stopping s) w1 = (w2, Ok tt) →
  down w = (let! _ := wrap_err (Wrapf "send stop signal") (sendInterrupt (PID s)) in down_wait s) w2.
Proof.
  intros Hr Hrun Hp. unfold down. rewrite (bind_ok _ _ w w1 (Some s)) by (by apply wrap_err_ok).
  unfold bind at 1, world. rewrite Hrun. by rewrite (bind_ok _ _ _ _ _ Hp).
Qed.

Lemma down_kills s (w4 : W) (Hpid : PID s ≠ 0) :
  ∃ w5, (if IsRunning (Some s) w4
         then let? _ := Kill (PID s) in printWarn ("Agent did not stop gracefully " +:+ dash +:+ " force killed")
         else ret tt) w4 = (w5, Ok tt) ∧
    killed w5 = killed w4 ++ (if processExists (PID s) w4 then [PID s] else []).
Proof.
  unfold IsRunning. destruct (Z.eqb_spec (PID s) 0); [done|].
  destruct (processExists (PID s) w4) eqn:E; [|exists w4; by rewrite app_nil_r].
  unfold handle. destruct (Kill (PID s) w4) as [w5 r5] eqn:Ek. apply kill_killed in Ek as <-.
  unfold printWarn. destruct (Println _ w5) as [w6 r6] eqn:Ep.
  destruct (print_killed _ _ _ _ (or_introl Ep)) as [-> Hk]. eauto.
Qed.

Lemma down_waits s (w3 : W) : PID s ≠ 0 →
  ∃ w4 w' x,
    wait_exit down_rounds (Now w3 + 10 * Second) s w3 = (w4, Ok tt) ∧ down_wait s w3 = (w', Ok tt) ∧
    (processExists (PID s) w4 = true → Now w3 + 10 * Second ≤ Now w4) ∧
    killed w' = killed w3 ++ (if processExists (PID s) w4 then [PID s] else []) ∧
    (∃ w5 w6, Delete w5 = (w6, x) ∧ printOK "Gordion VPN stopped" w6 = (w', Ok tt)) ∧
    (x = Ok tt → contents w' (Path (W:=W)) = None).
Proof.
  intros Hpid. unfold down_wait. unfold bind at 1, world.
  destruct (wait_exit_ends down_rounds (Now w3 + 10 * Second) s w3) as (w4 & E4 & Hk4 & Hlate).
  { unfold down_rounds, Second, Millisecond. lia. }
  rewrite (bind_ok _ _ _ _ _ E4). unfold bind at 1.
  destruct (down_kills s w4 Hpid) as (w5 & E5 & Hk5). rewrite (bind_ok _ _ _ _ _ E5). unfold handle.
  destruct (Delete w5) as [w6 x] eqn:E6. destruct (Delete_contents _ _ _ E6) as [Hk6 Hgone].
  destruct (printOK _ w6) as [w7 r7] eqn:Ep. destruct (print_killed _ _ _ _ (or_introl Ep)) as [-> Hk7].
  exists w4, w7, x. split; [done|]. split; [done|]. split.
  { intros Hx. apply Hlate. unfold IsRunning. by destruct (Z.eqb_spec (PID s) 0). }
  split; [congruence|]. split; [eauto|]. intros Hx. rewrite (print_contents _ _ _ _ (or_introl Ep)). auto.
Qed.

(** C38: [down] on a running agent. If the stop signal cannot be sent, that is reported and nothing else is done: the agent is
    not killed and the state file stays. Else the command always comes to an end, after at most 34 rounds of waiting. An agent
    that it finds to have stopped within ten seconds is not killed; one that still runs when the ten seconds are over is sent
    the kill signal, once; no other process is. Either way the state file is then deleted, whatever the kill gave. *)
Theorem down_stops (w w1 w2 w3 : W) s r :
  Read w = (w1, Ok (Some s)) → IsRunning (Some s) w1 = true →
  Printf (stopping s) w1 = (w2, Ok tt) → sendInterrupt (PID s) w2 = (w3, r) →
  match r with
  | Err e => down w = (w3, Err (Wrapf "send stop signal" e))
  | Ok _ => ∃ w4 w' x,
      wait_exit down_rounds (Now w3 + 10 * Second) s w3 = (w4, Ok tt) ∧ down w = (w', Ok tt) ∧
      (processExists (PID s) w4 = true → Now w3 + 10 * Second ≤ Now w4) ∧
      killed w' = killed w3 ++ (if processExists (PID s) w4 then [PID s] else []) ∧
      (∃ w5 w6, Delete w5 = (w6, x) ∧ printOK "Gordion VPN stopped" w6 = (w', Ok tt)) ∧
      (x = Ok tt → contents w' (Path (W:=W)) = None)
  end.
Proof.
  intros Hr Hrun Hp Hi. rewrite (down_signals _ _ _ _ Hr Hrun Hp).
  destruct r as [[]|e]; [|apply bind_err; unfold wrap_err; by rewrite Hi].
  rewrite (bind_ok _ _ w2 w3 tt) by (by apply wrap_err_ok). apply down_waits.
  intros Hz. unfold IsRunning in Hrun. by rewrite Hz in Hrun.
Qed.
End down.

(** ** logs *)

(** [logs -n] prints the last lines of the log in their order, as many as asked for or all there are; with a
    negative number of lines it panics (the command does not get here when the log is empty). *)
Theorem last_lines_correct n lines :
  min_int64 ≤ n ≤ max_int64 → Z.of_nat (length lines) - n ≤ max_int64 →
  if n <? 0 then last_lines n lines = Err (Panic "slice bounds out of range")
  else ∃ before shown, last_lines n lines = Ok shown ∧ lines = before ++ shown ∧
         Z.of_nat (length shown) = Z.min n (Z.of_nat (length lines)).
Proof.
  intros Hn Hl. unfold last_lines. unfold min_int64 in Hn. set (k := Z.of_nat (length lines)) in *.
  rewrite wrap64_id by (unfold min_int64, max_int64 in *; lia). case_bool.
  - destruct (Z.ltb_spec (k - n) 0); [lia|]. destruct (Z.ltb_spec k (k - n)); [done|lia].
  - assert ((if k - n <? 0 then 0 else k - n) = Z.max 0 (k - n)) as -> by (case_bool; lia).
    destruct (Z.ltb_spec k (Z.max 0 (k - n))); [lia|].
    exists (take (Z.to_nat (Z.max 0 (k - n))) lines), (drop (Z.to_nat (Z.max 0 (k - n))) lines).
    split; [done|]. split; [by rewrite take_drop|]. rewrite length_drop. lia.
Qed.

Lemma take_app_str (p q : string) : take_str (String.length p) (p +:+ q) = p.
Proof. induction p as [|c p IH]; [by destruct q|]. cbn. by f_equal. Qed.

Lemma take_drop_str n s : take_str n s +:+ drop_str n s = s.
Proof. revert s. induction n as [|n IH]; intros [|c s]; [done..|].
  change (String c (take_str n s +:+ drop_str n s) = String c s). by rewrite IH.
Qed.

Lemma drop_app_str (p q : string) : drop_str (String.length p) (p +:+ q) = q.
Proof. induction p as [|c p IH]; [by destruct q|]. done. Qed.

Lemma contains_from_spec left i s k :
  contains_from i left s k = true ↔ ∃ j, (i ≤ j < i + left)%nat ∧ take_str (String.length k) (drop_str j s) = k.
Proof.
  revert i. induction left as [|left IH]; intros i; cbn [contains_from].
  - split; [done|]. intros (j & Hj & _). lia.
  - case_decide as Ek.
    + split; [|done]. intros _. exists i. split; [lia|done].
    + rewrite IH. split; intros (j & Hj & Htake).
      * exists j. split; [lia|done].
      * exists j. split; [|done]. destruct (decide (j = i)) as [->|]; [done|lia].
Qed.

(** The hand-written search finds a keyword in a line exactly when the line contains one. *)
Theorem containsAny_correct s keywords :
  containsAny s keywords = true ↔ ∃ k p q, k ∈ keywords ∧ s = p +:+ k +:+ q.
Proof.
  unfold containsAny. rewrite existsb_exists. setoid_rewrite <- list_elem_of_In. split.
  - intros (k & Hk & [Hl Hc]%andb_true_iff). apply contains_from_spec in Hc as (j & Hj & Ht).
    exists k, (take_str j s), (drop_str (String.length k) (drop_str j s)). split; [done|].
    rewrite <- Ht at 1. by rewrite !take_drop_str.
  - intros (k & p & q & Hk & ->). exists k. split; [done|]. rewrite andb_true_iff, Nat.leb_le.
    rewrite !length_app_str. split; [lia|]. apply contains_from_spec. exists (String.length p).
    split; [lia|]. by rewrite drop_app_str, take_app_str.
Qed.

(** ** A small machine *)

(** Processes ignore the stop signal. [d_killed] is what the kill signal was sent to, [d_mine] whether the user may send it. *)
Record Desk : Type := {
  d_now : Z;
  d_files : gmap string string;
  d_processes : list Z;
  d_out : list string;
  d_killed : list Z;
  d_mine : bool;
}.

Definition desk_print (m : string) : M Desk unit := λ d,
  ({| d_now := d_now d; d_files := d_files d; d_processes := d_processes d; d_out := d_out d ++ [m];
     d_killed := d_killed d; d_mine := d_mine d |}, Ok tt).

#[local] Instance desk_style : Lipgloss := λ _ s, s.
#[local] Existing Instance bits_state_json.
#[local] Instance desk_clock : Clock Desk := d_now.
#[local] Instance desk_terminal : Terminal Desk :=
  {| Println m := desk_print m; Printf m := desk_print m; Error_text _ := "error" |}.

#[local] Instance desk_os : OS Desk := {|
  run_command _ _ := ret tt;
  write_file p t := λ d,
    ({| d_now := d_now d; d_files := <[p := t]> (d_files d); d_processes := d_processes d; d_out := d_out d;
       d_killed := d_killed d; d_mine := d_mine d |}, Ok tt);
  command_output _ _ := ret "";
  read_file p := λ d, (d, match d_files d !! p with Some t => Ok t | None => Err ErrNotExist end);
|}.

#[local] Instance desk_host : Host Desk := {|
  MkdirAll _ := ret tt;
  Remove p := λ d,
    ({| d_now := d_now d; d_files := delete p (d_files d); d_processes := d_processes d; d_out := d_out d;
       d_killed := d_killed d; d_mine := d_mine d |}, Ok tt);
  Stat p d := bool_decide (is_Some (d_files d !! p));
  processExists pid d := bool_decide (pid ∈ d_processes d);
  sendInterrupt _ := ret tt;
  Kill pid := λ d,
    ({| d_now := d_now d; d_files := d_files d;
        d_processes := if d_mine d then List.filter (λ p, negb (p =? pid)) (d_processes d) else d_processes d;
        d_out := d_out d; d_killed := d_killed d ++ [pid]; d_mine := d_mine d |},
     if d_mine d then Ok tt else Err (LibErr "operation not permitted"));
  LookPath _ _ := None;
  OpenLog _ := ret tt;
  StartProcess _ _ := ret 1;
  Sleep n := λ d,
    ({| d_now := d_now d + Z.max 0 n; d_files := d_files d; d_processes := d_processes d; d_out := d_out d;
       d_killed := d_killed d; d_mine := d_mine d |}, Ok tt);
  TempDir := "/tmp";
  HomeDir := "/home/me";
  Executable_dir _ := None;
  Abs p _ := p;
|}.

#[local, refine] Instance desk_files : FileLaws Desk := {| contents d p := d_files d !! p |}.
Proof.
  - by intros p w w' r [= <- <-].
  - intros p t w w' [= <-] q. simpl. case_decide as E; [subst; by rewrite lookup_insert_eq|by rewrite lookup_insert_ne].
  - by intros p w w' r [= <- _].
  - intros p w w' r [= <- <-] q. simpl. case_decide as E; [subst; by rewrite lookup_delete_eq|by rewrite lookup_delete_ne].
  - by intros m w w' r [[= <- _]|[= <- _]].
Defined.

#[local] Instance desk_files_up : FilesUp Desk.
Proof. done. Qed.

#[local, refine] Instance desk_processes : ProcessLaws Desk := {| killed := d_killed |}.
Proof.
  all: simpl.
  - intros d w. unfold Now, desk_clock. simpl. lia.
  - done.
  - by intros pid w w' r [= <- _].
  - done.
  - by intros p w w' r [= <- _].
  - by intros m w w' r [[= <- <-]|[= <- <-]].
Defined.

Definition desk_state : State :=
  {| PID := 42; VPNAddr := "10.8.0.2"; Token := "token"; LogFile := ""; StartedAt := 0; ConfigFile := "";
     IsExitNode := false; UseExitNode := false; ExitNodeID := "" |}.
Definition desk_with (mine : bool) : Desk :=
  {| d_now := 0; d_files := {[ "/tmp/gordion/state.json" := Marshal desk_state ]}; d_processes := [42]; d_out := [];
     d_killed := []; d_mine := mine |}.
Definition desk : Desk := desk_with true.
Definition told : Desk := (Printf (stopping desk_state) desk).1.

Lemma down_stops_witness : ∃ w', down desk = (w', Ok tt) ∧ killed w' = [42] ∧ contents w' (Path (W:=Desk)) = None.
Proof.
  destruct (down_stops desk desk told told desk_state (Ok tt)) as (w4 & w' & x & E4 & E & _ & Hk & (w5 & w6 & E6 & _) & Hgone).
  - vm_compute. reflexivity.
  - vm_compute. reflexivity.
  - reflexivity.
  - reflexivity.
  - exists w'. split; [exact E|]. split.
    + rewrite Hk. apply (f_equal fst) in E4. cbn [fst] in E4. rewrite <- E4. vm_compute. reflexivity.
    + apply Hgone. apply (f_equal snd) in E6. cbn [snd] in E6. rewrite <- E6. reflexivity.
Defined.

(** The result of the kill is ignored: where the signal is refused (an agent of another user), [down] says that the agent was
    killed and the VPN stopped, and deletes the state file, while the agent goes on. *)
Theorem down_ignores_failed_kill :
  let '(w', r) := down (desk_with false) in
  r = Ok tt ∧ processExists 42 w' = true ∧ contents w' (Path (W:=Desk)) = None ∧
  last (d_out w') = Some (check_mark +:+ " Gordion VPN stopped").
Proof. vm_compute. split_and!; reflexivity. Qed.

Lemma last_lines_correct_witness :
  last_lines 2 ["a"; "b"; "c"] = Ok ["b"; "c"] ∧ last_lines (-1) ["a"] = Err (Panic "slice bounds out of range").
Proof.
  split; [|exact (last_lines_correct (-1) ["a"] ltac:(vm_compute; split; discriminate) ltac:(vm_compute; discriminate))].
  destruct (last_lines_correct 2 ["a"; "b"; "c"] ltac:(vm_compute; split; discriminate) ltac:(vm_compute; discriminate))
    as (before & shown & E & _ & _). vm_compute. reflexivity.
Defined.

Definition exit_config : CliConfig.Config :=
  {| CliConfig.IdentityAddr := ""; CliConfig.DiscoveryAddr := ""; CliConfig.ConfigAddr := ""; CliConfig.NetworkSecret := "";
     CliConfig.TLSCACert := ""; CliConfig.LogLevel := ""; CliConfig.DryRun := None; CliConfig.WireGuardPort := 0;
     CliConfig.P2PPort := 0; CliConfig.IsExitNode := false; CliConfig.UseExitNode := true;
     CliConfig.ExitNodeID := "gate"; CliConfig.ExitNodeDNS := "" |}.

Lemma state_file_race_witness :
  ∃ s, (Read (up_record "" "" exit_config 42 (updateCLIState false true "gate" "10.8.0.2" "token" desk).1).1).2 = Ok (Some s) ∧
    Token s = "".
Proof.
  destruct (state_file_race false true "gate" "10.8.0.2" "token" "" "" exit_config 42 desk)
    as [(s & Hs & _ & _ & Ht) _].
  exists s. split; [exact Hs|exact Ht].
Defined.
