(* ===== verification/Interceptors.v ===== *)
(** The interceptors every service chains before its handlers, health checks, and what the services' main functions
    do besides serving: pkg/tracing, pkg/middleware, the three metrics_interceptor.go (which are the same code),
    pkg/healthcheck, pkg/grpcutil, services/{identity,config,discovery}/cmd/server/main.go.

    A log line is kept as the values its format string gets. Prometheus counters and gauges are maps from their
    labels. *)

From S2P Require Import Prelude GoInt GoStrings Grpc RateLimit.
From S2P Require Configs ConfigService Registry.
From Stdlib Require Import Ascii.
#[local] Open Scope Z_scope.

(** ** pkg/grpcutil *)

Definition ErrInvalidArgument (msg : string) : error := StatusErr InvalidArgument msg.
Definition ErrNotFound (msg : string) : error := StatusErr NotFound msg.
Definition ErrUnauthenticated (msg : string) : error := StatusErr Unauthenticated msg.
Definition ErrPermissionDenied (msg : string) : error := StatusErr PermissionDenied msg.
Definition ErrInternal (msg : string) : error := StatusErr Internal msg.
Definition ErrAlreadyExists (msg : string) : error := StatusErr AlreadyExists msg.

(** ** What a server records *)

Inductive log_line : Type :=
| TraceStart (traceID service method : string)
| TraceError (traceID service method : string) (err : error)
| TraceOK (traceID service method : string)
| RequestStart (requestID method : string)
| RequestError (requestID method : string) (code : codes) (duration : Z) (err : error)
| RequestOK (requestID method : string) (duration : Z).

(** The status label: success, or [code.String()] *)
Inductive status_label : Type := success | failed (code : codes).
#[export] Instance status_label_eq_dec : EqDecision status_label.
Proof. solve_decision. Defined.

Record Metrics : Type := {
  ActiveConnections : string → Z;
  RequestsTotal : string → string → status_label → Z;
  RequestDuration : list (string * string * Z);
}.

Definition add_active (service : string) (n : Z) (m : Metrics) : Metrics :=
  {| ActiveConnections := λ s, if decide (s = service) then ActiveConnections m s + n else ActiveConnections m s;
     RequestsTotal := RequestsTotal m; RequestDuration := RequestDuration m |}.
Definition add_request (service method : string) (l : status_label) (m : Metrics) : Metrics :=
  {| ActiveConnections := ActiveConnections m;
     RequestsTotal := λ s k x, if decide (s = service ∧ k = method ∧ x = l) then RequestsTotal m s k x + 1
                               else RequestsTotal m s k x;
     RequestDuration := RequestDuration m |}.
Definition observe (service method : string) (d : Z) (m : Metrics) : Metrics :=
  {| ActiveConnections := ActiveConnections m; RequestsTotal := RequestsTotal m;
     RequestDuration := RequestDuration m ++ [(service, method, d)] |}.

(** The log, the metrics, and the world of the handlers *)
Record Observed (W : Type) : Type := { ob_log : list log_line; ob_metrics : Metrics; ob_world : W }.
Arguments ob_log {W}.
Arguments ob_metrics {W}.
Arguments ob_world {W}.
Arguments Build_Observed {W}.

Definition log {W} (l : log_line) : M (Observed W) unit := λ s,
  (Build_Observed (ob_log s ++ [l]) (ob_metrics s) (ob_world s), Ok tt).
Definition measure {W} (f : Metrics → Metrics) : M (Observed W) unit := λ s,
  (Build_Observed (ob_log s) (f (ob_metrics s)) (ob_world s), Ok tt).
Definition on_world {W A} (m : M W A) : M (Observed W) A :=
  zoom ob_world (λ w s, Build_Observed (ob_log s) (ob_metrics s) w) m.

(** [crypto/rand.Read] of some bytes *)
Class Rand (W : Type) : Type := rand_bytes : nat → W → W * list Z.
#[export] Hint Mode Rand + : typeclass_instances.

Definition hex_digit (n : Z) : ascii := ascii_of_nat (Z.to_nat (if n <? 10 then 48 + n else 87 + n)).
Fixpoint EncodeHex (l : list Z) : string :=
  match l with
  | [] => EmptyString
  | b :: l' => String (hex_digit (b / 16)) (String (hex_digit (b mod 16)) (EncodeHex l'))
  end.

#[export] Instance observed_clock {W} `{Clock W} : Clock (Observed W) := λ s, Now (ob_world s).

Section interceptors.
Context `{StatusLib} `{Clock W} `{Rand W}.

Definition generate (n : nat) : M (Observed W) string :=
  on_world (λ w, let '(w', b) := rand_bytes n w in (w', Ok (EncodeHex b))).
Definition generateTraceID : M (Observed W) string := generate 8.
Definition generateRequestID : M (Observed W) string := generate 4.
Definition now : M (Observed W) Z := λ s, (s, Ok (Now s)).

(** ** pkg/tracing *)

Definition metadataKey : string := "x-trace-id".

Definition TraceIDFromContext (ctx : Context) : string := default "" (ctx_Value ctx TraceIDKey).

(** The trace id of the incoming metadata *)
Definition incoming_trace (ctx : Context) : string :=
  match ctx_incoming ctx with
  | Some md => match md_Get md metadataKey with v :: _ => v | [] => "" end
  | None => ""
  end.

Definition ServerInterceptor (serviceName : string) {Req Resp} : UnaryServerInterceptor (Observed W) Req Resp :=
  λ ctx req method handler,
    let! traceID := (if decide (incoming_trace ctx = "") then generateTraceID else ret (incoming_trace ctx)) in
    let ctx := WithValue ctx TraceIDKey traceID in
    let! _ := log (TraceStart traceID serviceName method) in
    try! r := handler ctx req in
    match r with
    | Err e => let! _ := log (TraceError traceID serviceName method e) in throw e
    | Ok resp => let! _ := log (TraceOK traceID serviceName method) in ret resp
    end.

Definition ClientInterceptor {Req Resp} (ctx : Context) (method : string) (req : Req)
    (invoker : Context → string → Req → M W Resp) : M W Resp :=
  let ctx := match ctx_Value ctx TraceIDKey with
             | Some traceID => if decide (traceID = "") then ctx else AppendToOutgoingContext ctx metadataKey traceID
             | None => ctx
             end in
  invoker ctx method req.

(** ** pkg/middleware *)

Definition LoggingInterceptor {Req Resp} : UnaryServerInterceptor (Observed W) Req Resp :=
  λ ctx req method handler,
    let! requestID := generateRequestID in
    let ctx := WithValue ctx RequestIDKey requestID in
    let! start := now in
    let! _ := log (RequestStart requestID method) in
    try! r := handler ctx req in
    let! finish := now in
    let duration := time_sub finish start in
    match r with
    | Err e => let! _ := log (RequestError requestID method (status_Code e) duration e) in throw e
    | Ok resp => let! _ := log (RequestOK requestID method duration) in ret resp
    end.

Definition RequestIDFromContext (ctx : Context) : string := default "unknown" (ctx_Value ctx RequestIDKey).

(** ** metrics_interceptor.go *)

Definition label_of {A} (r : res A) : status_label :=
  match r with Ok _ => success | Err e => failed (status_Code e) end.

(** The deferred decrement also runs when the handler panics. *)
Definition MetricsInterceptor (serviceName : string) {Req Resp} : UnaryServerInterceptor (Observed W) Req Resp :=
  λ ctx req method handler,
    let! start := now in
    let! _ := measure (add_active serviceName 1) in
    let? r := handler ctx req in
    match r with
    | Err (Panic msg) => let! _ := measure (add_active serviceName (-1)) in throw (Panic msg)
    | r =>
        let! finish := now in
        let! _ := measure (add_request serviceName method (label_of r)) in
        let! _ := measure (observe serviceName method (time_sub finish start)) in
        let! _ := measure (add_active serviceName (-1)) in
        match r with Ok resp => ret resp | Err e => throw e end
    end.

(** ** The chain of every server: the first interceptor is the outermost *)

Definition chain (serviceName : string) {Req Resp} (method : string)
    (handler : Context → Req → M W Resp) (ctx : Context) (req : Req) : M (Limited (Observed W)) Resp :=
  RateLimit.UnaryInterceptor ctx req (λ ctx req,
    ServerInterceptor serviceName ctx req method (λ ctx req,
      LoggingInterceptor ctx req method (λ ctx req,
        MetricsInterceptor serviceName ctx req method (λ ctx req, on_world (handler ctx req))))).

Definition server_limiter : Limiter := RateLimit.New 100 Minute.
End interceptors.

(** ** pkg/healthcheck *)

Inductive ServingStatus : Type := SERVING | NOT_SERVING.

(** [checker] runs Ping. *)
Definition Check {W} (serviceName : string) (checker : option (M W unit)) (service : string) : M W ServingStatus :=
  if decide (service ≠ "" ∧ service ≠ serviceName) then throw (StatusErr NotFound "unknown service")
  else
    match checker with
    | None => ret SERVING
    | Some ping => let? r := ping in ret (match r with Ok _ => SERVING | Err _ => NOT_SERVING end)
    end.

(** ** The signals of the config service *)

(** A SIGHUP comes with what loading the configuration gives then. *)
Inductive signal : Type :=
| SIGHUP (loaded : res Configs.ConfigConfig.Config)
| SIGINT
| SIGTERM.

(** [main]'s loop: the handler when the loop ends, and whether the server is shut down *)
Fixpoint signals (h : ConfigService.ConfigHandler) (l : list signal) : ConfigService.ConfigHandler * bool :=
  match l with
  | [] => (h, false)
  | SIGHUP (Ok c) :: rest =>
      signals (ConfigService.ReloadConfig (Configs.ConfigConfig.NetworkCIDR c) (Configs.ConfigConfig.MTU c)
        (Configs.ConfigConfig.DNSServers c) h) rest
  | SIGHUP (Err _) :: rest => signals h rest
  | _ :: _ => (h, true)
  end.

(** ** The clean-up of the discovery service *)

Definition cleanupInterval (heartbeatTTL : Z) : Z := wrap64 (wrap64 (heartbeatTTL * 2) * Second).

(** A tick of the clean-up: its result is only logged. *)
Definition cleanup_tick `{Redis.Redis R} (reg : Registry.Registry) : M R unit :=
  let? _ := Registry.CleanupStale reg in ret tt.

(** ** What the chain does to a request *)

Section chain.
Context `{StatusLib} `{Clock W} `{Rand W} {Req Resp : Type}.
Implicit Types (s : Observed W).

(** [x] is a result, not a panic. *)
Definition quiet_result {A} (x : res A) : Prop := ∀ msg, x ≠ Err (Panic msg).

(** A handler whose runs do not panic *)
Definition no_panic (handler : Context → Req → M W Resp) (req : Req) : Prop :=
  ∀ ctx w w' msg, handler ctx req w ≠ (w', Err (Panic msg)).

Lemma MetricsInterceptor_run service method ctx (req : Req) (handler : Context → Req → M W Resp) s w' r :
  handler ctx req (ob_world s) = (w', r) → quiet_result r →
  MetricsInterceptor service ctx req method (λ ctx req, on_world (handler ctx req)) s =
    (Build_Observed (ob_log s)
       (add_active service (-1) (observe service method (time_sub (Now w') (Now (ob_world s)))
         (add_request service method (label_of r) (add_active service 1 (ob_metrics s))))) w', r).
Proof.
  intros E Hq. unfold MetricsInterceptor, bind, handle, now, measure, on_world, zoom. cbn [ob_world]. rewrite E.
  destruct r as [a|e]; [done|]. destruct e as [| | | | |msg]; try done. by destruct (Hq msg).
Qed.

(** The id that a request gets, and what is left of the world *)
Definition drawn (n : nat) (w : W) : W * string := let '(w', b) := rand_bytes n w in (w', EncodeHex b).

(** The last line of each of the two logs *)
Definition request_end (rid method : string) (d : Z) (r : res Resp) : log_line :=
  match r with Ok _ => RequestOK rid method d | Err e => RequestError rid method (status_Code e) d e end.
Definition trace_end (tid service method : string) (r : res Resp) : log_line :=
  match r with Ok _ => TraceOK tid service method | Err e => TraceError tid service method e end.

Lemma LoggingInterceptor_run method ctx (req : Req) (inner : Context → Req → M (Observed W) Resp) s s2 r :
  let '(w1, rid) := drawn 4 (ob_world s) in
  inner (WithValue ctx RequestIDKey rid) req
    (Build_Observed (ob_log s ++ [RequestStart rid method]) (ob_metrics s) w1) = (s2, r) →
  quiet_result r →
  LoggingInterceptor ctx req method inner s =
    (Build_Observed (ob_log s2 ++ [request_end rid method (time_sub (Now (ob_world s2)) (Now w1)) r])
       (ob_metrics s2) (ob_world s2), r).
Proof.
  unfold LoggingInterceptor, generateRequestID, generate, drawn. unfold bind at 1, on_world, zoom.
  destruct (rand_bytes 4 (ob_world s)) as [w1 b] eqn:E. intros Ei Hq.
  unfold bind, now, log, attempt. cbn [ob_log ob_metrics ob_world]. rewrite Ei.
  destruct r as [a|e]; [done|]. destruct e as [| | | | |msg]; try done. by destruct (Hq msg).
Qed.

(** The trace id of a request: the caller's, or a new one *)
Definition trace_id (ctx : Context) (w : W) : W * string :=
  if decide (incoming_trace ctx = "") then drawn 8 w else (w, incoming_trace ctx).

Lemma ServerInterceptor_run service method ctx (req : Req) (inner : Context → Req → M (Observed W) Resp) s s2 r :
  let '(w1, tid) := trace_id ctx (ob_world s) in
  inner (WithValue ctx TraceIDKey tid) req
    (Build_Observed (ob_log s ++ [TraceStart tid service method]) (ob_metrics s) w1) = (s2, r) →
  quiet_result r →
  ServerInterceptor service ctx req method inner s =
    (Build_Observed (ob_log s2 ++ [trace_end tid service method r]) (ob_metrics s2) (ob_world s2), r).
Proof.
  unfold ServerInterceptor, trace_id, drawn. destruct (decide (incoming_trace ctx = "")) as [Ez|Ez].
  - unfold generateTraceID, generate. unfold bind at 1, on_world, zoom.
    destruct (rand_bytes 8 (ob_world s)) as [w1 b] eqn:E. intros Ei Hq.
    unfold bind, log, attempt. cbn [ob_log ob_metrics ob_world]. rewrite Ei.
    destruct r as [a|e]; [done|]. destruct e as [| | | | |msg]; try done. by destruct (Hq msg).
  - intros Ei Hq. unfold bind, ret, log, attempt. cbn [ob_log ob_metrics ob_world]. rewrite Ei.
    destruct r as [a|e]; [done|]. destruct e as [| | | | |msg]; try done. by destruct (Hq msg).
Qed.

(** What a request that takes [d] adds to the metrics: one count under its status, its duration, and nothing to the active
    connections *)
Record measured (service method : string) (l : status_label) (d : Z) (m m' : Metrics) : Prop := {
  measured_active : ∀ k, ActiveConnections m' k = ActiveConnections m k;
  measured_total : ∀ k n x, RequestsTotal m' k n x =
    RequestsTotal m k n x + (if decide (k = service ∧ n = method ∧ x = l) then 1 else 0);
  measured_duration : RequestDuration m' = RequestDuration m ++ [(service, method, d)];
}.

Lemma measured_all service method l d m :
  measured service method l d m
    (add_active service (-1) (observe service method d (add_request service method l (add_active service 1 m)))).
Proof.
  split; simpl; [|intros k n x; case_decide; lia|done].
  intros k. repeat case_decide; lia.
Qed.

(** C36: A server's interceptors change no answer. A request within its client's limit is handled exactly once, in a context
    with the caller's trace id (one drawn anew if there is none) and a drawn request id: the world that is left and the answer
    are those of the one run of the handler. It is counted once under its status with how long the handler took, the gauge of
    active connections is as it was, and the log gains two lines before the handler and two after it, which say of an answer
    that it is one and of an error its code and text. A request over the limit is neither handled nor logged nor counted. *)
Theorem chain_correct service method (handler : Context → Req → M W Resp) ctx (req : Req) (s : Limited (Observed W)) :
  no_panic handler req →
  let o := lm_world s in
  let d := RateLimit.Allow (Now o) (default "unknown" (ctx_peer ctx)) (lm_limiter s) in
  if d.2 then
    let '(w1, tid) := trace_id ctx (ob_world o) in
    let '(w2, rid) := drawn 4 w1 in
    let ctx' := WithValue (WithValue ctx TraceIDKey tid) RequestIDKey rid in
    let '(w3, r) := handler ctx' req w2 in
    let took := time_sub (Now w3) (Now w2) in
    TraceIDFromContext ctx' = tid ∧ RequestIDFromContext ctx' = rid ∧
    ∃ m', measured service method (label_of r) took (ob_metrics o) m' ∧
      chain service method handler ctx req s =
        ({| lm_limiter := d.1;
            lm_world := Build_Observed
              (ob_log o ++ [TraceStart tid service method; RequestStart rid method;
                            request_end rid method took r; trace_end tid service method r]) m' w3 |}, r)
  else chain service method handler ctx req s = ({| lm_limiter := d.1; lm_world := o |}, Err rate_limit_error).
Proof.
  intros Hnp o d. unfold chain, UnaryInterceptor. fold o. fold d. destruct d as [l []]; cbn [fst snd]; [|done].
  destruct (trace_id ctx (ob_world o)) as [w1 tid] eqn:Et. destruct (drawn 4 w1) as [w2 rid] eqn:Er.
  set (ctx' := WithValue (WithValue ctx TraceIDKey tid) RequestIDKey rid).
  destruct (handler ctx' req w2) as [w3 r] eqn:Eh. split; [|split].
  { unfold TraceIDFromContext, ctx'. rewrite ctx_Value_WithValue_ne by done. by rewrite ctx_Value_WithValue. }
  { unfold RequestIDFromContext, ctx'. by rewrite ctx_Value_WithValue. }
  assert (quiet_result r) as Hq by (intros msg ->; by apply Hnp in Eh).
  set (measuring := λ ctx req, MetricsInterceptor service ctx req method (λ ctx req, on_world (handler ctx req))).
  set (logging := λ ctx req, LoggingInterceptor ctx req method measuring).
  pose proof (MetricsInterceptor_run service method ctx' req handler
    (Build_Observed ((ob_log o ++ [TraceStart tid service method]) ++ [RequestStart rid method]) (ob_metrics o) w2) w3 r Eh Hq)
    as Em.
  pose proof (λ inner, LoggingInterceptor_run method (WithValue ctx TraceIDKey tid) req inner
    (Build_Observed (ob_log o ++ [TraceStart tid service method]) (ob_metrics o) w1)) as Hl.
  cbn [ob_log ob_metrics ob_world] in Em, Hl. rewrite Er in Hl. specialize (Hl measuring _ _ Em Hq).
  pose proof (λ inner, ServerInterceptor_run service method ctx req inner o) as Hs.
  rewrite Et in Hs. specialize (Hs logging _ _ Hl Hq). rewrite Hs.
  eexists. split; [apply measured_all|]. cbn [ob_log ob_metrics ob_world lift_world fst snd].
  by rewrite <- !app_assoc.
Qed.
End chain.

(** ** A server with one handler *)

#[local] Instance unit_clock : Clock unit := λ _, 0.
#[local] Instance unit_rand : Rand unit := λ n w, (w, replicate n 171).

Definition no_metrics : Metrics :=
  {| ActiveConnections := λ _, 0; RequestsTotal := λ _ _ _, 0; RequestDuration := [] |}.
Definition idle_server : Limited (Observed unit) :=
  {| lm_limiter := server_limiter; lm_world := Build_Observed [] no_metrics tt |}.
Definition traced : Context :=
  {| ctx_incoming := Some {[ "x-trace-id" := ["4bf92f3577b34da6"] ]}; ctx_outgoing := []; ctx_values := [];
     ctx_peer := Some "192.0.2.1:40000" |}.
Definition echo_trace (ctx : Context) (req : unit) : M unit string := ret (TraceIDFromContext ctx).

Lemma chain_correct_witness :
  (chain "config" "GetConfig" echo_trace traced tt idle_server).2 = Ok "4bf92f3577b34da6" ∧
  ob_log (lm_world (chain "config" "GetConfig" echo_trace traced tt idle_server).1) =
    [TraceStart "4bf92f3577b34da6" "config" "GetConfig"; RequestStart "abababab" "GetConfig";
     RequestOK "abababab" "GetConfig" 0; TraceOK "4bf92f3577b34da6" "config" "GetConfig"].
Proof.
  destruct (chain_correct "config" "GetConfig" echo_trace traced tt idle_server ltac:(intros ctx w w' msg [=]))
    as (_ & _ & m' & _ & ->). split; vm_compute; reflexivity.
Defined.

(** ** Reloading *)

Fixpoint last_loaded (l : list signal) (before : Configs.ConfigConfig.Config) : Configs.ConfigConfig.Config :=
  match l with
  | [] => before
  | SIGHUP (Ok c) :: rest => last_loaded rest c
  | SIGHUP (Err _) :: rest => last_loaded rest before
  | _ => before
  end.

(** The network that is served follows the configuration; the network that addresses come from does not. *)
Lemma signals_network l h c :
  ConfigService.networkCIDR h = Configs.ConfigConfig.NetworkCIDR c →
  ConfigService.networkCIDR (signals h l).1 = Configs.ConfigConfig.NetworkCIDR (last_loaded l c) ∧
  ConfigService.allocator (signals h l).1 = ConfigService.allocator h.
Proof.
  revert h c. induction l as [|[[c'|e]| |] l IH]; intros h c Hh; cbn [signals last_loaded]; [done| | |done|done].
  - destruct (IH (ConfigService.ReloadConfig (Configs.ConfigConfig.NetworkCIDR c') (Configs.ConfigConfig.MTU c')
      (Configs.ConfigConfig.DNSServers c') h) c' eq_refl) as [H1 H2]. done.
  - by apply IH.
Qed.
