(* ===== verification/Servers.v ===== *)
(** The main functions of the three services, with the TLS helpers, the health server, the dialling of the identity
    service, and the shutdown.

    A main function runs on a machine ([Boot]) and on the store of its service; logger.Fatalf, which ends the process with
    status 1 and runs none of the deferred calls, is an error. What a server does once it serves is in the handlers'
    files and in Interceptors.v; here is what it was started with, and how it ends. *)

From S2P Require Import Prelude GoInt GoStrings GoNet Redis Grpc Auth Configs Interceptors.
From S2P Require Allocator IdentityStore Identity ConfigService Registry Discovery AgentLoops.

(** Files, certificates (crypto/tls, crypto/x509), sockets, grpc.NewClient and the database's driver *)
Class Boot (W : Type) : Type := {
  Stat : string → W → bool;
  LoadX509KeyPair : string → string → M W unit;
  ReadFile : string → M W string;
  AppendCertsFromPEM : string → bool;
  Listen : string → M W unit;
  NewClientConn : string → bool → M W nat;            (* the target; whether over TLS *)
  Connect : string → M W unit;                        (* sqlx.Connect, which pings *)
  DBPing : M W unit;
}.
#[export] Hint Mode Boot + : typeclass_instances.

(** ** pkg/tlsutil, both for TLS 1.2 or later *)

Section tls.
Context `{Boot W}.

Definition ServerCredentials (certFile keyFile : string) : M W unit :=
  wrap_err (Wrapf "failed to load server cert") (LoadX509KeyPair certFile keyFile).

Definition ClientCredentials (caFile : string) : M W unit :=
  let! caCert := wrap_err (Wrapf "failed to read CA cert") (ReadFile caFile) in
  if AppendCertsFromPEM (W := W) caCert then ret tt else throw (Errorf "failed to parse CA cert").

(** ** pkg/auth: NewClient *)

Record AuthClient : Type := { ac_conn : nat; ac_tls : bool }.

Definition NewAuthClient (identityAddr caFile : string) : M W AuthClient :=
  let! tls := (if decide (caFile = "") then ret false
               else let! _ := wrap_err (Wrapf "failed to load TLS creds") (ClientCredentials caFile) in ret true) in
  let! conn := wrap_err (Wrapf "failed to connect to identity service") (NewClientConn identityAddr tls) in
  ret {| ac_conn := conn; ac_tls := tls |}.

(** ** What the mains share *)

Definition fatal (message : string) : error → error := Wrapf message.

(** The client for token validation: without one the service runs too. *)
Definition auth_client (env : Environ) : M W (option AuthClient) :=
  let? c := NewAuthClient (or_str (env "IDENTITY_ADDR") "localhost:8001") "" in
  ret (match c with Ok c => Some c | Err _ => None end).

(** Whether the server takes TLS connections *)
Definition server_tls (env : Environ) : M W bool := λ w,
  let certFile := or_str (env "TLS_CERT") "../../certs/server-cert.pem" in
  let keyFile := or_str (env "TLS_KEY") "../../certs/server-key.pem" in
  if Stat certFile w
  then (let! _ := wrap_err (fatal "Failed to load TLS") (ServerCredentials certFile keyFile) in ret true) w
  else (w, Ok false).

Definition listen (port : Z) : M W string :=
  let addr := ":" +:+ Itoa port in
  let! _ := wrap_err (fatal ("Failed to listen on " +:+ addr)) (Listen addr) in ret addr.
End tls.

(** A server that takes requests: its address, whether over TLS, what it asks about tokens, its interceptors' limiter, and
    the name its health server answers to *)
Record Server : Type := {
  sv_addr : string;
  sv_tls : bool;
  sv_auth : option AuthClient;
  sv_limiter : RateLimit.Limiter;
  sv_health : string;
}.

Section mains.
Context `{Boot W} `{Net6} `{Redis R}.

Definition on_host {S A} (m : M W A) : M (W * S) A := zoom fst (λ w s, (w, snd s)) m.
Definition on_store {S A} (m : M S A) : M (W * S) A := zoom snd (λ t s, (fst s, t)) m.

Definition loaded {S C} (load : res C) : M S C :=
  match load with Ok c => ret c | Err e => throw (fatal "Failed to load config" e) end.

(** ** services/config *)

Definition config_main (env : Environ) (load : res ConfigConfig.Config) :
    M (W * Allocator.World R) (ConfigService.ConfigHandler * Server) :=
  let! cfg := loaded load in
  let! alloc := wrap_err (fatal "Failed to initialize allocator")
                  (on_store (Allocator.New (ConfigConfig.NetworkCIDR cfg))) in
  let! auth := on_host (auth_client env) in
  let handler := ConfigService.NewConfigHandler alloc (bool_decide (is_Some auth)) (ConfigConfig.NetworkCIDR cfg)
                   (ConfigConfig.MTU cfg) (ConfigConfig.DNSServers cfg) in
  let! tls := on_host (server_tls env) in
  let! addr := on_host (listen (ConfigConfig.GRPCPort cfg)) in
  ret (handler, {| sv_addr := addr; sv_tls := tls; sv_auth := auth; sv_limiter := server_limiter;
                   sv_health := "config" |}).

(** ** services/discovery

    The goroutine of the clean-up makes its ticker after the server has begun to serve. *)

Definition discovery_main (env : Environ) (load : res DiscoveryConfig.Config) :
    M (W * R) (Discovery.DiscoveryHandler * Server) :=
  let! cfg := loaded load in
  let! reg := wrap_err (fatal "Failed to connect to Redis")
                (on_store (Registry.New (DiscoveryConfig.HeartbeatTTL cfg))) in
  let! auth := on_host (auth_client env) in
  let handler := Discovery.NewDiscoveryHandler reg (bool_decide (is_Some auth)) in
  let! tls := on_host (server_tls env) in
  let! addr := on_host (listen (DiscoveryConfig.GRPCPort cfg)) in
  let! _ := AgentLoops.NewTicker (cleanupInterval (DiscoveryConfig.HeartbeatTTL cfg)) 0 in
  ret (handler, {| sv_addr := addr; sv_tls := tls; sv_auth := auth; sv_limiter := server_limiter;
                   sv_health := "discovery" |}).

(** ** services/identity *)

(** storage.New *)
Definition NewStorage (databaseURL : string) : M W unit :=
  let! _ := wrap_err (Wrapf "failed to connect to database") (Connect databaseURL) in
  wrap_err (Wrapf "failed to ping database") DBPing.

Definition identity_main (env : Environ) (tz : Z) (load : res IdentityConfig.Config) :
    M W (Identity.IdentityService * Server) :=
  let! cfg := loaded load in
  let! _ := wrap_err (fatal "Failed to connect to database") (NewStorage (IdentityConfig.DatabaseURL cfg)) in
  let service := Identity.New (IdentityConfig.JWTSecret cfg) (IdentityConfig.NetworkSecret cfg)
                   (IdentityConfig.TokenDuration cfg) tz in
  let! tls := server_tls env in
  let! addr := listen (IdentityConfig.GRPCPort cfg) in
  ret (service, {| sv_addr := addr; sv_tls := tls; sv_auth := None; sv_limiter := server_limiter;
                   sv_health := "identity" |}).
End mains.

(** ** While they serve: the metrics endpoint *)

Inductive service : Type := identity | config | discovery.

Definition metrics_addr (env : Environ) (s : service) : string :=
  match s with
  | identity => ":9090"
  | config => ":9092"
  | discovery => ":" +:+ or_str (env "METRICS_PORT") "9091"
  end.

(** What an error of http.ListenAndServe does to the process: [Some message] when it is fatal *)
Definition metrics_failed (s : service) : option string :=
  match s with discovery => None | _ => Some "Failed to start metrics server" end.

(** ** How they end *)

Definition shutdown_timeout : Z := 10 * Second.

(** The wait for GracefulStop, which would take [graceful] ([None]: it never returns): how long it lasts and whether the
    server is stopped by force. When both come at once Go takes either; here it is the timeout. *)
Definition stop_server (graceful : option Z) : Z * bool :=
  match graceful with
  | Some d => if d <? shutdown_timeout then (d, false) else (shutdown_timeout, true)
  | None => (shutdown_timeout, true)
  end.

(** The identity service first deletes the expired tokens, in a call that may take 5 seconds. *)
Definition identity_stop `{Identity.JWT} (svc : Identity.IdentityService) (graceful : option Z) :
    M Identity.World (Z * bool) :=
  let? _ := Identity.CleanupExpiredTokens svc in ret (stop_server graceful).

(** ** What they were started with *)

Section started.
Context `{Boot W} `{Net6} `{Redis R}.

Lemma on_host_ok {S A} (m : M W A) (s s' : W * S) a :
  on_host m s = (s', Ok a) → m s.1 = (s'.1, Ok a) ∧ s'.2 = s.2.
Proof. unfold on_host, zoom. destruct (m s.1) as [w r]. by intros [= <- ->]. Qed.

Lemma on_store_ok {S A} (m : M S A) (s s' : W * S) a :
  on_store m s = (s', Ok a) → m s.2 = (s'.2, Ok a) ∧ s'.1 = s.1.
Proof. unfold on_store, zoom. destruct (m s.2) as [w r]. by intros [= <- ->]. Qed.

Lemma loaded_ok {S C} (load : res C) (s s' : S) c : loaded load s = (s', Ok c) → load = Ok c ∧ s' = s.
Proof. destruct load; [by intros [= <- <-]|done]. Qed.

Lemma auth_client_plain env (w w' : W) ac : auth_client env w = (w', Ok (Some ac)) → ac_tls ac = false.
Proof.
  unfold auth_client. intros (w1 & [c|e] & Hc & [= <- <-])%handle_inv. unfold NewAuthClient in Hc.
  apply bind_inv_ok in Hc as (w2 & t & Ht & Hc). rewrite decide_True in Ht by done. injection Ht as <- <-.
  by apply bind_inv_ok in Hc as (w3 & conn & _ & [= _ <-]).
Qed.

Lemma server_tls_found env (w w' : W) tls : server_tls env w = (w', Ok tls) →
  tls = Stat (or_str (env "TLS_CERT") "../../certs/server-cert.pem") w.
Proof.
  unfold server_tls. cbv zeta. destruct (Stat _ w); [|by intros [= <- <-]].
  by intros (w1 & u & _ & [= <- <-])%bind_inv_ok.
Qed.

(** What a config service that serves was started with *)
Lemma config_main_ok env load (s s' : W * Allocator.World R) h sv :
  config_main env load s = (s', Ok (h, sv)) →
  ∃ c w1 t1 w2, load = Ok c ∧
    Allocator.New (ConfigConfig.NetworkCIDR c) s.2 = (t1, Ok (ConfigService.allocator h)) ∧
    auth_client env s.1 = (w1, Ok (sv_auth sv)) ∧
    server_tls env w1 = (w2, Ok (sv_tls sv)) ∧
    h = ConfigService.NewConfigHandler (ConfigService.allocator h) (bool_decide (is_Some (sv_auth sv)))
          (ConfigConfig.NetworkCIDR c) (ConfigConfig.MTU c) (ConfigConfig.DNSServers c).
Proof.
  intros (s1 & c & [-> ->]%loaded_ok & Hm)%bind_inv_ok.
  apply bind_inv_ok in Hm as (s2 & al & Ha%wrap_ok_inv%on_store_ok & Hm).
  apply bind_inv_ok in Hm as (s3 & ac & Hc%on_host_ok & Hm).
  apply bind_inv_ok in Hm as (s4 & tls & Ht%on_host_ok & Hm).
  apply bind_inv_ok in Hm as (s5 & addr & _ & [= _ <- <-]).
  destruct Ha as [Ha Hw1], Hc as [Hc _], Ht as [Ht _]. rewrite Hw1 in Hc.
  exists c, s3.1, s2.2, s4.1. done.
Qed.

Lemma discovery_main_ok env load (s s' : W * R) h sv :
  discovery_main env load s = (s', Ok (h, sv)) →
  ∃ c w1 w2, load = Ok c ∧ 0 < cleanupInterval (DiscoveryConfig.HeartbeatTTL c) ∧
    Registry.ttl (Discovery.registry h) = wrap64 (DiscoveryConfig.HeartbeatTTL c * Second) ∧
    auth_client env s.1 = (w1, Ok (sv_auth sv)) ∧
    server_tls env w1 = (w2, Ok (sv_tls sv)) ∧
    Discovery.authClient h = bool_decide (is_Some (sv_auth sv)).
Proof.
  intros (s1 & c & [-> ->]%loaded_ok & Hm)%bind_inv_ok.
  apply bind_inv_ok in Hm as (s2 & reg & Ha%wrap_ok_inv%on_store_ok & Hm).
  apply bind_inv_ok in Hm as (s3 & ac & Hc%on_host_ok & Hm).
  apply bind_inv_ok in Hm as (s4 & tls & Ht%on_host_ok & Hm).
  apply bind_inv_ok in Hm as (s5 & addr & _ & Hm).
  apply bind_inv_ok in Hm as (s6 & tk & Hk & [= _ <- <-]).
  destruct Ha as [Ha Hw1], Hc as [Hc _], Ht as [Ht _]. rewrite Hw1 in Hc.
  unfold AgentLoops.NewTicker in Hk. case_bool; [done|].
  unfold Registry.New in Ha. apply bind_inv_ok in Ha as (t1 & u & _ & [= _ <-]).
  exists c, s3.1, s4.1. by split_and!.
Qed.

(** The config service serves only a network that can be parsed; its allocator is that network's, and what it tells its
    clients is the network that it allocates from. *)
Theorem config_serves_its_network env load (s s' : W * Allocator.World R) h sv :
  config_main env load s = (s', Ok (h, sv)) →
  ∃ net, ParseCIDR (ConfigService.networkCIDR h) = Some net ∧
    ConfigService.allocator h = {| Allocator.network := net; Allocator.gateway := Allocator.set_last (net_IP net) 1 |} ∧
    ConfigService.configVersion h = 1.
Proof.
  intros (c & w1 & t1 & w2 & _ & Ha & _ & _ & ->)%config_main_ok. unfold Allocator.New in Ha.
  apply bind_inv_ok in Ha as (t2 & u & _ & Ha). cbn [ConfigService.networkCIDR ConfigService.NewConfigHandler].
  destruct (ParseCIDR (ConfigConfig.NetworkCIDR c)) as [net|]; [|done]. exists net. split; [done|].
  cbn [ConfigService.allocator ConfigService.NewConfigHandler] in *. by injection Ha as _ <-.
Qed.
End started.

(** ** TLS between the services *)

Section lockout.
Context `{Net6} `{Redis R} `{T : TokenService A}.

(** Every question about a token fails, and leaves the identity service alone. *)
Definition unanswered : Prop := ∀ ctx token (a : A), ∃ e, rpc_ValidateToken ctx token a = (a, Err e).

Lemma unanswered_token ctx token (a : A) : unanswered → ∃ e, ValidateToken ctx token a = (a, Err e).
Proof. intros Hu. destruct (Hu ctx token a) as [e E]. eexists. unfold ValidateToken, bind, wrap_err. by rewrite E. Qed.

Lemma config_guard {B} ctx token (k : M (ConfigService.State R A) B) (s : ConfigService.State R A) :
  unanswered → ConfigService.authClient (ConfigService.st_handler s) = true →
  ∃ e, (let! _ := wrap_err (StatusErrf Unauthenticated "auth failed") (ConfigService.resolveNodeID ctx token) in k) s =
    (s, Err e).
Proof.
  intros Hu Ha. destruct (unanswered_token ctx token (ConfigService.st_auth s) Hu) as [e E]. eexists.
  assert (ConfigService.resolveNodeID ctx token s = (s, Err e)) as Er.
  { unfold ConfigService.resolveNodeID. rewrite (bind_ok _ _ s s (ConfigService.st_handler s) eq_refl), Ha.
    unfold ConfigService.in_auth, zoom. rewrite E. by destruct s. }
  apply bind_err. unfold wrap_err. by rewrite Er.
Qed.

Lemma discovery_guard {B} h ctx token (k : string → M (Discovery.State R A) B) (s : Discovery.State R A) :
  unanswered → Discovery.authClient h = true →
  ∃ e, (let! n := wrap_err (StatusErrf Unauthenticated "auth failed") (Discovery.resolveNodeID h ctx token) in k n) s =
    (s, Err e).
Proof.
  intros Hu Ha. destruct (unanswered_token ctx token (Discovery.st_auth s) Hu) as [e E]. eexists.
  assert (Discovery.resolveNodeID h ctx token s = (s, Err e)) as Er.
  { unfold Discovery.resolveNodeID. rewrite Ha. unfold Discovery.in_auth, zoom. rewrite E. by destruct s. }
  apply bind_err. unfold wrap_err. by rewrite Er.
Qed.

(** Every call with a token is refused and changes nothing. *)
Definition config_refuses `{Clock R} (h : ConfigService.ConfigHandler) : Prop :=
  ∀ ctx (s : ConfigService.State R A), ConfigService.st_handler s = h →
    (∀ req, ∃ e, ConfigService.GetConfig ctx req s = (s, Err e)) ∧
    (∀ req, ∃ e, ConfigService.RequestIP ctx req s = (s, Err e)) ∧
    (∀ req, ∃ e, ConfigService.ReleaseIP ctx req s = (s, Err e)).

Definition discovery_refuses `{Clock R} `{Registry.PeerJSON} (h : Discovery.DiscoveryHandler) : Prop :=
  ∀ ctx (s : Discovery.State R A),
    (∀ req, ∃ e, Discovery.RegisterPeer h ctx req s = (s, Err e)) ∧
    (∀ req, ∃ e, Discovery.ListPeers h ctx req s = (s, Err e)) ∧
    (∀ req, ∃ e, Discovery.Heartbeat h ctx req s = (s, Err e)).

Lemma unanswered_config `{Clock R} h : unanswered → ConfigService.authClient h = true → config_refuses h.
Proof.
  intros Hu Ha ctx s Hs. rewrite <- Hs in Ha.
  split_and!; intros req; unfold ConfigService.GetConfig, ConfigService.RequestIP, ConfigService.ReleaseIP;
    repeat (case_decide; [by eexists|]); by apply config_guard.
Qed.

Lemma unanswered_discovery `{Clock R} `{Registry.PeerJSON} h :
  unanswered → Discovery.authClient h = true → discovery_refuses h.
Proof.
  intros Hu Ha ctx s. split_and!; intros req; unfold Discovery.RegisterPeer, Discovery.ListPeers, Discovery.Heartbeat;
    cbv zeta; repeat (case_decide; [by eexists|]); by apply discovery_guard.
Qed.
End lockout.

(** C39: Where the identity service found a certificate and serves over TLS, the config and the discovery services refuse
    every call that carries a token, GetConfig, RequestIP, ReleaseIP, RegisterPeer, ListPeers and Heartbeat, and change
    nothing: their main functions dial the identity service in plain text, whatever the environment says. [tok ac] is what the
    identity service answers through the client [ac]; the hypothesis on gRPC is that a client that does not use TLS exactly
    when the server does gets no answer. *)
Theorem tls_locks_services_out `{Boot W} `{Net6} `{Redis R} `{Clock R} `{Registry.PeerJSON} {A : Type}
    (tok : AuthClient → TokenService A)
    envc loadc (mc mc' : W * Allocator.World R) hc svc_ acc envd loadd (md md' : W * R) hd svd acd envi tz loadi (mi mi' : W)
    ids svi :
  config_main envc loadc mc = (mc', Ok (hc, svc_)) → sv_auth svc_ = Some acc →
  discovery_main envd loadd md = (md', Ok (hd, svd)) → sv_auth svd = Some acd →
  identity_main envi tz loadi mi = (mi', Ok (ids, svi)) → sv_tls svi = true →
  (∀ ac, ac_tls ac ≠ sv_tls svi → unanswered (T := tok ac)) →
  config_refuses (R := R) (T := tok acc) hc ∧ discovery_refuses (R := R) (T := tok acd) hd.
Proof.
  intros (c & w1 & t1 & w2 & _ & _ & Hac & _ & ->)%config_main_ok Hsc
    (d & w3 & w4 & _ & _ & _ & Had & _ & Hauth)%discovery_main_ok Hsd _ Htls Hlaw.
  rewrite Hsc in Hac. rewrite Hsd in Had. apply auth_client_plain in Hac, Had.
  split; [apply unanswered_config|apply unanswered_discovery].
  - apply Hlaw. congruence.
  - by rewrite Hsc.
  - apply Hlaw. congruence.
  - rewrite Hauth, Hsd. done.
Qed.

(** ** Without a client of the identity service *)

(** A config or discovery service whose client of the identity service could not be made serves without it, and takes
    every text of at least eight bytes as the token of the node whose id the first eight are. *)
Theorem undialled_auth_fails_open `{Boot W} `{Net6} `{Redis R} `{Clock R} `{Registry.PeerJSON} `{TokenService A}
    env loadc (mc mc' : W * Allocator.World R) hc svc_ loadd (md md' : W * R) hd svd token :
  (∀ w : W, ∃ w' e, NewClientConn (or_str (env "IDENTITY_ADDR") "localhost:8001") false w = (w', Err e)) →
  config_main env loadc mc = (mc', Ok (hc, svc_)) → discovery_main env loadd md = (md', Ok (hd, svd)) →
  8 ≤ len token →
  (∀ ctx (s : ConfigService.State R A), ConfigService.st_handler s = hc →
     ConfigService.resolveNodeID ctx token s = (s, Ok (take_str 8 token))) ∧
  (∀ ctx (s : Discovery.State R A), Discovery.resolveNodeID hd ctx token s = (s, Ok (take_str 8 token))).
Proof.
  intros Hdial (c & w1 & t1 & w2 & _ & _ & Hac & _ & ->)%config_main_ok
    (d & w3 & w4 & _ & _ & _ & Had & _ & Hauth)%discovery_main_ok Hlen.
  assert (∀ (w w' : W) o, auth_client env w = (w', Ok o) → o = None) as Hnone.
  { intros w w' o (w5 & x & Hx & [= _ <-])%handle_inv. unfold NewAuthClient in Hx. rewrite decide_True in Hx by done.
    rewrite (bind_ok _ _ w w false eq_refl) in Hx. destruct (Hdial w) as (w6 & e & E).
    unfold bind, wrap_err in Hx. rewrite E in Hx. by injection Hx as _ <-. }
  apply Hnone in Hac, Had. rewrite Had in Hauth. split.
  - intros ctx s Hs. unfold ConfigService.resolveNodeID.
    rewrite (bind_ok _ _ s s (ConfigService.st_handler s) eq_refl), Hs, Hac. simpl. case_bool; [lia|done].
  - intros ctx s. unfold Discovery.resolveNodeID. rewrite Hauth. simpl. case_bool; [lia|done].
Qed.

(** ** Witnesses *)

(** A machine with these files, on which these targets can be dialled *)
Record Box : Type := { bx_files : list string; bx_targets : list string }.

#[local] Instance box_boot : Boot Box := {|
  Stat path b := bool_decide (path ∈ bx_files b);
  LoadX509KeyPair cert key := λ b,
    (b, if bool_decide (cert ∈ bx_files b ∧ key ∈ bx_files b) then Ok tt else Err (LibErr "no such file"));
  ReadFile path := λ b, (b, if bool_decide (path ∈ bx_files b) then Ok "PEM" else Err (LibErr "no such file"));
  AppendCertsFromPEM _ := true;
  Listen _ := ret tt;
  NewClientConn target tls := λ b,
    (b, if bool_decide (target ∈ bx_targets b) then Ok 0%nat else Err (LibErr "invalid target"));
  Connect _ := ret tt;
  DBPing := ret tt;
|}.

Definition certified : Box :=
  {| bx_files := ["../../certs/server-cert.pem"; "../../certs/server-key.pem"]; bx_targets := ["localhost:8001"] |}.
Definition cut_off : Box := {| bx_files := []; bx_targets := [] |}.

#[local] Existing Instance no_ip6.
#[local] Existing Instance Registry.bits_json.
Definition no_env : Environ := λ _, "".
Definition config0 : ConfigConfig.Config := ConfigConfig.setDefaults
  {| ConfigConfig.GRPCPort := 0; ConfigConfig.NetworkCIDR := ""; ConfigConfig.MTU := 0; ConfigConfig.DNSServers := [];
     ConfigConfig.RedisURL := ""; ConfigConfig.LogLevel := "" |}.
Definition discovery0 : DiscoveryConfig.Config := DiscoveryConfig.setDefaults
  {| DiscoveryConfig.GRPCPort := 0; DiscoveryConfig.RedisURL := ""; DiscoveryConfig.LogLevel := "";
     DiscoveryConfig.HeartbeatTTL := 0 |}.
Definition identity0 : IdentityConfig.Config :=
  {| IdentityConfig.GRPCPort := 8001; IdentityConfig.DatabaseURL := "postgres://db"; IdentityConfig.LogLevel := "";
     IdentityConfig.JWTSecret := "jwt"; IdentityConfig.TokenDuration := 24; IdentityConfig.NetworkSecret := "net" |}.

Definition booted_config (b : Box) :=
  config_main no_env (Ok config0) (b, Allocator.Build_World empty_mem 0).
Definition booted_discovery (b : Box) := discovery_main no_env (Ok discovery0) (b, empty_mem).
Definition booted_identity (b : Box) := identity_main no_env 0 (Ok identity0) b.

(** An identity service asked in plain text, when it takes TLS connections only *)
Definition mute : TokenService unit :=
  {| rpc_ValidateToken _ _ := throw (StatusErr Unavailable "connection closed"); token_of _ _ _ := False |}.

(** The same asked over TLS: the answer is [node] *)
Definition talking (node : string) : TokenService unit :=
  {| rpc_ValidateToken _ _ := ret {| Valid := true; NodeId := node |}; token_of _ _ n := n = node |}.
Definition tls_only (ac : AuthClient) : TokenService unit := if ac_tls ac then talking "id-1" else mute.

Definition handler_of (b : Box) : ConfigService.ConfigHandler :=
  match (booted_config b).2 with
  | Ok (h, _) => h
  | Err _ => ConfigService.NewConfigHandler Allocator.default_allocator true "" 0 []
  end.
Definition config_server (b : Box) : Server :=
  match (booted_config b).2 with
  | Ok (_, sv) => sv
  | Err _ => {| sv_addr := ""; sv_tls := false; sv_auth := None; sv_limiter := server_limiter; sv_health := "" |}
  end.
Definition discovery_handler : Discovery.DiscoveryHandler := Discovery.NewDiscoveryHandler Registry.reg30 true.

Lemma booted_config_ok : config_main no_env (Ok config0) (certified, Allocator.Build_World empty_mem 0) =
  ((booted_config certified).1, Ok (handler_of certified, config_server certified)).
Proof. apply run_snd. vm_compute. reflexivity. Qed.

Definition plain_client : AuthClient := {| ac_conn := 0; ac_tls := false |}.
Definition server_of_box (name addr : string) (auth : option AuthClient) (tls : bool) : Server :=
  {| sv_addr := addr; sv_tls := tls; sv_auth := auth; sv_limiter := server_limiter; sv_health := name |}.

Lemma tls_locks_services_out_witness :
  sv_tls (config_server certified) = true ∧
  ∀ ctx (s : ConfigService.State Mem unit) req, ConfigService.st_handler s = handler_of certified →
    ∃ e, ConfigService.RequestIP (H1 := mute) ctx req s = (s, Err e).
Proof.
  split; [vm_compute; reflexivity|]. intros ctx s req Hs.
  destruct (tls_locks_services_out tls_only no_env (Ok config0) (certified, Allocator.Build_World empty_mem 0)
    (booted_config certified).1 (handler_of certified) (config_server certified) plain_client
    no_env (Ok discovery0) (certified, empty_mem) (booted_discovery certified).1 discovery_handler
    (server_of_box "discovery" ":8002" (Some plain_client) true) plain_client
    no_env 0 (Ok identity0) certified (booted_identity certified).1 (Identity.New "jwt" "net" 24 0)
    (server_of_box "identity" ":8001" None true)) as [Hc _].
  - exact booted_config_ok.
  - vm_compute. reflexivity.
  - apply run_snd. vm_compute. reflexivity.
  - reflexivity.
  - apply run_snd. vm_compute. reflexivity.
  - reflexivity.
  - intros ac Hac ctx' token a. unfold tls_only. rewrite (not_true_is_false _ Hac). by eexists.
  - destruct (Hc ctx s Hs) as (_ & Hr & _). exact (Hr req).
Defined.

(** IDENTITY_ADDR is no target that grpc.NewClient takes. *)
Definition misaddressed : Boot Box := {|
  Stat := Stat; LoadX509KeyPair := LoadX509KeyPair; ReadFile := ReadFile;
  AppendCertsFromPEM := AppendCertsFromPEM (W := Box); Listen := Listen; Connect := Connect; DBPing := DBPing;
  NewClientConn _ _ := throw (LibErr "invalid target");
|}.

Definition open_config := config_main (H := misaddressed) no_env (Ok config0) (certified, Allocator.Build_World empty_mem 0).
Definition open_discovery := discovery_main (H := misaddressed) no_env (Ok discovery0) (certified, empty_mem).
Definition open_handler : ConfigService.ConfigHandler :=
  match open_config.2 with Ok (h, _) => h | Err _ => handler_of certified end.

(** Any text of eight characters is taken for a token, of the node that it begins with. *)
Lemma undialled_auth_fails_open_witness : 8 ≤ len "anything at all" ∧
  ∀ ctx (s : Discovery.State Mem unit),
    Discovery.resolveNodeID (H2 := mute) (Discovery.NewDiscoveryHandler Registry.reg30 false) ctx "anything at all" s =
      (s, Ok "anything").
Proof.
  split; [vm_compute; discriminate|]. intros ctx s.
  destruct (undialled_auth_fails_open (H := misaddressed) (H4 := mute) no_env (Ok config0)
    (certified, Allocator.Build_World empty_mem 0) open_config.1 open_handler
    (server_of_box "config" ":8003" None true) (Ok discovery0) (certified, empty_mem)
    open_discovery.1 (Discovery.NewDiscoveryHandler Registry.reg30 false)
    (server_of_box "discovery" ":8002" None true) "anything at all") as [_ Hd].
  - intros w. by eexists _, _.
  - apply run_snd. vm_compute. reflexivity.
  - apply run_snd. vm_compute. reflexivity.
  - vm_compute. discriminate.
  - exact (Hd ctx s).
Defined.
