(* ===== verification/Restarts.v ===== *)
(** The services over their whole life: the calls of Backend.v, and the processes that end and are started again by the
    main functions of Servers.v, as often as one likes, while PostgreSQL and Redis stay. *)

From S2P Require Import Prelude GoInt GoStrings GoNet Redis Grpc Auth Configs Backend Servers.
From S2P Require Allocator IdentityStore Identity ConfigService Registry Discovery AgentLoops Deployment DeploymentLab.

(** ** What a start does to Redis: it asks whether it is there *)

Section start.
Context `{Boot W} `{Net6} `{RedisLaws R}.

(** Time passes, and nothing changes. *)
Definition idle : relation R := only (λ _, False) (λ _, False).
#[local] Instance idle_preorder : PreOrder idle.
Proof. apply only_preorder. Qed.

Lemma idle_quiet s s' : idle s s' → quiet s s'.
Proof. intros [Ht He Hs]. split; [done|]. split; intros k; [rewrite He|rewrite Hs]; auto. Qed.

Lemma Ping_idle : runs idle (Redis.Ping (R := R)).
Proof. intros s s' r [Hd|(e & _ & Hd)]%unit_call; by eapply did_only; [|exact Hd]. Qed.

Lemma on_host_runs {S A} (Q : relation S) `{!PreOrder Q} (m : M W A) : runs (over snd Q) (on_host m).
Proof. intros s s' r. unfold on_host, zoom, over. destruct (m s.1). intros [= <- <-]. simpl. reflexivity. Qed.

Lemma on_store_runs {S A} (Q : relation S) (m : M S A) : runs Q m → runs (over (snd (A := W)) Q) (on_store m).
Proof. apply runs_zoom. done. Qed.

Lemma loaded_runs {S C} (Q : relation S) `{!PreOrder Q} (load : res C) : runs Q (loaded (S := S) load).
Proof. unfold loaded. runs. Qed.

Lemma config_main_idle env load : runs (over (λ s : W * Allocator.World R, Allocator.redis s.2) idle) (config_main env load).
Proof.
  change (over _ idle) with (over (snd (A := W)) (over (Allocator.redis (R := R)) idle)).
  unfold config_main. runs; try (apply loaded_runs, _); try apply (on_host_runs _).
  apply on_store_runs. unfold Allocator.New. runs. eapply runs_zoom; [|exact Ping_idle]. done.
Qed.

Lemma discovery_main_idle env load : runs (over (snd (A := W)) idle) (discovery_main env load).
Proof.
  unfold discovery_main. runs; try (apply loaded_runs, _); try apply (on_host_runs _).
  - apply on_store_runs. unfold Registry.New. runs. exact Ping_idle.
  - unfold AgentLoops.NewTicker. runs.
Qed.
End start.

(** ** Lives *)

(** The backend while [n] is the network in the config service's file; [spoilt] is as in Backend.v. A process starts with its gauge at 0; what the others
    keep stays. The identity and the discovery service may be started with other settings: [svc], [dh] vary. *)
Inductive life `{Boot W} `{Identity.JWT} `{Registry.PeerJSON} `{Net6} `{Redis R} `{Clock R} (spoilt : gset string)
    (n : IPNet) : Backend R → Backend R → Prop :=
| life_step svc dh l b b' : step svc dh spoilt l b b' → life spoilt n b b'
| life_config env cfg (w w' : W) (b : Backend R) a h sv :
    ParseCIDR (ConfigConfig.NetworkCIDR cfg) = Some n →
    config_main env (Ok cfg) (w, Allocator.Build_World (b_redis b) 0) = ((w', a), Ok (h, sv)) →
    life spoilt n b (Build_Backend (b_identity b) h (Allocator.redis a) (Allocator.AllocatedIPs a) (b_active b))
| life_config_failed env load (w w' : W) b a e :
    config_main env load (w, Allocator.Build_World (b_redis b) 0) = ((w', a), Err e) →
    life spoilt n b (set_redis (Allocator.redis a) b)
| life_discovery env load (w w' : W) b s r :
    discovery_main env load (w, b_redis b) = ((w', s), r) → life spoilt n b (set_redis s b).

Section lives.
Context `{Boot W} `{Identity.JWT} `{Registry.PeerJSON} `{Net6} `{RedisLaws R} `{Clock R}.
Context (spoilt : gset string) (n : IPNet) (ones : nat) (Hn : cidr_net ones n) (Hones : (1 ≤ ones)%nat).

(** A start changes no lease and no row, and keeps what is good about the backend. *)
Lemma start_good (b : Backend R) h (s : R) allocated active :
  idle (b_redis b) s → ConfigService.allocator h = Allocator.allocator_of n → good spoilt n ones b →
  good spoilt n ones (Build_Backend (b_identity b) h s allocated active).
Proof.
  intros Hi Hh [Hdb _ (t & Hs & Ht)]. split; [done..|]. exists t. split; [|done].
  by eapply Allocator.sees_quiet, Hs; apply idle_quiet.
Qed.

Lemma start_leased (b : Backend R) (s : R) node ip : good spoilt n ones b → idle (b_redis b) s →
  leased b node ip ↔ leased (set_redis s b) node ip.
Proof.
  intros [_ _ (t & Hs & _)] Hi. pose proof (Allocator.sees_quiet _ _ _ (idle_quiet _ _ Hi) Hs) as Hs'.
  unfold leased. simpl. rewrite (proj1 Hs), (proj1 Hs'). done.
Qed.

Lemma config_main_allocator env cfg (s s' : W * Allocator.World R) h sv :
  ParseCIDR (ConfigConfig.NetworkCIDR cfg) = Some n → config_main env (Ok cfg) s = (s', Ok (h, sv)) →
  ConfigService.allocator h = Allocator.allocator_of n.
Proof.
  intros Hp (c & w1 & t1 & w2 & [= <-] & Ha & _)%config_main_ok. unfold Allocator.New in Ha.
  apply bind_inv_ok in Ha as (t2 & u & _ & Ha). rewrite Hp in Ha. by injection Ha as _ <-.
Qed.

Lemma life_good (b b' : Backend R) : life (W := W) spoilt n b b' → good spoilt n ones b → good spoilt n ones b'.
Proof.
  intros [svc dh l c c' Hs|env cfg w w' c a h sv Hp Hm|env load w w' c a e Hm|env load w w' c s r Hm] Hg.
  - by eapply step_effect.
  - apply config_main_idle in Hm as Hi. apply start_good; [exact Hi| |done]. by eapply config_main_allocator.
  - apply config_main_idle in Hm. destruct c. by apply start_good; [exact Hm|apply Hg|].
  - apply discovery_main_idle in Hm. destruct c. by apply start_good; [exact Hm|apply Hg|].
Qed.

(** C20: The services may be stopped and started as often as one likes, and starts may fail, with any calls, failing or not,
    reloads, clean-ups and waits in between. As long as the config service's file names the same network: no two nodes
    ever hold the same address unless it was spoilt, that is, released at some time by a node while another one held it, or by
    a release that failed; every address held lies in the network and is not the gateway; and nodes and public keys
    correspond one to one. *)
Theorem restarts_keep_leases (b b' : Backend R) :
  set_up n b → rtc (life (W := W) spoilt n) b b' →
  (∀ n1 n2 ip, leased b' n1 ip → leased b' n2 ip → n1 = n2 ∨ ip ∈ spoilt) ∧
  (∀ node ip, leased b' node ip →
     ip ≠ Allocator.Gateway (Allocator.allocator_of n) ∧ ∃ x, ip = IP_String (ip4 x) ∧ Contains n (ip4 x) = true) ∧
  (∀ n1 k1 n2 k2, registered b' n1 k1 → registered b' n2 k2 → n1 = n2 ↔ k1 = k2).
Proof.
  intros Hb Hr. apply (set_up_good spoilt n ones) in Hb.
  assert (good spoilt n ones b') as Hg by (induction Hr as [|b1 b2 b3 Hs _ IH]; [done|apply IH; by eapply life_good]).
  by apply (good_says spoilt n ones).
Qed.

(** A restart of the config service loses no lease, and the new process allocates from the same network. *)
Theorem config_restart_keeps_leases env cfg (w w' : W) (b : Backend R) a h sv :
  good spoilt n ones b → ParseCIDR (ConfigConfig.NetworkCIDR cfg) = Some n →
  config_main env (Ok cfg) (w, Allocator.Build_World (b_redis b) 0) = ((w', a), Ok (h, sv)) →
  let b' := Build_Backend (b_identity b) h (Allocator.redis a) (Allocator.AllocatedIPs a) (b_active b) in
  good spoilt n ones b' ∧ ∀ node ip, leased b node ip ↔ leased b' node ip.
Proof.
  intros Hg Hp Hm b'. split; [eapply life_good, Hg; by eapply life_config|]. intros node ip.
  apply config_main_idle in Hm. by apply (start_leased b (Allocator.redis a)).
Qed.
End lives.

(** ** Witness: the config service is started again while the first agent of DeploymentLab.v holds an address *)

#[local] Existing Instance Servers.box_boot.
#[local] Existing Instance no_ip6.
#[local] Existing Instance Registry.bits_json.
#[local] Existing Instance Identity.plain_jwt.

Definition running : Backend Mem := Deployment.bk DeploymentLab.t_backend DeploymentLab.first.
Definition again := config_main no_env (Ok config0) (certified, Allocator.Build_World (b_redis running) 0).
Definition again_handler : ConfigService.ConfigHandler :=
  match again.2 with Ok (h, _) => h | Err _ => b_config running end.
Definition restarted : Backend Mem :=
  Build_Backend (b_identity running) again_handler (Allocator.redis again.1.2) (Allocator.AllocatedIPs again.1.2)
    (b_active running).

Lemma again_run : config_main no_env (Ok config0) (certified, Allocator.Build_World (b_redis running) 0) =
  ((again.1.1, again.1.2), Ok (again_handler, config_server certified)).
Proof. vm_compute. reflexivity. Qed.

Lemma running_life : rtc (life (W := Box) ∅ Allocator.default_net) DeploymentLab.site_backend running.
Proof. eapply rtc_subrel; [|exact DeploymentLab.first_steps]. intros b b' (l & Hs). by eapply life_step. Qed.

Lemma restart_life : life (W := Box) ∅ Allocator.default_net running restarted.
Proof.
  exact (life_config ∅ Allocator.default_net no_env config0 certified again.1.1 running again.1.2 again_handler
    (config_server certified) Allocator.default_net_parsed again_run).
Qed.

Lemma still_leased : leased restarted "id-1" "10.8.0.2".
Proof. eexists. vm_compute. reflexivity. Qed.

Lemma restarts_keep_leases_witness :
  leased restarted "id-1" "10.8.0.2" ∧ ∀ node, leased restarted node "10.8.0.2" → node = "id-1".
Proof.
  split; [exact still_leased|]. intros node Hnode.
  destruct (restarts_keep_leases (W := Box) ∅ Allocator.default_net 16 Allocator.default_net_cidr ltac:(lia)
    DeploymentLab.site_backend restarted DeploymentLab.site_set_up (rtc_r _ _ _ running_life restart_life)) as (Hu & _).
  destruct (Hu _ _ _ Hnode still_leased) as [Heq|Hx]; [exact Heq|by apply not_elem_of_empty in Hx].
Defined.
