(* ===== verification/P2PHost.v ===== *)
(** services/agent/internal/p2p/host.go, and the bridge of Bridge.v on top of it: what is behind the interface [P2P] that
    the agent is written against.

    libp2p and the sockets are the class [Libp2p], the part of the process that holds the bridge is the class [Bridged]. The
    instance [host_p2p] implements Agent.P2P with the operations of host.go and Bridge.v; the theorems
    are about an agent on it. *)

From S2P Require Import Prelude GoInt GoStrings Client Agent AgentLab.
From S2P Require Bridge WireGuard CircuitBreaker Discovery.

(** What ping.Ping sends on its channel *)
Record Result : Type := { RTT : Z; ping_Error : option error }.

(** libp2p and net.ListenUDP. [Ping] is one ping and what a receive from its channel finds: a result, or nothing, when
    the channel was closed without one, as ping.Ping does when its context ends. *)
Class Libp2p (W : Type) : Type := {
  libp2p_New : string → M W unit;
  host_ID : W → string;
  ID_String : string → string;
  host_Addrs : W → list string;
  host_Connect : AddrInfo → M W unit;
  Ping : string → W → W * option Result;
  host_NewStream : string → M W Bridge.Stream;
  SetStreamHandler : M W unit;
  host_Close : M W unit;
  NewMultiaddr : string → res string;
  AddrInfoFromP2pAddr : string → res AddrInfo;
  ListenUDP : Z → W → W * bool;
  go : M W unit → M W unit;
}.
#[export] Hint Mode Libp2p + : typeclass_instances.

(** The bridge that the agent's process holds *)
Class Bridged (W : Type) : Type := { bridge_of : W → Bridge.Bridge; set_bridge : Bridge.Bridge → W → W }.
#[export] Hint Mode Bridged + : typeclass_instances.

(** ** host.go *)

Section host.
Context `{Libp2p W}.

Definition New (listenPort : Z) : M W unit :=
  wrap_err (Wrapf "failed to create libp2p host") (libp2p_New ("/ip4/0.0.0.0/tcp/" +:+ Itoa listenPort)).

Definition PeerID (w : W) : string := ID_String (W := W) (host_ID w).

Definition Multiaddrs (w : W) : list string := (λ addr, addr +:+ "/p2p/" +:+ PeerID w) <$> host_Addrs w.

Definition Close : M W unit := host_Close.

Definition GetPeerInfo (addrStr : string) : res AddrInfo :=
  match NewMultiaddr (W := W) addrStr with
  | Err e => Err e
  | Ok addr => AddrInfoFromP2pAddr (W := W) addr
  end.

(** A receive from a closed channel gives the zero value. *)
Definition zero_Result : Result := {| RTT := 0; ping_Error := None |}.
Definition receive_result (r : option Result) : Result := default zero_Result r.

Definition ConnectAndPing (pInfo : AddrInfo) : M W unit :=
  let! _ := wrap_err (Wrapf "p2p connect failed") (host_Connect pInfo) in
  let! res := (λ w, let '(w', r) := Ping (ai_ID pInfo) w in (w', Ok (receive_result r))) in
  match ping_Error res with
  | Some e => throw (Wrapf "p2p ping failed" e)
  | None => ret tt
  end.
End host.

(** ** bridge.go on this host *)

Section bridge.
Context `{Libp2p W} `{Bridged W}.

(** [host.NewStream], which only the side that does not wait calls *)
Definition open_stream (p : Bridge.PeerID) : W → W * res Bridge.Stream := λ w,
  if Bridge.waits (host_ID w) p then (w, Err Bridge.EOF) else host_NewStream p w.

(** Whether AddPeer comes to allocate a relay, and so to listen *)
Definition allocates (self p : Bridge.PeerID) (stream : res Bridge.Stream) (b : Bridge.Bridge) : bool :=
  (Bridge.waits self p || match stream with Ok _ => true | Err _ => false end) &&
  bool_decide (Bridge.peers b !! p = None).

Definition listen_for (needed : bool) (w : W) : W * bool :=
  if needed then ListenUDP (Bridge.nextPort (bridge_of w)) w else (w, true).

Definition AddPeer (p : Bridge.PeerID) : M W Z := λ w,
  let '(w1, stream) := open_stream p w in
  let '(w2, listens) := listen_for (allocates (host_ID w) p stream (bridge_of w1)) w1 in
  let '(b, r) := Bridge.AddPeer (host_ID w) p stream listens (bridge_of w2) in
  (set_bridge b w2, r).

(** The handler of RegisterIncoming, when peer [p] opened the stream [s] *)
Definition incoming (p : Bridge.PeerID) (s : Bridge.Stream) (w : W) : W :=
  let '(w1, listens) := listen_for (bool_decide (Bridge.peers (bridge_of w) !! p = None)) w in
  set_bridge (Bridge.incoming p s listens (bridge_of w1)) w1.

#[global] Instance host_p2p : P2P W := {|
  p2p_New := New;
  p2p_PeerID := PeerID;
  p2p_Multiaddrs := Multiaddrs;
  p2p_GetPeerInfo := GetPeerInfo (W := W);
  p2p_ConnectAndPing := ConnectAndPing;
  p2p_Close := Close;
  p2p_NewBridge wg base := λ w, (set_bridge (Bridge.NewBridge wg base) w, Ok tt);
  bridge_RegisterIncoming := SetStreamHandler;
  bridge_AddPeer := AddPeer;
  bridge_GetProxyPort p w := Bridge.GetProxyPort p (bridge_of w);
  bridge_Close := λ w, (set_bridge (Bridge.Close (bridge_of w)) w, Ok tt);
  spawn := go;
|}.
End bridge.

(** ** Relays stay *)

(** From one bridge to the next: no relay of the table changes its port. *)
Definition steady (base : Z) (b b' : Bridge.Bridge) : Prop :=
  Bridge.bridge_ok base b →
  Bridge.bridge_ok base b' ∧
  ∀ p port, Bridge.GetProxyPort p b = Some port → Bridge.GetProxyPort p b' = Some port.

#[export] Instance steady_preorder base : PreOrder (steady base).
Proof.
  split; [by intros b|]. intros b1 b2 b3 H12 H23 Hb. destruct (H12 Hb) as [H2 P2]. destruct (H23 H2) as [H3 P3].
  eauto.
Qed.

Section steady.
Context (base : Z).
Notation steady := (steady base).

Lemma steady_keeps b b' :
  Bridge.nextPort b' = Bridge.nextPort b → Bridge.same_ports (Bridge.relays b) (Bridge.relays b') →
  Bridge.peers b' = Bridge.peers b → steady b b'.
Proof.
  intros En Es Ep Hb. split; [by apply (Bridge.ok_change base b); [..|rewrite Ep]|].
  intros p port. unfold Bridge.GetProxyPort, Bridge.relay_of. rewrite Ep.
  destruct (Bridge.peers b !! p) as [ref|]; [|done].
  unfold Bridge.same_ports in Es. apply (f_equal (lookup ref)) in Es. rewrite !list_lookup_fmap in Es.
  simpl in *. by rewrite <- Es.
Qed.

Lemma steady_attach ref s b : steady b (Bridge.attach ref s b).
Proof. apply steady_keeps; [done| |done]. by apply Bridge.same_ports_alter. Qed.

Lemma steady_new p s ok b : Bridge.peers b !! p = None → steady b (Bridge.new_relay p s ok b).1.
Proof.
  intros Hp Hb. split; [by apply Bridge.new_relay_ok|]. intros q port. unfold Bridge.new_relay, Bridge.GetProxyPort,
    Bridge.relay_of. destruct ok; [|done]. simpl.
  destruct (decide (p = q)) as [->|Hne]; [by rewrite Hp|]. rewrite lookup_insert_ne by done.
  destruct (Bridge.peers b !! q) as [ref|]; [|done]. intros Hq.
  destruct (Bridge.relays b !! ref) as [r|] eqn:Er; [|done]. by rewrite (lookup_app_l_Some _ _ _ _ Er).
Qed.

Lemma steady_allocate p s ok b : steady b (Bridge.allocateRelay p s ok b).1.
Proof.
  unfold Bridge.allocateRelay. destruct (Bridge.peers b !! p) eqn:Hp; [apply steady_attach|by apply steady_new].
Qed.

Lemma steady_reset s b : steady b (Bridge.reset_stream s b).
Proof. by apply steady_keeps. Qed.

Lemma steady_incoming p s ok b : steady b (Bridge.incoming p s ok b).
Proof.
  unfold Bridge.incoming. assert (steady b (Bridge.incoming_first p s b).1) as H1.
  { unfold Bridge.incoming_first. repeat case_match; simpl; try reflexivity. apply steady_attach. }
  destruct (Bridge.incoming_first p s b) as [b1 []]; [done|]. simpl in H1. trans b1; [done|].
  pose proof (steady_allocate p s ok b1) as H2. destruct (Bridge.allocateRelay p s ok b1) as [b2 [port|e]]; [done|].
  simpl in H2. trans b2; [done|]. apply steady_reset.
Qed.

Lemma lookup_None p b : Bridge.bridge_ok base b → Bridge.AddPeer_lookup p b = None → Bridge.peers b !! p = None.
Proof.
  intros Hb Hl. destruct (Bridge.peers b !! p) as [ref|] eqn:Hp; [|done].
  destruct (Bridge.ok_refs _ _ Hb _ _ Hp) as [r Hr].
  unfold Bridge.AddPeer_lookup, Bridge.relay_of in Hl. by rewrite Hp, Hr in Hl.
Qed.

Lemma steady_AddPeer self p st ok b : steady b (Bridge.AddPeer self p st ok b).1.
Proof.
  intros Hb. unfold Bridge.AddPeer. destruct (Bridge.waits self p).
  - destruct (Bridge.AddPeer_lookup p b) eqn:Hl; [by apply steady_keeps|].
    apply steady_new; [by apply lookup_None|done].
  - destruct st as [s|e]; [|by apply steady_keeps].
    pose proof (steady_allocate p s ok b) as H1. destruct (Bridge.allocateRelay p s ok b) as [b1 [port|e]].
    + by apply H1.
    + simpl in *. by apply (transitivity H1 (steady_reset s b1)).
Qed.

(** The port that AddPeer returns is the relay's. *)
Lemma AddPeer_port self p st ok b b' port :
  Bridge.bridge_ok base b → Bridge.AddPeer self p st ok b = (b', Ok port) → Bridge.GetProxyPort p b' = Some port.
Proof.
  intros Hb. assert (∀ s b' port, Bridge.new_relay p s ok b = (b', Ok port) → Bridge.GetProxyPort p b' = Some port)
    as Hnew.
  { intros s c x. unfold Bridge.new_relay. destruct ok; [|done]. intros [= <- <-].
    unfold Bridge.GetProxyPort, Bridge.relay_of. simpl. rewrite lookup_insert_eq.
    by rewrite lookup_app_r, Nat.sub_diag by lia. }
  unfold Bridge.AddPeer. destruct (Bridge.waits self p).
  - destruct (Bridge.AddPeer_lookup p b) as [x|] eqn:Hl; [|apply Hnew]. by intros [= <- <-].
  - destruct st as [s|e]; [|done]. destruct (Bridge.allocateRelay p s ok b) as [b1 [x|e]] eqn:Ha; [|done].
    intros [= <- <-]. unfold Bridge.allocateRelay in Ha.
    destruct (Bridge.peers b !! p) as [ref|] eqn:Hp; [|by eapply Hnew]. injection Ha as <- <-.
    destruct (Bridge.ok_refs _ _ Hb _ _ Hp) as [r Hr].
    unfold Bridge.GetProxyPort, Bridge.relay_of, Bridge.attach. simpl. rewrite Hp, list_lookup_alter_eq, Hr. done.
Qed.
End steady.

(** ** The host's laws *)

(** What can happen to the bridge while libp2p works: streams come in. Nothing happens to it under its lock. *)
Definition arrival (b b' : Bridge.Bridge) : Prop := ∃ p s ok, b' = Bridge.incoming p s ok b.

Record host_laws `{Libp2p W} `{Bridged W} : Prop := {
  get_set b (w : W) : bridge_of (set_bridge b w) = b;
  law_Connect pInfo (w w' : W) r : host_Connect pInfo w = (w', r) → rtc arrival (bridge_of w) (bridge_of w');
  law_Ping p (w : W) : rtc arrival (bridge_of w) (bridge_of (Ping p w).1);
  law_NewStream p (w w' : W) r : host_NewStream p w = (w', r) → rtc arrival (bridge_of w) (bridge_of w');
  law_ListenUDP port (w : W) : bridge_of (ListenUDP port w).1 = bridge_of w;
}.
Arguments host_laws W {_ _}.

Section host_steady.
Context `{Libp2p W} `{Bridged W} (base : Z) (Hlaws : host_laws W).
Notation host_rel := (over (bridge_of (W := W)) (steady base)).

Lemma arrivals_steady b b' : rtc arrival b b' → steady base b b'.
Proof. induction 1 as [|b1 b2 b3 (p & s & ok & ->) _ IH]; [reflexivity|]. trans (Bridge.incoming p s ok b1); [|done].
  apply steady_incoming. Qed.

Lemma listen_for_bridge needed (w : W) : bridge_of (listen_for needed w).1 = bridge_of w.
Proof. unfold listen_for. destruct needed; [apply (law_ListenUDP Hlaws)|done]. Qed.

Lemma open_stream_steady p (w : W) : steady base (bridge_of w) (bridge_of (open_stream p w).1).
Proof.
  unfold open_stream. destruct (Bridge.waits _ _); [reflexivity|]. destruct (host_NewStream p w) as [w' r] eqn:E.
  apply arrivals_steady. by apply (law_NewStream Hlaws) in E.
Qed.

Lemma incoming_steady p s (w : W) : host_rel w (incoming p s w).
Proof.
  unfold incoming, over. pose proof (listen_for_bridge (bool_decide (Bridge.peers (bridge_of w) !! p = None)) w) as Hl.
  destruct (listen_for _ w) as [w1 ok]. simpl in Hl. rewrite (get_set Hlaws), Hl. apply steady_incoming.
Qed.

(** AddPeer, between the opening of the stream and the end *)
Lemma AddPeer_bridge p (w w' : W) r : AddPeer p w = (w', r) →
  ∃ b st ok, steady base (bridge_of w) b ∧ Bridge.AddPeer (host_ID w) p st ok b = (bridge_of w', r).
Proof.
  unfold AddPeer. pose proof (open_stream_steady p w) as Ho. destruct (open_stream p w) as [w1 st].
  set (needed := allocates _ _ _ _). pose proof (listen_for_bridge needed w1) as Hl.
  destruct (listen_for needed w1) as [w2 ok]. simpl in *.
  destruct (Bridge.AddPeer _ _ _ _ _) as [b x] eqn:E. intros [= <- <-]. rewrite (get_set Hlaws).
  exists (bridge_of w1), st, ok. split; [done|]. by rewrite <- Hl.
Qed.

Lemma AddPeer_steady p : runs host_rel (AddPeer p).
Proof.
  intros w w' r (b & st & ok & Hb & Ha)%AddPeer_bridge. unfold over. trans b; [done|].
  pose proof (steady_AddPeer base (host_ID w) p st ok b) as Hs. by rewrite Ha in Hs.
Qed.

Lemma ConnectAndPing_runs pInfo : runs host_rel (ConnectAndPing pInfo).
Proof.
  unfold ConnectAndPing. runs.
  - intros w w' r Hr%(law_Connect Hlaws). by apply arrivals_steady.
  - intros w w' r. pose proof (law_Ping Hlaws (ai_ID pInfo) w) as Hp. destruct (Ping _ w) as [w1 x].
    intros [= <- <-]. by apply arrivals_steady.
Qed.

(** ** What the agent sees *)

Notation sys_bridge := (λ s : Sys W, bridge_of (world (client s))).

Lemma on_world_steady {A} (m : M W A) : runs host_rel m → runs (over sys_bridge (steady base)) (on_world m).
Proof.
  intros Hm s s' r. unfold on_world, on_client, Client.on_world, zoom.
  destruct (m (world (client s))) as [w x] eqn:E. intros [= <- <-]. by apply Hm in E.
Qed.

Lemma proxy_port_steady addrs : runs (over sys_bridge (steady base)) (proxy_port addrs).
Proof.
  unfold proxy_port. runs; apply on_world_steady; [apply ConnectAndPing_runs|apply AddPeer_steady].
Qed.

(** The port that the agent gives WireGuard for a peer is that of the relay of the peer's libp2p id. *)
Lemma proxy_port_relay addrs (s s' : Sys W) n :
  Bridge.bridge_ok base (sys_bridge s) → proxy_port addrs s = (s', Ok n) → n ≠ 0 →
  ∃ addr rest pInfo, addrs = addr :: rest ∧ GetPeerInfo (W := W) addr = Ok pInfo ∧
    Bridge.GetProxyPort (ai_ID pInfo) (sys_bridge s') = Some n.
Proof.
  intros Hb Hp Hn. unfold proxy_port in Hp. destruct addrs as [|addr rest]; [injection Hp as <- <-; done|].
  exists addr, rest. cbn [p2p_GetPeerInfo host_p2p] in Hp. destruct (GetPeerInfo (W := W) addr) as [pInfo|e];
    [|injection Hp as <- <-; done].
  exists pInfo. split_and!; [done..|]. apply handle_inv in Hp as (s1 & [u|e] & Hc & Hp); [|injection Hp as <- <-; done].
  apply (on_world_steady _ (ConnectAndPing_runs _)) in Hc. destruct (Hc Hb) as [Hb1 _].
  apply handle_inv in Hp as (s2 & [m|e] & Ha & Hp); injection Hp as <- <-; [|done].
  unfold on_world, on_client, Client.on_world, zoom in Ha. cbn [bridge_AddPeer host_p2p] in Ha.
  destruct (AddPeer (ai_ID pInfo) (world (client s1))) as [w x] eqn:E. injection Ha as <- ->. simpl.
  apply AddPeer_bridge in E as (b & st & ok & Hst & E). destruct (Hst Hb1) as [Hb2 _]. by eapply AddPeer_port.
Qed.
End host_steady.

(** ** The life of the process, as far as the bridge goes *)

Inductive life_step `{Libp2p W} `{Bridged W} : W → W → Prop :=
| life_incoming w p s : life_step w (incoming p s w)
| life_AddPeer w w' p r : AddPeer p w = (w', r) → life_step w w'
| life_ping w w' pInfo r : ConnectAndPing pInfo w = (w', r) → life_step w w'
| life_other w w' : bridge_of w' = bridge_of w → life_step w w'.

Lemma life_steady `{Libp2p W} `{Bridged W} base (w w' : W) :
  host_laws W → rtc life_step w w' → steady base (bridge_of w) (bridge_of w').
Proof.
  intros Hl. induction 1 as [|w1 w2 w3 Hs _ IH]; [reflexivity|]. trans (bridge_of w2); [|done].
  destruct Hs as [w p s|w w' p r Ha|w w' pInfo r Hc|w w' ->].
  - by apply incoming_steady.
  - by apply (AddPeer_steady base Hl) in Ha.
  - by apply (ConnectAndPing_runs base Hl) in Hc.
  - reflexivity.
Qed.

(** The libp2p id in a peer's first address *)
Definition first_id `{Libp2p W} (addrs : list string) (id : string) : Prop :=
  ∃ addr rest pInfo, addrs = addr :: rest ∧ GetPeerInfo (W := W) addr = Ok pInfo ∧ ai_ID pInfo = id.

(** C23: Each peer keeps an endpoint of its own. At any two moments of the life of an agent's bridge, whatever streams come
    in, connections are tried and relays are added in between: two peers are given the same port exactly when they have the
    same libp2p id, so a peer that comes back finds its old endpoint and two peers never share one; and the ports are from
    the base port on. *)
Theorem endpoints_distinct `{Libp2p W} `{Bridged W} wg base (w0 : W) (s1 s1' s2 s2' : Sys W) addrs1 addrs2 n1 n2 :
  host_laws W → bridge_of w0 = Bridge.NewBridge wg base →
  rtc life_step w0 (world (client s1)) → proxy_port addrs1 s1 = (s1', Ok n1) → n1 ≠ 0 →
  rtc life_step (world (client s1')) (world (client s2)) → proxy_port addrs2 s2 = (s2', Ok n2) → n2 ≠ 0 →
  base ≤ n1 ∧ base ≤ n2 ∧
  ∃ id1 id2, first_id (W := W) addrs1 id1 ∧ first_id (W := W) addrs2 id2 ∧ (n1 = n2 ↔ id1 = id2).
Proof.
  intros Hl H0' Hr1 Hp1 Hn1 Hr2 Hp2 Hn2.
  destruct (life_steady base _ _ Hl Hr1) as [Hb1 _]; [rewrite H0'; apply Bridge.NewBridge_ok|].
  destruct (proxy_port_relay base Hl _ _ _ _ Hb1 Hp1 Hn1) as (a1 & l1 & i1 & -> & Hi1 & Hg1).
  destruct (proxy_port_steady base Hl _ _ _ _ Hp1 Hb1) as [Hb1' _].
  destruct (life_steady base _ _ Hl Hr2 Hb1') as [Hb2 Hk2].
  destruct (proxy_port_relay base Hl _ _ _ _ Hb2 Hp2 Hn2) as (a2 & l2 & i2 & -> & Hi2 & Hg2).
  destruct (proxy_port_steady base Hl _ _ _ _ Hp2 Hb2) as [Hb2' Hk2'].
  apply Hk2, Hk2' in Hg1. simpl in *.
  destruct (Bridge.ports_inj _ _ _ _ _ Hb2' Hg1 Hg1) as [_ Hx1].
  destruct (Bridge.ports_inj _ _ _ _ _ Hb2' Hg2 Hg2) as [_ Hx2].
  split; [lia|]. split; [lia|]. exists (ai_ID i1), (ai_ID i2). split; [by eexists _, _, _|]. split; [by eexists _, _, _|].
  split; [intros ->|intros E; rewrite E in Hg1; congruence].
  by destruct (Bridge.ports_inj _ _ _ _ _ Hb2' Hg1 Hg2).
Qed.

(** ** A peer that does not answer *)

(** The ping succeeds exactly when a pong came or the channel was closed without a result. *)
Lemma ConnectAndPing_ok `{Libp2p W} pInfo (w w' : W) :
  ConnectAndPing pInfo w = (w', Ok tt) ↔
  ∃ w1 r, host_Connect pInfo w = (w1, Ok tt) ∧ Ping (ai_ID pInfo) w1 = (w', r) ∧
    match r with Some x => ping_Error x = None | None => True end.
Proof.
  unfold ConnectAndPing. split.
  - intros (w1 & [] & Hc%wrap_ok_inv & Hp)%bind_inv_ok. apply bind_inv_ok in Hp as (w2 & x & Hx & Hp).
    destruct (Ping (ai_ID pInfo) w1) as [w3 r] eqn:E. injection Hx as <- <-. exists w1, r.
    destruct r as [[t [e|]]|]; simpl in *; [done|by injection Hp as <-..].
  - intros (w1 & r & Hc & Hp & Hr).
    unfold bind, wrap_err. rewrite Hc, Hp. by destruct r as [[t [e|]]|].
Qed.

(** A peer at which libp2p connects, whose pong does not come before the context ends, and from which no stream comes *)
Record silent `{Libp2p W} `{Bridged W} (pInfo : AddrInfo) : Prop := {
  silent_waits (w : W) : Bridge.waits (host_ID w) (ai_ID pInfo) = true;
  silent_connects (w : W) : ∃ w', host_Connect pInfo w = (w', Ok tt) ∧ bridge_of w' = bridge_of w;
  silent_ping (w : W) : ∃ w', Ping (ai_ID pInfo) w = (w', None) ∧ bridge_of w' = bridge_of w;
  silent_port port (w : W) : (ListenUDP port w).2 = true;
}.
Arguments silent W {_ _} pInfo.

Lemma AddPeer_waiting `{Libp2p W} `{Bridged W} p (w : W) :
  host_laws W → Bridge.waits (host_ID w) p = true → Bridge.peers (bridge_of w) !! p = None →
  (∀ port (w : W), (ListenUDP port w).2 = true) →
  ∃ w', AddPeer p w = (w', Ok (Bridge.nextPort (bridge_of w))) ∧
    Bridge.peers (bridge_of w') !! p = Some (length (Bridge.relays (bridge_of w))) ∧
    ∀ data, Bridge.udp_packet (length (Bridge.relays (bridge_of w))) data (bridge_of w') = None.
Proof.
  intros Hl Hw Hp Hlisten. unfold AddPeer, open_stream, allocates, listen_for. rewrite Hw, bool_decide_true by done.
  simpl. pose proof (Hlisten (Bridge.nextPort (bridge_of w)) w) as Hok.
  pose proof (law_ListenUDP Hl (Bridge.nextPort (bridge_of w)) w) as Hb.
  destruct (ListenUDP _ w) as [w1 ok]. simpl in Hok, Hb. subst ok. rewrite Hb.
  unfold Bridge.AddPeer, Bridge.AddPeer_lookup, Bridge.relay_of. rewrite Hw, Hp. simpl.
  eexists. split; [reflexivity|]. rewrite (get_set Hl). unfold Bridge.udp_packet. simpl. rewrite lookup_insert_eq.
  split; [done|]. intros data. by rewrite lookup_app_r, Nat.sub_diag by lia.
Qed.

(** Where the agent waits for the other side's stream, a peer that never answers the ping is still added: the agent
    takes the end of the five seconds, which closes the channel, for a pong. The peer becomes active, with a
    relay in WireGuard's configuration that has no stream, so every packet that is routed to it is dropped. *)
Theorem silent_peer_becomes_active `{Libp2p W} `{Bridged W} `{WireGuard.OS W} peers exitNode network id key p addr rest pInfo
    (s : Sys W) :
  host_laws W → silent W pInfo → 0 < Bridge.nextPort (bridge_of (world (client s))) →
  Bridge.peers (bridge_of (world (client s))) !! ai_ID pInfo = None →
  (∀ pc (w : W), ∃ w', WireGuard.AddPeer (wg_mgr (agent s)) pc w = (w', Ok tt) ∧ bridge_of w' = bridge_of w) →
  activePeers (agent s) !! id = None → find_peer id peers = Some p → Discovery.pi_P2PAddrs p = addr :: rest →
  GetPeerInfo (W := W) addr = Ok pInfo →
  ∃ s' ref, add_peer peers exitNode network id key s = (s', Ok tt) ∧ activePeers (agent s') !! id = Some key ∧
    Bridge.peers (bridge_of (world (client s'))) !! ai_ID pInfo = Some ref ∧
    ∀ data, Bridge.udp_packet ref data (bridge_of (world (client s'))) = None.
Proof.
  intros Hl [Hw Hc Hpi Hport] Hnext Hnone Hwg Hact Hfind Haddr Hinfo. destruct s as [a c]. simpl in *.
  destruct (Hc (world c)) as (w1 & Ec & Hb1). destruct (Hpi w1) as (w2 & Ep & Hb2).
  assert (ConnectAndPing pInfo (world c) = (w2, Ok tt)) as Hping.
  { apply ConnectAndPing_ok. by exists w1, None. }
  rewrite <- Hb1, <- Hb2 in Hnext, Hnone. destruct (AddPeer_waiting _ w2 Hl (Hw w2) Hnone Hport) as (w3 & Ea & Hp3 & Hd3).
  unfold add_peer. unfold bind at 1, get_agent. simpl. rewrite Hact, Hfind, Haddr.
  unfold bind at 1, proxy_port. cbn [p2p_GetPeerInfo host_p2p]. rewrite Hinfo.
  unfold handle, on_world, on_client, Client.on_world, zoom. cbn -[AddPeer ConnectAndPing]. rewrite Hping. simpl. rewrite Ea.
  simpl. destruct (Z.eqb_spec (Bridge.nextPort (bridge_of w2)) 0) as [E|_]; [lia|].
  unfold attempt, bind. destruct (Hwg {| WireGuard.pc_PublicKey := key;
    WireGuard.pc_Endpoint := "127.0.0.1:" +:+ Itoa (Bridge.nextPort (bridge_of w2));
    WireGuard.pc_AllowedIPs := allowed_ips exitNode network id (Discovery.pi_IpAddress p) |} w3) as (w4 & Ew & Hb4).
  cbn -[WireGuard.AddPeer allowed_ips]. rewrite Ew. simpl. rewrite <- Hb4 in Hp3, Hd3.
  eexists _, _. split; [reflexivity|]. simpl. rewrite lookup_insert_eq. done.
Qed.

(** ** Witnesses: a desk whose libp2p connects to everyone, and where "quiet" answers no ping *)

Record Desk : Type := { dk_bridge : Bridge.Bridge }.

#[local] Instance desk_bridged : Bridged Desk :=
  {| bridge_of := dk_bridge; set_bridge b _ := {| dk_bridge := b |} |}.

#[local] Instance desk_libp2p : Libp2p Desk := {|
  libp2p_New _ := ret tt;
  host_ID _ := "b";
  ID_String id := id;
  host_Addrs _ := ["/ip4/192.0.2.7/tcp/4001"];
  host_Connect _ := ret tt;
  Ping p d := (d, if decide (p = "quiet") then None else Some {| RTT := 1; ping_Error := None |});
  host_NewStream _ := ret 0%nat;
  SetStreamHandler := ret tt;
  host_Close := ret tt;
  NewMultiaddr s := Ok s;
  AddrInfoFromP2pAddr s := Ok {| ai_ID := s; ai_Addrs := [] |};
  ListenUDP _ d := (d, true);
  go m := m;
|}.

#[local] Instance desk_os : WireGuard.OS Desk := {|
  WireGuard.run_command _ _ := ret tt;
  WireGuard.write_file _ _ := ret tt;
  WireGuard.command_output _ _ := ret "";
  WireGuard.read_file _ := ret "";
|}.

Lemma desk_laws : host_laws Desk.
Proof. split; [done|by intros ? ? ? ? [= <- <-]|done|by intros ? ? ? ? [= <- <-]|done]. Qed.

Definition desk0 : Desk := {| dk_bridge := Bridge.NewBridge 51820 51920 |}.

Definition on_desk (d : Desk) : Sys Desk := Build_Sys (lab_agent ∅) (new_client 0 0 0 d).

(** Two peers, on either side of the host's own id *)
Definition first_port : Sys Desk * res Z := proxy_port ["c"] (on_desk desk0).
Definition second_port : Sys Desk * res Z := proxy_port ["a"] first_port.1.

Lemma endpoints_distinct_witness :
  proxy_port ["c"] (on_desk desk0) = (first_port.1, Ok 51920) ∧
  proxy_port ["a"] first_port.1 = (second_port.1, Ok 51921) ∧
  ∃ id1 id2, first_id (W := Desk) ["c"] id1 ∧ first_id (W := Desk) ["a"] id2 ∧ (51920 = 51921 ↔ id1 = id2).
Proof.
  assert (proxy_port ["c"] (on_desk desk0) = (first_port.1, Ok 51920)) as E1 by
    (apply run_snd; vm_compute; reflexivity).
  assert (proxy_port ["a"] first_port.1 = (second_port.1, Ok 51921)) as E2 by (apply run_snd; vm_compute; reflexivity).
  split; [exact E1|]. split; [exact E2|].
  refine (proj2 (proj2 (endpoints_distinct 51820 51920 desk0 _ _ _ _ _ _ _ _ desk_laws eq_refl _ E1 _ _ E2 _)));
    [constructor|lia|constructor|lia].
Defined.

(** "quiet" is after the host's own id: the agent waits for it. *)
Definition quiet : Discovery.PeerInfo := lab_peer "node-q" "10.8.0.9" ["quiet"] false.

Lemma desk_silent : silent Desk {| ai_ID := "quiet"; ai_Addrs := [] |}.
Proof. split; [done|by eexists|by eexists|done]. Qed.

Lemma silent_peer_becomes_active_witness : ∃ s' ref,
  add_peer [quiet] "" "10.8.0.0/16" "node-q" "its-key" (on_desk desk0) = (s', Ok tt) ∧
  activePeers (agent s') !! "node-q" = Some "its-key" ∧
  Bridge.peers (bridge_of (world (client s'))) !! "quiet" = Some ref ∧
  ∀ data, Bridge.udp_packet ref data (bridge_of (world (client s'))) = None.
Proof.
  apply (silent_peer_becomes_active [quiet] "" "10.8.0.0/16" "node-q" "its-key" quiet "quiet" []
    {| ai_ID := "quiet"; ai_Addrs := [] |} (on_desk desk0) desk_laws desk_silent); try reflexivity.
  intros pc w. by exists w.
Defined.
