(* ===== verification/PkgConfig.v ===== *)
(** pkg/config: a loader that no service uses. *)

From S2P Require Import Prelude GoStrings Configs CliState.

Record Config : Type := { LogLevel : string; Environment : string }.

(** [data] is the outcome of os.ReadFile; yaml.Unmarshal decodes into [cfg], of which an error may leave a part. *)
Definition Load {C} (data : res string) (unmarshal : string → C → C * option error) (cfg : C) : C * option error :=
  match data with
  | Err e => (cfg, Some (Wrapf "failed to read config file" e))
  | Ok text =>
      let '(cfg, e) := unmarshal text cfg in
      (cfg, Wrapf "failed to parse config" <$> e)
  end.

Definition from_env (env : Environ) (c : Config) : Config :=
  {| LogLevel := env_str (env "LOG_LEVEL") (LogLevel c);
     Environment := env_str (env "ENVIRONMENT") (Environment c) |}.

(** [own] is the outcome of the assertion that [cfg] is a [*Config]: the way to change it, if it is one. os.IsNotExist does
    not look into what fmt.Errorf wrapped. *)
Definition LoadWithDefaults {C} (own : option ((Config → Config) → C → C)) (env : Environ) (data : res string)
    (unmarshal : string → C → C * option error) (cfg : C) : C * option error :=
  let '(cfg, e) := Load data unmarshal cfg in
  match e with
  | Some e => if IsNotExist e then (match own with Some f => f (from_env env) cfg | None => cfg end, None) else (cfg, Some e)
  | None => (match own with Some f => f (from_env env) cfg | None => cfg end, None)
  end.

(** The case of a missing file, which is to be left to the defaults, never occurs: Load wraps every error. *)
Theorem missing_file_is_an_error {C} own env unmarshal (cfg : C) :
  LoadWithDefaults own env (Err ErrNotExist) unmarshal cfg =
    (cfg, Some (Wrapf "failed to read config file" ErrNotExist)).
Proof. reflexivity. Qed.

(** With a file that can be read and decoded, what the environment sets prevails. *)
Theorem environment_prevails env text unmarshal cfg cfg' :
  unmarshal text cfg = (cfg', None) →
  LoadWithDefaults (Some id) env (Ok text) unmarshal cfg = (from_env env cfg', None) ∧
  (env "LOG_LEVEL" ≠ "" → LogLevel (from_env env cfg') = env "LOG_LEVEL").
Proof.
  intros E. split; [unfold LoadWithDefaults, Load; by rewrite E|]. intros Hl. simpl. unfold env_str.
  by rewrite decide_False.
Qed.
