(* ===== verification/CliFollow.v ===== *)
(** cli/cmd/logs.go: [gordion logs --follow], and the signals that cli/cmd/root.go arranges for.

    tailFollow never returns unless a read fails. It is a function of what happens round by round, that is for each
    turn of its loop: what others append to the file meanwhile, and the signals that arrive. *)

From S2P Require Import Prelude GoInt GoStrings WireGuard Cli CliQueries.
From Stdlib Require Import Ascii.
#[local] Open Scope Z_scope.

(** [bufio.Reader.ReadString('\n')] on what is unread: the text up to a newline, or all there is with io.EOF; what
    it returns is read in both cases. *)
Fixpoint ReadString (s : string) : string * string * bool :=
  match s with
  | EmptyString => (EmptyString, EmptyString, true)
  | String c s' =>
      if decide (c = "010"%char) then (String c EmptyString, s', false)
      else let '(line, rest, eof) := ReadString s' in (String c line, rest, eof)
  end.

Inductive event : Type :=
| Appended (text : string)
| Interrupt.                       (* SIGINT *)

(** A turn of the loop: whether the read fails, with an error other than io.EOF, and what happens then *)
Record turn : Type := { read_fails : option error; meanwhile : list event }.

(** [fw_notified]: signal.NotifyContext takes SIGINT, which then cancels the context ([fw_cancelled]) and no longer
    ends the process. *)
Record Follow : Type := {
  fw_unread : string;
  fw_out : list string;
  fw_slept : Z;
  fw_notified : bool;
  fw_cancelled : bool;
}.

Inductive outcome : Type := Streaming | Returned (e : error) | Killed.

Definition set_unread (s : string) (f : Follow) : Follow :=
  {| fw_unread := s; fw_out := fw_out f; fw_slept := fw_slept f; fw_notified := fw_notified f;
     fw_cancelled := fw_cancelled f |}.

(** [None]: the process is gone. *)
Definition happens (ev : event) (f : Follow) : option Follow :=
  match ev with
  | Appended text => Some (set_unread (fw_unread f +:+ text) f)
  | Interrupt =>
      if fw_notified f
      then Some {| fw_unread := fw_unread f; fw_out := fw_out f; fw_slept := fw_slept f; fw_notified := true;
                   fw_cancelled := true |}
      else None
  end.

Fixpoint all_happen (evs : list event) (f : Follow) : option Follow :=
  match evs with
  | [] => Some f
  | ev :: rest => match happens ev f with Some f' => all_happen rest f' | None => None end
  end.

Section follow.
Context `{Lipgloss}.

(** The body of tailFollow's loop *)
Definition read_line (f : Follow) : Follow :=
  let '(line, rest, eof) := ReadString (fw_unread f) in
  if eof then
    {| fw_unread := rest; fw_out := fw_out f; fw_slept := fw_slept f + 200 * Millisecond;
       fw_notified := fw_notified f; fw_cancelled := fw_cancelled f |}
  else
    {| fw_unread := rest; fw_out := fw_out f ++ [formatLogLine line]; fw_slept := fw_slept f;
       fw_notified := fw_notified f; fw_cancelled := fw_cancelled f |}.

Fixpoint follow_loop (turns : list turn) (f : Follow) : Follow * outcome :=
  match turns with
  | [] => (f, Streaming)
  | t :: rest =>
      match read_fails t with
      | Some e => (f, Returned e)
      | None =>
          match all_happen (meanwhile t) (read_line f) with
          | None => (read_line f, Killed)
          | Some f' => follow_loop rest f'
          end
      end
  end.

Definition streaming_header : string :=
  "  " +:+ Render (Color "#10B981") full_dot +:+ "  " +:+ Render Dim "Streaming logs... (Ctrl+C to stop)" +:+ nl +:+ nl.

(** The file is read from its end on. *)
Definition tailFollow (notified : bool) (turns : list turn) : Follow * outcome :=
  follow_loop turns {| fw_unread := ""; fw_out := [streaming_header]; fw_slept := 0; fw_notified := notified;
                       fw_cancelled := false |}.

(** Execute calls signal.NotifyContext before the command runs, and undoes it when the command has returned. *)
Definition Execute {A} (command : bool → A) : A := command true.

Definition logs_follow (turns : list turn) : Follow * outcome := Execute (λ notified, tailFollow notified turns).
End follow.

(** ** Reading *)

Definition no_newline (s : string) : Prop := str_forall (not_char "010") s = true.

Lemma ReadString_half s : no_newline s → ReadString s = (s, "", true).
Proof.
  unfold no_newline. induction s as [|c s IH]; [done|]. simpl. rewrite andb_true_iff. unfold not_char.
  intros [Hc Hs]. rewrite negb_true_iff, bool_decide_eq_false in Hc. rewrite decide_False by auto. by rewrite IH.
Qed.

(** A line with its newline *)
Definition line (s : string) : Prop := ∃ t, no_newline t ∧ s = t +:+ nl.

Lemma ReadString_line l rest : line l → ReadString (l +:+ rest) = (l, rest, false).
Proof.
  intros (t & Ht & ->). unfold no_newline in Ht. revert Ht. induction t as [|c t IH]; simpl.
  - done.
  - rewrite andb_true_iff. unfold not_char. intros [Hc Hs]. rewrite negb_true_iff, bool_decide_eq_false in Hc.
    rewrite decide_False by auto. by rewrite IH.
Qed.

Fixpoint cat (ls : list string) : string := match ls with [] => "" | l :: ls' => l +:+ cat ls' end.

Lemma cat_app ls ls' : cat (ls ++ ls') = cat ls +:+ cat ls'.
Proof. induction ls as [|l ls IH]; simpl; [done|]. by rewrite IH, app_str_assoc. Qed.

(** ** Streaming *)

(** A turn in which lines are written, whole, and signals arrive ([None]) *)
Definition writes (evs : list (option string)) : turn :=
  {| read_fails := None;
     meanwhile := (λ ev, match ev with Some l => Appended l | None => Interrupt end) <$> evs |}.
Definition written (turns : list (list (option string))) : list string := turns ≫= omap id.

Lemma written_cons evs turns : written (evs :: turns) = omap id evs ++ written turns.
Proof. done. Qed.

Section streaming.
Context `{Lipgloss}.

(** [pend] is what is written but not shown yet. *)
Definition pending (pend : list string) (f : Follow) : Prop :=
  fw_notified f = true ∧ fw_unread f = cat pend ∧ Forall line pend.

Lemma read_line_pending pend f : pending pend f →
  fw_out (read_line f) = fw_out f ++ (formatLogLine <$> take 1 pend) ∧ pending (drop 1 pend) (read_line f).
Proof.
  unfold pending, read_line. intros (Hn & -> & Hp). destruct Hp as [|l pend Hl Hp]; simpl.
  - split; [by rewrite app_nil_r|]. by split_and!.
  - rewrite (ReadString_line l (cat pend) Hl). simpl. by split_and!.
Qed.

Lemma all_happen_pending evs : ∀ pend f, pending pend f → Forall line (omap id evs) →
  ∃ f', all_happen (meanwhile (writes evs)) f = Some f' ∧ fw_out f' = fw_out f ∧ pending (pend ++ omap id evs) f'.
Proof.
  induction evs as [|[l|] evs IH]; intros pend f Hp Hl; simpl.
  - exists f. rewrite app_nil_r. done.
  - simpl in Hl. apply Forall_cons in Hl as [Hl1 Hl]. destruct Hp as (Hn & Hu & Hp).
    destruct (IH (pend ++ [l]) (set_unread (fw_unread f +:+ l) f)) as (f' & E & Ho & Hp').
    { split; [done|]. split; [|by apply Forall_app_2; [|constructor]].
      simpl. rewrite Hu, cat_app. simpl. by rewrite app_str_nil. }
    { done. }
    exists f'. rewrite <- app_assoc in Hp'. done.
  - simpl in Hl. destruct Hp as (Hn & Hu & Hp). rewrite Hn.
    destruct (IH pend {| fw_unread := fw_unread f; fw_out := fw_out f; fw_slept := fw_slept f; fw_notified := true;
      fw_cancelled := true |}) as (f' & E & Ho & Hp'); [done..|]. by exists f'.
Qed.

Lemma follow_loop_writes evs ts f : follow_loop (writes evs :: ts) f =
  match all_happen (meanwhile (writes evs)) (read_line f) with
  | None => (read_line f, Killed)
  | Some f' => follow_loop ts f'
  end.
Proof. done. Qed.

(** Nothing is lost, repeated or reordered, and each turn shows a line if there is one. *)
Lemma follow_loop_lines turns : ∀ pend f, pending pend f → Forall line (written turns) →
  ∃ f' pend', follow_loop (writes <$> turns) f = (f', Streaming) ∧ pending pend' f' ∧
    fw_out f' ++ (formatLogLine <$> pend') = fw_out f ++ (formatLogLine <$> pend ++ written turns) ∧
    (length pend' ≤ length pend + length (written turns))%nat.
Proof.
  induction turns as [|evs turns IH]; intros pend f Hp Hl; [|rewrite fmap_cons, follow_loop_writes].
  - exists f, pend. simpl. rewrite app_nil_r. split_and!; [done..|lia].
  - rewrite written_cons in Hl |- *. apply Forall_app in Hl as [Hl1 Hl2].
    destruct (read_line_pending pend f Hp) as [Ho Hp1].
    destruct (all_happen_pending evs _ _ Hp1 Hl1) as (f1 & -> & Ho1 & Hp2).
    destruct (IH _ _ Hp2 Hl2) as (f' & pend' & E & Hp' & Hout & Hlen). exists f', pend'. split; [done|]. split; [done|].
    rewrite !length_app, length_drop in *. split; [|lia].
    rewrite Hout, Ho1, Ho. rewrite <- (take_drop 1 pend) at 3. by rewrite !fmap_app, <- !app_assoc.
Qed.

Lemma follow_loop_app ts ts' : ∀ f f', follow_loop ts f = (f', Streaming) → follow_loop (ts ++ ts') f = follow_loop ts' f'.
Proof.
  induction ts as [|t ts IH]; intros f f'; simpl; [by intros [= ->]|].
  destruct (read_fails t); [done|]. destruct (all_happen _ _); [apply IH|done].
Qed.

(** Turns in which nothing happens show what is pending. *)
Lemma follow_quiet n : ∀ pend f, pending pend f → (length pend ≤ n)%nat →
  ∃ f', follow_loop (replicate n (writes [])) f = (f', Streaming) ∧
    fw_out f' = fw_out f ++ (formatLogLine <$> pend).
Proof.
  induction n as [|n IH]; intros pend f Hp Hn; cbn [replicate]; [|rewrite follow_loop_writes; cbn [writes meanwhile fmap list_fmap all_happen]].
  - exists f. simpl. destruct pend; simpl in *; [by rewrite app_nil_r|lia].
  - destruct (read_line_pending pend f Hp) as [Ho Hp1].
    destruct (IH _ _ Hp1) as (f' & E & Hout); [rewrite length_drop; lia|]. exists f'. split; [done|].
    rewrite Hout, Ho. rewrite <- (take_drop 1 pend) at 3. by rewrite fmap_app, <- app_assoc.
Qed.

(** C12: When lines are written whole, [logs --follow] shows each of them once and in order, whatever signals arrive and
    whichever turns the lines fall into, as soon as it has had a turn for each. *)
Theorem follow_shows_lines turns n :
  Forall line (written turns) → (length (written turns) ≤ n)%nat →
  ∃ f, logs_follow ((writes <$> turns) ++ replicate n (writes [])) = (f, Streaming) ∧
    fw_out f = streaming_header :: (formatLogLine <$> written turns).
Proof.
  intros Hl Hn. unfold logs_follow, Execute, tailFollow. set (f0 := {| fw_unread := ""; fw_out := _ |}).
  destruct (follow_loop_lines turns [] f0) as (f1 & pend & E & Hp & Hout & Hlen); [done..|].
  rewrite (follow_loop_app _ _ _ _ E). simpl in Hout, Hlen.
  destruct (follow_quiet n pend f1 Hp ltac:(lia)) as (f' & -> & Hf').
  exists f'. split; [done|]. by rewrite Hf', Hout.
Qed.
End streaming.

(** ** What goes wrong *)

Section faults.
Context `{Lipgloss}.

Lemma read_line_notified f : fw_notified (read_line f) = fw_notified f.
Proof. unfold read_line. by destruct (ReadString _) as [[l r] []]. Qed.

Lemma all_happen_notified evs : ∀ f, fw_notified f = true →
  ∃ f', all_happen evs f = Some f' ∧ fw_notified f' = true.
Proof.
  induction evs as [|[text|] evs IH]; intros f Hn; simpl; [by eexists|by apply IH|]. rewrite Hn. by apply IH.
Qed.

(** Ctrl+C does not end [logs --follow], as its first line says it does: once Execute has asked for the signal it only
    cancels a context that tailFollow never looks at. Only a read that fails ends it. *)
Theorem interrupt_never_ends_follow turns :
  Forall (λ t, read_fails t = None) turns → (logs_follow turns).2 = Streaming.
Proof.
  unfold logs_follow, Execute, tailFollow. set (f0 := {| fw_unread := ""; fw_out := _ |}).
  assert (fw_notified f0 = true) as Hn by done. revert Hn. generalize f0. clear f0.
  induction turns as [|t turns IH]; intros f Hn Hf; [done|]. apply Forall_cons in Hf as [Ht Hf]. cbn [follow_loop]. rewrite Ht.
  destruct (all_happen_notified (meanwhile t) (read_line f)) as (f' & -> & Hn'); [by rewrite read_line_notified|].
  by apply IH.
Qed.

(** Without the notification of Execute the first one would. *)
Theorem interrupt_kills_unnotified turns :
  (tailFollow false ({| read_fails := None; meanwhile := [Interrupt] |} :: turns)).2 = Killed.
Proof. done. Qed.

(** What a turn does that finds no newline *)
Definition slept (f : Follow) : Follow :=
  {| fw_unread := ""; fw_out := fw_out f; fw_slept := fw_slept f + 200 * Millisecond; fw_notified := fw_notified f;
     fw_cancelled := fw_cancelled f |}.

Lemma read_line_half f : no_newline (fw_unread f) → read_line f = slept f.
Proof. intros Hn. unfold read_line. by rewrite ReadString_half. Qed.

(** A line that is read before it is complete loses what was there: ReadString returns it with io.EOF, and the loop drops
    it. *)
Theorem half_line_lost a b : no_newline a → no_newline b →
  let turns := [writes [Some a]; writes [Some (b +:+ nl)]; writes []] in
  fw_out (logs_follow turns).1 = [streaming_header; formatLogLine (b +:+ nl)].
Proof.
  intros Ha Hb turns. unfold turns, logs_follow, Execute, tailFollow. rewrite !follow_loop_writes.
  set (f0 := {| fw_unread := ""; fw_out := _ |}). rewrite (read_line_half f0) by done.
  cbn [all_happen meanwhile writes fmap list_fmap happens]. set (f1 := set_unread _ (slept _)).
  rewrite follow_loop_writes, (read_line_half f1) by done.
  cbn [all_happen meanwhile writes fmap list_fmap happens]. set (f2 := set_unread _ (slept _)).
  rewrite follow_loop_writes. cbn [all_happen meanwhile writes fmap list_fmap follow_loop fst].
  destruct (read_line_pending [b +:+ nl] f2) as [-> _]; [|done].
  split_and!; [done|by simpl; rewrite app_str_nil|]. constructor; [by exists b|constructor].
Qed.
End faults.

(** ** Witnesses *)

#[local] Instance plain_text : Lipgloss := λ _ s, s.

Definition two_lines : list (list (option string)) := [[Some ("one" +:+ nl)]; [None; Some ("two" +:+ nl)]].

Lemma follow_shows_lines_witness : ∃ f,
  logs_follow ((writes <$> two_lines) ++ replicate 2 (writes [])) = (f, Streaming) ∧
  fw_out f = streaming_header :: (formatLogLine <$> ["one" +:+ nl; "two" +:+ nl]).
Proof.
  refine (follow_shows_lines two_lines 2 _ _); [|vm_compute; lia].
  repeat constructor; [by exists "one"|by exists "two"].
Defined.

Lemma interrupt_never_ends_follow_witness :
  (logs_follow [writes [None]; writes [None; None]]).2 = Streaming.
Proof. apply interrupt_never_ends_follow. repeat constructor. Defined.

Lemma half_line_lost_witness :
  fw_out (logs_follow [writes [Some "ERROR: "]; writes [Some ("disk full" +:+ nl)]; writes []]).1 =
    [streaming_header; formatLogLine ("disk full" +:+ nl)].
Proof. apply half_line_lost; reflexivity. Defined.
