(* ===== verification/CliOutput.v ===== *)
(** cli/cmd: what the commands print beside their work: help, version, the table of doctor, and root.go's Execute.

    What cobra knows of a command (its names, texts and flags) is a record, an argument of the functions that print it. *)

From S2P Require Import Prelude GoInt GoStrings CliState Configs WireGuard Cli CliQueries.
From Stdlib Require Import Ascii.
#[local] Open Scope Z_scope.

(** ** cobra.Command *)

Record SubCommand : Type := { sc_Name : string; sc_Short : string; sc_Hidden : bool }.

(** [co_LocalFlags] and [co_InheritedFlags] are FlagUsages, if there are flags. *)
Record Command : Type := {
  co_Short : string;
  co_UseLine : string;
  co_CommandPath : string;
  co_HasAvailableSubCommands : bool;
  co_Commands : list SubCommand;
  co_LocalFlags : option string;
  co_InheritedFlags : option string;
}.

(** ** strings *)

(** [strings.TrimRight(s, "\n")] *)
Fixpoint TrimRight_nl (s : string) : string :=
  match s with
  | EmptyString => EmptyString
  | String c s' =>
      match TrimRight_nl s' with
      | EmptyString => if decide (c = "010"%char) then EmptyString else String c EmptyString
      | t => String c t
      end
  end.

(** [strings.Index(s, sub)], -1 when there is none *)
Fixpoint Index (s sub : string) : Z :=
  if HasPrefix sub s then 0
  else match s with
       | EmptyString => -1
       | String _ s' => let i := Index s' sub in if i <? 0 then -1 else i + 1
       end.

Definition helpWidth : Z := 72.

(** cmds is in cobra's order. *)
Definition maxCmdLen (cmds : list SubCommand) : Z :=
  foldl (λ max c, if negb (sc_Hidden c) && (max <? len (sc_Name c)) then len (sc_Name c) else max) 0 cmds.

(** What setupHelp hides, and what renderHelp leaves out anyway *)
Definition builtin_command (c : SubCommand) : bool :=
  bool_decide (sc_Name c = "completion") || bool_decide (sc_Name c = "help").
Definition setupHelp (cmds : list SubCommand) : list SubCommand :=
  (λ c, if builtin_command c then {| sc_Name := sc_Name c; sc_Short := sc_Short c; sc_Hidden := true |} else c) <$> cmds.
Definition shown (c : SubCommand) : bool := negb (sc_Hidden c || builtin_command c).

Section output.
Context `{Lipgloss} `{Terminal W}.

(** lipgloss's [Width(n)] pads. *)
Context (Width : Z → style → style).

(** *** help.go *)

Definition rule (title : string) : string :=
  let dashes := helpWidth - (2 + len title + 2) in
  let dashes := if dashes <? 4 then 4 else dashes in
  Render (Color "#374151") line_char +:+ Render (BoldColor "#F59E0B") (" " +:+ title +:+ " ") +:+
  Render (Color "#374151") (Repeat line_char (Z.to_nat dashes)).

Definition printBox (title : string) (content : M W unit) : M W unit :=
  let! _ := Printf (nl +:+ " " +:+ rule title +:+ nl) in content.

(** A line of cobra's flag usages, as it is printed; [None] when it is left out *)
Definition flag_line (line : string) : option string :=
  let trimmed := TrimSpace line in
  if decide (trimmed = "") then None
  else if Contains_str trimmed "--help" then None
  else
    let idx := Index trimmed "   " in
    if 0 <? idx then
      Some ("  " +:+ Render (BoldColor "#60A5FA") (TrimSpace (take_str (Z.to_nat idx) trimmed)) +:+ "  " +:+
            Render (Color "#9CA3AF") (TrimSpace (drop_str (Z.to_nat idx) trimmed)) +:+ nl)
    else Some ("  " +:+ Render (Color "#9CA3AF") trimmed +:+ nl).

Fixpoint print_lines (lines : list string) : M W unit :=
  match lines with
  | [] => ret tt
  | l :: rest => let! _ := Printf l in print_lines rest
  end.

Definition printFlagLines (usage : string) : M W unit :=
  print_lines (omap flag_line (Split "010" (TrimRight_nl usage))).

Definition command_line (maxLen : Z) (sub : SubCommand) : string :=
  "  " +:+ Render (Width (maxLen + 2) (BoldColor "#34D399")) (sc_Name sub) +:+ "  " +:+
  Render (Color "#9CA3AF") (sc_Short sub) +:+ nl.

Definition command_lines (cmds : list SubCommand) : list string :=
  command_line (maxCmdLen cmds) <$> List.filter shown cmds.

(** [Version] is set when the program is linked. *)
Definition renderHelp (Version : string) (cmd : Command) : M W unit :=
  let! _ := Println "" in
  let! _ := Printf ("  " +:+ Render (BoldColor "#7C3AED") "Gordion VPN" +:+ " " +:+
                    Render (Color "#6B7280") ("(" +:+ Version +:+ ")") +:+ nl) in
  let! _ := Printf ("  " +:+ Render (Color "#9CA3AF") (co_Short cmd) +:+ nl +:+ nl) in
  let usageArg := if co_HasAvailableSubCommands cmd then co_CommandPath cmd +:+ " [command]" else co_UseLine cmd in
  let! _ := Printf ("  " +:+ Render (BoldColor "#A78BFA") "Usage:" +:+ " " +:+ Render (Color "#E5E7EB") usageArg +:+ nl +:+ nl) in
  let! _ := (if co_HasAvailableSubCommands cmd
             then printBox "Commands" (print_lines (command_lines (co_Commands cmd))) else ret tt) in
  let! _ := (match co_LocalFlags cmd with Some usage => printBox "Options" (printFlagLines usage) | None => ret tt end) in
  let! _ := (match co_InheritedFlags cmd with
             | Some usage => printBox "Global Options" (printFlagLines usage) | None => ret tt end) in
  let! _ := (if co_HasAvailableSubCommands cmd
             then Printf ("  " +:+ Render (Color "#4B5563")
                    ("Run " +:+ quoted (co_CommandPath cmd +:+ " [command] --help") +:+ " for more information.") +:+ nl)
             else ret tt) in
  Println "".

(** *** version.go: runtime.GOOS, runtime.GOARCH and runtime.Version() *)

Record VersionOutput : Type := { vo_Version : string; vo_OS : string; vo_Arch : string; vo_GoVer : string }.

(** [json] is json.MarshalIndent. *)
Definition version (json : VersionOutput → res string) (outputJSON : bool) (Version OS Arch GoVer : string) : M W unit :=
  let out := {| vo_Version := Version; vo_OS := OS; vo_Arch := Arch; vo_GoVer := GoVer |} in
  if outputJSON then
    match json out with
    | Err e => throw e
    | Ok data => Println data
    end
  else
    let! _ := Printf (Render Title "Gordion VPN" +:+ " " +:+ Render Bold (vo_Version out) +:+ nl) in
    Printf (Render Dim "runtime:" +:+ " " +:+ vo_OS out +:+ "/" +:+ vo_Arch out +:+ " (" +:+ vo_GoVer out +:+ ")" +:+ nl).

(** *** doctor.go *)

Definition result_row (r : CheckResult) : string :=
  if cr_OK r then
    "  " +:+ Render (Color "#10B981") check_mark +:+ "  " +:+ pad 22 (Render (BoldColor "#E5E7EB") (cr_Name r)) +:+ "  " +:+
    Render Dim (cr_Message r) +:+ nl
  else
    "  " +:+ Render (Color "#EF4444") (utf8 [226; 156; 151]%nat) +:+ "  " +:+
    pad 22 (Render (BoldColor "#EF4444") (cr_Name r)) +:+ "  " +:+ Render (Color "#F59E0B") (cr_Message r) +:+ nl.

Definition verdict (results : list CheckResult) : M W unit :=
  if forallb cr_OK results then printOK "All checks passed"
  else printWarn ("Some checks failed " +:+ dash +:+ " see above for details").

Definition printDoctorResults (results : list CheckResult) : M W unit :=
  let! _ := Println "" in
  let! _ := Printf (" " +:+ Render (BoldColor "#7C3AED") (line_char +:+ " Diagnostics " +:+ Repeat line_char 54) +:+ nl +:+ nl) in
  let! _ := print_lines (result_row <$> results) in
  let! _ := Println "" in
  let! _ := verdict results in
  Println "".

(** The doctor command, over the loader and the checks of CliQueries.v; [json] encodes the results. *)
Definition doctor (load : M W CliConfig.Config) (checks : CliConfig.Config → M W (list CheckResult))
    (json : list CheckResult → string) (outputJSON : bool) : M W unit :=
  let! cfg := wrap_err (Wrapf "load config") load in
  let! results := checks cfg in
  if outputJSON then Printf (json results +:+ nl) else printDoctorResults results.

(** *** root.go

    The exit status, when the command returned; [Eprintln] writes to standard error. *)

Definition Execute (Eprintln : string → M W unit) (command : M W unit) : M W Z :=
  try! r := command in
  match r with
  | Ok _ => ret 0
  | Err e => let! _ := Eprintln (Render Error_ (utf8 [226; 156; 151]%nat) +:+ " " +:+ Error_text (W := W) e) in ret 1
  end.

(** printErrorExit, which nothing calls *)
Definition printErrorExit (Eprintln : string → M W unit) (msg : string) : M W Z :=
  let! _ := Eprintln (Render Error_ (utf8 [226; 156; 151]%nat) +:+ " " +:+ msg) in ret 1.
End output.

(** ** What the output looks like *)

Lemma foldl_max_ge cmds : ∀ max, max ≤ foldl (λ max c, if negb (sc_Hidden c) && (max <? len (sc_Name c))
  then len (sc_Name c) else max) max cmds.
Proof.
  induction cmds as [|c cmds IH]; intros max; simpl; [lia|].
  etrans; [|apply IH]. destruct (sc_Hidden c); simpl; [lia|]. destruct (Z.ltb_spec max (len (sc_Name c))); lia.
Qed.

(** The column of the names is wide enough for each of them. *)
Theorem maxCmdLen_fits cmds c : c ∈ List.filter shown cmds → len (sc_Name c) ≤ maxCmdLen cmds.
Proof.
  unfold maxCmdLen. generalize 0. induction cmds as [|d cmds IH]; intros max; simpl; [by intros ?%elem_of_nil|].
  destruct (shown d) eqn:Hd; [|apply IH]. intros [<-|Hc]%elem_of_cons; [|by apply IH].
  unfold shown in Hd. apply negb_true_iff, orb_false_iff in Hd as [-> _]. simpl.
  etrans; [|apply foldl_max_ge]. destruct (Z.ltb_spec max (len (sc_Name c))); lia.
Qed.

(** After setupHelp the built-in commands are out of the way, and the others are listed as they were. *)
Theorem setupHelp_shown cmds :
  sc_Name <$> List.filter shown (setupHelp cmds) = sc_Name <$> List.filter shown cmds.
Proof.
  unfold setupHelp. induction cmds as [|c cmds IH]; [done|]. rewrite fmap_cons. cbn [List.filter].
  assert (shown (if builtin_command c then {| sc_Name := sc_Name c; sc_Short := sc_Short c; sc_Hidden := true |} else c)
    = shown c) as ->.
  { unfold shown. destruct (builtin_command c) eqn:Hb; [by rewrite !orb_true_r|by rewrite Hb]. }
  destruct (shown c) eqn:Hc; [|done]. rewrite !fmap_cons, IH. f_equal. by destruct (builtin_command c).
Qed.

(** The rule over a box is 71 columns wide, whatever its title, up to 64 bytes of ASCII. *)
Lemma rune_count_app s t : rune_count (s +:+ t) = (rune_count s + rune_count t)%nat.
Proof. induction s as [|c s IH]; simpl; [done|]. rewrite IH. lia. Qed.

Lemma rune_count_Repeat s n : rune_count (Repeat s n) = (n * rune_count s)%nat.
Proof. induction n as [|n IH]; simpl; [done|]. by rewrite rune_count_app, IH. Qed.

Theorem rule_width title :
  rune_count title = String.length title → len title ≤ 64 → rune_count (rule (H := λ _ s, s) title) = 71%nat.
Proof.
  intros Ha Hl. unfold rule, Render, helpWidth. unfold len in *. case_bool; [lia|].
  rewrite !rune_count_app, rune_count_Repeat, Ha. change (rune_count line_char) with 1%nat.
  change (rune_count " ") with 1%nat. lia.
Qed.

(** The summary of doctor is good exactly when every check is. *)
Theorem verdict_correct `{Lipgloss} `{Terminal W} results :
  (Forall (λ r, cr_OK r = true) results → verdict (W := W) results = printOK "All checks passed") ∧
  (Exists (λ r, cr_OK r = false) results →
   verdict (W := W) results = printWarn ("Some checks failed " +:+ dash +:+ " see above for details")).
Proof.
  unfold verdict. split; intros Hr.
  - assert (forallb cr_OK results = true) as ->; [|done]. induction Hr as [|r l Hr _ IH]; simpl; [done|]. by rewrite Hr.
  - assert (forallb cr_OK results = false) as ->; [|done]. induction Hr as [r l Hr|r l _ IH]; simpl; [by rewrite Hr|].
    by rewrite IH, andb_false_r.
Qed.
