(* ===== verification/Tunnel.v ===== *)
(** services/agent/internal/p2p/bridge.go: a packet's way from one WireGuard to the other.

    Between two bridges that share a stream, each direction is: the socket of the relay that WireGuard sends to, the goroutine
    of udpToStream that drops a packet when there is no stream yet and else writes a frame in two calls, the bytes under
    way, and the goroutine of streamToUDP that reads a frame in two calls and sends the packet to the other WireGuard,
    which may fail. [step] interleaves them; a read of the socket may fail at any moment, and so may the stream, in
    the middle of a write; after that the reader may still take what arrived. The specification is a queue of packets:
    [carrying] relates a direction to the packets under way. *)

From S2P Require Import Prelude GoInt Bridge.

(** ** One direction of a stream *)

Record Direction : Type := {
  d_stream : bool;                (* relay.stream is not nil *)
  d_socket : list bytes;          (* datagrams that ReadFromUDP has not taken *)
  d_early : list bytes;           (* those that it took when there was no stream *)
  d_writing : option bytes;       (* writePacket between its two writes: the data *)
  d_wire : bytes;                 (* written and not read *)
  d_reading : option nat;         (* readPacket between its two reads: the length *)
  d_out : list (bytes * bool);    (* the calls of WriteToUDP, and whether they succeeded *)
  d_broken : bool;
}.

(** A relay made with its stream, or one that waits for it *)
Definition fresh (stream : bool) : Direction :=
  {| d_stream := stream; d_socket := []; d_early := []; d_writing := None; d_wire := []; d_reading := None; d_out := [];
     d_broken := false |}.

(** What the other WireGuard receives *)
Definition arrived (d : Direction) : list bytes := map fst (filter (λ o, o.2 = true) (d_out d)).

(** WireGuard sends a datagram to the relay's port; the socket takes it. (One it has no room for is as if it had not been sent.) *)
Definition datagram (p : bytes) (d : Direction) : Direction :=
  {| d_stream := d_stream d; d_socket := d_socket d ++ [p]; d_early := d_early d; d_writing := d_writing d; d_wire := d_wire d;
     d_reading := d_reading d; d_out := d_out d; d_broken := d_broken d |}.

(** The stream that a waiting relay gets *)
Definition attach_stream (d : Direction) : Direction :=
  {| d_stream := true; d_socket := d_socket d; d_early := d_early d; d_writing := d_writing d; d_wire := d_wire d;
     d_reading := d_reading d; d_out := d_out d; d_broken := d_broken d |}.

(** [s.Write]: on a broken stream nothing is written. *)
Definition write (data : bytes) (d : Direction) : bytes := if d_broken d then d_wire d else d_wire d ++ data.

(** udpToStream: ReadFromUDP; without a stream the packet is dropped, else writePacket's first write; its error ends the
    packet. *)
Definition write_header (d : Direction) : option Direction :=
  match d_writing d, d_socket d with
  | None, p :: rest =>
      if d_stream d then
        Some {| d_stream := true; d_socket := rest; d_early := d_early d;
                d_writing := if d_broken d then None else Some p;
                d_wire := write (header (Z.of_nat (length p))) d; d_reading := d_reading d; d_out := d_out d;
                d_broken := d_broken d |}
      else
        Some {| d_stream := false; d_socket := rest; d_early := d_early d ++ [p]; d_writing := None; d_wire := d_wire d;
                d_reading := d_reading d; d_out := d_out d; d_broken := d_broken d |}
  | _, _ => None
  end.

(** writePacket's second write *)
Definition write_data (d : Direction) : option Direction :=
  match d_writing d with
  | Some p => Some {| d_stream := d_stream d; d_socket := d_socket d; d_early := d_early d; d_writing := None;
                      d_wire := write p d; d_reading := d_reading d; d_out := d_out d; d_broken := d_broken d |}
  | None => None
  end.

(** The stream breaks in the middle of one of the two writes, of which [k] bytes still arrive. *)
Definition header_fails (k : nat) (d : Direction) : option Direction :=
  match d_stream d, d_writing d, d_socket d with
  | true, None, p :: rest =>
      Some {| d_stream := true; d_socket := rest; d_early := d_early d; d_writing := None;
              d_wire := write (take k (header (Z.of_nat (length p)))) d; d_reading := d_reading d; d_out := d_out d;
              d_broken := true |}
  | _, _, _ => None
  end.
Definition data_fails (k : nat) (d : Direction) : option Direction :=
  match d_writing d with
  | Some p => Some {| d_stream := d_stream d; d_socket := d_socket d; d_early := d_early d; d_writing := None;
                      d_wire := write (take k p) d; d_reading := d_reading d; d_out := d_out d; d_broken := true |}
  | None => None
  end.

(** streamToUDP: readPacket's first io.ReadFull, when the two bytes have come *)
Definition read_header (d : Direction) : option Direction :=
  match d_reading d, d_wire d with
  | None, hi :: lo :: rest =>
      Some {| d_stream := d_stream d; d_socket := d_socket d; d_early := d_early d; d_writing := d_writing d;
              d_wire := rest; d_reading := Some (Z.to_nat (hi * 256 + lo)); d_out := d_out d; d_broken := d_broken d |}
  | _, _ => None
  end.

(** The second io.ReadFull, when all the data have come, and WriteToUDP, with success or not; after an error the loop goes on. *)
Definition read_data (ok : bool) (d : Direction) : option Direction :=
  match d_reading d with
  | Some n =>
      if (n <=? length (d_wire d))%nat then
        Some {| d_stream := d_stream d; d_socket := d_socket d; d_early := d_early d; d_writing := d_writing d;
                d_wire := drop n (d_wire d); d_reading := None; d_out := d_out d ++ [(take n (d_wire d), ok)];
                d_broken := d_broken d |}
      else None
  | None => None
  end.

Definition break (d : Direction) : Direction :=
  {| d_stream := d_stream d; d_socket := d_socket d; d_early := d_early d; d_writing := d_writing d; d_wire := d_wire d;
     d_reading := d_reading d; d_out := d_out d; d_broken := true |}.

(** What the two goroutines do by themselves. (A ReadFromUDP that fails takes no datagram, and the loop goes on.) *)
Inductive work : Direction → Direction → Prop :=
| work_write_header d d' : write_header d = Some d' → work d d'
| work_write_data d d' : write_data d = Some d' → work d d'
| work_read_header d d' : read_header d = Some d' → work d d'
| work_read_data ok d d' : read_data ok d = Some d' → work d d'.

(** A step, with the datagram that WireGuard sends in it *)
Inductive step : list bytes → Direction → Direction → Prop :=
| step_send p d : (length p ≤ max_packet)%nat → step [p] d (datagram p d)
| step_work d d' : work d d' → step [] d d'
| step_read_error d : step [] d d
| step_attach d : step [] d (attach_stream d)
| step_break d : d_stream d = true → step [] d (break d)
| step_header_fails k d d' : header_fails k d = Some d' → step [] d d'
| step_data_fails k d d' : data_fails k d = Some d' → step [] d d'.

(** The datagrams that were sent on the way from one state to another *)
Inductive steps : list bytes → Direction → Direction → Prop :=
| steps_refl d : steps [] d d
| steps_l ps ps' d d' d'' : step ps d d' → steps ps' d' d'' → steps (ps ++ ps') d d''.

(** Each goroutine alone, without the other in between, does what writePacket and readPacket do. *)
Lemma write_packet_steps p rest d :
  d_stream d = true → d_writing d = None → d_socket d = p :: rest → d_broken d = false →
  ∃ d', write_header d ≫= write_data = Some d' ∧ writePacket pipe_write p (d_wire d) = (d_wire d', Ok tt) ∧
    d_socket d' = rest ∧ d_writing d' = None.
Proof.
  destruct d as [st so ea wr wi re ou br]. simpl. intros -> -> -> ->. eexists. split; [reflexivity|]. simpl.
  rewrite writePacket_pipe. unfold write. simpl. by rewrite <- app_assoc.
Qed.

Lemma read_packet_steps ok d rest p :
  d_reading d = None → readPacket (d_wire d) = (rest, Ok p) →
  ∃ d', read_header d ≫= read_data ok = Some d' ∧ d_wire d' = rest ∧ d_out d' = d_out d ++ [(p, ok)] ∧ d_reading d' = None.
Proof.
  destruct d as [st so ea wr wi re ou br]. simpl. intros ->. unfold readPacket, bind, ReadFull.
  destruct wi as [|hi [|lo wi]]; [done..|]. simpl. rewrite ?drop_0.
  case_match eqn:E; [|done]. intros [= <- <-]. eexists. unfold read_header, read_data. simpl. rewrite E. simpl. done.
Qed.

(** ** The queue behind it *)

Notation small := (λ p : bytes, (length p ≤ max_packet)%nat).

(** What the reader has of the frame it is in *)
Definition read_part (d : Direction) : bytes :=
  match d_reading d with Some n => header (Z.of_nat n) | None => [] end.

(** The packets [q] are under way, and [rest] after them. *)
Record carrying (sent : list bytes) (d : Direction) (q rest : list bytes) : Prop := {
  ca_sent : sent = d_early d ++ map fst (d_out d) ++ q ++ rest;
  ca_small : Forall small q;
  ca_socket : Forall small (d_socket d);
  ca_reading n : d_reading d = Some n → (n ≤ max_packet)%nat;
  ca_bytes : read_part d ++ d_wire d `prefix_of` concat (map frame q);
  ca_whole : d_broken d = false →
    rest = d_socket d ∧ read_part d ++ d_wire d ++ default [] (d_writing d) = concat (map frame q);
  ca_waiting : d_stream d = false → d_broken d = false ∧ d_writing d = None ∧ q = [] ∧ d_out d = [];
}.

Lemma header_inj m n : (m ≤ max_packet)%nat → (n ≤ max_packet)%nat → header (Z.of_nat m) = header (Z.of_nat n) → m = n.
Proof.
  unfold max_packet, header. intros Hm Hn [= E1 E2].
  pose proof (header_value (Z.of_nat m) ltac:(lia)). pose proof (header_value (Z.of_nat n) ltac:(lia)). lia.
Qed.

(** A reader that has something reads it off the first packet under way. *)
Lemma prefix_frame_header hi lo l q : Forall small q → hi :: lo :: l `prefix_of` concat (map frame q) →
  ∃ p q', q = p :: q' ∧ header (Z.of_nat (length p)) = [hi; lo] ∧ hi * 256 + lo = Z.of_nat (length p) ∧
    l `prefix_of` p ++ concat (map frame q').
Proof.
  intros Hq [k Hk]. destruct q as [|p q']; [done|]. apply Forall_cons in Hq as [Hp _]. unfold max_packet in Hp.
  exists p, q'. simpl in Hk. injection Hk as <- <- Hk. split; [done|]. split; [done|]. split; [apply header_value; lia|].
  by exists k.
Qed.

#[local] Opaque header.

(** Before there is a stream *)
Ltac waiting Hn := let Hst := fresh in intros Hst; destruct (Hn Hst) as (? & ? & ? & ?); (split_and!; congruence).

Lemma carrying_fresh stream : carrying [] (fresh stream) [] [].
Proof. split; try done; constructor. Qed.

Lemma send_carrying sent d q rest p : small p → carrying sent d q rest →
  carrying (sent ++ [p]) (datagram p d) q (rest ++ [p]).
Proof.
  intros Hp [-> Hq Hs Hr Hb Hw Hn]. split; simpl;
    [by rewrite <- !app_assoc|done|by apply Forall_app_2; [|constructor]|done..| |exact Hn].
  intros Hbr. by destruct (Hw Hbr) as [-> ?].
Qed.

Lemma attach_carrying sent d q rest : carrying sent d q rest → carrying sent (attach_stream d) q rest.
Proof. by intros [-> Hq Hs Hr Hb Hw Hn]. Qed.

Lemma break_carrying sent d q rest : d_stream d = true → carrying sent d q rest → carrying sent (break d) q rest.
Proof. intros Hst [-> Hq Hs Hr Hb Hw Hn]. split; simpl; try done; try waiting Hn. Qed.

(** A packet leaves the socket for the stream: after its header's first bytes the reader sees a prefix of its frame. *)
Lemma enqueue_carrying sent d q rest p so : d_socket d = p :: so → d_writing d = None → d_broken d = false →
  carrying sent d q rest →
  sent = d_early d ++ map fst (d_out d) ++ (q ++ [p]) ++ so ∧ Forall small (q ++ [p]) ∧ Forall small so ∧
  concat (map frame (q ++ [p])) = (read_part d ++ d_wire d) ++ header (Z.of_nat (length p)) ++ p.
Proof.
  intros Es Ew Ebr [-> Hq Hs Hr Hb Hw Hn]. rewrite Es in *. apply Forall_cons in Hs as [Hp Hs].
  destruct (Hw Ebr) as [-> Hwhole]. rewrite Ew in Hwhole. simpl in Hwhole. rewrite app_nil_r in Hwhole. split_and!.
  - by rewrite <- !app_assoc.
  - by apply Forall_app_2; [|constructor].
  - done.
  - rewrite map_app, concat_app. simpl. by rewrite app_nil_r, Hwhole.
Qed.

Lemma write_header_carrying sent d d' q rest : write_header d = Some d' → carrying sent d q rest →
  ∃ q' rest', carrying sent d' q' rest'.
Proof.
  unfold write_header. destruct (d_writing d) eqn:Ew; [done|]. destruct (d_socket d) as [|p so] eqn:Es; [done|].
  destruct (d_stream d) eqn:Est; intros [= <-] Hc.
  - unfold write. destruct (d_broken d) eqn:Ebr.
    + destruct Hc as [-> Hq Hs Hr Hb Hw Hn]. rewrite Es in Hs. apply Forall_cons in Hs as [Hp Hs].
      exists q, rest. split; simpl; try done; try waiting Hn.
    + destruct (enqueue_carrying _ _ _ _ _ _ Es Ew Ebr Hc) as (Hsent & Hq & Hs & E).
      destruct Hc as [_ _ _ Hr _ _ _]. exists (q ++ [p]), so. split; simpl; try done; try waiting Hn.
      * rewrite E. exists p. unfold read_part. simpl. by rewrite <- !app_assoc.
      * intros _. split; [done|]. rewrite E. unfold read_part. simpl. by rewrite <- !app_assoc.
  - destruct Hc as [-> Hq Hs Hr Hb Hw Hn]. rewrite Es in Hs. apply Forall_cons in Hs as [Hp Hs].
    destruct (Hn Est) as (Ebr & _ & -> & Eo). destruct (Hw Ebr) as [-> Hwhole]. rewrite Ew in Hwhole.
    exists [], so. split; simpl; try done; try waiting Hn. rewrite Es, Eo. simpl. by rewrite <- app_assoc.
Qed.

Lemma write_data_carrying sent d d' q rest : write_data d = Some d' → carrying sent d q rest →
  carrying sent d' q rest.
Proof.
  unfold write_data. destruct (d_writing d) as [p|] eqn:Ew; [|done]. intros [= <-] [-> Hq Hs Hr Hb Hw Hn].
  unfold write. destruct (d_broken d) eqn:Ebr; (split; simpl; try done; try waiting Hn).
  - destruct (Hw eq_refl) as [_ Hwhole]. rewrite Ew in Hwhole. simpl in Hwhole. unfold read_part in *. simpl.
    by rewrite Hwhole.
  - intros _. destruct (Hw eq_refl) as [-> Hwhole]. rewrite Ew in Hwhole. split; [done|]. rewrite app_nil_r. done.
Qed.

Lemma header_fails_carrying k sent d d' q rest : header_fails k d = Some d' → carrying sent d q rest →
  ∃ q' rest', carrying sent d' q' rest'.
Proof.
  unfold header_fails. destruct (d_stream d) eqn:Est; [|done]. destruct (d_writing d) eqn:Ew; [done|].
  destruct (d_socket d) as [|p so] eqn:Es; [done|]. intros [= <-] Hc.
  unfold write. destruct (d_broken d) eqn:Ebr.
  - destruct Hc as [-> Hq Hs Hr Hb Hw Hn]. rewrite Es in Hs. apply Forall_cons in Hs as [Hp Hs].
    exists q, rest. split; simpl; try done; try waiting Hn.
  - destruct (enqueue_carrying _ _ _ _ _ _ Es Ew Ebr Hc) as (Hsent & Hq & Hs & E).
    destruct Hc as [_ _ _ Hr _ _ _]. exists (q ++ [p]), so. split; simpl; try done; try waiting Hn.
    rewrite E. exists (drop k (header (Z.of_nat (length p))) ++ p). unfold read_part. simpl.
    rewrite <- !app_assoc, (app_assoc (take k _)). by rewrite take_drop.
Qed.

Lemma data_fails_carrying k sent d d' q rest : data_fails k d = Some d' → carrying sent d q rest →
  carrying sent d' q rest.
Proof.
  unfold data_fails. destruct (d_writing d) as [p|] eqn:Ew; [|done]. intros [= <-] [-> Hq Hs Hr Hb Hw Hn].
  unfold write. destruct (d_broken d) eqn:Ebr; (split; simpl; try done; try waiting Hn).
  - destruct (Hw eq_refl) as [_ Hwhole]. rewrite Ew in Hwhole. simpl in Hwhole. unfold read_part in *. simpl.
    rewrite <- Hwhole. exists (drop k p). by rewrite <- !app_assoc, take_drop.
Qed.

Lemma read_header_carrying sent d d' q rest : read_header d = Some d' → carrying sent d q rest →
  carrying sent d' q rest.
Proof.
  unfold read_header. destruct (d_reading d) eqn:Er; [done|]. destruct (d_wire d) as [|hi [|lo wi]] eqn:Ewi; [done..|].
  intros [= <-] [-> Hq Hs Hr Hb Hw Hn]. unfold read_part in *. rewrite Er, Ewi in *.
  pose proof (prefix_frame_header _ _ _ _ Hq Hb) as (p & q' & -> & Hh & Hlen & _).
  apply Forall_cons in Hq as Hq'. destruct Hq' as [Hp _].
  rewrite Hlen, Nat2Z.id. split; simpl; try done; try waiting Hn.
  - by intros n [= <-].
  - unfold read_part, frame in *. simpl in *. by rewrite Hh in *.
  - intros Hbr. destruct (Hw Hbr) as [-> Hwhole]. split; [done|].
    unfold read_part, frame in *. simpl in *. by rewrite Hh in *.
Qed.

Lemma read_data_carrying ok sent d d' q rest : read_data ok d = Some d' → carrying sent d q rest →
  ∃ q', carrying sent d' q' rest.
Proof.
  unfold read_data. destruct (d_reading d) as [n|] eqn:Er; [|done].
  destruct (Nat.leb_spec n (length (d_wire d))) as [Hle|]; [|done].
  intros [= <-] [-> Hq Hs Hr Hb Hw Hn]. unfold read_part in *. rewrite Er in *. specialize (Hr n eq_refl).
  pose proof (prefix_frame_header _ _ _ _ Hq Hb) as (p & q' & -> & Hh & _ & [k Hk]).
  apply Forall_cons in Hq as [Hp Hq]. apply (header_inj (length p) n Hp Hr) in Hh as <-.
  assert (take (length p) (d_wire d) = p) as Htake.
  { apply (f_equal (take (length p))) in Hk. rewrite take_app_length in Hk. by rewrite take_app_le in Hk by done. }
  assert (d_wire d = p ++ drop (length p) (d_wire d)) as Hsplit by (rewrite <- Htake at 1; by rewrite take_drop).
  rewrite Hsplit, <- app_assoc in Hk. apply (inj (app p)) in Hk.
  exists q'. rewrite Htake. split; simpl; try done; try waiting Hn.
  - by rewrite map_app, <- !app_assoc.
  - by exists k.
  - intros Hbr. destruct (Hw Hbr) as [-> Hwhole]. split; [done|].
    rewrite Hsplit in Hwhole. unfold frame in Hwhole. rewrite <- !app_assoc in Hwhole.
    by apply (inj (app (header (Z.of_nat (length p))))), (inj (app p)) in Hwhole.
Qed.

Lemma work_carrying sent d d' q rest : work d d' → carrying sent d q rest → ∃ q' rest', carrying sent d' q' rest'.
Proof.
  intros [d1 d2 E|d1 d2 E|d1 d2 E|ok d1 d2 E] Hc.
  - by eapply write_header_carrying.
  - by eexists _, _; eapply write_data_carrying.
  - by eexists _, _; eapply read_header_carrying.
  - destruct (read_data_carrying _ _ _ _ _ _ E Hc) as (q' & Hc'). by exists q', rest.
Qed.

Lemma step_carrying ps sent d d' q rest : step ps d d' → carrying sent d q rest →
  ∃ q' rest', carrying (sent ++ ps) d' q' rest'.
Proof.
  intros [p d1 Hp|d1 d2 Hw|d1|d1|d1 Hst|k d1 d2 E|k d1 d2 E] Hc; [by eexists _, _; eapply send_carrying|..];
    rewrite app_nil_r.
  - by eapply work_carrying.
  - by eexists _, _.
  - by eexists _, _; eapply attach_carrying.
  - by eexists _, _; eapply break_carrying.
  - by eapply header_fails_carrying.
  - by eexists _, _; eapply data_fails_carrying.
Qed.

Lemma steps_carrying ps d d' : steps ps d d' → ∀ sent q rest, carrying sent d q rest →
  ∃ q' rest', carrying (sent ++ ps) d' q' rest'.
Proof.
  induction 1 as [d|ps ps' d d' d'' Hs _ IH]; intros sent q rest Hc; [exists q, rest; by rewrite app_nil_r|].
  rewrite app_assoc. destruct (step_carrying _ _ _ _ _ _ Hs Hc) as (q' & rest' & Hc'). by eapply IH.
Qed.

(** With a stream from the start no packet is dropped for want of one. *)
Lemma step_early ps d d' : step ps d d' → d_stream d = true → d_stream d' = true ∧ d_early d' = d_early d.
Proof.
  intros [p d1 Hp|d1 d2 [x y E|x y E|x y E|ok x y E]|d1|d1|d1 Hst|k d1 d2 E|k d1 d2 E] H1; try done; revert E;
    unfold write_header, write_data, read_header, read_data, header_fails, data_fails; rewrite ?H1; repeat case_match;
    try done; by intros [= <-].
Qed.

Lemma steps_early ps d d' : steps ps d d' → d_stream d = true → d_stream d' = true ∧ d_early d' = d_early d.
Proof.
  induction 1 as [d|ps ps' d d' d'' Hs _ IH]; intros H1; [done|].
  destruct (step_early _ _ _ Hs H1) as [H2 <-]. by apply IH.
Qed.

(** ** Everything is delivered *)

(** What is left to do *)
Definition todo (d : Direction) : nat :=
  sum_list_with (λ p, length p + 5)%nat (d_socket d) + match d_writing d with Some p => length p + 1 | None => 0 end +
  length (d_wire d) + match d_reading d with Some _ => 1 | None => 0 end.

Lemma work_todo d d' : work d d' → (todo d' < todo d)%nat.
Proof.
  unfold todo. intros [d1 d2 E|d1 d2 E|d1 d2 E|ok d1 d2 E]; revert E.
  - unfold write_header. destruct (d_writing d1) eqn:Ew; [done|]. destruct (d_socket d1) as [|p so] eqn:Es; [done|].
    destruct (d_stream d1); intros [= <-]; simpl; [|lia]. unfold write. destruct (d_broken d1); rewrite ?length_app; [lia|].
    change (length (header _)) with 2%nat. lia.
  - unfold write_data. destruct (d_writing d1) as [p|] eqn:Ew; [|done]. intros [= <-]. simpl. unfold write.
    destruct (d_broken d1); rewrite ?length_app; lia.
  - unfold read_header. destruct (d_reading d1) eqn:Er; [done|]. destruct (d_wire d1) as [|hi [|lo wi]] eqn:Ewi; [done..|].
    intros [= <-]. simpl. lia.
  - unfold read_data. destruct (d_reading d1) as [n|] eqn:Er; [|done]. case_match; [|done]. intros [= <-]. simpl.
    rewrite length_drop. lia.
Qed.

(** Where neither goroutine can go on and the stream is whole, nothing is left. *)
Lemma idle_delivered sent d q rest : carrying sent d q rest → d_broken d = false → (∀ d', ¬ work d d') →
  sent = d_early d ++ map fst (d_out d).
Proof.
  intros [-> Hq Hs Hr Hb Hw Hn] Hbr Hidle. destruct (Hw Hbr) as [-> Hwhole]. unfold read_part in *.
  assert (d_writing d = None) as Ew.
  { destruct (d_writing d) eqn:E; [|done]. edestruct Hidle. apply work_write_data. unfold write_data. by rewrite E. }
  assert (d_socket d = []) as ->.
  { destruct (d_socket d) eqn:E; [done|]. destruct (d_stream d) eqn:Est; edestruct Hidle; apply work_write_header;
      unfold write_header; by rewrite Ew, E, Est. }
  rewrite Ew in Hwhole. simpl in Hwhole. rewrite app_nil_r in Hwhole.
  destruct q as [|p q]; [by rewrite !app_nil_r|]. exfalso.
  destruct (d_reading d) as [n|] eqn:Er.
  - apply Forall_cons in Hq as [Hp Hq]. simpl in Hwhole. unfold frame in Hwhole. rewrite <- app_assoc in Hwhole.
    apply app_inj_1 in Hwhole as [Hlen Hwire]; [|done].
    apply (header_inj n (length p) (Hr n eq_refl) Hp) in Hlen as ->.
    edestruct Hidle. apply (work_read_data true). unfold read_data. rewrite Er, Hwire, length_app.
    case_match eqn:E; [done|]. apply Nat.leb_gt in E. lia.
  - simpl in Hwhole. edestruct Hidle. apply work_read_header. unfold read_header. rewrite Er, Hwhole.
    unfold frame. reflexivity.
Qed.

Lemma work_whole d d' : work d d' → d_broken d' = d_broken d.
Proof.
  intros [d1 d2 E|d1 d2 E|d1 d2 E|ok d1 d2 E]; revert E; unfold write_header, write_data, read_header, read_data;
    repeat case_match; try done; by intros [= <-].
Qed.

Lemma work_dec d : (∃ d', work d d') ∨ ∀ d', ¬ work d d'.
Proof.
  destruct (write_header d) as [d'|] eqn:E1; [by left; exists d'; apply work_write_header|].
  destruct (write_data d) as [d'|] eqn:E2; [by left; exists d'; apply work_write_data|].
  destruct (read_header d) as [d'|] eqn:E3; [by left; exists d'; apply work_read_header|].
  destruct (read_data true d) as [d'|] eqn:E4; [by left; exists d'; apply (work_read_data true)|].
  right. intros d' Hw. destruct Hw as [| | |ok ? ? E]; try congruence. revert E E4. unfold read_data.
  repeat case_match; congruence.
Qed.

Lemma work_ends n : ∀ d, (todo d ≤ n)%nat → ∃ d', rtc work d d' ∧ ∀ d'', ¬ work d' d''.
Proof.
  induction n as [|n IH]; intros d Hn; (destruct (work_dec d) as [[d1 Hw]|Hi]; [|by exists d]);
    pose proof (work_todo _ _ Hw); [lia|].
  destruct (IH d1 ltac:(lia)) as (d2 & Hr & Hi). exists d2. split; [by eapply rtc_l|done].
Qed.

Lemma work_bounded n : ∀ d d', nsteps work n d d' → (n ≤ todo d)%nat.
Proof.
  induction n as [|n IH]; intros d d' Hn; [lia|]. inversion Hn as [|? ? d1 ? Hw Hr]; subst.
  apply work_todo in Hw. apply IH in Hr. lia.
Qed.

(** C9: A direction of a tunnel is a queue of packets, whatever the order in which WireGuard, the goroutine that writes and the
    one that reads take their steps, and whatever fails. The packets that went in are, in order and each whole: those that were
    dropped because the relay had no stream yet, which are none if it was made with one; those that were given to
    WriteToUDP, of which those arrive for which it succeeds; those of which bytes are under way; and the rest, which, as long as the
    stream is whole, are those that still wait in the socket. *)
Theorem tunnel_is_a_queue stream sent d :
  steps sent (fresh stream) d →
  ∃ under_way rest, sent = d_early d ++ map fst (d_out d) ++ under_way ++ rest ∧
    read_part d ++ d_wire d `prefix_of` concat (map frame under_way) ∧
    (stream = true → d_early d = []) ∧
    (d_broken d = false → rest = d_socket d ∧
       read_part d ++ d_wire d ++ default [] (d_writing d) = concat (map frame under_way)).
Proof.
  intros Hs. destruct (steps_carrying _ _ _ Hs [] [] [] (carrying_fresh stream)) as (q & rest & [Hsent _ _ _ Hb Hw _]).
  exists q, rest. split_and!; [done..| |done]. intros ->. by apply steps_early in Hs as [_ ?].
Qed.

(** C10: Every packet is given to WriteToUDP: while the stream is whole, WireGuard is silent and no read of the socket fails, the
    two goroutines can go on, in any order, for at most [todo] steps; when they can go no further, every packet that was sent
    is in the calls of WriteToUDP, once and in order, but for those dropped before there was a stream; and if those
    calls succeed, every such packet has arrived. *)
Theorem tunnel_delivers stream sent d :
  steps sent (fresh stream) d → d_broken d = false →
  (∀ n d', nsteps work n d d' → (n ≤ todo d)%nat) ∧
  (∀ d', rtc work d d' → (∀ d'', ¬ work d' d'') →
     sent = d_early d' ++ map fst (d_out d') ∧ (stream = true → d_early d' = []) ∧
     (Forall (λ o, o.2 = true) (d_out d') → sent = d_early d' ++ arrived d')) ∧
  ∃ d', rtc work d d' ∧ ∀ d'', ¬ work d' d''.
Proof.
  intros Hs Hbr. destruct (steps_carrying _ _ _ Hs [] [] [] (carrying_fresh stream)) as (q & rest & Hc). simpl in Hc.
  split; [intros n d'; apply work_bounded|]. split; [|by eapply work_ends].
  intros d' Hr Hidle. assert (sent = d_early d' ++ map fst (d_out d')) as Hsent.
  { clear Hs. induction Hr as [d|d d1 d2 Hw _ IH] in q, rest, Hc, Hbr, Hidle |- *; [by eapply idle_delivered|].
    destruct (work_carrying _ _ _ _ _ Hw Hc) as (q' & rest' & Hc'). eapply IH; [|exact Hc'|done].
    by rewrite (work_whole _ _ Hw). }
  split; [done|]. split.
  - intros ->. apply steps_early in Hs as [Hst He]; [|done].
    assert (d_stream d' = true ∧ d_early d' = []) as [_ ?]; [|done].
    clear Hbr Hc Hidle Hsent. induction Hr as [d|d d1 d2 Hw _ IH]; [done|].
    destruct (step_early [] d d1 (step_work _ _ Hw) Hst) as [Hst1 He1]. apply IH; [done|by rewrite He1].
  - intros Hall. rewrite Hsent at 1. unfold arrived. do 2 f_equal. symmetry. clear -Hall.
    induction Hall as [|o out Ho _ IH]; [done|]. by rewrite filter_cons_True, IH.
Qed.

(** C15: The two sides of a pair of peers have the same stream, whichever of the waiting side's AddPeer and the stream comes first: the
    one with the larger id opens it, each WireGuard sends to the port it was given, and what the other's WireGuard sends comes
    from that very port. *)
Theorem sides_share_stream base a b s ba bb ba' bb1 bb2 port_a port_b :
  bridge_ok base bb → waits b a = true → peers ba !! b = None → peers bb !! a = None →
  AddPeer a b (Ok s) true ba = (ba', Ok port_a) →
  (AddPeer b a (Err EOF) true bb = (bb1, Ok port_b) ∧ bb2 = incoming a s true bb1 ∨
   bb1 = incoming a s true bb ∧ AddPeer b a (Err EOF) true bb1 = (bb2, Ok port_b)) →
  relay_of ba' b = Some (bridged port_a s) ∧ relay_of bb2 a = Some (bridged port_b s).
Proof.
  intros Hb Hw Ha Hpb Hadd Horder.
  split; [|by eapply waiting_side_relay]. eapply initiating_side_relay; [|exact Ha|exact Hadd].
  unfold waits in *. rewrite String.compare_antisym. by destruct (String.compare b a).
Qed.

(** ** Witnesses *)

(** Three packets are sent, the first before there is a stream; the second is written but for its data, and read but for its data. *)
Definition halfway : Direction :=
  {| d_stream := true; d_socket := [[4]]; d_early := [[9]]; d_writing := Some [1; 2; 3]; d_wire := [];
     d_reading := Some 3%nat; d_out := []; d_broken := false |}.

Lemma halfway_reached : steps [[9]; [1; 2; 3]; [4]] (fresh false) halfway.
Proof.
  apply (steps_l [[9]] [[1; 2; 3]; [4]] _ (datagram [9] (fresh false)));
    [apply step_send; unfold max_packet; cbn [length]; lia|].
  eapply (steps_l [] [[1; 2; 3]; [4]]); [apply step_work, work_write_header; vm_compute; reflexivity|].
  eapply (steps_l [] [[1; 2; 3]; [4]]); [apply step_attach|].
  eapply (steps_l [[1; 2; 3]] [[4]]); [apply step_send; unfold max_packet; cbn [length]; lia|].
  eapply (steps_l [[4]] []); [apply step_send; unfold max_packet; cbn [length]; lia|].
  eapply (steps_l [] []); [apply step_read_error|].
  eapply (steps_l [] []); [apply step_work, work_write_header; vm_compute; reflexivity|].
  eapply (steps_l [] []); [apply step_work, work_read_header; vm_compute; reflexivity|]. apply steps_refl.
Qed.

Lemma tunnel_is_a_queue_witness :
  ∃ under_way rest, [[9]; [1; 2; 3]; [4]] = d_early halfway ++ map fst (d_out halfway) ++ under_way ++ rest ∧
    read_part halfway ++ d_wire halfway `prefix_of` concat (map frame under_way).
Proof.
  destruct (tunnel_is_a_queue _ _ _ halfway_reached) as (q & rest & E & Hp & _). exists q, rest. split; [exact E|exact Hp].
Defined.

Lemma tunnel_delivers_witness :
  ∃ d', rtc work halfway d' ∧ ∀ d'', ¬ work d' d''.
Proof. exact (proj2 (proj2 (tunnel_delivers _ _ _ halfway_reached eq_refl))). Defined.

Lemma sides_share_stream_witness :
  relay_of (incoming "x" 7%nat true bridge0) "x" = Some (bridged 51920 7%nat).
Proof.
  refine (proj2 (sides_share_stream 51920 "x" "a" 7%nat bridge0 bridge0 _ _ _ 51920 51920 (NewBridge_ok _ _)
    _ _ _ _ _)).
  - vm_compute. reflexivity.
  - reflexivity.
  - reflexivity.
  - apply run_snd. vm_compute. reflexivity.
  - right. split; [reflexivity|]. vm_compute. reflexivity.
Defined.
