(* ===== verification/Routing.v ===== *)
(** Whose address a listed peer has: the leases of the config service against the listings of the discovery service.

    An agent routes a VPN address to the peer that a listing gives it for, and the discovery service lists what peers say
    of themselves. [careful] is the discipline under which that is sound: a node registers the address that is leased to
    it, and gives an address back when its record has gone. Then every listed address is leased to the node it is
    listed for. The services check neither, and the agents keep the first half only. *)

From S2P Require Import Prelude GoInt GoStrings GoNet Redis Grpc Auth Backend.
From S2P Require Allocator IdentityStore Identity ConfigService Registry Discovery.

(** ** Commands that write no record *)

Section unwritten.
Context `{RedisLaws R}.
Implicit Types s : R.

(** Every record that is there in the end was there before. *)
Definition unwritten s s' : Prop :=
  ∀ node v x, r_entry s' (Registry.peer_key node) = Some (v, x) → ∃ x', r_entry s (Registry.peer_key node) = Some (v, x').

#[export] Instance unwritten_preorder : PreOrder unwritten.
Proof.
  split; [by intros s node v x E; exists x|]. intros s1 s2 s3 E1 E2 node v x (x' & Hx)%E2. by eapply E1.
Qed.

Lemma prune_Some t e (v : entry) : prune t e = Some v → e = Some v.
Proof. unfold prune. repeat case_match; congruence. Qed.

Lemma only_unwritten K T s s' : (∀ node, ¬ K (Registry.peer_key node)) → only K T s s' → unwritten s s'.
Proof. intros HK [_ He _] node v x E. rewrite He in E by apply HK. apply prune_Some in E. by exists x. Qed.

Lemma quiet_unwritten s s' : quiet s s' → unwritten s s'.
Proof. intros (_ & He & _) node v x E. rewrite He in E. apply prune_Some in E. by exists x. Qed.

Lemma renewing_unwritten c : renewing c → runs unwritten (rdo c).
Proof.
  intros Hc. apply rdo_runs. intros s s' [(_ & He & _)|Hq]; [|by apply quiet_unwritten]. intros node v x E. rewrite He in E.
  destruct c; try done; simpl in E; repeat case_match; simplify_eq;
    match goal with E : prune _ _ = _ |- _ => apply prune_Some in E end; eauto.
Qed.

Lemma record_of_unwritten `{Registry.PeerJSON} s s' node p :
  unwritten s s' → Registry.record_of s' node p → Registry.record_of s node p.
Proof. intros Hu (v & x & (x' & E)%Hu & Hp). by exists v, x'. Qed.
End unwritten.

(** ** The discipline *)

Section careful.
Context `{Identity.JWT} (svc : Identity.IdentityService) (dh : Discovery.DiscoveryHandler).
Context `{Registry.PeerJSON} `{Net6} `{RedisLaws R, !RedisUp R} `{Clock R}.
#[local] Instance careful_tokens : TokenService Identity.World := tokens svc.
#[local] Instance careful_laws : TokenLaws Identity.World := Identity.identity_laws svc.
Implicit Types (b : Backend R) (s : R).

(** The steps of [Backend.step], two of them with a condition: a caller registers the address that is leased to its
    node, in valid text; and an address is given back when its node has no record any more. *)
Inductive careful : relation (Backend R) :=
| careful_register ctx req b b' r :
    (∀ node, token_of (b_identity b') (Discovery.rg_Token req) node → leased b node (Discovery.rg_IpAddress req)) →
    (∀ node t, Registry.valid_text (Registry.set_LastSeen t (Discovery.peer_of_request node req))) →
    on_discovery (Discovery.RegisterPeer dh ctx req) b = (b', r) → careful b b'
| careful_release ctx req b b' resp :
    (∀ node, leased b node (ConfigService.rl_IpAddress req) → node = ConfigService.rl_NodeId req) →
    (∀ p, ¬ Registry.record_of (b_redis b) (ConfigService.rl_NodeId req) p) →
    on_config (ConfigService.ReleaseIP ctx req) b = (b', Ok resp) → careful b b'
| careful_refused ctx req b b' e :
    on_config (ConfigService.ReleaseIP ctx req) b = (b', Err e) → b_redis b' = b_redis b → careful b b'
| careful_request ctx req b b' r : on_config (ConfigService.RequestIP ctx req) b = (b', r) → careful b b'
| careful_identity b w : Identity.ops_step svc (b_identity b) w → careful b (set_identity w b)
| careful_get_config ctx req b b' r : on_config (ConfigService.GetConfig ctx req) b = (b', r) → careful b b'
| careful_reload cidr mtu dns b : careful b (set_handler (ConfigService.ReloadConfig cidr mtu dns (b_config b)) b)
| careful_list ctx req b b' r : on_discovery (Discovery.ListPeers dh ctx req) b = (b', r) → careful b b'
| careful_heartbeat ctx req b b' r : on_discovery (Discovery.Heartbeat dh ctx req) b = (b', r) → careful b b'
| careful_cleanup b s r :
    Registry.CleanupStale (Discovery.registry dh) (b_redis b) = (s, r) → careful b (set_redis s b)
| careful_time b s : quiet (b_redis b) s → careful b (set_redis s b).

Lemma careful_step b b' : careful b b' → ∃ l, step svc dh ∅ l b b'.
Proof.
  destruct 1; eexists;
    [by eapply step_register|by eapply step_release|eapply step_refused; [done|]; by match goal with E : b_redis _ = _ |- _ => rewrite E; apply quiet_refl end|by eapply step_request|by apply step_identity
    |by eapply step_get_config|apply step_reload|by eapply step_list|by eapply step_heartbeat|by eapply step_cleanup
    |by apply step_time].
Qed.

(** ** The invariant *)

(** Every record is its node's, with an address leased to the node. *)
Definition addressed b : Prop := ∀ node p, Registry.record_of (b_redis b) node p →
  Registry.NodeID p = node ∧ leased b node (Discovery.parse_endpoint (Registry.Endpoint p)).1.

(** A step that writes no record and changes no lease of a node that has one *)
Lemma addressed_keep b b' :
  unwritten (b_redis b) (b_redis b') →
  (∀ node p ip, Registry.record_of (b_redis b') node p → leased b node ip → leased b' node ip) →
  addressed b → addressed b'.
Proof.
  intros Hu Hl Ha node p Hp. destruct (Ha node p) as [Hn Hip]; [by eapply record_of_unwritten|].
  split; [done|]. by eapply Hl.
Qed.

Context (n : IPNet) (ones : nat) (Hn : cidr_net ones n) (Hones : (1 ≤ ones)%nat).

(** A node that has an address keeps it when it asks for one. *)
Lemma request_keeps ctx req b b' r node ip : good ∅ n ones b →
  on_config (ConfigService.RequestIP ctx req) b = (b', r) → leased b node ip → leased b' node ip.
Proof.
  intros Hg (st & Hr & ->)%on_config_inv Hl. destruct (good_leases _ _ _ _ Hg) as (t & Hs & _).
  apply (RequestIP_world svc) in Hr as [[Hw _]|(x & Ha & _)]; [unfold leased in *; simpl in *; by rewrite Hw|].
  pose proof (Allocator.AllocateIP_up (Allocator.allocator_of n) ones (ConfigService.rq_NodeId req)
    (ConfigService.st_world (config_state b)) t Hn Hones Hs) as Hup.
  destruct (Allocator.table_allocate _ _ _ _) as [t' y] eqn:Et. destruct Hup as (w' & Ew & Hs' & _).
  simpl in Ha, Ew. rewrite (good_allocator _ _ _ _ Hg), Ew in Ha. injection Ha as -> ->.
  rewrite (leased_table _ _ _ _ Hs) in Hl. rewrite (leased_table (put_config st b) _ _ _ Hs').
  unfold Allocator.table_allocate in Et.
  destruct (decide (ConfigService.rq_NodeId req = node)) as [<-|Hne]; [rewrite Hl in Et; by injection Et as <- <-|].
  repeat case_match; simplify_eq/=; try done. by rewrite lookup_insert_ne.
Qed.

(** The calls that write no record *)
Lemma config_unwritten {A} (m : M (ConfigService.State R Identity.World) A) b b' r :
  runs (config_rel svc) m → on_config m b = (b', r) → unwritten (b_redis b) (b_redis b').
Proof.
  intros Hm (st & (_ & _ & Hr)%Hm & ->)%on_config_inv. eapply only_unwritten; [|exact Hr].
  intros node Hk. eapply lease_not_record; [exact Hk|by exists node].
Qed.

Lemma discovery_unwritten {A B} (m : string → M (Registry.World R) A) (k : A → B) f ctx token b b' r :
  (∀ node, runs (over Registry.redis unwritten) (m node)) →
  on_discovery (let! node := wrap_err (StatusErrf Unauthenticated "auth failed") (Discovery.resolveNodeID dh ctx token) in
    let! a := wrap_err f (Discovery.in_world (m node)) in ret (k a)) b = (b', r) →
  unwritten (b_redis b) (b_redis b').
Proof.
  intros Hm (st & Hr & ->)%on_discovery_inv.
  apply Discovery.disc_guarded_inv in Hr as [(e & _ & Hw)|(a & node & w & x & _ & Hw%Hm & Hx)].
  - simpl. by rewrite Hw.
  - destruct x as [y|e]; [injection Hx as <- <-|destruct Hx as [_ ->]]; exact Hw.
Qed.

(** The address of an endpoint, when it is one that the config service gives *)
Lemma endpoint_leased b node ip port : good ∅ n ones b → leased b node ip →
  (Discovery.parse_endpoint (ip +:+ ":" +:+ Itoa port)).1 = ip.
Proof.
  intros Hg Hl. destruct (leased_address ∅ n ones Hn b node ip Hg Hl) as (_ & x & -> & _).
  apply Discovery.parse_endpoint_address. by apply IP_String_no_char; [apply ip4_ok|..].
Qed.

(** What a registration leaves behind, whether it failed or not: the record of the caller, or what was there *)
Lemma Register_record r q s s' x node p :
  Registry.valid_text (Registry.set_LastSeen (unix_of_time (Now s)) q) → Registry.Register r q s = (s', x) →
  Registry.record_of s' node p →
  Registry.record_of s node p ∨ node = Registry.NodeID q ∧ p = Registry.set_LastSeen (unix_of_time (Now s)) q.
Proof.
  intros Hv Hr Hp. unfold Registry.Register, Registry.now in Hr. unfold bind in Hr at 1.
  assert (∀ s1, s1 = s ∨ did (SET (Registry.peer_key (Registry.NodeID q))
      (Registry.Marshal (Registry.set_LastSeen (unix_of_time (Now s)) q)) (Registry.ttl r)) s s1 ∨ quiet s s1 →
    unwritten s1 s' → Registry.record_of s node p ∨ node = Registry.NodeID q ∧ p = Registry.set_LastSeen (unix_of_time (Now s)) q)
    as Hfirst.
  { intros s1 [Heq|[(_ & He & _)|Hq]] Hu; [rewrite Heq in Hu; left; by eapply record_of_unwritten| |].
    - destruct (record_of_unwritten _ _ _ _ Hu Hp) as (v & y & E & Hj). rewrite He in E. simpl in E.
      case_decide as Hk; [right|left; apply prune_Some in E; by exists v, y].
      apply Registry.peer_key_inj in Hk as <-. injection E as <- <-.
      rewrite Registry.Unmarshal_Marshal in Hj by done. by injection Hj as <-.
    - left. eapply record_of_unwritten; [|exact Hp]. trans s1; [by apply quiet_unwritten|done]. }
  apply bind_inv in Hr as [(e & E & ->)|(s1 & [] & E & Hr)].
  - apply wrap_err_inv in E as [(? & E & [=])|(e' & E & _)]. apply unit_call in E as [Hd|(_ & _ & Hq)];
      (apply (Hfirst s'); [auto|reflexivity]).
  - apply wrap_err_inv in E as [([] & E & _)|(e' & E & [=])]. apply unit_call_ok in E.
    apply (Hfirst s1); [by auto|]. apply wrap_err_inv in Hr as [(y & Hr & _)|(e' & Hr & _)].
    all: apply unit_call in Hr as [(_ & He & _)|(_ & _ & Hq)]; [|by apply quiet_unwritten].
    all: intros nd v z E'; rewrite He in E'; apply prune_Some in E'; by exists z.
Qed.

Lemma register_addressed ctx req b b' r :
  Discovery.authClient dh = true → good ∅ n ones b →
  (∀ node, token_of (b_identity b') (Discovery.rg_Token req) node → leased b node (Discovery.rg_IpAddress req)) →
  (∀ node t, Registry.valid_text (Registry.set_LastSeen t (Discovery.peer_of_request node req))) →
  on_discovery (Discovery.RegisterPeer dh ctx req) b = (b', r) → addressed b → addressed b'.
Proof.
  intros Hauth Hg Hown Hv Hr Ha.
  pose proof (step_effect svc dh ∅ n ones Hn Hones None b b' Hg (step_register _ _ _ _ _ _ _ _ Hr)) as [_ _ Hl].
  assert (∀ nd ip, leased b nd ip → leased b' nd ip) as Hkeep by (intros nd ip; by apply Hl). clear Hl.
  apply on_discovery_inv in Hr as (st & Hr & ->). unfold Discovery.RegisterPeer in Hr.
  case_decide; [injection Hr as <- <-; exact Ha|]. case_decide; [injection Hr as <- <-; exact Ha|].
  apply Discovery.disc_guarded_inv in Hr as [(e & _ & Hw)|(a & node & w & x & Ht & Hm & Hx)].
  { intros nd p Hp. simpl in Hp. rewrite Hw in Hp. destruct (Ha nd p Hp) as [? ?]. split; [done|]. by apply Hkeep. }
  assert (Discovery.st_world st = w ∧ Discovery.st_auth st = a) as [Hstw Hsta].
  { destruct x as [[]|e]; [by injection Hx as <- <-|by destruct Hx as [_ ->]]. }
  apply Discovery.disc_on_redis_inv in Hm. intros nd p Hp. simpl in Hp. rewrite Hstw in Hp.
  destruct (Register_record _ _ _ _ _ nd p (Hv _ _) Hm Hp) as [Hp'|[-> ->]].
  - destruct (Ha nd p Hp') as [? ?]. split; [done|]. by apply Hkeep.
  - split; [done|]. apply Hkeep. simpl.
    assert (leased b node (Discovery.rg_IpAddress req)) as Hlease by (apply Hown; simpl; rewrite Hsta; by apply Ht).
    by rewrite (endpoint_leased b node).
Qed.

Lemma list_unwritten ctx req b b' r :
  on_discovery (Discovery.ListPeers dh ctx req) b = (b', r) → unwritten (b_redis b) (b_redis b').
Proof.
  unfold Discovery.ListPeers. cbv zeta. case_decide; [by intros (st & [= <- <-] & ->)%on_discovery_inv|].
  apply discovery_unwritten. intros _. apply ListOnlinePeers_renews; [exact _|exact renewing_unwritten].
Qed.

Lemma heartbeat_unwritten ctx req b b' r :
  on_discovery (Discovery.Heartbeat dh ctx req) b = (b', r) → unwritten (b_redis b) (b_redis b').
Proof.
  unfold Discovery.Heartbeat. case_decide; [by intros (st & [= <- <-] & ->)%on_discovery_inv|].
  apply (discovery_unwritten (λ node, Registry.on_redis (Registry.Heartbeat (Discovery.registry dh) node))).
  intros node. apply (runs_zoom _ _ _ unwritten); [done|]. apply Heartbeat_renews; [exact _|exact renewing_unwritten].
Qed.

Lemma careful_addressed b b' :
  Discovery.authClient dh = true → careful b b' → good ∅ n ones b ∧ addressed b → good ∅ n ones b' ∧ addressed b'.
Proof.
  intros Hauth Hc [Hg Ha]. destruct (careful_step _ _ Hc) as [l Hst].
  pose proof (step_effect svc dh ∅ n ones Hn Hones l b b' Hg Hst) as [Hg' _ _]. split; [done|]. clear l Hst Hg'.
  assert (∀ b', step svc dh ∅ None b b' → unwritten (b_redis b) (b_redis b') → addressed b') as Hplain.
  { intros b2 Hst Hu. eapply addressed_keep; [exact Hu| |done]. intros node p ip _.
    by apply (effect_lease _ _ _ _ _ _ (step_effect svc dh ∅ n ones Hn Hones None b b2 Hg Hst)). }
  destruct Hc as [ctx req b b' r Hown Hv Hr|ctx req b b' resp Hown Hgone Hr|ctx req b b' e Hr Hs|ctx req b b' r Hr
    |b w Hop|ctx req b b' r Hr|cidr mtu dns b|ctx req b b' r Hr|ctx req b b' r Hr|b s r Hr|b s Hq].
  - by eapply register_addressed.
  - eapply addressed_keep; [eapply config_unwritten; [exact (ReleaseIP_rel svc ctx req)|exact Hr]| |done]. intros node p ip Hp.
    destruct (decide (node = ConfigService.rl_NodeId req)) as [->|Hne].
    { exfalso. eapply Hgone, record_of_unwritten; [|exact Hp]. eapply config_unwritten; [exact (ReleaseIP_rel svc ctx req)|exact Hr]. }
    pose proof (release_effect svc ∅ n ones ctx req b b' resp Hg Hown Hr) as [_ _ Hl]. apply Hl. congruence.
  - apply Hplain; [eapply step_refused; [exact Hr|by rewrite Hs; apply quiet_refl]|by rewrite Hs].
  - eapply addressed_keep; [eapply config_unwritten; [exact (RequestIP_rel svc ctx req)|exact Hr]| |done]. intros node p ip _.
    by eapply request_keeps.
  - apply Hplain; [by apply step_identity|done].
  - apply Hplain; [by eapply step_get_config|]. eapply config_unwritten; [exact (GetConfig_rel svc ctx req)|exact Hr].
  - apply Hplain; [apply step_reload|done].
  - apply Hplain; [by eapply step_list|by eapply list_unwritten].
  - apply Hplain; [by eapply step_heartbeat|by eapply heartbeat_unwritten].
  - apply Hplain; [by eapply step_cleanup|]. by eapply (CleanupStale_renews unwritten renewing_unwritten).
  - apply Hplain; [by apply step_time|by apply quiet_unwritten].
Qed.

Lemma careful_run b b' :
  Discovery.authClient dh = true → rtc careful b b' → good ∅ n ones b ∧ addressed b → good ∅ n ones b' ∧ addressed b'.
Proof. intros Hauth. induction 1 as [|b1 b2 b3 Hc _ IH]; [done|]. intros Hi. by eapply IH, careful_addressed. Qed.

(** What a listing answers is read off records. *)
Lemma listed_record ctx req b b' resp info :
  on_discovery (Discovery.ListPeers dh ctx req) b = (b', Ok resp) → info ∈ Discovery.lp_Peers resp →
  ∃ node p, Registry.record_of (b_redis b) node p ∧ info = Discovery.to_proto p.
Proof.
  intros (st & Hr & ->)%on_discovery_inv Hin. unfold Discovery.ListPeers in Hr. cbv zeta in Hr. case_decide; [done|].
  apply Discovery.disc_guarded_inv in Hr as [(e & [=] & _)|(a & nd & w & [ps|e] & _ & Hm & Hx)]; [|by destruct Hx].
  injection Hx as <- <-. cbn [Discovery.lp_Peers] in Hin.
  destruct (Registry.ListOnlinePeers_up (Discovery.registry dh) (Discovery.st_world (discovery_state b)))
    as (w2 & qs & E & Hall & _).
  rewrite Hm in E. injection E as <- <-.
  assert (info ∈ map Discovery.to_proto ps) as (p & -> & Hp)%list_elem_of_fmap.
  { unfold Discovery.apply_limit in Hin. case_match; [done|]. by eapply elem_of_take in Hin as (i & Hi & _); eapply list_elem_of_lookup_2. }
  destruct (proj1 (Forall_forall _ _) Hall p Hp) as (node & _ & Hrec). by exists node, p.
Qed.
End careful.

(** ** Properties *)

Section properties.
Context `{Identity.JWT} (svc : Identity.IdentityService) (dh : Discovery.DiscoveryHandler).
Context `{Registry.PeerJSON} `{Net6} `{RedisLaws R, !RedisUp R} `{Clock R}.
#[local] Instance routing_tokens : TokenService Identity.World := tokens svc.

(** C11: The services together, against a Redis server that answers, when every node registers the address that is leased to
    it and gives it back when its record has gone. Whatever calls, failures of the identity service's database, clean-ups, reloads and waits
    there have been since the services were set up, a listing gives for every peer the address that is leased to that
    peer's node: it lies in the network, is not the gateway, and is listed for no other node. *)
Theorem listed_addresses_leased n ones (b b1 b2 : Backend R) ctx req resp :
  cidr_net ones n → (1 ≤ ones)%nat → Discovery.authClient dh = true →
  set_up n b → (∀ node p, ¬ Registry.record_of (b_redis b) node p) →
  rtc (careful svc dh) b b1 → on_discovery (Discovery.ListPeers dh ctx req) b1 = (b2, Ok resp) →
  ∀ p, p ∈ Discovery.lp_Peers resp →
    leased b1 (Discovery.pi_NodeId p) (Discovery.pi_IpAddress p) ∧
    Discovery.pi_IpAddress p ≠ Allocator.Gateway (Allocator.allocator_of n) ∧
    (∃ x, Discovery.pi_IpAddress p = IP_String (ip4 x) ∧ Contains n (ip4 x) = true) ∧
    ∀ q, q ∈ Discovery.lp_Peers resp → Discovery.pi_IpAddress q = Discovery.pi_IpAddress p →
      Discovery.pi_NodeId q = Discovery.pi_NodeId p.
Proof.
  intros Hn Hones Hauth Hup Hnone Hrun Hlist.
  destruct (careful_run svc dh n ones Hn Hones b b1 Hauth Hrun) as [Hg Ha].
  { split; [by eapply set_up_good|]. intros node p Hp. by apply Hnone in Hp. }
  assert (∀ p, p ∈ Discovery.lp_Peers resp → leased b1 (Discovery.pi_NodeId p) (Discovery.pi_IpAddress p)) as Hleased.
  { intros info Hin. destruct (listed_record svc dh _ _ _ _ _ _ Hlist Hin) as (node & p & Hrec & ->).
    destruct (Ha node p Hrec) as [<- Hl]. unfold Discovery.to_proto. by destruct (Discovery.parse_endpoint _). }
  intros p Hp. pose proof (Hleased p Hp) as Hl. split; [done|].
  destruct (leased_address ∅ n ones Hn b1 _ _ Hg Hl) as [Hgw Hin]. split_and!; [done..|].
  intros q Hq Heq. eapply (leased_once ∅ n ones b1); [done|apply not_elem_of_empty|by apply Hleased|by rewrite Heq].
Qed.
End properties.
