(* ===== verification/RoutingLab.v ===== *)
(** Routing.v on a concrete deployment: a node whose address is listed, and what happens to the address when its agent stops. *)

From S2P Require Import Prelude GoInt GoStrings GoNet Redis Grpc CircuitBreaker Configs Backend Client Gateway CliState Agent AgentLab Deployment DeploymentLab Routing.
From S2P Require Allocator IdentityStore Identity ConfigService Registry Discovery.

(** ** An agent stops and another starts *)

(** An agent that starts on the services as the first one leaves them when it stops *)
Definition heir_born : Sys Site := newcomer (site (bk t_backend first_stopped.1) "two" 32).
Definition heir : Sys Site := (Start Linux Background heir_born).1.

Definition heir_context : Context :=
  delivered (AppendToOutgoingContext Background "authorization" ("Bearer " +:+ token (agent heir))).
Definition heir_listing : res Discovery.ListPeersResponse :=
  (on_discovery (Discovery.ListPeers site_dh heir_context {| Discovery.lp_Region := ""; Discovery.lp_Limit := 0 |})
    (bk t_backend heir)).2.

Definition addresses (r : res Discovery.ListPeersResponse) : list (string * string) :=
  match r with
  | Ok resp => map (λ p, (Discovery.pi_NodeId p, Discovery.pi_IpAddress p)) (Discovery.lp_Peers resp)
  | Err _ => []
  end.

(** An agent that stops gives its address back and leaves its record: no call takes it off the list. The
    next agent to start is given the address, and until the record expires both are listed with it; the new agent has the
    old one among its peers, with its own address as the one to route to it. *)
Theorem stopped_address_listed_twice :
  first_stopped.2 = Ok tt ∧ vpnIP (agent first) = "10.8.0.2" ∧ vpnIP (agent heir) = "10.8.0.2" ∧
  addresses heir_listing = [("id-3", "10.8.0.2"); ("id-1", "10.8.0.2")] ∧
  activePeers (agent heir) !! "id-1" = Some (publicKey (agent first)).
Proof. split_and!; vm_compute; reflexivity. Qed.

(** ** A node claims the address of another *)

(** The second agent's token, with the first agent's address *)
Definition claim : Discovery.RegisterPeerRequest :=
  {| Discovery.rg_Token := token (agent second); Discovery.rg_IpAddress := "10.8.0.2"; Discovery.rg_Port := 51820;
     Discovery.rg_PeerId := ""; Discovery.rg_P2PAddrs := []; Discovery.rg_IsExitNode := false |}.
Definition claimed : Backend Mem :=
  (on_discovery (Discovery.RegisterPeer site_dh first_context claim) (bk t_backend second)).1.
Definition claimed_listing : res Discovery.ListPeersResponse :=
  (on_discovery (Discovery.ListPeers site_dh first_context {| Discovery.lp_Region := ""; Discovery.lp_Limit := 0 |})
    claimed).2.

(** The discovery service takes the address from the request: a node with an address of its own registers with another node's, and
    is listed with it, to the other node as well. *)
Theorem claimed_address_is_listed :
  addresses claimed_listing = [("id-3", "10.8.0.2"); ("id-1", "10.8.0.2")] ∧
  leased claimed "id-1" "10.8.0.2" ∧ leased claimed "id-3" "10.8.0.3".
Proof. split_and!; [vm_compute; reflexivity|eexists; vm_compute; reflexivity..]. Qed.

(** ** A careful node *)

Definition careful_registered : Backend Mem * res Identity.RegisterNodeResponse :=
  on_identity (Identity.RegisterNode_handler site_svc
    {| Identity.rn_PublicKey := "key"; Identity.rn_Version := "1.0"; Identity.rn_PeerId := "";
       Identity.rn_NetworkSecret := "net-secret" |}) site_backend.
Definition careful_token : string :=
  match careful_registered.2 with Ok r => Identity.rn_Token r | Err _ => "" end.
Definition careful_ask : ConfigService.RequestIPRequest :=
  {| ConfigService.rq_Token := careful_token; ConfigService.rq_NodeId := "id-1" |}.
Definition careful_leased : Backend Mem * res ConfigService.RequestIPResponse :=
  on_config (ConfigService.RequestIP first_context careful_ask) careful_registered.1.
Definition careful_claim : Discovery.RegisterPeerRequest :=
  {| Discovery.rg_Token := careful_token; Discovery.rg_IpAddress := "10.8.0.2"; Discovery.rg_Port := 51820;
     Discovery.rg_PeerId := ""; Discovery.rg_P2PAddrs := []; Discovery.rg_IsExitNode := false |}.
Definition careful_listed : Backend Mem * res Discovery.RegisterPeerResponse :=
  on_discovery (Discovery.RegisterPeer site_dh first_context careful_claim) careful_leased.1.

(** The token is the node's alone. *)
Lemma careful_token_node w node : Auth.token_of (w : Identity.World) careful_token node → node = "id-1".
Proof.
  intros [_ (checked & j & _ & Hp & Hc)].
  assert (careful_token = Identity.claims_text "jwt-secret"
    {| Identity.c_node_id := Some "id-1"; Identity.c_exp := 86400; Identity.c_iat := 0 |}) as Ht
    by (vm_compute; reflexivity).
  apply Identity.Parse_checks in Hp as (u & key & Hu & _ & _ & _ & Hj). rewrite Ht in Hu. cbn [Identity.ParseUnverified Identity.plain_jwt] in Hu.
  unfold Identity.claims_text in Hu. rewrite Identity.plain_decode_text in Hu. injection Hu as <-. rewrite Hj in Hc. by injection Hc as <-.
Qed.

Definition careful_world : Identity.World * res (string * string * Z) :=
  Identity.RegisterNode site_svc "key" "1.0" "" "net-secret" Identity.w0.

Lemma careful_registers :
  Identity.RegisterNode site_svc "key" "1.0" "" "net-secret" (b_identity site_backend) = (careful_world.1, careful_world.2).
Proof. unfold careful_world. apply surjective_pairing. Qed.

Lemma careful_registered_world : careful_registered.1 = set_identity careful_world.1 site_backend.
Proof. vm_compute. reflexivity. Qed.

Lemma careful_asks :
  on_config (ConfigService.RequestIP first_context careful_ask) careful_registered.1 = (careful_leased.1, careful_leased.2).
Proof. unfold careful_leased. apply surjective_pairing. Qed.

Lemma careful_claims :
  on_discovery (Discovery.RegisterPeer site_dh first_context careful_claim) careful_leased.1 =
  (careful_listed.1, careful_listed.2).
Proof. unfold careful_listed. apply surjective_pairing. Qed.

Lemma careful_holds : leased careful_leased.1 "id-1" "10.8.0.2".
Proof. eexists. vm_compute. reflexivity. Qed.

Lemma careful_run_listed : rtc (careful site_svc site_dh) site_backend careful_listed.1.
Proof.
  apply (rtc_l _ _ careful_registered.1).
  { rewrite careful_registered_world. eapply careful_identity, Identity.step_register, careful_registers. }
  apply (rtc_l _ _ careful_leased.1); [exact (careful_request _ _ _ _ _ _ _ careful_asks)|].
  apply rtc_once. eapply careful_register; [| |exact careful_claims].
  - intros node ->%careful_token_node. exact careful_holds.
  - intros node t. exact I.
Qed.

Definition careful_context : Context :=
  delivered (AppendToOutgoingContext Background "authorization" ("Bearer " +:+ careful_token)).
Definition careful_info : Discovery.PeerInfo :=
  {| Discovery.pi_NodeId := "id-1"; Discovery.pi_IpAddress := "10.8.0.2"; Discovery.pi_Port := 51820;
     Discovery.pi_Region := "1.0.0"; Discovery.pi_PeerId := ""; Discovery.pi_P2PAddrs := [];
     Discovery.pi_IsExitNode := false; Discovery.pi_LastSeen := 0 |}.

Lemma careful_listing : ∃ b, on_discovery (Discovery.ListPeers site_dh careful_context
  {| Discovery.lp_Region := ""; Discovery.lp_Limit := 0 |}) careful_listed.1 =
  (b, Ok {| Discovery.lp_Peers := [careful_info] |}).
Proof. eexists. apply run_snd. vm_compute. reflexivity. Qed.

Lemma listed_addresses_leased_witness :
  leased careful_listed.1 "id-1" "10.8.0.2" ∧ "10.8.0.2" ≠ Allocator.Gateway (Allocator.allocator_of Allocator.default_net).
Proof.
  destruct careful_listing as [b Hb].
  destruct (listed_addresses_leased site_svc site_dh Allocator.default_net 16 site_backend careful_listed.1 b
    careful_context {| Discovery.lp_Region := ""; Discovery.lp_Limit := 0 |} {| Discovery.lp_Peers := [careful_info] |}
    Allocator.default_net_cidr ltac:(lia) eq_refl site_set_up) with (p := careful_info) as (Hl & Hg & _).
  - intros node q (v & x & E & _). vm_compute in E. discriminate E.
  - exact careful_run_listed.
  - exact Hb.
  - apply list_elem_of_singleton. reflexivity.
  - split; [exact Hl|exact Hg].
Defined.
