(* ===== verification/Metrics.v ===== *)
(** pkg/metrics: the collectors of the services, and what the services record in them.

    The components keep their counters and gauges as fields of their states. Here those are the values of Prometheus
    collectors: the package's variables register without a clash when a service starts, no call that records has the wrong
    number of labels, and the fields are what the collectors hold. Values are whole numbers, and durations nanoseconds,
    where Prometheus has float64. *)

From S2P Require Import Prelude GoInt GoStrings Grpc.
From S2P Require Identity IdentityStore Interceptors.
From Stdlib Require Import QArith.
#[local] Open Scope Z_scope.

(** ** The declarations *)

Inductive CollectorKind : Type := Counter | Gauge | Histogram (buckets : list Q).
Record Collector : Type := { Name : string; Help : string; Kind : CollectorKind; Labels : list string }.

#[export] Instance Q_leibniz_dec : EqDecision Q.
Proof. solve_decision. Defined.
#[export] Instance CollectorKind_eq_dec : EqDecision CollectorKind.
Proof. solve_decision. Defined.
#[export] Instance Collector_eq_dec : EqDecision Collector.
Proof. solve_decision. Defined.

Definition RequestsTotal : Collector :=
  {| Name := "gordion_grpc_requests_total"; Help := "Total number of gRPC requests"; Kind := Counter;
     Labels := ["service"; "method"; "status"] |}.

Definition RequestDuration : Collector :=
  {| Name := "gordion_grpc_request_duration_seconds"; Help := "gRPC request duration in seconds";
     Kind := Histogram [0.001; 0.005; 0.01; 0.025; 0.05; 0.1; 0.25; 0.5; 1; 2.5; 5; 10]%Q;
     Labels := ["service"; "method"] |}.

Definition ActiveConnections : Collector :=
  {| Name := "gordion_active_connections"; Help := "Number of active gRPC connections"; Kind := Gauge;
     Labels := ["service"] |}.

Definition DBQueriesTotal : Collector :=
  {| Name := "gordion_db_queries_total"; Help := "Total database queries executed"; Kind := Counter;
     Labels := ["service"; "operation"; "status"] |}.

Definition DBQueryDuration : Collector :=
  {| Name := "gordion_db_query_duration_seconds"; Help := "Database query duration in seconds";
     Kind := Histogram [0.001; 0.005; 0.01; 0.025; 0.05; 0.1; 0.25; 0.5; 1]%Q; Labels := ["service"; "operation"] |}.

Definition ActivePeers : Collector :=
  {| Name := "gordion_active_peers_total"; Help := "Current number of online peers in the VPN network"; Kind := Gauge;
     Labels := ["is_exit_node"] |}.

Definition AllocatedIPs : Collector :=
  {| Name := "gordion_allocated_ips_total"; Help := "Total number of IP addresses currently allocated to peers";
     Kind := Gauge; Labels := [] |}.

Definition TokensIssuedTotal : Collector :=
  {| Name := "gordion_jwt_tokens_issued_total"; Help := "Total number of JWT authentication tokens successfully issued";
     Kind := Counter; Labels := [] |}.

Definition AuthFailuresTotal : Collector :=
  {| Name := "gordion_auth_failures_total"; Help := "Total number of failed authentication attempts"; Kind := Counter;
     Labels := ["reason"] |}.

Definition declared : list Collector :=
  [RequestsTotal; RequestDuration; ActiveConnections; DBQueriesTotal; DBQueryDuration; ActivePeers; AllocatedIPs;
   TokensIssuedTotal; AuthFailuresTotal].

(** ** github.com/prometheus/client_golang, as the documentation has it *)

(** A name: letters, digits, underscores and, in a metric's, colons; no digit first. *)
Definition name_char (colon : bool) (c : Ascii.ascii) : bool :=
  let n := Z.of_N (Ascii.N_of_ascii c) in
  (97 <=? n) && (n <=? 122) || (65 <=? n) && (n <=? 90) || (n =? 95) || colon && (n =? 58).
Definition is_name (colon : bool) (s : string) : bool :=
  match s with
  | EmptyString => false
  | String c s' => name_char colon c && str_forall (λ c, name_char colon c || is_digit c) s'
  end.

Fixpoint increasing (l : list Q) : bool :=
  match l with
  | a :: (b :: _) as l' => Qle_bool a b && negb (Qeq_bool a b) && increasing l'
  | _ => true
  end.

Definition well_described (c : Collector) : bool :=
  is_name true (Name c) && forallb (is_name false) (Labels c) && bool_decide (NoDup (Labels c)) &&
  match Kind c with Histogram buckets => increasing buckets && bool_decide ("le" ∉ Labels c) | _ => true end.

(** [value] is a counter or gauge with given label values; [observed] is what a histogram has been given. [Add] stands
    for [WithLabelValues(...).Inc()], [Dec()] and their kind, [Put] for [Set]. *)
Class Prometheus (P : Type) : Type := {
  MustRegister : Collector → M P unit;
  Add : Collector → list string → Z → M P unit;
  Put : Collector → list string → Z → M P unit;
  Observe : Collector → list string → Z → M P unit;
  is_registered : P → Collector → Prop;
  value : P → Collector → list string → Z;
  observed : P → Collector → list string → list Z;
}.
#[export] Hint Mode Prometheus + : typeclass_instances.

(** Everything but the registrations is as it was. *)
Definition same_values `{Prometheus P} (p p' : P) : Prop :=
  ∀ c vs, value p' c vs = value p c vs ∧ observed p' c vs = observed p c vs.

Definition point {A} (c : Collector) (vs : list string) (x : A) (f : Collector → list string → A) :
    Collector → list string → A :=
  λ c' vs', if decide (c' = c ∧ vs' = vs) then x else f c' vs'.

(** [WithLabelValues] panics unless it gets a value for each label. *)
Class PrometheusLaws (P : Type) `{Prometheus P} : Prop := {
  register_ok c (p : P) : well_described c = true → (∀ d, is_registered p d → Name d ≠ Name c) →
    ∃ p', MustRegister c p = (p', Ok tt) ∧ (∀ d, is_registered p' d ↔ d = c ∨ is_registered p d) ∧ same_values p p';
  register_clash c d (p : P) : is_registered p d → Name d = Name c → ∃ p' m, MustRegister c p = (p', Err (Panic m));
  add_ok c vs n (p : P) : length vs = length (Labels c) → (0 ≤ n ∨ Kind c = Gauge) →
    ∃ p', Add c vs n p = (p', Ok tt) ∧ value p' = point c vs (value p c vs + n) (value p) ∧ observed p' = observed p;
  put_ok c vs n (p : P) : length vs = length (Labels c) → Kind c = Gauge →
    ∃ p', Put c vs n p = (p', Ok tt) ∧ value p' = point c vs n (value p) ∧ observed p' = observed p;
  observe_ok c vs n (p : P) : length vs = length (Labels c) →
    ∃ p', Observe c vs n p = (p', Ok tt) ∧ value p' = value p ∧
      observed p' = point c vs (observed p c vs ++ [n]) (observed p);
  add_arity c vs n (p : P) : length vs ≠ length (Labels c) → ∃ p' m, Add c vs n p = (p', Err (Panic m));
}.

(** ** What the services record, line by line *)

Section recording.
Context `{Prometheus P} (code_String : codes → string).

(** The package's variables are made when the process starts. *)
Fixpoint register_all (l : list Collector) : M P unit :=
  match l with
  | [] => ret tt
  | c :: l => let! _ := MustRegister c in register_all l
  end.
Definition init : M P unit := register_all declared.

Definition status_text (l : Interceptors.status_label) : string :=
  match l with Interceptors.success => "success" | Interceptors.failed c => code_String c end.

(** What is recorded: by the interceptors, the identity service, the allocator, the registry and the storage. [SetActivePeers]
    has the numbers of peers that are not and that are exit nodes. *)
Inductive event : Type :=
| ConnectionInc (service : string)
| ConnectionDec (service : string)
| Request (service method : string) (status : Interceptors.status_label)
| Duration (service method : string) (d : Z)
| AuthFailure (reason : string)
| TokenIssued
| SetAllocated (n : Z)
| SetActivePeers (normal exit : Z)
| DBQuery (operation status : string)
| DBDuration (operation : string) (d : Z).

Definition record (e : event) : M P unit :=
  match e with
  | ConnectionInc service => Add ActiveConnections [service] 1
  | ConnectionDec service => Add ActiveConnections [service] (-1)
  | Request service method status => Add RequestsTotal [service; method; status_text status] 1
  | Duration service method d => Observe RequestDuration [service; method] d
  | AuthFailure reason => Add AuthFailuresTotal [reason] 1
  | TokenIssued => Add TokensIssuedTotal [] 1
  | SetAllocated n => Put AllocatedIPs [] n
  | SetActivePeers normal exit =>
      let! _ := Put ActivePeers ["false"] normal in Put ActivePeers ["true"] exit
  | DBQuery operation status => Add DBQueriesTotal ["identity"; operation; status] 1
  | DBDuration operation d => Observe DBQueryDuration ["identity"; operation] d
  end.

Fixpoint record_all (l : list event) : M P unit :=
  match l with
  | [] => ret tt
  | e :: l => let! _ := record e in record_all l
  end.
End recording.

(** ** The fields of the components' states *)

Record View : Type := {
  v_grpc : Interceptors.Metrics;
  v_tokens : Z;
  v_failures : string → Z;
  v_allocated : Z;
  v_active : bool → Z;
  v_db : IdentityStore.DBMetrics;
}.

Definition set_grpc (f : Interceptors.Metrics → Interceptors.Metrics) (v : View) : View :=
  {| v_grpc := f (v_grpc v); v_tokens := v_tokens v; v_failures := v_failures v; v_allocated := v_allocated v;
     v_active := v_active v; v_db := v_db v |}.
Definition set_db (f : IdentityStore.DBMetrics → IdentityStore.DBMetrics) (v : View) : View :=
  {| v_grpc := v_grpc v; v_tokens := v_tokens v; v_failures := v_failures v; v_allocated := v_allocated v;
     v_active := v_active v; v_db := f (v_db v) |}.

(** What the components do to their fields. *)
Definition viewed (e : event) (v : View) : View :=
  match e with
  | ConnectionInc service => set_grpc (Interceptors.add_active service 1) v
  | ConnectionDec service => set_grpc (Interceptors.add_active service (-1)) v
  | Request service method status => set_grpc (Interceptors.add_request service method status) v
  | Duration service method d => set_grpc (Interceptors.observe service method d) v
  | AuthFailure reason =>
      {| v_grpc := v_grpc v; v_tokens := v_tokens v;
         v_failures := λ r, if decide (r = reason) then v_failures v r + 1 else v_failures v r;
         v_allocated := v_allocated v; v_active := v_active v; v_db := v_db v |}
  | TokenIssued =>
      {| v_grpc := v_grpc v; v_tokens := v_tokens v + 1; v_failures := v_failures v; v_allocated := v_allocated v;
         v_active := v_active v; v_db := v_db v |}
  | SetAllocated n =>
      {| v_grpc := v_grpc v; v_tokens := v_tokens v; v_failures := v_failures v; v_allocated := n;
         v_active := v_active v; v_db := v_db v |}
  | SetActivePeers normal exit =>
      {| v_grpc := v_grpc v; v_tokens := v_tokens v; v_failures := v_failures v; v_allocated := v_allocated v;
         v_active := λ b, if b then exit else normal; v_db := v_db v |}
  | DBQuery operation status => set_db (λ m, IdentityStore.Build_DBMetrics
      (IdentityStore.DBQueriesTotal m ++ [(operation, status)]) (IdentityStore.DBQueryDuration m)) v
  | DBDuration operation d => set_db (λ m, IdentityStore.Build_DBMetrics
      (IdentityStore.DBQueriesTotal m) (IdentityStore.DBQueryDuration m ++ [(operation, d)])) v
  end.

(** ** The collectors hold the fields *)

Definition seen (service method : string) (l : list (string * string * Z)) : list Z :=
  map snd (filter (λ x, x.1 = (service, method)) l).

Section represents.
Context `{PrometheusLaws P} (code_String : codes → string).
Context (String_inj : ∀ c c', code_String c = code_String c' → c = c') (String_success : ∀ c, code_String c ≠ "success").
Notation text := (status_text code_String).

Record represents (p : P) (v : View) : Prop := {
  rep_connections s : value p ActiveConnections [s] = Interceptors.ActiveConnections (v_grpc v) s;
  rep_requests s k l : value p RequestsTotal [s; k; text l] = Interceptors.RequestsTotal (v_grpc v) s k l;
  rep_durations s k : observed p RequestDuration [s; k] = seen s k (Interceptors.RequestDuration (v_grpc v));
  rep_tokens : value p TokensIssuedTotal [] = v_tokens v;
  rep_failures r : value p AuthFailuresTotal [r] = v_failures v r;
  rep_allocated : value p AllocatedIPs [] = v_allocated v;
  rep_active b : value p ActivePeers [if b : bool then "true" else "false"] = v_active v b;
  rep_queries o s : value p DBQueriesTotal ["identity"; o; s] =
    Z.of_nat (length (filter (.= (o, s)) (IdentityStore.DBQueriesTotal (v_db v))));
  rep_query_durations o : observed p DBQueryDuration ["identity"; o] =
    map snd (filter (λ x, x.1 = o) (IdentityStore.DBQueryDuration (v_db v)));
}.

Lemma status_text_inj l l' : text l = text l' → l = l'.
Proof.
  destruct l as [|c], l' as [|c']; simpl; [done|intros E; by destruct (String_success c')|
    intros E; by destruct (String_success c)|by intros ->%String_inj].
Qed.

Lemma point_eq {A} c vs (x : A) f : point c vs x f c vs = x.
Proof. unfold point. by rewrite decide_True. Qed.
Lemma point_name {A} c vs c' vs' (x : A) f : Name c' ≠ Name c → point c vs x f c' vs' = f c' vs'.
Proof. intros Hne. unfold point. rewrite decide_False; [done|]. by intros [-> _]. Qed.
Lemma point_values {A} c vs vs' (x : A) f : vs' ≠ vs → point c vs x f c vs' = f c vs'.
Proof. intros Hne. unfold point. rewrite decide_False; [done|]. by intros [_ ->]. Qed.

Lemma seen_snoc s k s' k' d l :
  seen s' k' (l ++ [(s, k, d)]) = if decide ((s', k') = (s, k)) then seen s' k' l ++ [d] else seen s' k' l.
Proof.
  unfold seen. rewrite filter_app, map_app. case_decide as Hc.
  - rewrite filter_cons_True by (by rewrite Hc). by rewrite filter_nil.
  - rewrite filter_cons_False by (intros E; by destruct Hc). by rewrite filter_nil, app_nil_r.
Qed.

(** Goes through the fields: those of other collectors are as they were. *)
Ltac fields Hv Ho :=
  split; intros; simpl; rewrite ?Hv, ?Ho;
    try match goal with |- context [point ?c ?vs ?x ?f ?c' ?vs'] =>
      rewrite (point_name c vs c' vs' x f) by (simpl; discriminate) end; try solve [eauto].
Ltac same := rewrite ?point_eq.
Ltac other := rewrite point_values; [try solve [eauto]|intros [=]; naive_solver].

Lemma record_viewed e p v : represents p v →
  ∃ p', record code_String e p = (p', Ok tt) ∧ represents p' (viewed e v).
Proof.
  intros [R1 R2 R3 R4 R5 R6 R7 R8 R9]. destruct e as [s|s|s k l|s k d|r| |n|m n|o s|o d]; simpl.
  - destruct (add_ok ActiveConnections [s] 1 p) as (p' & -> & Hv & Ho); [done|by left|].
    exists p'. split; [done|]. fields Hv Ho. case_decide as Hc; [rewrite Hc; same; by rewrite R1|other].
  - destruct (add_ok ActiveConnections [s] (-1) p) as (p' & -> & Hv & Ho); [done|by right|].
    exists p'. split; [done|]. fields Hv Ho. case_decide as Hc; [rewrite Hc; same; by rewrite R1|other].
  - destruct (add_ok RequestsTotal [s; k; text l] 1 p) as (p' & -> & Hv & Ho); [done|by left|].
    exists p'. split; [done|]. fields Hv Ho. case_decide as Hc; [destruct Hc as (-> & -> & ->); same; by rewrite R2|].
    rewrite point_values; [eauto|]. intros [= -> -> Hl%status_text_inj]. by destruct Hc.
  - destruct (observe_ok RequestDuration [s; k] d p) as (p' & -> & Hv & Ho); [done|].
    exists p'. split; [done|]. fields Hv Ho. rewrite seen_snoc.
    case_decide as Hc; [injection Hc as -> ->; same; by rewrite R3|other].
  - destruct (add_ok AuthFailuresTotal [r] 1 p) as (p' & -> & Hv & Ho); [done|by left|].
    exists p'. split; [done|]. fields Hv Ho. case_decide as Hc; [rewrite Hc; same; by rewrite R5|other].
  - destruct (add_ok TokensIssuedTotal [] 1 p) as (p' & -> & Hv & Ho); [done|by left|].
    exists p'. split; [done|]. fields Hv Ho; same; by rewrite R4.
  - destruct (put_ok AllocatedIPs [] n p) as (p' & -> & Hv & Ho); [done..|].
    exists p'. split; [done|]. fields Hv Ho; by same.
  - destruct (put_ok ActivePeers ["false"] m p) as (p1 & E1 & Hv1 & Ho1); [done..|].
    destruct (put_ok ActivePeers ["true"] n p1) as (p' & E2 & Hv & Ho); [done..|].
    exists p'. split; [by rewrite (bind_ok _ _ _ _ _ E1)|]. rewrite Hv1 in Hv. rewrite Ho1 in Ho.
    fields Hv Ho; rewrite ?point_name by (simpl; discriminate); try solve [eauto].
    destruct b; [by same|]. rewrite point_values by discriminate. by same.
  - destruct (add_ok DBQueriesTotal ["identity"; o; s] 1 p) as (p' & -> & Hv & Ho); [done|by left|].
    exists p'. split; [done|]. fields Hv Ho. rewrite filter_app, length_app.
    destruct (decide ((o, s) = (o0, s0))) as [Hc|Hc].
    + injection Hc as <- <-. same. rewrite R8, filter_cons_True by done. simpl. lia.
    + rewrite filter_cons_False by done. rewrite filter_nil, Nat.add_0_r. other.
  - destruct (observe_ok DBQueryDuration ["identity"; o] d p) as (p' & -> & Hv & Ho); [done|].
    exists p'. split; [done|]. fields Hv Ho. rewrite filter_app, map_app.
    destruct (decide (o = o0)) as [Hc|Hc].
    + subst. same. rewrite R9, filter_cons_True by done. by rewrite filter_nil.
    + rewrite filter_cons_False by done. rewrite filter_nil, app_nil_r. other.
Qed.

Lemma record_all_viewed es : ∀ p v, represents p v →
  ∃ p', record_all code_String es p = (p', Ok tt) ∧ represents p' (fold_left (λ v e, viewed e v) es v).
Proof.
  induction es as [|e es IH]; intros p v Hr; [by exists p|]. simpl.
  destruct (record_viewed e p v Hr) as (p1 & E1 & Hr1). destruct (IH _ _ Hr1) as (p2 & E2 & Hr2).
  exists p2. by rewrite (bind_ok _ _ _ _ _ E1).
Qed.

(** Collectors of different names register one after the other. *)
Lemma register_all_ok l : ∀ p : P, forallb well_described l = true → NoDup (map Name l) →
  (∀ c d, c ∈ l → is_registered p d → Name d ≠ Name c) →
  ∃ p', register_all l p = (p', Ok tt) ∧ (∀ d, is_registered p' d ↔ d ∈ l ∨ is_registered p d) ∧ same_values p p'.
Proof.
  induction l as [|c l IH]; intros p Hw Hd Hf; simpl.
  { exists p. split; [done|]. split; [set_solver|by intros ? ?]. }
  apply andb_true_iff in Hw as [Hc Hw]. apply NoDup_cons in Hd as [Hn Hd].
  destruct (register_ok c p Hc) as (p1 & E1 & Hr1 & Hs1); [intros d; apply Hf; by constructor|].
  destruct (IH p1 Hw Hd) as (p2 & E2 & Hr2 & Hs2).
  { intros c' d Hc' [->|Hd']%Hr1; [|by apply Hf; [constructor|]].
    intros Heq. apply Hn. rewrite Heq. by apply list_elem_of_fmap_2. }
  exists p2. rewrite (bind_ok _ _ _ _ _ E1). split; [done|]. split.
  - intros d. rewrite Hr2, Hr1. set_solver.
  - intros c' vs. destruct (Hs1 c' vs), (Hs2 c' vs). split; congruence.
Qed.

(** Nothing has been recorded. *)
Definition blank : View :=
  {| v_grpc := {| Interceptors.ActiveConnections := λ _, 0; Interceptors.RequestsTotal := λ _ _ _, 0;
                  Interceptors.RequestDuration := [] |};
     v_tokens := 0; v_failures := λ _, 0; v_allocated := 0; v_active := λ _, 0;
     v_db := {| IdentityStore.DBQueriesTotal := []; IdentityStore.DBQueryDuration := [] |} |}.

(** The metrics of a service. When the process starts, the nine collectors register without a panic, each under a name of
    its own; and then, whatever is recorded and in which order, no call panics for the number of its labels, and the
    collectors hold what the components keep in their states: requests by service, method and status, connections,
    durations, failures by reason, tokens, addresses, peers and queries. *)
Theorem collectors_hold_states es (p : P) :
  (∀ d, ¬ is_registered p d) → (∀ c vs, value p c vs = 0 ∧ observed p c vs = []) →
  ∃ p1 p2, init p = (p1, Ok tt) ∧ (∀ d, is_registered p1 d ↔ d ∈ declared) ∧
    record_all code_String es p1 = (p2, Ok tt) ∧ represents p2 (fold_left (λ v e, viewed e v) es blank).
Proof.
  intros Hr Hz. destruct (register_all_ok declared p) as (p1 & E1 & Hr1 & Hs).
  { vm_compute. reflexivity. }
  { apply (bool_decide_unpack _). vm_compute. exact I. }
  { intros c d _ Hd. by apply Hr in Hd. }
  destruct (record_all_viewed es p1 blank) as (p2 & E2 & Hrep).
  { assert (∀ c vs, value p1 c vs = 0 ∧ observed p1 c vs = []) as Hz1.
    { intros c vs. destruct (Hs c vs) as [-> ->]. apply Hz. }
    split; intros; simpl; apply Hz1. }
  exists p1, p2. split; [done|]. split; [|done]. intros d. rewrite Hr1. naive_solver.
Qed.
End represents.

(** ** The components' own words for it *)

Lemma identity_records reason (w : Identity.World) :
  Identity.AuthFailures (Identity.AuthFailures_Inc reason w).1 =
    v_failures (viewed (AuthFailure reason) (Build_View (v_grpc blank) (Identity.TokensIssued w) (Identity.AuthFailures w)
      0 (λ _, 0) (v_db blank))) ∧
  Identity.TokensIssued (Identity.TokensIssued_Inc w).1 =
    v_tokens (viewed TokenIssued (Build_View (v_grpc blank) (Identity.TokensIssued w) (Identity.AuthFailures w)
      0 (λ _, 0) (v_db blank))).
Proof. done. Qed.

Lemma storage_records {A} operation (fn : M IdentityStore.Database A) d m :
  ∃ status took, ((IdentityStore.recordDBMetrics operation fn (d, m)).1).2 =
    v_db (viewed (DBDuration operation took) (viewed (DBQuery operation status)
      (Build_View (v_grpc blank) 0 (λ _, 0) 0 (λ _, 0) m))).
Proof. unfold IdentityStore.recordDBMetrics. destruct (fn d) as [d' r]. by eexists _, _. Qed.

(** ** A registry in memory *)

Record Memory : Type := {
  m_registered : list Collector;
  m_values : Collector → list string → Z;
  m_observed : Collector → list string → list Z;
}.

Definition memory0 : Memory := {| m_registered := []; m_values := λ _ _, 0; m_observed := λ _ _, [] |}.

(** [WithLabelValues], and then what is done with the labelled collector *)
Definition m_with (c : Collector) (vs : list string) (f : Memory → Memory) : M Memory unit := λ p,
  if decide (length vs = length (Labels c)) then (f p, Ok tt) else (p, Err (Panic "inconsistent label cardinality")).

#[export] Instance memory_prometheus : Prometheus Memory := {|
  MustRegister c p :=
    if decide (Exists (λ d, Name d = Name c) (m_registered p)) then (p, Err (Panic "duplicate metrics collector registration"))
    else if well_described c then
      ({| m_registered := c :: m_registered p; m_values := m_values p; m_observed := m_observed p |}, Ok tt)
    else (p, Err (Panic "descriptor is invalid"));
  Add c vs n := m_with c vs (λ p,
    {| m_registered := m_registered p; m_values := point c vs (m_values p c vs + n) (m_values p);
       m_observed := m_observed p |});
  Put c vs n := m_with c vs (λ p,
    {| m_registered := m_registered p; m_values := point c vs n (m_values p); m_observed := m_observed p |});
  Observe c vs n := m_with c vs (λ p,
    {| m_registered := m_registered p; m_values := m_values p;
       m_observed := point c vs (m_observed p c vs ++ [n]) (m_observed p) |});
  is_registered p d := d ∈ m_registered p;
  value := m_values;
  observed := m_observed;
|}.

#[export] Instance memory_laws : PrometheusLaws Memory.
Proof.
  split; simpl; unfold m_with; intros.
  - rewrite decide_False by (rewrite Exists_exists; naive_solver). rewrite H. eexists. split; [done|].
    split; [intros d; simpl; by rewrite elem_of_cons|by intros ? ?].
  - rewrite decide_True by (rewrite Exists_exists; naive_solver). by eexists _, _.
  - rewrite decide_True by done. by eexists.
  - rewrite decide_True by done. by eexists.
  - rewrite decide_True by done. by eexists.
  - rewrite decide_False by done. by eexists _, _.
Qed.

(** The names of the codes *)
Definition code_name (c : codes) : string :=
  match c with
  | OK => "OK" | Canceled => "Canceled" | Unknown => "Unknown" | InvalidArgument => "InvalidArgument"
  | DeadlineExceeded => "DeadlineExceeded" | NotFound => "NotFound" | AlreadyExists => "AlreadyExists"
  | PermissionDenied => "PermissionDenied" | ResourceExhausted => "ResourceExhausted"
  | FailedPrecondition => "FailedPrecondition" | Aborted => "Aborted" | OutOfRange => "OutOfRange"
  | Unimplemented => "Unimplemented" | Internal => "Internal" | Unavailable => "Unavailable" | DataLoss => "DataLoss"
  | Unauthenticated => "Unauthenticated"
  end.

Lemma code_name_inj c c' : code_name c = code_name c' → c = c'.
Proof. by destruct c, c'. Qed.

(** Two requests, one of which fails, and a listing of two peers *)
Definition recorded : list event :=
  [ConnectionInc "discovery"; Request "discovery" "/ListPeers" Interceptors.success; ConnectionDec "discovery";
   ConnectionInc "discovery"; Request "discovery" "/ListPeers" (Interceptors.failed Unauthenticated);
   SetActivePeers 1 1; SetActivePeers 0 1].

Lemma collectors_hold_states_witness :
  ∃ p : Memory, value p RequestsTotal ["discovery"; "/ListPeers"; "Unauthenticated"] = 1 ∧
    value p ActiveConnections ["discovery"] = 1 ∧ value p ActivePeers ["true"] = 1 ∧ value p ActivePeers ["false"] = 0.
Proof.
  destruct (collectors_hold_states code_name code_name_inj ltac:(by intros []) recorded memory0) as (p1 & p & _ & _ & _ & Hp).
  - intros d Hd. by apply elem_of_nil in Hd.
  - by intros c vs.
  - exists p. split_and!.
    + exact (rep_requests _ _ _ Hp "discovery" "/ListPeers" (Interceptors.failed Unauthenticated)).
    + exact (rep_connections _ _ _ Hp "discovery").
    + exact (rep_active _ _ _ Hp true).
    + exact (rep_active _ _ _ Hp false).
Defined.
