(* ===== verification/Logger.v ===== *)
(** pkg/logger: the logger that every service and the agent write to.

    zerolog is the argument [ParseLevel], its reading of a level, and the class [Zerolog]: an event that is written or dropped and that ends the process
    if it is fatal. A field's value and the arguments of a format have a type of their own; [Sprintf] is fmt's. *)

From S2P Require Import Prelude GoInt Grpc.

(** zerolog's levels *)
Definition DebugLevel : Z := 0.
Definition InfoLevel : Z := 1.
Definition WarnLevel : Z := 2.
Definition ErrorLevel : Z := 3.
Definition FatalLevel : Z := 4.

(** A line as the console writer gets it; it has the time and the caller besides. *)
Record Line (V : Type) : Type := { l_level : Z; l_fields : list (string * V); l_msg : string }.
Arguments l_level {V}.
Arguments l_fields {V}.
Arguments l_msg {V}.
Arguments Build_Line {V}.

(** A zerolog.Logger: its level and its context. *)
Record zerologger (V : Type) : Type := { level : Z; context : list (string * V) }.
Arguments level {V}.
Arguments context {V}.
Arguments Build_zerologger {V}.

(** [write_event l lvl msg] is an event of level [lvl] with its message; the process may end in it. *)
Class Zerolog (V W : Type) : Type := {
  write_event : zerologger V → Z → string → M W unit;
  written : W → list (Line V);
}.
#[export] Hint Mode Zerolog - + : typeclass_instances.

Definition exit_1 : error := Panic "os.Exit(1)".

(** An event below the logger's level is not written; one of the fatal level ends the process, written or not. *)
Class ZerologLaws (V W : Type) `{Zerolog V W} : Prop := {
  event_written l lvl msg (w w' : W) r : write_event l lvl msg w = (w', r) →
    written w' = written w ++ (if lvl <? level l then [] else [Build_Line lvl (context l) msg]) ∧
    r = (if lvl =? FatalLevel then Err exit_1 else Ok tt);
}.

Section logger.
Context `{Zerolog V W} (ParseLevel : string → res Z) {Arg : Type} (Sprintf : string → list Arg → string).
Notation Logger := (zerologger V).

(** The time, the caller and the console's format are settings of what is written. *)
Definition New (lvl : string) : Logger :=
  {| level := match ParseLevel lvl with Ok l => l | Err _ => InfoLevel end; context := [] |}.

Definition Debug (l : Logger) (msg : string) : M W unit := write_event l DebugLevel msg.
Definition Debugf (l : Logger) (format : string) (args : list Arg) : M W unit :=
  write_event l DebugLevel (Sprintf format args).
Definition Info (l : Logger) (msg : string) : M W unit := write_event l InfoLevel msg.
Definition Infof (l : Logger) (format : string) (args : list Arg) : M W unit :=
  write_event l InfoLevel (Sprintf format args).
Definition Warn (l : Logger) (msg : string) : M W unit := write_event l WarnLevel msg.
Definition Warnf (l : Logger) (format : string) (args : list Arg) : M W unit :=
  write_event l WarnLevel (Sprintf format args).
Definition Error (l : Logger) (msg : string) : M W unit := write_event l ErrorLevel msg.
Definition Errorf (l : Logger) (format : string) (args : list Arg) : M W unit :=
  write_event l ErrorLevel (Sprintf format args).
Definition Fatal (l : Logger) (msg : string) : M W unit := write_event l FatalLevel msg.
Definition Fatalf (l : Logger) (format : string) (args : list Arg) : M W unit :=
  write_event l FatalLevel (Sprintf format args).

Definition With (l : Logger) (key : string) (value : V) : Logger :=
  {| level := level l; context := context l ++ [(key, value)] |}.
End logger.

(** ** What a process logs *)

Section lines.
Context {V W : Type} `{ZerologLaws V W} (ParseLevel : string → res Z).

(** The methods of the interface, without their formatting twins *)
Inductive method : Type := MDebug | MInfo | MWarn | MError | MFatal.
Definition method_level (m : method) : Z :=
  match m with
  | MDebug => DebugLevel | MInfo => InfoLevel | MWarn => WarnLevel | MError => ErrorLevel | MFatal => FatalLevel
  end.
Definition invoke (m : method) (l : zerologger V) (msg : string) : M W unit :=
  match m with
  | MDebug => Debug l msg | MInfo => Info l msg | MWarn => Warn l msg | MError => Error l msg | MFatal => Fatal l msg
  end.

(** A call on a logger made from [l] with some fields *)
Definition with_fields (l : zerologger V) (fields : list (string * V)) : zerologger V :=
  fold_left (λ l f, With l f.1 f.2) fields l.

Fixpoint say (l : zerologger V) (calls : list (list (string * V) * method * string)) : M W unit :=
  match calls with
  | [] => ret tt
  | (fields, m, msg) :: calls =>
      let! _ := invoke m (with_fields l fields) msg in say l calls
  end.

(** The calls up to the first fatal one *)
Fixpoint alive (calls : list (list (string * V) * method * string)) : list (list (string * V) * method * string) :=
  match calls with
  | [] => []
  | (fields, m, msg) :: calls => (fields, m, msg) :: match m with MFatal => [] | _ => alive calls end
  end.

Definition line_of (call : list (string * V) * method * string) : Line V :=
  Build_Line (method_level call.1.2) call.1.1 call.2.

Lemma with_fields_spec l fields : with_fields l fields = {| level := level l; context := context l ++ fields |}.
Proof.
  revert l. induction fields as [|[k v] fields IH]; intros l; [destruct l; simpl; by rewrite app_nil_r|].
  unfold with_fields in *. simpl. rewrite IH. simpl. by rewrite <- app_assoc.
Qed.

Lemma invoke_spec m (l : zerologger V) msg (w w' : W) r : invoke m l msg w = (w', r) →
  written w' = written w ++ (if method_level m <? level l then [] else [Build_Line (method_level m) (context l) msg]) ∧
  r = match m with MFatal => Err exit_1 | _ => Ok tt end.
Proof. destruct m; intros [-> ->]%event_written; done. Qed.

(** C13: What a process logs through the logger it made with [New]: of the calls up to the first fatal one, the lines of those whose
    level is at least the configured one (Info for a name that is no level), in order, each with its message and the
    fields of its own logger and no other's; the process goes on exactly if no call was fatal. *)
Theorem logger_writes lvl calls (w w' : W) r :
  say (New ParseLevel lvl) calls w = (w', r) →
  written w' = written w ++
    filter (λ line, match ParseLevel lvl with Ok n => n | Err _ => InfoLevel end ≤ l_level line)
      (map line_of (alive calls)) ∧
  (r = Ok tt ∧ alive calls = calls ∧ Forall (λ call, call.1.2 ≠ MFatal) calls ∨ r = Err exit_1 ∧ ∃ fields msg, (fields, MFatal, msg) ∈ calls).
Proof.
  set (n := match ParseLevel lvl with Ok n => n | Err _ => InfoLevel end).
  assert (New (V := V) ParseLevel lvl = {| level := n; context := [] |}) as -> by done.
  revert w. induction calls as [|[[fields m] msg] calls IH]; intros w Hs; simpl in Hs.
  { injection Hs as <- <-. rewrite app_nil_r. split; [done|]. left. by split_and!; [..|constructor]. }
  assert (∀ rest, filter (λ line, n ≤ l_level line) (line_of (fields, m, msg) :: rest) =
    (if method_level m <? n then [] else [Build_Line (method_level m) fields msg]) ++ filter (λ line, n ≤ l_level line) rest) as Hf.
  { intros rest. rewrite filter_cons. unfold line_of. simpl. case_decide; destruct (Z.ltb_spec (method_level m) n); (done || lia). }
  apply bind_inv in Hs as [(e & Hi & ->)|(w1 & [] & Hi & Hs)]; rewrite with_fields_spec in Hi;
    apply invoke_spec in Hi as [Hw Hr]; simpl in Hw.
  - destruct m; try done. injection Hr as ->. split; [|right; split; [done|exists fields, msg; by constructor]].
    simpl alive. cbn [map]. rewrite Hf, Hw. simpl. by rewrite app_nil_r.
  - destruct (IH w1 Hs) as [Hw' Hcase]. destruct m; try done; (split; [cbn [alive map]; by rewrite Hf, Hw', Hw, <- app_assoc|]);
      (destruct Hcase as [(-> & Ha & Hall)|(-> & f & g & Hin)]; [left; split_and!; [done|simpl; by rewrite Ha|by constructor]
        |right; split; [done|]; exists f, g; by constructor]).
Qed.
End lines.

(** ** A logger in memory *)

Record Output : Type := { o_lines : list (Line string) }.

Definition level_names : list (string * Z) :=
  [("debug", DebugLevel); ("info", InfoLevel); ("warn", WarnLevel); ("error", ErrorLevel); ("fatal", FatalLevel)].

Definition parse_level (s : string) : res Z :=
  match list_find (λ x, x.1 = s) level_names with Some (_, x) => Ok x.2 | None => Err (LibErr "Unknown Level String") end.

#[export] Instance output_zerolog : Zerolog string Output := {|
  write_event l lvl msg w :=
    ({| o_lines := o_lines w ++ (if lvl <? level l then [] else [Build_Line lvl (context l) msg]) |},
     if lvl =? FatalLevel then Err exit_1 else Ok tt);
  written := o_lines;
|}.

#[export] Instance output_laws : ZerologLaws string Output.
Proof. split. by intros l lvl msg w w' r [= <- <-]. Qed.

Definition logged : Output * res unit :=
  say (New parse_level "warn") [([], MInfo, "starting"); ([("peer", "a")], MError, "refused"); ([], MWarn, "late")] {| o_lines := [] |}.

Lemma logger_writes_witness :
  written logged.1 = [Build_Line ErrorLevel [("peer", "a")] "refused"; Build_Line WarnLevel [] "late"].
Proof.
  destruct (logger_writes parse_level "warn" [([], MInfo, "starting"); ([("peer", "a")], MError, "refused"); ([], MWarn, "late")]
    {| o_lines := [] |} logged.1 logged.2) as [Hw _]; [apply surjective_pairing|].
  rewrite Hw. vm_compute. reflexivity.
Defined.
