(* ===== verification/Cleanup.v ===== *)
(** services/discovery/cmd/server/main.go: the clean-up of the discovery service over time.

    The loop waits on a ticker of twice the lifetime of a record and sweeps the index. While it waits the
    other goroutines go on: here they do to the server's data what [wait] does. Registry.v shows what a sweep does; here is
    when a peer that has fallen silent is off the index. *)

From S2P Require Import Prelude GoInt GoStrings Redis Grpc Registry Agent AgentLoops.
From S2P Require Import Backend.
From S2P Require Interceptors.

Section loop.
Context `{Redis R} `{Clock R} `{Timer R}.

(** [case <-ctx.Done(): return; case <-ticker.C:] *)
Definition receive_tick (t : Ticker) : M R (option Ticker) := λ s,
  let '(s', cancelled) := wait (receive_in t (Now s)) s in
  (s', Ok (if cancelled then None else Some (take_tick (Now s') t))).

(** Whether the loop has ended *)
Fixpoint cleanup_rounds (rounds : nat) (reg : Registry) (t : Ticker) : M R bool :=
  match rounds with
  | O => ret false
  | S rounds =>
      let! tick := receive_tick t in
      match tick with
      | None => ret true
      | Some t =>
          let! _ := Interceptors.cleanup_tick reg in
          cleanup_rounds rounds reg t
      end
  end.

Definition cleanup_loop (rounds : nat) (reg : Registry) (heartbeatTTL : Z) : M R bool :=
  let! start := (λ s, (s, Ok (Now s))) in
  let! t := NewTicker (Interceptors.cleanupInterval heartbeatTTL) start in
  cleanup_rounds rounds reg t.

(** The loop starts on a ticker that has not fired, and panics when the lifetime in the configuration is not positive. *)
Lemma cleanup_loop_starts rounds reg heartbeatTTL (s : R) :
  cleanup_loop rounds reg heartbeatTTL s =
  let period := Interceptors.cleanupInterval heartbeatTTL in
  if period <=? 0 then (s, Err (Panic "non-positive interval for NewTicker"))
  else cleanup_rounds rounds reg {| tk_start := Now s; tk_period := period; tk_taken := Now s |} s.
Proof. unfold cleanup_loop, NewTicker, bind. cbv zeta. by destruct (_ <=? 0). Qed.
End loop.

Section silent.
Context `{RedisLaws R, !RedisUp R} `{Clock R} `{Timer R}.
Context (reg : Registry) (node : string) (ok : R → Prop) (call skew : Z).
Implicit Types s : R.

(** The others let [node] be: its record is at most let go, and it does not enter the index. *)
Record ignored s s' : Prop := {
  ignored_time : rtime s ≤ rtime s';
  ignored_entry : r_entry s' (peer_key node) = prune (rtime s') (r_entry s (peer_key node));
  ignored_index : indexed s' node → indexed s node;
}.

(** In states that satisfy [ok] timers are on time, a sweep takes less than [call], the server's clock is [skew] ahead of
    the service's, and [node] is silent. *)
Record silence : Prop := {
  silence_clock s : ok s → rtime s = Now s + skew;
  silence_wait d s : ok s → 0 ≤ d → ∃ s', wait d s = (s', false) ∧ Now s' = Now s + d ∧ ok s' ∧ ignored s s';
  silence_sweep s s' r : ok s → CleanupStale reg s = (s', r) → Now s ≤ Now s' < Now s + call ∧ ok s';
}.

(** [node]'s record, if it has one, expires by [x]. *)
Definition gone_by (x : Z) s : Prop := r_entry s (peer_key node) = None ∨ ∃ v y, lives_until s node v y ∧ y ≤ x.

Lemma gone_by_prune x s s' :
  r_entry s' (peer_key node) = prune (rtime s') (r_entry s (peer_key node)) → gone_by x s →
  gone_by x s' ∧ (x < rtime s' → r_entry s' (peer_key node) = None).
Proof.
  intros E [Hn|(v & y & Hl & Hy)]; [rewrite Hn in E; by split; [left|]|]. unfold lives_until in Hl. rewrite Hl in E. simpl in E.
  case_bool; [by split; [left|]|]. split; [right; by exists v, y|lia].
Qed.

Lemma ignored_wanes s s' : wanes s s' → ignored s s'.
Proof. intros [Ht He Hs]. split; [done..|]. apply Hs. Qed.

(** One round: it ends within [call] of its tick, and if the record had expired by then, without the node in the index. *)
Lemma round_sweeps t x s rounds :
  silence → 0 < tk_period t → call ≤ tk_period t → ok s → gone_by x s → ticks t (tk_taken t) = ticks t (Now s) →
  let due := tk_start t + (ticks t (Now s) + 1) * tk_period t in
  ∃ s', cleanup_rounds (S rounds) reg t s = cleanup_rounds rounds reg (take_tick due t) s' ∧
    due ≤ Now s' < due + call ∧ ok s' ∧ gone_by x s' ∧
    ((x < due + skew ∨ ¬ indexed s node) → ¬ indexed s' node).
Proof.
  intros [Hclock Hwait Hsweep] Hp Hcall Hok Hgone Ht. cbv zeta.
  pose proof (receive_next t (Now s) Ht) as Hnext. pose proof (ticks_spec t (Now s) Hp) as Hin.
  assert (0 ≤ receive_in t (Now s)) as Hd by lia.
  destruct (Hwait (receive_in t (Now s)) s Hok Hd) as (s1 & E1 & Hn1 & Hok1 & [Ht1 He1 Hi1]).
  destruct (CleanupStale_correct reg s1) as (s2 & n & E2 & Hw2 & _ & Hdrop & _).
  destruct (Hsweep _ _ _ Hok1 E2) as [Hn2 Hok2]. exists s2.
  assert (Now s1 = tk_start t + (ticks t (Now s) + 1) * tk_period t) as Hdue by lia.
  destruct (gone_by_prune _ _ _ He1 Hgone) as [Hgone1 Hnone1].
  destruct (gone_by_prune x s1 s2 (wanes_entry _ _ Hw2 _) Hgone1) as [Hgone2 _].
  split; [|split; [lia|split; [done|split; [done|]]]].
  - cbn [cleanup_rounds].
    assert (receive_tick t s = (s1, Ok (Some (take_tick (Now s1) t)))) as Er by (unfold receive_tick; by rewrite E1).
    rewrite (bind_ok _ _ _ _ _ Er), Hdue.
    assert (Interceptors.cleanup_tick reg s1 = (s2, Ok tt)) as Es
      by (unfold Interceptors.cleanup_tick; by rewrite (handle_eq _ _ _ _ _ E2)).
    by rewrite (bind_ok _ _ _ _ _ Es).
  - intros [Hx|Hni] Hind.
    + apply (Hdrop node); [|exact Hind]. apply Hnone1. rewrite (Hclock _ Hok1). lia.
    + by apply Hni, Hi1, (indexed_wanes _ _ _ Hw2).
Qed.

Lemma rounds_sweep rounds x : ∀ t s,
  silence → 0 < tk_period t → call ≤ tk_period t → ok s → gone_by x s → ticks t (tk_taken t) = ticks t (Now s) →
  let due := tk_start t + (ticks t (Now s) + Z.of_nat (S rounds)) * tk_period t in
  ∃ s', cleanup_rounds (S rounds) reg t s = (s', Ok false) ∧ due ≤ Now s' < due + call ∧ ok s' ∧
    ((x < due + skew ∨ ¬ indexed s node) → ¬ indexed s' node).
Proof.
  induction rounds as [|rounds IH]; intros t s Hsil Hp Hcall Hok Hgone Ht; cbv zeta.
  - destruct (round_sweeps t x s 0 Hsil Hp Hcall Hok Hgone Ht) as (s1 & E1 & Hn1 & Hok1 & _ & Hi1).
    exists s1. by rewrite E1.
  - destruct (round_sweeps t x s (S rounds) Hsil Hp Hcall Hok Hgone Ht) as (s1 & E1 & Hn1 & Hok1 & Hg1 & Hi1).
    rewrite E1. clear E1. set (due1 := tk_start t + (ticks t (Now s) + 1) * tk_period t) in *.
    assert (ticks t due1 = ticks t (Now s) + 1) as Htd by (apply ticks_between; lia).
    assert (ticks t (Now s1) = ticks t (Now s) + 1) as Ht1 by (apply ticks_between; lia).
    destruct (IH (take_tick due1 t) s1 Hsil Hp Hcall Hok1 Hg1) as (s2 & E2 & Hn2 & Hok2 & Hi2).
    { change (ticks t due1 = ticks t (Now s1)). congruence. }
    change (ticks (take_tick due1 t) (Now s1)) with (ticks t (Now s1)) in *. simpl tk_start in *. simpl tk_period in *.
    rewrite Ht1 in *.
    assert (ticks t (Now s) + 1 + Z.of_nat (S rounds) = ticks t (Now s) + Z.of_nat (S (S rounds))) as Heq by lia.
    rewrite Heq in *. exists s2. split; [exact E2|]. split; [done|]. split; [done|].
    intros [Hx|Hni]; apply Hi2; [by left|right; apply Hi1; by right].
Qed.
End silent.

(** ** Properties *)

(** C14: How long a peer that has fallen silent stays in the index. Against a Redis server that answers, with a period of the
    clean-up that is long enough for a sweep: if the last heartbeat came at [h], the clean-up, at whichever point of its
    loop it is, goes on and has dropped the peer, by itself and without any listing, within three lifetimes of a record and one
    sweep, by the server's clock. *)
Theorem silent_peer_swept `{RedisLaws R, !RedisUp R} `{Clock R} `{Timer R} reg heartbeatTTL node ok call skew t
    (s : R) v h :
  0 < heartbeatTTL ≤ 2 ^ 32 → ttl reg = wrap64 (heartbeatTTL * Second) →
  tk_period t = Interceptors.cleanupInterval heartbeatTTL → call ≤ tk_period t →
  silence reg node ok call skew → ok s → ticks t (tk_taken t) = ticks t (Now s) →
  lives_until s node v (h + ttl reg) →
  ∃ rounds s', cleanup_rounds rounds reg t s = (s', Ok false) ∧ ¬ indexed s' node ∧
    rtime s' < h + 3 * ttl reg + call.
Proof.
  intros Httl Hreg Hper Hcall Hsil Hok Ht Hl.
  assert (ttl reg = heartbeatTTL * Second) as Hr by (rewrite Hreg; apply wrap64_id; unfold min_int64, max_int64, Second; lia).
  assert (tk_period t = 2 * ttl reg) as Hp.
  { rewrite Hper, Hr. unfold Interceptors.cleanupInterval. rewrite (wrap64_id (heartbeatTTL * 2)) by (unfold min_int64, max_int64; lia).
    rewrite wrap64_id by (unfold min_int64, max_int64, Second; lia). lia. }
  assert (0 < ttl reg) as Hpos by (rewrite Hr; unfold Second; lia).
  set (x := h + ttl reg) in *. pose proof (silence_clock _ _ _ _ _ Hsil s Hok) as Hclock.
  assert (rtime s ≤ x) as Hlive.
  { pose proof (r_live s (peer_key node)) as E. unfold lives_until in Hl. rewrite Hl in E. simpl in E.
    case_bool; [done|lia]. }
  assert (0 < tk_period t) as Hp0 by lia. assert (Now s ≤ x - skew) as Hnow by lia.
  pose proof (ticks_mono t _ _ Hp0 Hnow) as Hm. pose proof (ticks_spec t (x - skew) Hp0) as Hq.
  destruct (rounds_sweep reg node ok call skew (Z.to_nat (ticks t (x - skew) - ticks t (Now s))) x t s Hsil Hp0 Hcall Hok)
    as (s' & E & Hn & Hok' & Hi); [right; by exists v, x|done|].
  replace (ticks t (Now s) + Z.of_nat (S (Z.to_nat (ticks t (x - skew) - ticks t (Now s)))))
    with (ticks t (x - skew) + 1) in * by lia.
  eexists _, s'. split; [exact E|]. split; [apply Hi; left; lia|].
  rewrite (silence_clock _ _ _ _ _ Hsil s' Hok'). lia.
Qed.

(** ** Witnesses *)

#[local] Existing Instance bits_json.

(** A server in memory on which nothing takes time but waiting *)
#[local] Instance mem_timer : Timer Mem := {|
  wait d m := (later_mem m (Z.max 0 d), false);
  sleep d m := later_mem m (Z.max 0 d);
|}.

Definition idle (m : Mem) : Prop := sim_script (mem_sim m) = [].
Definition still (m m' : Mem) : Prop := idle m → idle m' ∧ rtime m' = rtime m.

#[local] Instance still_preorder : PreOrder still.
Proof.
  split; [by intros m|]. intros m1 m2 m3 E1 E2 Hi. destruct (E1 Hi) as [Hi2 <-], (E2 Hi2) as [Hi3 <-]. done.
Qed.

Lemma rdo_still c : runs still (rdo (R := Mem) c).
Proof.
  intros m m' r E Hi. unfold idle in Hi. simpl in E. unfold mem_do, sim_do, calm in E. rewrite Hi in E. simpl in E.
  injection E as <- _. split; [done|]. simpl. lia.
Qed.

Lemma mem_silence node : silence reg30 node idle Second 0.
Proof.
  split.
  - intros m _. simpl. unfold Now, mem_clock. lia.
  - intros d m Hi Hd. eexists. split; [reflexivity|]. split; [simpl; unfold Now, mem_clock; simpl; lia|].
    split; [done|]. apply ignored_wanes, later_wanes. lia.
  - intros m m' r Hi E. apply (CleanupStale_renews still (λ c _, rdo_still c)) in E. destruct (E Hi) as [Hi' Ht].
    split; [|done]. simpl in Ht. unfold Now, mem_clock, Second. lia.
Qed.

Lemma silent_peer_swept_witness :
  ∃ rounds s', cleanup_rounds rounds reg30 {| tk_start := 0; tk_period := 60 * Second; tk_taken := 0 |} good1 =
    (s', Ok false) ∧ ¬ indexed s' "a".
Proof.
  destruct (silent_peer_swept reg30 30 "a" idle Second 0 {| tk_start := 0; tk_period := 60 * Second; tk_taken := 0 |} good1
    (Marshal peer_a) 0) as (rounds & s' & E & Hi & _).
  - lia.
  - vm_compute. reflexivity.
  - vm_compute. reflexivity.
  - vm_compute. discriminate.
  - apply mem_silence.
  - vm_compute. reflexivity.
  - vm_compute. reflexivity.
  - vm_compute. reflexivity.
  - exists rounds, s'. split; [exact E|exact Hi].
Defined.
