(* ===== verification/Mesh.v ===== *)
(** services/agent: what a round of peer synchronisation leaves of the mesh when the identity service is out, or when there
    are more peers than a listing has. *)

From S2P Require Import Prelude GoInt GoStrings GoNet Grpc CircuitBreaker Configs Client Gateway CliState Agent AgentLab AgentSpec.
From S2P Require WireGuard Discovery ConfigService Allocator Identity.

Section mesh.
Context `{StatusLib} `{Net6} `{StateJSON} `{Services W} `{Dialer W} `{Clock W} `{P2P W} `{WireGuard.OS W}
  `{Host W} `{Timer W} `{Keys W}.
Context (range : gmap string string → list (string * string)) (Hrange : ∀ m, range m ≡ₚ map_to_list m).
Notation peers_of s := (activePeers (agent s)).

(** wg removes the peers that it is told to. *)
Definition wg_removes (m : WireGuard.Manager) : Prop :=
  ∀ k (s : Sys W), ∃ s', on_world (WireGuard.RemovePeer m k) s = (s', Ok tt).

(** After a round no peer is active whose key the round did not get. *)
Lemma sync_keeps_online ctx cidr peers (s s1 s' : Sys W) :
  wg_removes (wg_mgr (agent s)) → on_client (DiscoverPeers ctx (token (agent s)) 50) s = (s1, Ok peers) →
  syncPeers range ctx cidr s = (s', Ok tt) →
  ∃ s2 online, online_peers ctx (nodeID (agent s)) peers ∅ s1 = (s2, Ok online) ∧
    ∀ id, is_Some (peers_of s' !! id) → is_Some (online !! id).
Proof.
  intros Hwg E1. unfold syncPeers, bind at 1, get_agent. rewrite (handle_eq _ _ _ _ _ E1).
  pose proof (on_client_agent _ _ _ _ E1) as Ha1. intros (s2 & online & E2 & Hk)%bind_inv_ok.
  exists s2, online. split; [done|]. apply bind_inv_ok in Hk as (s3 & [] & E3 & Hk). unfold bind at 1 in Hk.
  apply online_peers_inv in E2 as [Ha2 _]. apply add_peers_inv in E3 as [Hs3 _].
  destruct (remove_peers_up range Hrange (λ _, True) (wg_mgr (agent s)) online (range (peers_of s3)) s3) as (s4 & E4 & _ & Hn).
  { intros k s5 _. destruct (Hwg k s5) as (s6 & E6). by exists s6. }
  { rewrite Hs3. simpl. congruence. }
  { done. }
  rewrite E4 in Hk. injection Hk as <-. apply remove_peers_inv in E4 as (_ & Hsub & _).
  intros id [k Hid]. destruct (online !! id) eqn:Eo; [by eexists|]. exfalso.
  rewrite (Hn id) in Hid; [done| |done]. rewrite list_elem_of_fmap. exists (id, k). split; [done|].
  apply (enumerates_in range Hrange), Hsub, Hid.
Qed.

(** The identity service answers no call for a key. *)
Definition identity_out : Prop := ∀ ctx id (w w' : W) r, rpc_GetPublicKey ctx id w = (w', r) → ∃ e, r = Err e.

Lemma key_out ctx id (s s' : Sys W) r :
  identity_out → on_client (GetPeerPublicKey ctx id) s = (s', r) → ∃ e, r = Err e.
Proof.
  intros Hout. unfold on_client, zoom. destruct (GetPeerPublicKey ctx id (client s)) as [c x] eqn:E.
  intros [= _ <-]. unfold GetPeerPublicKey in E. apply wrap_err_inv in E as [(key & E & ->)|(e & _ & ->)]; [|by eexists].
  apply through_run in E as [[_ [e [=]]]|E]. apply Hout in E as [e [=]].
Qed.

Lemma online_peers_out ctx self peers on (s s' : Sys W) online :
  identity_out → online_peers ctx self peers on s = (s', Ok online) → online = on.
Proof.
  intros Hout. revert s. induction peers as [|p rest IH]; intros s; cbn [online_peers]; [by intros [= _ <-]|].
  case_decide; [apply IH|]. intros (s1 & r & E1 & Hk)%handle_inv. apply (key_out _ _ _ _ _ Hout) in E1 as [e ->].
  by eapply IH.
Qed.

(** C19: An outage of the identity service empties the mesh. A round of peer synchronisation takes a peer whose key it
    cannot ask for to be offline: while the identity service answers no such call, and the discovery service goes on
    listing the peers, one round removes every active peer, whether or not it is listed, and adds none. *)
Theorem identity_outage_empties_mesh ctx cidr peers (s s1 s' : Sys W) :
  identity_out → wg_removes (wg_mgr (agent s)) →
  on_client (DiscoverPeers ctx (token (agent s)) 50) s = (s1, Ok peers) →
  syncPeers range ctx cidr s = (s', Ok tt) → peers_of s' = ∅.
Proof.
  intros Hout Hwg E1 E. destruct (sync_keeps_online _ _ _ _ _ _ Hwg E1 E) as (s2 & online & E2 & Hon).
  apply (online_peers_out _ _ _ _ _ _ _ Hout) in E2 as ->. apply map_empty. intros id.
  destruct (peers_of s' !! id) eqn:Ei; [|done]. by destruct (Hon id) as [x [=]].
Qed.

Lemma online_peers_size ctx self peers on (s s' : Sys W) online :
  online_peers ctx self peers on s = (s', Ok online) → (size online ≤ size on + length peers)%nat.
Proof.
  revert on s. induction peers as [|p rest IH]; intros on s; cbn [online_peers]; simpl; [intros [= _ <-]; lia|].
  case_decide; [intros E%IH; lia|]. intros (s1 & r & E1 & Hk)%handle_inv. destruct r as [key|e]; apply IH in Hk; [|lia].
  rewrite map_size_insert in Hk. case_match; simpl in *; lia.
Qed.

(** A listing that is cut at fifty cuts the mesh: however many peers are online and were active, after a round no more than
    fifty are. *)
Theorem mesh_cut_at_limit ctx cidr peers (s s1 s' : Sys W) :
  wg_removes (wg_mgr (agent s)) →
  on_client (DiscoverPeers ctx (token (agent s)) 50) s = (s1, Ok peers) → (length peers ≤ 50)%nat →
  syncPeers range ctx cidr s = (s', Ok tt) → (size (peers_of s') ≤ 50)%nat.
Proof.
  intros Hwg E1 Hlen E. destruct (sync_keeps_online _ _ _ _ _ _ Hwg E1 E) as (s2 & online & E2 & Hon).
  apply online_peers_size in E2. rewrite map_size_empty in E2.
  assert (dom (peers_of s') ⊆ dom online) as Hdom by (intros id; rewrite !elem_of_dom; apply Hon).
  apply subseteq_size in Hdom. rewrite !size_dom in Hdom. lia.
Qed.
End mesh.

(** What the discovery service answers has no more peers than the limit that the agent names. *)
Lemma listing_limited `{Registry.PeerJSON} `{Redis.Redis R} `{Clock R} `{Auth.TokenService A} h ctx req
    (s s' : Discovery.State R A) resp :
  0 < Discovery.lp_Limit req → Discovery.ListPeers h ctx req s = (s', Ok resp) →
  Z.of_nat (length (Discovery.lp_Peers resp)) ≤ Discovery.lp_Limit req.
Proof.
  unfold Discovery.ListPeers. intros Hl Hr. cbv zeta in Hr. case_decide; [done|].
  apply bind_inv_ok in Hr as (s1 & node & _ & Hr). apply bind_inv_ok in Hr as (s2 & ps & _ & Hr).
  injection Hr as _ <-. simpl. unfold Discovery.apply_limit.
  destruct (Z.leb_spec (Discovery.lp_Limit req) 0); [lia|].
  destruct (Z.ltb_spec (Z.of_nat (length (map Discovery.to_proto ps))) (Discovery.lp_Limit req)); simpl; [lia|].
  rewrite length_take. lia.
Qed.

(** ** Witnesses *)

(** The services of AgentLab with the identity service out *)
Definition out_services : Services Lab := {|
  rpc_RegisterNode _ _ := throw out_of_service;
  rpc_GetPublicKey _ _ := throw out_of_service;
  rpc_GetConfig := rpc_GetConfig;
  rpc_RequestIP := rpc_RequestIP;
  rpc_ReleaseIP := rpc_ReleaseIP;
  rpc_RegisterPeer := rpc_RegisterPeer;
  rpc_ListPeers := rpc_ListPeers;
  rpc_Heartbeat := rpc_Heartbeat;
|}.

(** Both peers are online and active. *)
Definition meshed : Sys Lab :=
  lab_sys {[ "gate" := key_of "gate"; "friend" := key_of "friend" ]} 0 [myself; gate; friend].

Definition emptied : Sys Lab * res unit :=
  syncPeers (H2 := out_services) map_to_list Background "10.8.0.0/16" meshed.

Lemma emptied_run : syncPeers (H2 := out_services) map_to_list Background "10.8.0.0/16" meshed = (emptied.1, Ok tt).
Proof. apply run_snd. vm_compute. reflexivity. Qed.

Lemma emptied_listing : on_client (DiscoverPeers (H0 := out_services) Background "token" 50) meshed =
  ((on_client (DiscoverPeers (H0 := out_services) Background "token" 50) meshed).1, Ok [myself; gate; friend]).
Proof. apply run_snd. vm_compute. reflexivity. Qed.

Lemma identity_outage_empties_mesh_witness :
  activePeers (agent meshed) !! "friend" = Some (key_of "friend") ∧ activePeers (agent emptied.1) = ∅.
Proof.
  split; [reflexivity|].
  apply (identity_outage_empties_mesh (H2 := out_services) map_to_list (λ m, reflexivity _) Background "10.8.0.0/16"
    [myself; gate; friend] meshed (on_client (DiscoverPeers (H0 := out_services) Background "token" 50) meshed).1).
  - intros ctx id w w' r [= <- <-]. by eexists.
  - intros k s. by eexists.
  - exact emptied_listing.
  - exact emptied_run.
Defined.
